(* ===== verification/_CoqProject ===== *)
-Q . S2P
Prelude.v
Ring.v
GoStrings.v
Paths.v
Json.v
Base58.v
Netip.v
Endpoints.v
TargetPolicy.v
Sessions.v
AccessConfig.v
Membership.v
Bolt.v
Tickets.v
Issue.v
Samples.v
TicketSpend.v
TicketQuota.v
TicketTypes.v
Threads.v
Lookups.v
TicketThreads.v
TicketRaces.v
Authorize.v
ProxyRequest.v
Certificate.v
TicketService.v
Server.v
Startup.v
Upnp.v
Main.v
Quicvarint.v
DatagramBuffer.v
ReserveProgress.v
RingBuffer.v
DatagramQueue.v
StateTracking.v
Capsule.v
Tunnel.v
MasqueConn.v
Reach.v
ProxyFlows.v
Http3Server.v
Shutdown.v
Frames.v
FrameSplit.v
StreamPool.v
AckFrames.v
Priority.v
ControlStream.v
Headers.v
Requests.v
ResponseWriter.v
Responses.v
Exchange.v
Uploads.v
GoAway.v
