(* ===== verification/Prelude.v ===== *)
(** * Verification of the Qortal MASQUE relay

** The program

The relay forwards UDP for clients that cannot, or do not want to, talk to a peer
directly.  A client opens a QUIC connection to the relay, authorizes it, and sends
HTTP/3 CONNECT-UDP requests; each becomes a tunnel whose packets travel as HTTP
Datagrams.  The parts, under [src/]:

- [cmd/qortal-masque-relay/main.go] reads flags, opens a port mapping, starts the
  server and the announcer, waits, and cleans up;
- [internal/upnp/mapping.go] opens, refreshes and removes the port mapping;
- [internal/relay/server.go] starts and closes the server, keeps its certificate,
  decides which targets are permitted, counts sessions and handles requests;
- [internal/relay/access.go] reads the access configuration, looks up group
  memberships at the Core nodes, admits connections and authorizes requests;
- [internal/relay/tickets.go] is the ticket authority: hourly RSA keys, blind
  signing over a private socket, and redemption, each ticket once;
- [internal/masque/client.go] is the client, pinned to a relay's certificate;
- [third_party/masque-go] and [third_party/quic-go] are forks that carry the data
  path; [internal/datagrambuffer] of the latter is the relay's own receive queue.

** Files, parts and theorems

Shared: [Prelude] (integers, tactics, lists, results), [Ring] (slots of a ring as a
list), [GoStrings] ([strconv], [strings], hex, base64), [Paths] ([filepath], a file
tree), [Json] ([encoding/json], [strictJSON]), [Netip] ([net/netip]), [Endpoints]
(endpoint texts survive printing and parsing), [Base58], [Bolt] (the database
interface), [Samples] (executable parameters for the witnesses).

Access ([access.go]):
- [AccessConfig]: [LoadAccessConfig], [validate], [newAccessPolicy].
  [validate_correct]: exactly the valid configurations, normalised.
- [Membership]: [membership] cut at its locked regions, [checkGroups],
  [checkGroup].  [membership_cache_sound]: one lookup in flight, bounded, fresh;
  [checkGroup_sound]: an answer is one complete response about that address.
  [Lookups]: the goroutines of [checkGroups] as interleaved steps;
  [lookups_complete]: bounded, never stuck, with the right verdict.
- [Authorize]: [connectionContext], [expire], [authorize].  [authorize_sound],
  [expiry_enforced] and [connection_limits].

Tickets ([tickets.go]):
- [Tickets] and [Issue]: [descriptor], [redeem] and [handle] with their
  transactions; [TicketService]: [newTicketAuthority], [serve], [close].
- [TicketSpend]: a ticket is redeemed once, over interleaved transactions
  ([ticket_single_use]) and over whole calls with restarts and clock jumps, unless
  its lifetime ends inside a call ([ticket_redeemed_once]); [redeem_sound].  [TicketQuota]: [issue_sound] and
  [quota_bound].  [Threads]: goroutines as trees of atomic actions over a shared
  state, with a mutex and a clock, and a logic for their pools.  [TicketThreads]:
  the authority's requests in that form; alone, they do what the functions define
  ([solo_refines]).  [TicketRaces]: over every interleaving of any number of them
  a ticket is admitted once ([concurrent_single_use]), the quota holds
  ([concurrent_issuing]) and slots and mutex are given back ([concurrent_state]).
  [TicketTypes]: the database keeps its shape, so the errors for a
  malformed one are unreachable.  [serve_safe]: the socket is private, and nothing
  but a socket that does not answer is ever removed.

Server ([server.go], [main.go], [mapping.go]):
- [TargetPolicy]: the octet tests decide a table of address blocks.  [Sessions]:
  [acquire] and [release] against the multiset of live sessions.  [ProxyRequest]:
  the request a client makes and the parser at the relay.
- [Server]: the CONNECT-UDP handler composed of these, cut where other handlers can
  run ([connect_admit], [connect_dial], [connect_done]), and the relay as a step
  relation over these pieces.  [relay_safe]: in every reachable state open tunnels lead
  to permitted targets and the limits hold; [connect_sound].
- [Certificate]: [loadOrCreateCertificate] over the file tree
  ([certificate_lifecycle]).  [Startup]: [Start] and [Close]: [Start_sound],
  [Start_no_leak] (what a failing start leaves behind), [restart_identity].
- [Shutdown]: [Shutdown], [Close], the flows and the goroutines of the HTTP/3 server
  as interleaved steps: [shutdown_completes] (bounded, and stuck only behind a send the
  transport holds up, or by a panic); and the pressure log.  [Upnp]: [Open_sound].
  [Main]: the program with its endings (exit, signal, panic, hang); [main_cleans_up],
  [announcer_consistent].

Data path:
- [Quicvarint], [Frames], [FrameSplit], [AckFrames], [Capsule]: codecs and their
  round trips; [wire_roundtrip] covers every frame.  [StreamPool]: the pool of STREAM
  frames over a store of shared buffers; no aliasing, and splitting in place refines
  [FrameSplit].
- [ControlStream]: HTTP/3 frames, SETTINGS and the unidirectional streams of a peer
  ([http3/frames.go], [conn.go]); [control_streams_agree]: any bytes are handled
  without a panic, and each end learns the settings of the other;
  [relay_negotiates].  [Priority]: [parsePriority] against a reference.
- [Headers]: the field lists of [http3/headers.go] and [request_writer.go], with
  the exact set of lists a request may have.  [Requests]: request streams at both
  ends; [served_request]: what a request the relay acts on had on the wire, for any
  bytes; [request_arrives]: a client's request is the one the relay parses.
  [Uploads]: the bodies of requests; [upload_arrives]: which arrive, and that the
  others are reset.
- [ResponseWriter]: [response_writer.go] and the end of a request, as a refinement of
  what a handler's calls mean.  [Responses]: the client's side, [stream.go] and
  [body.go]; [response_arrives]: the status, headers and body a client reads are the
  handler's; [body_safe]: what a body can do to its reader, for any bytes;
  [stream_carries]: the bytes of an open stream.
- [Exchange]: the calls the relay's handler makes on its writer, and a whole
  CONNECT-UDP exchange as bytes; [connect_over_wire]: the client gets the answer the
  relay decided for the request it meant; [relay_reachable]: with the metadata a relay
  announced [Open] gives a client what the relay's handler decided for the endpoint it
  asked for; [tunnel_header_lost]: a header that is set too late.
- [Http3Server]: the goroutines of [http3/server.go] from [Serve] to [Close];
  [server_closes]: closing ends; [close_waits]: it waits for all connections unless
  one slips through, and two traces in which one does.  [GoAway]: the accept loop of a
  connection and the client's reaction to its GOAWAY ([goaway_exact]).
- [DatagramBuffer]: receive queues against the process-wide budget
  ([budget_invariant], [queue_order]); [Reserve] there is the compare-and-swap loop
  as interleaved steps, [ReserveProgress] shows it lock-free.  [RingBuffer] refines
  a list.  [DatagramQueue], [StateTracking], [ProxyFlows]: the critical sections of
  [datagram_queue.go], [state_tracking_stream.go] and [proxy.go] as steps, with
  invariants over every interleaving.  [Tunnel]: what is forwarded, against a reading of
  datagrams as RFC 9298 has them.
- [MasqueConn]: read deadlines, dialling and the pinned [Open].  [Reach]: a client's
  certificate check accepts the relay it was told of, and the relay understands its
  request.

** How the code is represented

A Go struct is a record; state is passed explicitly; errors are values of [result]
or of an inductive type with one constructor per return; a panic is [None] or its
own constructor.  A [w]-bit integer is a [Z] with the wrap-around written out where
it can happen; times and durations are nanoseconds.  A region under a mutex is one
step, because nothing else can run inside it; where the code unlocks in between,
the model is cut there.  Goroutines are program counters in a step relation or a
list of operations in any order.  Definitions are executable, and each theorem with
hypotheses has a lemma, next to it, that applies it to a concrete input.

Code outside the repository is a parameter: bbolt ([Bucket], laws [BucketOk]; which
keys a cursor visits while it deletes is a parameter too, and the one theorem that needs
it to miss none says so, [CursorExact]), hash
functions ([Hashes]), RSA, blind signatures and Ed25519 ([Crypto]), X.509 and ECDSA
([X509], laws [X509Ok]), URI templates ([Template], [template_law]), QPACK ([Qpack],
[QpackOk]), header syntax ([Httpguts], [HttpgutsOk]), URLs ([UrlLib]), the order of
loops over a map and the texts of dates and media types ([ResponseEnv],
[ResponseEnvOk]), UPnP gateways,
[url.Parse], the clock, randomness, and the outcome of every system call, which
therefore may fail in any way.

** Bounds and fuel

Recursion that is not structural takes fuel that is proved or seen to be enough:
the decimal and base-58 digits of [n] take [log2 n + 1] steps; the JSON parsers take
twice the length of the text, as two nested calls consume a byte, and [walk] two
steps for a token ([walk_spec]); [expire_loop] the number of
entries, [ParseType_loop], [skip_loop], [parse_next], [settings_loop],
[priority_loop] and [CopyBuffer] the bytes that are left, with theorems that they end; eight groups make an IPv6 address; a 32-bit group ID has at most five
base-128 digits.  The limits in the statements (8, 32 and 512 sessions and
connections, 24 tickets, 256 challenges, 316 bytes, 32 MiB) are the code's.

** What is not modelled

Packets, loss recovery, congestion control and TLS, and of HTTP/3 the pool of client
connections, gzip decoding and the Alt-Svc header, in quic-go (upstream code, whose
results are inputs here), the masque-go example programs, the Python announcer behind
[main.go], tests, and log texts apart from the metadata line and the pressure
report.  Wall-clock duration is not modelled: liveness is a bound on the steps of
the program together with the absence of stuck states, so it holds under a fair
scheduler. *)

From stdpp Require Import base gmap strings list numbers.
From Stdlib Require Import ZArith Lia.

Local Open Scope Z_scope.

#[global] Arguments Z.div : simpl never.
#[global] Arguments Z.modulo : simpl never.

(** ** Machine integers

Go's fixed-width integers are kept in [Z]; the wrap-around of each width is
written out.  [int] and [int64] are 64-bit two's complement. *)

Definition u8 (z : Z) : Z := z mod 2 ^ 8.
Definition u16 (z : Z) : Z := z mod 2 ^ 16.
Definition u32 (z : Z) : Z := z mod 2 ^ 32.
Definition u64 (z : Z) : Z := z mod 2 ^ 64.
Definition i64 (z : Z) : Z := (z + 2 ^ 63) mod 2 ^ 64 - 2 ^ 63.

(** [x << n] and [x >> n] at type uint64. *)
Definition shl64 (x n : Z) : Z := u64 (Z.shiftl x n).
Definition shr64 (x n : Z) : Z := Z.shiftr x n.

Definition is_byte (b : Z) : Prop := 0 <= b < 256.
Definition is_bytes (bs : list Z) : Prop := Forall is_byte bs.
Definition is_u64 (z : Z) : Prop := 0 <= z < 2 ^ 64.

(** [time.Second]: durations and times are nanoseconds. *)
Definition Second : Z := 1000000000.

(** Length of a Go slice, as the [int] the code computes with. *)
Definition len {A} (l : list A) : Z := Z.of_nat (length l).

(** ** Errors as values *)

Inductive result (E A : Type) : Type :=
| Ok (a : A)
| Err (e : E).
Arguments Ok {E A} a.
Arguments Err {E A} e.

Definition result_bind {E A B} (m : result E A) (f : A -> result E B) : result E B :=
  match m with
  | Ok a => f a
  | Err e => Err e
  end.

Definition is_ok {E A} (m : result E A) : bool :=
  match m with Ok _ => true | Err _ => false end.

Declare Scope go_scope.
Delimit Scope go_scope with go.
Notation "'let?' x := m 'in' k" := (result_bind m (fun x => k))
  (at level 10, x pattern, m at level 100, k at level 200) : go_scope.
Open Scope go_scope.

(** ** Tactics *)

(** Reflect the boolean comparisons of the code into propositions. *)
Ltac breflect :=
  repeat match goal with
  | H : _ && _ = true |- _ => apply andb_true_iff in H as [? ?]
  | H : _ || _ = false |- _ => apply orb_false_iff in H as [? ?]
  | H : _ || _ = true |- _ => apply orb_true_iff in H
  | H : _ && _ = false |- _ => apply andb_false_iff in H
  | H : negb ?a = true |- _ => apply negb_true_iff in H
  | H : negb ?a = false |- _ => apply negb_false_iff in H
  | H : (_ <=? _) = true |- _ => apply Z.leb_le in H
  | H : (_ <=? _) = false |- _ => apply Z.leb_gt in H
  | H : (_ <? _) = true |- _ => apply Z.ltb_lt in H
  | H : (_ <? _) = false |- _ => apply Z.ltb_ge in H
  | H : (_ >=? _) = _ |- _ => rewrite Z.geb_leb in H
  | H : (_ >? _) = _ |- _ => rewrite Z.gtb_ltb in H
  | H : (_ =? _) = true |- _ => apply Z.eqb_eq in H
  | H : (_ =? _) = false |- _ => apply Z.eqb_neq in H
  end.

(** Split the first conditional or match of the goal, remembering the case. *)
Ltac split_if :=
  match goal with
  | |- context [if ?b then _ else _] => destruct b eqn:?
  end.
Ltac split_if_in H :=
  match type of H with
  | context [if ?b then _ else _] => destruct b eqn:?
  end.
Ltac split_ifs := repeat (split_if; breflect); try done; try lia.

(** Linear arithmetic with division and remainder by constants. *)
Ltac dlia := Z.to_euclidean_division_equations; lia.

Create HintDb relay.
Create Rewrite HintDb relay.

(** ** Integers *)

Lemma u64_small z : is_u64 z -> u64 z = z.
Proof. apply Z.mod_small. Qed.

Lemma u8_range z : is_byte (u8 z).
Proof. apply Z.mod_pos_bound. lia. Qed.

Lemma u8_small z : is_byte z -> u8 z = z.
Proof. apply Z.mod_small. Qed.

Lemma u8_shiftr z n : 0 <= n -> u8 (Z.shiftr z n) = (z / 2 ^ n) mod 256.
Proof. intros. unfold u8. by rewrite Z.shiftr_div_pow2. Qed.

(** Shifting past a block of low bits and or-ing them in is addition. *)
Lemma lor_shiftl_add a b n : 0 <= n -> 0 <= b < 2 ^ n ->
  Z.lor b (Z.shiftl a n) = b + a * 2 ^ n.
Proof.
  intros Hn Hb. rewrite Z.shiftl_mul_pow2 by done.
  assert (Z.land b (a * 2 ^ n) = 0) as Hz.
  { rewrite <- Z.shiftl_mul_pow2 by done. apply Z.bits_inj'. intros i Hi.
    rewrite Z.land_spec, Z.bits_0. destruct (decide (i < n)) as [|].
    - rewrite Z.shiftl_spec_low by done. apply andb_false_r.
    - destruct (decide (b = 0)) as [->|]; [by rewrite Z.bits_0|].
      assert (Z.log2 b < n) by (apply Z.log2_lt_pow2; lia).
      by rewrite Z.bits_above_log2 by lia. }
  by rewrite Z.add_nocarry_lor.
Qed.

Lemma lor_add_disjoint a b n k : 0 <= n -> 0 <= b < 2 ^ n -> a = k * 2 ^ n ->
  Z.lor b a = b + a.
Proof.
  intros Hn Hb ->. rewrite <- (lor_shiftl_add k b n) by done.
  by rewrite Z.shiftl_mul_pow2.
Qed.

Lemma land_ones_mod a n : 0 <= n -> Z.land a (2 ^ n - 1) = a mod 2 ^ n.
Proof.
  intros. rewrite <- Z.land_ones by done. f_equal. rewrite Z.ones_equiv. lia.
Qed.

(** ** Lists *)

Lemma len_nonneg {A} (l : list A) : 0 <= len l.
Proof. unfold len. lia. Qed.

Lemma len_app {A} (l k : list A) : len (l ++ k) = len l + len k.
Proof. unfold len. rewrite length_app. lia. Qed.

Lemma len_cons {A} (x : A) l : len (x :: l) = 1 + len l.
Proof. unfold len. cbn [length]. lia. Qed.

Lemma len_nil {A} : len (@nil A) = 0.
Proof. done. Qed.

#[export] Hint Rewrite @len_app @len_cons @len_nil : relay.
#[export] Hint Resolve len_nonneg u8_range : relay.

(** ** Big-endian byte strings *)

(** The value of a byte string read most significant byte first. *)
Fixpoint be_value (bs : list Z) : Z :=
  match bs with
  | [] => 0
  | b :: bs => b * 256 ^ len bs + be_value bs
  end.

(** The [n] least significant bytes of [x], most significant first. *)
Fixpoint be_bytes (n : nat) (x : Z) : list Z :=
  match n with
  | O => []
  | S n => (x / 256 ^ Z.of_nat n) mod 256 :: be_bytes n x
  end.

Lemma length_be_bytes n x : length (be_bytes n x) = n.
Proof. induction n; cbn; congruence. Qed.

Lemma len_be_bytes n x : len (be_bytes n x) = Z.of_nat n.
Proof. unfold len. by rewrite length_be_bytes. Qed.

Lemma be_bytes_is_bytes n x : is_bytes (be_bytes n x).
Proof. induction n; constructor; [apply Z.mod_pos_bound; lia|done]. Qed.

Lemma pow256_pos n : 0 <= n -> 0 < 256 ^ n.
Proof. intros. apply Z.pow_pos_nonneg; lia. Qed.

Lemma be_value_range bs : is_bytes bs -> 0 <= be_value bs < 256 ^ len bs.
Proof.
  induction 1 as [|b bs Hb _ IH]; [done|]. cbn [be_value].
  unfold is_byte in Hb. replace (len (b :: bs)) with (len bs + 1) by (unfold len; cbn; lia).
  rewrite Z.pow_add_r by (auto using len_nonneg; lia). nia.
Qed.

Lemma be_value_be_bytes n x : be_value (be_bytes n x) = x mod 256 ^ Z.of_nat n.
Proof.
  induction n as [|n IH]; [cbn; by rewrite Z.mod_1_r|].
  cbn [be_bytes be_value]. rewrite len_be_bytes, IH.
  rewrite Nat2Z.inj_succ, Z.pow_succ_r, (Z.mul_comm 256) by lia.
  pose proof (pow256_pos (Z.of_nat n) ltac:(lia)).
  rewrite Z.rem_mul_r by lia. lia.
Qed.

Lemma be_bytes_be_value bs : is_bytes bs -> be_bytes (length bs) (be_value bs) = bs.
Proof.
  cut (forall k, is_bytes bs -> be_bytes (length bs) (be_value bs + k * 256 ^ len bs) = bs).
  { intros H Hb. specialize (H 0 Hb). by rewrite Z.mul_0_l, Z.add_0_r in H. }
  induction bs as [|b bs IH]; intros k Hall; [done|].
  inversion Hall as [|?? Hb Hbs]; subst. unfold is_byte in Hb.
  pose proof (be_value_range bs Hbs) as Hr.
  pose proof (pow256_pos (len bs) (len_nonneg bs)) as Hp.
  assert (be_value (b :: bs) + k * 256 ^ len (b :: bs)
          = be_value bs + (b + k * 256) * 256 ^ len bs) as ->.
  { cbn [be_value]. replace (len (b :: bs)) with (len bs + 1) by (unfold len; cbn; lia).
    rewrite Z.pow_add_r by (auto using len_nonneg; lia). ring. }
  cbn [be_bytes length]. fold (len bs). f_equal; [|by apply IH].
  rewrite Z.div_add, Z.div_small, Z.add_0_l by lia.
  rewrite Z.mod_add by lia. by apply Z.mod_small.
Qed.

(** Bits above the encoded width do not matter. *)
Lemma be_bytes_add n x k : be_bytes n (x + k * 256 ^ Z.of_nat n) = be_bytes n x.
Proof.
  revert x k. induction n as [|n IH]; intros x k; [done|]. cbn [be_bytes].
  rewrite Nat2Z.inj_succ, Z.pow_succ_r by lia. rewrite Z.mul_assoc.
  pose proof (pow256_pos (Z.of_nat n) ltac:(lia)).
  rewrite Z.div_add, Z.mod_add by lia. f_equal. apply IH.
Qed.

(** ** Results *)

Lemma result_bind_ok {E A B} (m : result E A) (f : A -> result E B) b :
  result_bind m f = Ok b <-> exists a, m = Ok a /\ f a = Ok b.
Proof.
  split; [destruct m; cbn; [eauto|done]|]. by intros (a & -> & ?).
Qed.
