(* ===== verification/Ring.v ===== *)
(** * Ring buffers: the list a backing array represents

Shared by the two ring buffers of the code, the receive queue
([datagrambuffer.Queue]) and the generic [ringbuffer.RingBuffer]: slice
indexing that panics out of range, and the list formed by [count] consecutive
slots from [head], wrapping at the end of the array. *)

From stdpp Require Import base list numbers.
From Stdlib Require Import ZArith Lia.
From S2P Require Import Prelude.

Local Open Scope Z_scope.

(** [l[i]], which panics out of range, and [l[i] = x]. *)
Definition index {A} (l : list A) (i : Z) : option A :=
  if (0 <=? i) && (i <? len l) then l !! Z.to_nat i else None.
Definition assign {A} (l : list A) (i : Z) (x : A) : option (list A) :=
  if (0 <=? i) && (i <? len l) then Some (<[Z.to_nat i := x]> l) else None.
(** [a % n]; a zero divisor panics. *)
Definition go_mod (a n : Z) : option Z := if n =? 0 then None else Some (Z.rem a n).

Definition ring_list {A} (d : A) (items : list A) (head count : Z) : list A :=
  map (fun i => nth (Z.to_nat ((head + Z.of_nat i) mod len items)) items d)
      (seq 0 (Z.to_nat count)).

Section Indexing.
Context {A : Type}.
Implicit Types (l : list A) (x d : A).

Lemma index_nth l i d : 0 <= i < len l -> index l i = Some (nth (Z.to_nat i) l d).
Proof.
  intros Hi. unfold index. rewrite (proj2 (Z.leb_le _ _)), (proj2 (Z.ltb_lt _ _)) by lia. cbn.
  unfold len in Hi. destruct (lookup_lt_is_Some_2 l (Z.to_nat i) ltac:(lia)) as [x Hx].
  rewrite Hx. by rewrite nth_lookup, Hx.
Qed.

Lemma assign_insert l i x : 0 <= i < len l -> assign l i x = Some (<[Z.to_nat i := x]> l).
Proof.
  intros Hi. unfold assign. by rewrite (proj2 (Z.leb_le _ _)), (proj2 (Z.ltb_lt _ _)) by lia.
Qed.

Lemma len_insert l i x : len (<[i := x]> l) = len l.
Proof. unfold len. by rewrite length_insert. Qed.

Lemma nth_insert_ne l i j x d : i <> j -> nth j (<[i := x]> l) d = nth j l d.
Proof. intros. rewrite !nth_lookup. by rewrite list_lookup_insert_ne. Qed.

Lemma nth_insert_eq l i x d : (i < length l)%nat -> nth i (<[i := x]> l) d = x.
Proof. intros. rewrite nth_lookup. by rewrite list_lookup_insert_eq. Qed.

End Indexing.

Lemma go_mod_mod a n : 0 <= a -> 0 < n -> go_mod a n = Some (a mod n).
Proof.
  intros. unfold go_mod. rewrite (proj2 (Z.eqb_neq _ _)) by lia.
  by rewrite Z.rem_mod_nonneg by lia.
Qed.

Lemma ring_mod_eq a L : 0 < L -> 0 <= a < 2 * L -> a mod L = if a <? L then a else a - L.
Proof.
  intros HL Ha. destruct (a <? L) eqn:E; breflect; [apply Z.mod_small; lia|].
  replace a with (a - L + 1 * L) at 1 by lia. rewrite Z.mod_add by lia. apply Z.mod_small. lia.
Qed.

(** Positions of the ring that differ by less than a turn are distinct. *)
Lemma ring_mod_inj h i j L : 0 < L -> 0 <= h < L -> 0 <= i < L -> 0 <= j < L -> i <> j ->
  (h + i) mod L <> (h + j) mod L.
Proof.
  intros HL Hh Hi Hj Hne. rewrite !ring_mod_eq by lia.
  destruct (h + i <? L) eqn:?, (h + j <? L) eqn:?; breflect; lia.
Qed.

Lemma ring_mod_range h L : 0 < L -> 0 <= h mod L < L.
Proof. intros. by apply Z.mod_pos_bound. Qed.

Section RingList.
Context {A : Type} (d : A).
Implicit Types (items : list A) (x : A) (head count : Z).

Lemma length_ring_list items head count : length (ring_list d items head count) = Z.to_nat count.
Proof. unfold ring_list. by rewrite length_map, length_seq. Qed.

Lemma len_ring_list items head count : 0 <= count -> len (ring_list d items head count) = count.
Proof. intros. unfold len. rewrite length_ring_list. lia. Qed.

Lemma ring_list_nil items head count : count <= 0 -> ring_list d items head count = [].
Proof. intros. unfold ring_list. by replace (Z.to_nat count) with 0%nat by lia. Qed.

Lemma ring_list_lookup items head count k : Z.of_nat k < count ->
  ring_list d items head count !! k =
  Some (nth (Z.to_nat ((head + Z.of_nat k) mod len items)) items d).
Proof.
  intros Hk. apply (list_lookup_fmap_Some_2
    (fun i => nth (Z.to_nat ((head + Z.of_nat i) mod len items)) items d)
    (seq 0 (Z.to_nat count)) k k).
  apply lookup_seq. lia.
Qed.

(** Taking the first element: the remaining positions are one further on, and
clearing the freed slot does not disturb them. *)
Lemma ring_list_pop items head count x :
  0 < count <= len items -> 0 <= head < len items ->
  ring_list d items head count =
  nth (Z.to_nat head) items d ::
  ring_list d (<[Z.to_nat head := x]> items) ((head + 1) mod len items) (count - 1).
Proof.
  intros Hc Hh. unfold ring_list at 1.
  replace (Z.to_nat count) with (S (Z.to_nat (count - 1))) by lia.
  cbn [seq map]. rewrite Z.add_0_r, (Z.mod_small head) by lia. f_equal.
  rewrite <- seq_shift, map_map. apply map_ext_in. intros i Hi. apply in_seq in Hi.
  set (L := len items) in *. rewrite len_insert, Zplus_mod_idemp_l. fold L.
  replace (head + Z.of_nat (S i)) with (head + (1 + Z.of_nat i)) by lia.
  rewrite <- Z.add_assoc.
  pose proof (ring_mod_inj head (1 + Z.of_nat i) 0 L) as Hne.
  rewrite Z.add_0_r, (Z.mod_small head) in Hne by lia.
  pose proof (ring_mod_range (head + (1 + Z.of_nat i)) L).
  rewrite nth_insert_ne by lia. done.
Qed.

(** Writing the first free slot appends. *)
Lemma ring_list_push items head count x :
  0 <= count < len items -> 0 <= head < len items ->
  ring_list d (<[Z.to_nat ((head + count) mod len items) := x]> items) head (count + 1) =
  ring_list d items head count ++ [x].
Proof.
  intros Hc Hh. unfold ring_list.
  replace (Z.to_nat (count + 1)) with (S (Z.to_nat count)) by lia.
  rewrite seq_S, map_app. cbn [map Nat.add]. rewrite len_insert, Z2Nat.id by lia.
  pose proof (ring_mod_range (head + count) (len items) ltac:(lia)) as Hs. f_equal.
  - apply map_ext_in. intros i Hi. apply in_seq in Hi.
    pose proof (ring_mod_inj head (Z.of_nat i) count (len items)).
    pose proof (ring_mod_range (head + Z.of_nat i) (len items)).
    rewrite nth_insert_ne by lia. done.
  - rewrite nth_insert_eq by (unfold len in *; lia). done.
Qed.

(** With the head at slot 0 and no wrap, the ring is the list. *)
Lemma ring_list_head0 items n : (n <= length items)%nat ->
  ring_list d items 0 (Z.of_nat n) = take n items.
Proof.
  intros Hn. apply list_eq. intros k. destruct (decide (k < n)%nat).
  - rewrite ring_list_lookup by lia. rewrite lookup_take_lt by done.
    rewrite Z.add_0_l, Z.mod_small, Nat2Z.id by (unfold len; lia).
    destruct (lookup_lt_is_Some_2 items k ltac:(lia)) as [x Hx]. rewrite Hx. f_equal.
    by rewrite nth_lookup, Hx.
  - rewrite lookup_take_ge by lia. apply lookup_ge_None. rewrite length_ring_list. lia.
Qed.

(** A full ring read from its head is its two halves, swapped. *)
Lemma ring_list_full items head : 0 <= head < len items ->
  ring_list d items head (len items) = drop (Z.to_nat head) items ++ take (Z.to_nat head) items.
Proof.
  intros Hh. unfold len in Hh. apply list_eq. intros k. destruct (decide (k < length items)%nat).
  - rewrite ring_list_lookup by (unfold len; lia). rewrite ring_mod_eq by (unfold len; lia).
    rewrite nth_lookup. split_if; breflect; unfold len in *.
    + rewrite lookup_app_l by (rewrite length_drop; lia). rewrite lookup_drop.
      destruct (lookup_lt_is_Some_2 items (Z.to_nat head + k) ltac:(lia)) as [x Hx].
      replace (Z.to_nat (head + Z.of_nat k)) with (Z.to_nat head + k)%nat by lia. by rewrite Hx.
    + rewrite lookup_app_r by (rewrite length_drop; lia). rewrite length_drop.
      rewrite lookup_take_lt by lia.
      replace (Z.to_nat (head + Z.of_nat k - Z.of_nat (length items)))
        with (k - (length items - Z.to_nat head))%nat by lia.
      destruct (lookup_lt_is_Some_2 items (k - (length items - Z.to_nat head)) ltac:(lia)) as [x Hx].
      by rewrite Hx.
  - rewrite !lookup_ge_None_2; [done|rewrite length_app, length_drop, length_take; lia|].
    rewrite length_ring_list. unfold len. lia.
Qed.

End RingList.
