(* ===== verification/GoStrings.v ===== *)
(** * Go strings and their standard-library functions

A Go string or byte slice is a list of bytes.  This file models what the relay
uses of [strconv], [strings], [encoding/hex] and [encoding/base64]: decimal
formatting and parsing, splitting and trimming, and the two text encodings, with
the round trips the other components rely on. *)

From stdpp Require Import base list numbers.
From Stdlib Require Import ZArith Lia String Ascii.
From S2P Require Import Prelude.

Local Open Scope Z_scope.

Abbreviation gostring := (list Z).

(** A string literal of the source. *)
Definition str (s : string) : gostring :=
  map (fun c => Z.of_nat (nat_of_ascii c)) (list_ascii_of_string s).

(** The same for JSON text, written with single quotes. *)
Definition qstr (s : string) : gostring := map (fun c => if c =? 39 then 34 else c) (str s).

(** ** strings *)

(** [a == b] *)
Definition same (a b : gostring) : bool := bool_decide (a = b).
Lemma same_spec a b : reflect (a = b) (same a b).
Proof. apply bool_decide_reflect. Qed.

Definition is_digit (c : Z) : bool := (48 <=? c) && (c <=? 57).

(** Position of the first, and of the last, occurrence of a byte; -1 if none. *)
Fixpoint IndexByte_from (i : Z) (s : gostring) (c : Z) : Z :=
  match s with
  | [] => -1
  | x :: s => if x =? c then i else IndexByte_from (i + 1) s c
  end.
Definition IndexByte (s : gostring) (c : Z) : Z := IndexByte_from 0 s c.
Fixpoint LastIndexByte_from (i best : Z) (s : gostring) (c : Z) : Z :=
  match s with
  | [] => best
  | x :: s => LastIndexByte_from (i + 1) (if x =? c then i else best) s c
  end.
Definition LastIndexByte (s : gostring) (c : Z) : Z := LastIndexByte_from 0 (-1) s c.

Definition contains_byte (s : gostring) (c : Z) : bool := existsb (fun x => x =? c) s.

Fixpoint HasPrefix (s p : gostring) : bool :=
  match p, s with
  | [], _ => true
  | _ :: _, [] => false
  | y :: p, x :: s => (x =? y) && HasPrefix s p
  end.

(** [strings.Split(s, sep)] for a one-byte separator. *)
Fixpoint Split (s : gostring) (sep : Z) : list gostring :=
  match s with
  | [] => [[]]
  | x :: s =>
    if x =? sep then [] :: Split s sep
    else match Split s sep with
         | [] => [[x]]
         | w :: ws => (x :: w) :: ws
         end
  end.

Fixpoint drop_while {A} (p : A -> bool) (s : list A) : list A :=
  match s with
  | [] => []
  | x :: s' => if p x then drop_while p s' else s
  end.
Definition drop_while_right {A} (p : A -> bool) (s : list A) : list A := rev (drop_while p (rev s)).

(** [strings.TrimRight(s, cut)] for a one-byte cutset. *)
Definition TrimRight (s : gostring) (c : Z) : gostring := drop_while_right (fun x => x =? c) s.
(** White space as [unicode.IsSpace] has it, in UTF-8. *)
Definition space_chars : list (list Z) :=
  ([[9]; [10]; [11]; [12]; [13]; [32]; [0xC2; 0x85]; [0xC2; 0xA0]; [0xE1; 0x9A; 0x80]]
   ++ map (fun k => [0xE2; 0x80; 0x80 + Z.of_nat k]) (seq 0 11)
   ++ [[0xE2; 0x80; 0xA8]; [0xE2; 0x80; 0xA9]; [0xE2; 0x80; 0xAF]; [0xE2; 0x81; 0x9F]; [0xE3; 0x80; 0x80]])%list.

(** Removes characters of [cs] from the front; every one has a byte at least. *)
Fixpoint trim_front (fuel : nat) (cs : list (list Z)) (s : gostring) : gostring :=
  match fuel with
  | O => s
  | S fuel =>
    match find (HasPrefix s) cs with
    | Some c => trim_front fuel cs (drop (List.length c) s)
    | None => s
    end
  end.
(** [strings.TrimSpace]. *)
Definition TrimSpace (s : gostring) : gostring :=
  let s := trim_front (List.length s) space_chars s in
  rev (trim_front (List.length s) (map (@rev Z) space_chars) (rev s)).

Fixpoint Join (l : list gostring) (sep : gostring) : gostring :=
  match l with
  | [] => []
  | [x] => x
  | x :: l => x ++ sep ++ Join l sep
  end.

(** ** strconv *)

(** Decimal digits of [n], least significant first, with [fuel] steps. *)
Fixpoint digits_rev (fuel : nat) (n : Z) : list Z :=
  match fuel with
  | O => []
  | S fuel => if n <? 10 then [48 + n] else (48 + n mod 10) :: digits_rev fuel (n / 10)
  end.
(** [strconv.FormatInt(n, 10)]; [log2 n + 1] steps are enough, a decimal digit
taking more than one bit. *)
Definition FormatUint (n : Z) : gostring := rev (digits_rev (S (Z.to_nat (Z.log2 n))) n).
Definition FormatInt (n : Z) : gostring := if n <? 0 then 45 :: FormatUint (- n) else FormatUint n.

(** [fmt.Sprintf("%012d", n)] *)
Definition pad12 (n : Z) : gostring :=
  let s := FormatUint (Z.abs n) in
  if n <? 0 then 45 :: replicate (11 - List.length s) 48 ++ s
  else replicate (12 - List.length s) 48 ++ s.

Fixpoint digits_value (acc : Z) (s : gostring) : option Z :=
  match s with
  | [] => Some acc
  | c :: s => if is_digit c then digits_value (acc * 10 + (c - 48)) s else None
  end.
Definition parse_digits (s : gostring) : option Z :=
  match s with [] => None | _ => digits_value 0 s end.

(** [strconv.ParseInt(s, 10, 64)], which also accepts a sign; the value on a
range error is not used by the callers modelled here. *)
Definition ParseInt64 (s : gostring) : option Z :=
  let in_range v := if (- 2 ^ 63 <=? v) && (v <? 2 ^ 63) then Some v else None in
  match s with
  | 45 :: r => v ← parse_digits r; in_range (- v)
  | 43 :: r => v ← parse_digits r; in_range v
  | _ => v ← parse_digits s; in_range v
  end.

(** [strconv.ParseUint(s, 10, bits)]: digits only, no sign. *)
Definition ParseUint (bits : Z) (s : gostring) : option Z :=
  v ← parse_digits s; if v <? 2 ^ bits then Some v else None.

(** ** encoding/hex *)

Definition hex_digit (n : Z) : Z := if n <? 10 then 48 + n else 97 + (n - 10).
Fixpoint hex_EncodeToString (bs : list Z) : gostring :=
  match bs with
  | [] => []
  | b :: bs => hex_digit (b / 16) :: hex_digit (b mod 16) :: hex_EncodeToString bs
  end.

Definition hex_value (c : Z) : option Z :=
  if is_digit c then Some (c - 48)
  else if (97 <=? c) && (c <=? 102) then Some (c - 97 + 10)
  else if (65 <=? c) && (c <=? 70) then Some (c - 65 + 10)
  else None.
Fixpoint hex_DecodeString (s : gostring) : option (list Z) :=
  match s with
  | [] => Some []
  | a :: b :: s =>
    x ← hex_value a; y ← hex_value b; r ← hex_DecodeString s; Some (x * 16 + y :: r)
  | [_] => None
  end.

(** ** encoding/base64, StdEncoding *)

Definition base64_alphabet : gostring :=
  str "ABCDEFGHIJKLMNOPQRSTUVWXYZabcdefghijklmnopqrstuvwxyz0123456789+/".
Definition base64_char (n : Z) : Z := nth (Z.to_nat n) base64_alphabet 0.
Definition base64_value (c : Z) : option Z :=
  let i := IndexByte base64_alphabet c in if i <? 0 then None else Some i.

Fixpoint base64_EncodeToString (bs : list Z) : gostring :=
  match bs with
  | [] => []
  | [a] => [base64_char (a / 4); base64_char (a mod 4 * 16); 61; 61]
  | [a; b] => [base64_char (a / 4); base64_char (a mod 4 * 16 + b / 16); base64_char (b mod 16 * 4); 61]
  | a :: b :: c :: bs =>
    base64_char (a / 4) :: base64_char (a mod 4 * 16 + b / 16)
    :: base64_char (b mod 16 * 4 + c / 64) :: base64_char (c mod 64) :: base64_EncodeToString bs
  end.

(** Quanta of four characters; padding only in the last one. *)
Fixpoint base64_decode_quanta (s : gostring) : option (list Z) :=
  match s with
  | [] => Some []
  | a :: b :: c :: d :: r =>
    x ← base64_value a; y ← base64_value b;
    match r with
    | [] =>
      if c =? 61 then (if d =? 61 then Some [(x * 4 + y / 16)] else None)
      else z ← base64_value c;
           if d =? 61 then Some [x * 4 + y / 16; y mod 16 * 16 + z / 4]
           else w ← base64_value d;
                Some [x * 4 + y / 16; y mod 16 * 16 + z / 4; z mod 4 * 64 + w]
    | _ =>
      z ← base64_value c; w ← base64_value d; rest ← base64_decode_quanta r;
      Some (x * 4 + y / 16 :: y mod 16 * 16 + z / 4 :: z mod 4 * 64 + w :: rest)
    end
  | _ => None
  end.
(** The decoder skips carriage returns and newlines. *)
Definition base64_DecodeString (s : gostring) : option (list Z) :=
  base64_decode_quanta (List.filter (fun c => negb ((c =? 13) || (c =? 10))) s).

(** ** Decimal numbers *)

Lemma digits_value_app acc s t :
  digits_value acc (s ++ t) = digits_value acc s ≫= fun a => digits_value a t.
Proof. revert acc. induction s as [|c s IH]; intros; cbn; [done|]. destruct (is_digit c); auto. Qed.

Lemma is_digit_48 d : 0 <= d < 10 -> is_digit (48 + d) = true.
Proof. intros. unfold is_digit. apply andb_true_iff. split; lia. Qed.

Lemma digits_rev_digits fuel n : 0 <= n -> Forall (fun c => is_digit c = true) (digits_rev fuel n).
Proof.
  revert n. induction fuel as [|fuel IH]; intros n Hn; cbn; [constructor|].
  split_if; breflect; repeat constructor; try apply is_digit_48; try apply IH; dlia.
Qed.

Lemma digits_rev_value fuel n : 0 <= n < 2 ^ Z.of_nat fuel ->
  digits_value 0 (rev (digits_rev fuel n)) = Some n.
Proof.
  revert n. induction fuel as [|fuel IH]; intros n Hn.
  { change (2 ^ Z.of_nat 0) with 1 in Hn. assert (n = 0) as -> by lia. done. }
  cbn. rewrite Nat2Z.inj_succ, Z.pow_succ_r in Hn by lia. split_if; breflect; cbn.
  - rewrite is_digit_48 by lia. f_equal. lia.
  - rewrite digits_value_app, IH by dlia. cbn.
    rewrite is_digit_48 by dlia. f_equal. dlia.
Qed.

Lemma log2_bound n : 0 <= n -> n < 2 ^ Z.of_nat (S (Z.to_nat (Z.log2 n))).
Proof.
  intros. rewrite Nat2Z.inj_succ, Z2Nat.id by apply Z.log2_nonneg.
  destruct (decide (n = 0)) as [->|]; [done|]. apply Z.log2_spec. lia.
Qed.

Lemma FormatUint_nonempty n : FormatUint n <> [].
Proof.
  unfold FormatUint. cbn [digits_rev]. split_if; cbn; [done|]. intros H. by apply app_eq_nil in H as [_ ?].
Qed.

Lemma FormatUint_digits n : 0 <= n -> Forall (fun c => is_digit c = true) (FormatUint n).
Proof. intros. apply Forall_rev, digits_rev_digits. done. Qed.

Lemma parse_FormatUint n : 0 <= n -> parse_digits (FormatUint n) = Some n.
Proof.
  intros. unfold parse_digits. pose proof (FormatUint_nonempty n). destruct (FormatUint n) eqn:E; [done|].
  rewrite <- E. apply digits_rev_value. split; [done|]. by apply log2_bound.
Qed.

Lemma match_not_sign {A} c (a b d : A) : 48 <= c -> match c with 45 => a | 43 => b | _ => d end = d.
Proof.
  intros. destruct c as [|p|p]; [lia| |lia].
  do 6 (destruct p as [p|p|]; try done; try lia).
Qed.

(** Parsing what was formatted. *)
Lemma ParseInt64_FormatInt n : - 2 ^ 63 <= n < 2 ^ 63 -> ParseInt64 (FormatInt n) = Some n.
Proof.
  intros Hn. unfold FormatInt. split_if; breflect.
  - cbn -[parse_digits FormatUint]. rewrite parse_FormatUint by lia. cbn. rewrite Z.opp_involutive.
    by rewrite (proj2 (andb_true_iff _ _)) by lia.
  - pose proof (parse_FormatUint n ltac:(lia)) as Hp.
    pose proof (FormatUint_digits n ltac:(lia)) as Hd.
    pose proof (FormatUint_nonempty n). destruct (FormatUint n) as [|c s] eqn:E; [done|].
    inversion Hd as [|?? Hc _]; subst. unfold ParseInt64.
    assert (48 <= c <= 57) as Hr by (unfold is_digit in Hc; breflect; lia).
    rewrite (match_not_sign c) by lia. rewrite Hp. cbn. by rewrite (proj2 (andb_true_iff _ _)) by lia.
Qed.

Lemma length_digits_rev fuel n k : 0 <= n < 10 ^ Z.of_nat k -> (0 < k)%nat ->
  (List.length (digits_rev fuel n) <= k)%nat.
Proof.
  revert n k. induction fuel as [|fuel IH]; intros n k Hn Hk; cbn; [lia|].
  split_if; breflect; cbn; [lia|].
  destruct k as [|[|k]]; [lia|change (10 ^ Z.of_nat 1) with 10 in Hn; lia|].
  apply le_n_S, IH; [|lia]. rewrite (Nat2Z.inj_succ (S k)), Z.pow_succ_r in Hn by lia. dlia.
Qed.

Lemma digits_value_zeros k acc s :
  digits_value acc (replicate k 48 ++ s) = digits_value (acc * 10 ^ Z.of_nat k) s.
Proof.
  revert acc. induction k as [|k IH]; intros acc.
  - change (10 ^ Z.of_nat 0) with 1. by rewrite Z.mul_1_r.
  - cbn. rewrite IH, Nat2Z.inj_succ, Z.pow_succ_r by lia. f_equal. lia.
Qed.

(** The zero-padded epoch of a database key. *)
Lemma length_pad12 n : 0 <= n < 10 ^ 12 -> List.length (pad12 n) = 12%nat.
Proof.
  intros Hn. unfold pad12. split_if; breflect; [lia|]. rewrite Z.abs_eq by lia.
  rewrite length_app, length_replicate. unfold FormatUint. rewrite length_rev.
  pose proof (length_digits_rev (S (Z.to_nat (Z.log2 n))) n 12 Hn ltac:(lia)). lia.
Qed.

Lemma parse_pad12 n : 0 <= n < 10 ^ 12 -> digits_value 0 (pad12 n) = Some n.
Proof.
  intros Hn. unfold pad12. split_if; breflect; [lia|]. rewrite Z.abs_eq by lia.
  rewrite digits_value_zeros, Z.mul_0_l. pose proof (parse_FormatUint n ltac:(lia)) as H.
  unfold parse_digits in H. pose proof (FormatUint_nonempty n). by destruct (FormatUint n).
Qed.

Lemma pad12_digits n : 0 <= n -> Forall (fun c => is_digit c = true) (pad12 n).
Proof.
  intros. unfold pad12. split_if; breflect; [lia|]. rewrite Z.abs_eq by lia.
  apply Forall_app; split; [by apply Forall_replicate|by apply FormatUint_digits].
Qed.

(** ** Byte order of keys *)

(** [bytes.Compare(a, b) < 0] *)
Fixpoint bytes_lt (a b : gostring) : bool :=
  match a, b with
  | _, [] => false
  | [], _ :: _ => true
  | x :: a, y :: b => (x <? y) || ((x =? y) && bytes_lt a b)
  end.

Lemma digits_value_lt a1 a2 s1 s2 v1 v2 : a1 < a2 -> List.length s1 = List.length s2 ->
  digits_value a1 s1 = Some v1 -> digits_value a2 s2 = Some v2 -> v1 < v2.
Proof.
  revert a1 a2 s2. induction s1 as [|c1 s1 IH]; intros a1 a2 [|c2 s2] Ha Hl H1 H2; try done.
  - by simplify_eq/=.
  - cbn in *. destruct (is_digit c1) eqn:E1, (is_digit c2) eqn:E2; try done.
    refine (IH _ _ s2 _ _ H1 H2); [|lia]. unfold is_digit in *. breflect. lia.
Qed.

(** Fixed-width decimal prefixes sort by value. *)
Lemma bytes_lt_digits a s1 s2 x y v1 v2 : List.length s1 = List.length s2 ->
  digits_value a s1 = Some v1 -> digits_value a s2 = Some v2 ->
  bytes_lt (s1 ++ x) (s2 ++ y) = true -> v1 <= v2.
Proof.
  revert a s2. induction s1 as [|c1 s1 IH]; intros a [|c2 s2] Hl H1 H2 Hlt; try done.
  - simplify_eq/=. lia.
  - cbn in *. destruct (is_digit c1) eqn:E1, (is_digit c2) eqn:E2; try done.
    apply orb_true_iff in Hlt as [Hlt|Hlt]; breflect.
    + apply Z.lt_le_incl. refine (digits_value_lt _ _ s1 s2 _ _ _ _ H1 H2); lia.
    + subst c2. refine (IH _ s2 _ H1 H2 _); [lia|done].
Qed.

Lemma bytes_lt_irrefl a : bytes_lt a a = false.
Proof. induction a as [|x a IH]; [done|]. cbn. by rewrite Z.ltb_irrefl, Z.eqb_refl. Qed.

Lemma bytes_lt_trans a b c : bytes_lt a b = true -> bytes_lt b c = true -> bytes_lt a c = true.
Proof.
  revert b c. induction a as [|x a IH]; intros [|y b] [|z c] H1 H2; try done. cbn in *.
  apply orb_true_iff in H1 as [H1|H1], H2 as [H2|H2]; breflect; subst; apply orb_true_iff.
  - left. lia.
  - left. lia.
  - left. lia.
  - right. apply andb_true_iff. split; [lia|eauto].
Qed.

Lemma bytes_lt_total a b : bytes_lt a b = false -> bytes_lt b a = false -> a = b.
Proof.
  revert b. induction a as [|x a IH]; intros [|y b] H1 H2; try done. cbn in *.
  apply orb_false_iff in H1 as [? H1], H2 as [? H2].
  repeat match goal with H : (_ <? _) = false |- _ => apply Z.ltb_ge in H end. assert (x = y) as <- by lia.
  rewrite Z.eqb_refl in *. cbn in *. f_equal. auto.
Qed.

(** ** Hexadecimal *)

Lemma hex_value_digit n : 0 <= n < 16 -> hex_value (hex_digit n) = Some n.
Proof.
  intros. unfold hex_digit, hex_value, is_digit. destruct (n <? 10) eqn:?; breflect.
  - rewrite (proj2 (andb_true_iff _ _)) by lia. f_equal. lia.
  - rewrite (proj2 (andb_false_iff _ _)) by (right; lia).
    rewrite (proj2 (andb_true_iff _ _)) by lia. f_equal. lia.
Qed.

Lemma hex_roundtrip bs : is_bytes bs -> hex_DecodeString (hex_EncodeToString bs) = Some bs.
Proof.
  induction 1 as [|b bs Hb _ IH]; [done|]. cbn. unfold is_byte in Hb.
  rewrite !hex_value_digit by dlia. cbn. rewrite IH. cbn. do 2 f_equal. dlia.
Qed.

Lemma hex_inj a b : is_bytes a -> is_bytes b ->
  hex_EncodeToString a = hex_EncodeToString b -> a = b.
Proof.
  intros Ha Hb H. apply hex_roundtrip in Ha, Hb. rewrite H in Ha. congruence.
Qed.

Lemma length_hex bs : List.length (hex_EncodeToString bs) = (2 * List.length bs)%nat.
Proof. induction bs; cbn; lia. Qed.

Lemma hex_digit_range n : 0 <= n < 16 -> 48 <= hex_digit n <= 102.
Proof. intros. unfold hex_digit. split_if; breflect; lia. Qed.

(** Hexadecimal text is printable ASCII. *)
Lemma hex_chars bs : is_bytes bs -> Forall (fun c => 48 <= c <= 102) (hex_EncodeToString bs).
Proof.
  induction 1 as [|b bs Hb _ IH]; [constructor|]. unfold is_byte in Hb. cbn.
  repeat constructor; try apply IH; apply hex_digit_range; dlia.
Qed.

(** ** Base64 *)

Lemma base64_char_props n : 0 <= n < 64 ->
  base64_value (base64_char n) = Some n /\ base64_char n <> 61
  /\ base64_char n <> 13 /\ base64_char n <> 10.
Proof.
  intros Hn.
  assert (forallb (fun i => let n := Z.of_nat i in let c := base64_char n in
     bool_decide (base64_value c = Some n) && negb (c =? 61) && negb (c =? 13) && negb (c =? 10))
     (seq 0 64) = true) as H by (vm_compute; reflexivity).
  rewrite forallb_forall in H. specialize (H (Z.to_nat n)).
  cbv zeta in H. rewrite Z2Nat.id in H by lia.
  destruct (andb_prop _ _ (H ltac:(apply in_seq; lia))) as [H1 H4].
  apply andb_prop in H1 as [H1 H3]. apply andb_prop in H1 as [H1 H2]. breflect.
  apply bool_decide_eq_true in H1. done.
Qed.

Lemma base64_value_char n : 0 <= n < 64 -> base64_value (base64_char n) = Some n.
Proof. intros. by apply base64_char_props. Qed.

Lemma base64_quanta_roundtrip bs : is_bytes bs ->
  base64_decode_quanta (base64_EncodeToString bs) = Some bs.
Proof.
  remember (List.length bs) as n eqn:Hn. revert bs Hn.
  induction n as [n IH] using lt_wf_ind. intros bs -> Hb.
  destruct bs as [|a [|b [|c bs]]]; [done| | |].
  - inversion_clear Hb as [|?? Ha _]. unfold is_byte in Ha.
    cbn [base64_EncodeToString base64_decode_quanta].
    rewrite !base64_value_char by dlia. cbn. do 2 f_equal. dlia.
  - inversion_clear Hb as [|?? Ha Hb']. inversion_clear Hb' as [|?? Hb _]. unfold is_byte in *.
    cbn [base64_EncodeToString base64_decode_quanta].
    rewrite !base64_value_char by dlia. cbn [mbind option_bind].
    rewrite (proj2 (Z.eqb_neq (base64_char _) 61)) by (apply base64_char_props; dlia).
    cbn. do 3 f_equal; dlia.
  - inversion_clear Hb as [|?? Ha Hb']. inversion_clear Hb' as [|?? Hb Hb''].
    inversion_clear Hb'' as [|?? Hc Hbs]. unfold is_byte in *.
    specialize (IH (List.length bs) ltac:(cbn; lia) bs eq_refl Hbs).
    cbn [base64_EncodeToString base64_decode_quanta]. rewrite !base64_value_char by dlia. cbn [mbind option_bind].
    destruct (base64_EncodeToString bs) eqn:E.
    + rewrite !(proj2 (Z.eqb_neq (base64_char _) 61)) by (apply base64_char_props; dlia).
      cbn in IH. injection IH as <-. cbn. do 4 f_equal; dlia.
    + rewrite IH. cbn. do 4 f_equal; dlia.
Qed.

(** ** Searching *)

Lemma IndexByte_from_found i s c : 0 <= i -> 0 <= IndexByte_from i s c ->
  i <= IndexByte_from i s c < i + len s /\ nth (Z.to_nat (IndexByte_from i s c - i)) s 0 = c.
Proof.
  revert i. induction s as [|x s IH]; intros i Hi H; cbn in *; [lia|].
  rewrite len_cons. pose proof (len_nonneg s). destruct (Z.eqb_spec x c) as [->|].
  - rewrite Z.sub_diag. split; [lia|done].
  - destruct (IH (i + 1) ltac:(lia) H) as [Hr Hn]. split; [lia|].
    set (j := IndexByte_from (i + 1) s c) in *.
    replace (Z.to_nat (j - i)) with (S (Z.to_nat (j - (i + 1)))) by lia. exact Hn.
Qed.

Lemma IndexByte_found s c : 0 <= IndexByte s c ->
  0 <= IndexByte s c < len s /\ nth (Z.to_nat (IndexByte s c)) s 0 = c.
Proof.
  intros H. destruct (IndexByte_from_found 0 s c ltac:(lia) H) as [? E].
  rewrite Z.sub_0_r in E. split; [done|exact E].
Qed.

(** A text without the byte [c]. *)
Definition lacks (c : Z) (s : gostring) : Prop := Forall (fun x => x <> c) s.

Lemma lacks_app c a b : lacks c (a ++ b) <-> lacks c a /\ lacks c b.
Proof. apply Forall_app. Qed.

Lemma digits_lack c s : Forall (fun x => is_digit x = true) s -> c < 48 \/ 57 < c -> lacks c s.
Proof.
  intros Hs Hc. eapply List.Forall_impl; [|exact Hs]. cbn. intros x Hx ->. unfold is_digit in Hx. breflect. lia.
Qed.

Lemma Split_lacks c e : lacks c e -> Split e c = [e].
Proof. induction 1 as [|x e Hx _ IH]; [done|]. cbn. by rewrite (proj2 (Z.eqb_neq x c) Hx), IH. Qed.

Lemma Split_sep c a b : Split (a ++ c :: b) c = Split a c ++ Split b c.
Proof.
  induction a as [|x a IH]; [cbn; by rewrite Z.eqb_refl|]. cbn [app Split]. destruct (x =? c); [by rewrite IH|]. rewrite IH.
  destruct (Split a c) as [|w ws] eqn:E; [|done]. exfalso. clear - E. destruct a as [|y a]; [done|]. cbn in E. by repeat case_match.
Qed.

Lemma Split_parts c a : Forall (lacks c) (Split a c).
Proof.
  induction a as [|x a IH]; [by repeat constructor|]. cbn. destruct (x =? c) eqn:E; [constructor; [constructor|exact IH]|]. breflect.
  destruct (Split a c) as [|w ws]; [by repeat constructor|]. inversion_clear IH as [|? ? Hw Hws].
  constructor; [constructor; [exact E|exact Hw]|exact Hws].
Qed.

Lemma LastIndexByte_lacks c i best s : lacks c s -> LastIndexByte_from i best s c = best.
Proof.
  intros Hs. revert i. induction Hs as [|x s Hx _ IH]; intros i; [done|]. cbn. rewrite (proj2 (Z.eqb_neq x c) Hx). apply IH.
Qed.

Lemma LastIndexByte_last c x e : lacks c e -> LastIndexByte (x ++ c :: e) c = len x.
Proof.
  intros He. unfold LastIndexByte. assert (forall i best, LastIndexByte_from i best (x ++ c :: e) c = i + len x) as Hx.
  { induction x as [|y x IH]; intros i best; cbn [app LastIndexByte_from].
    - rewrite LastIndexByte_lacks, Z.eqb_refl by done. change (len (@nil Z)) with 0. lia.
    - rewrite IH, len_cons. lia. }
  by rewrite Hx.
Qed.

Lemma IndexByte_lacks c s : lacks c s -> IndexByte s c = -1.
Proof.
  intros Hs. unfold IndexByte. generalize 0. induction Hs as [|x s Hx _ IH]; intros i; [done|]. cbn.
  rewrite (proj2 (Z.eqb_neq x c) Hx). apply IH.
Qed.

Lemma IndexByte_first c x e : lacks c x -> IndexByte (x ++ c :: e) c = len x.
Proof.
  intros Hx. unfold IndexByte. assert (forall i, IndexByte_from i (x ++ c :: e) c = i + len x) as Hi; [|by rewrite Hi].
  induction Hx as [|y x Hy _ IH]; intros i; cbn; [rewrite Z.eqb_refl; change (len (@nil Z)) with 0; lia|].
  rewrite (proj2 (Z.eqb_neq y c) Hy), IH, len_cons. lia.
Qed.

Lemma contains_byte_lacks c s : lacks c s -> contains_byte s c = false.
Proof. induction 1 as [|x s Hx _ IH]; [done|]. cbn. by rewrite (proj2 (Z.eqb_neq x c) Hx). Qed.

Lemma contains_byte_mid c a b : contains_byte (a ++ c :: b) c = true.
Proof. unfold contains_byte. rewrite existsb_app. cbn. by rewrite Z.eqb_refl, orb_true_r. Qed.
