(* ===== verification/Paths.v ===== *)
(** * Paths and files

What the relay uses of [path/filepath] and [os] on Unix: cleaning and joining
paths, and a file tree on which directories are created and whole files are read
and written.  Which calls fail, and how far a failing write got, are inputs. *)

From stdpp Require Import base gmap list numbers.
From Stdlib Require Import ZArith Lia String.
From S2P Require Import Prelude.
From S2P Require Import GoStrings.

Local Open Scope Z_scope.

(** ** Paths *)

(** [path/filepath.Clean] on Unix: the elements of the path, without [.] and
empty ones, [..] taking back the element before it; at the root it disappears. *)
Fixpoint clean_elements (rooted : bool) (done_rev : list gostring) (l : list gostring) : list gostring :=
  match l with
  | [] => rev done_rev
  | e :: l =>
    if same e [] || same e (str ".") then clean_elements rooted done_rev l
    else if same e (str "..") then
      match done_rev with
      | x :: rest => if same x (str "..") then clean_elements rooted (e :: done_rev) l
                     else clean_elements rooted rest l
      | [] => clean_elements rooted (if rooted then [] else [e]) l
      end
    else clean_elements rooted (e :: done_rev) l
  end.
Definition Clean (p : gostring) : gostring :=
  let rooted := HasPrefix p (str "/") in
  let body := Join (clean_elements rooted [] (Split p 47)) (str "/") in
  if rooted then 47 :: body else match body with [] => str "." | _ => body end.
(** [filepath.Join] of two elements, the second one not empty, and [filepath.Dir]. *)
Definition Join2 (a b : gostring) : gostring :=
  match a with [] => Clean b | _ => Clean (a ++ 47 :: b) end.
Definition Dir (p : gostring) : gostring := Clean (take (Z.to_nat (LastIndexByte p 47 + 1)) p).

Example path_samples : (Join2 (str "./masque-relay-data") (str "relay-key.pem"), Dir (str "/usr/bin/relay"), Dir (str "relay"),
                        Join2 (str "/../a//b/..") (str "c"))
  = (str "masque-relay-data/relay-key.pem", str "/usr/bin", str ".", str "/a/c").
Proof. vm_compute. reflexivity. Qed.

(** ** The file tree *)

Inductive node :=
| Regular (data : list Z) (mode : Z)
| Directory (mode : Z)
| UnixSocket (live : bool) (mode : Z)   (** whether a process is listening *)
| Special.                              (** a symbolic link, a device, a pipe *)
#[export] Instance node_eq_dec : EqDecision node.
Proof. solve_decision. Defined.

(** Nodes by cleaned path. *)
Abbreviation files := (gmap gostring node).

(** How a write of a whole file ends. *)
Inductive write_outcome :=
| Written
| OpenFails
| WriteFails (part : list Z).   (** the file was truncated, and this much was written *)

Record os_env := {
  umask : Z;
  mkdir_fails : gostring -> bool;
  writes : gostring -> write_outcome;
  read_fails : gostring -> bool;
}.

Inductive read_error := NotExist | ReadError.

Definition ReadFile (env : os_env) (p : gostring) (w : files) : result read_error (list Z) :=
  if read_fails env p then Err ReadError
  else match w !! Clean p with
  | Some (Regular data _) => Ok data
  | Some _ => Err ReadError
  | None => Err NotExist
  end.

(** The directories on the way to a path, outermost first, the path itself last. *)
Fixpoint ancestors_from (seen rest : gostring) : list gostring :=
  match rest with
  | [] => [rev seen]
  | c :: rest =>
    if c =? 47 then
      match seen with
      | [] => ancestors_from [c] rest
      | _ => rev seen :: ancestors_from (c :: seen) rest
      end
    else ancestors_from (c :: seen) rest
  end.
Definition ancestors (p : gostring) : list gostring := ancestors_from [] p.

(** The root, the working directory and its parents need not be created. *)
Definition implicit_dir (p : gostring) : bool :=
  let base := drop (Z.to_nat (LastIndexByte p 47 + 1)) p in
  same base [] || same base (str ".") || same base (str "..").

Fixpoint mkdirs (env : os_env) (perm : Z) (ps : list gostring) (w : files) : files * bool :=
  match ps with
  | [] => (w, true)
  | p :: ps =>
    match w !! p with
    | Some (Directory _) => mkdirs env perm ps w
    | Some _ => (w, false)
    | None =>
      if implicit_dir p then mkdirs env perm ps w
      else if mkdir_fails env p then (w, false)
      else mkdirs env perm ps (<[p := Directory (Z.ldiff perm (umask env))]> w)
    end
  end.
(** [os.MkdirAll] of a cleaned path. *)
Definition MkdirAll (env : os_env) (p : gostring) (perm : Z) (w : files) : files * bool :=
  mkdirs env perm (ancestors p) w.

Definition is_dir (w : files) (p : gostring) : bool :=
  match w !! p with Some (Directory _) => true | Some _ => false | None => implicit_dir p end.

(** [os.WriteFile]: create or truncate, then write; an existing file keeps its
permissions. *)
Definition WriteFile (env : os_env) (p : gostring) (data : list Z) (perm : Z) (w : files) : files * bool :=
  let mode := match w !! Clean p with
              | Some (Regular _ mode) => Some mode
              | Some _ => None
              | None => if is_dir w (Dir p) then Some (Z.ldiff perm (umask env)) else None
              end in
  match writes env p, mode with
  | OpenFails, _ | _, None => (w, false)
  | Written, Some mode => (<[Clean p := Regular data mode]> w, true)
  | WriteFails part, Some mode => (<[Clean p := Regular part mode]> w, false)
  end.

(** ** Lemmas *)

(** Two trees that agree except at some paths. *)
Definition agree_outside (ps : list gostring) (w w' : files) : Prop := forall q, q ∉ ps -> w' !! q = w !! q.

Lemma agree_refl ps w : agree_outside ps w w.
Proof. done. Qed.
Lemma agree_trans ps w1 w2 w3 : agree_outside ps w1 w2 -> agree_outside ps w2 w3 -> agree_outside ps w1 w3.
Proof. intros H1 H2 q Hq. by rewrite H2, H1. Qed.
Lemma agree_mono ps ps' w w' : agree_outside ps w w' -> ps ⊆ ps' -> agree_outside ps' w w'.
Proof. intros H Hs q Hq. apply H. set_solver. Qed.
Lemma agree_insert ps p n w : p ∈ ps -> agree_outside ps w (<[p := n]> w).
Proof. intros Hp q Hq. apply lookup_insert_ne. by intros ->. Qed.
Lemma agree_delete ps p w : p ∈ ps -> agree_outside ps w (delete p w).
Proof. intros Hp q Hq. apply lookup_delete_ne. by intros ->. Qed.
#[export] Hint Resolve agree_refl agree_insert agree_delete : relay.

(** Creating directories changes nothing that exists. *)
Lemma mkdirs_frame env perm ps w w' ok : mkdirs env perm ps w = (w', ok) ->
  agree_outside ps w w' /\ forall q n, w !! q = Some n -> w' !! q = Some n.
Proof.
  revert w. induction ps as [|p ps IH]; intros w H; cbn in H; [by injection H as <- <-|].
  assert (forall w1, (forall q n, w !! q = Some n -> w1 !! q = Some n) -> agree_outside [p] w w1 ->
    mkdirs env perm ps w1 = (w', ok) -> agree_outside (p :: ps) w w' /\ forall q n, w !! q = Some n -> w' !! q = Some n) as Hstep.
  { intros w1 H1 H2 H3. apply IH in H3 as [H3 H4]. split; [|auto].
    eapply agree_trans; (eapply agree_mono; [eassumption|set_solver]). }
  destruct (w !! p) as [[| | |]|] eqn:Ep; try (by injection H as <- <-); try (by apply (Hstep w)).
  destruct (implicit_dir p); [by apply (Hstep w)|]. destruct (mkdir_fails env p); [by injection H as <- <-|].
  refine (Hstep _ _ _ H); [|apply agree_insert; set_solver]. intros q n Hq.
  rewrite lookup_insert_ne; [done|]. intros ->. congruence.
Qed.

(** What it adds are directories. *)
Lemma mkdirs_new env perm ps w w' ok q n : mkdirs env perm ps w = (w', ok) -> w' !! q = Some n ->
  w !! q = Some n \/ exists mode, n = Directory mode.
Proof.
  revert w. induction ps as [|p ps IH]; intros w H Hq; cbn in H; [injection H as <- <-; by left|].
  destruct (w !! p) as [[| | |]|] eqn:Ep; try (injection H as <- <-; by left); try (by apply (IH w)).
  destruct (implicit_dir p); [by apply (IH w)|]. destruct (mkdir_fails env p); [injection H as <- <-; by left|].
  destruct (IH _ H Hq) as [Hn|]; [|by right]. destruct (decide (p = q)) as [->|].
  - rewrite lookup_insert_eq in Hn. injection Hn as <-. right. by eexists.
  - rewrite lookup_insert_ne in Hn by done. by left.
Qed.

Lemma WriteFile_frame env p data perm w w' ok : WriteFile env p data perm w = (w', ok) -> agree_outside [Clean p] w w'.
Proof.
  unfold WriteFile. intros H. destruct (writes env p); repeat case_match; simplify_eq; auto with relay; apply agree_insert; set_solver.
Qed.

Lemma WriteFile_ok env p data perm w w' : WriteFile env p data perm w = (w', true) ->
  exists mode, w' !! Clean p = Some (Regular data mode)
    /\ match w !! Clean p with
       | Some (Regular _ old) => mode = old
       | Some _ => False
       | None => mode = Z.ldiff perm (umask env)
       end.
Proof.
  unfold WriteFile. intros H.
  destruct (writes env p); repeat case_match; simplify_eq; eexists; (split; [apply lookup_insert_eq|done]).
Qed.

(** A new file is never more accessible than asked for. *)
Lemma ldiff_mode perm mask forbidden : Z.land perm forbidden = 0 -> Z.land (Z.ldiff perm mask) forbidden = 0.
Proof.
  intros H. apply Z.bits_inj'. intros i Hi. rewrite Z.land_spec, Z.ldiff_spec, Z.bits_0.
  assert (Z.testbit (Z.land perm forbidden) i = false) as Ht by (by rewrite H, Z.bits_0). rewrite Z.land_spec in Ht.
  by destruct (Z.testbit perm i), (Z.testbit forbidden i), (Z.testbit mask i).
Qed.

(** ** Cleaned paths *)

Abbreviation no_slash := (lacks 47).
(** An element that names something. *)
Definition plain (e : gostring) : Prop := e <> [] /\ e <> str "." /\ e <> str ".." /\ no_slash e.
(** The elements of a cleaned path: parents first, and none below the root. *)
Definition settled (rooted : bool) (es : list gostring) : Prop :=
  exists k p, es = replicate k (str "..") ++ p /\ Forall plain p /\ (rooted = true -> k = 0%nat).

Lemma plain_no_slash e : plain e -> no_slash e.
Proof. by intros (_ & _ & _ & ?). Qed.

Lemma clean_plain r d e l : plain e -> clean_elements r d (e :: l) = clean_elements r (e :: d) l.
Proof.
  intros (H1 & H2 & H3 & _). cbn [clean_elements].
  destruct (same_spec e []); [done|]. destruct (same_spec e (str ".")); [done|]. by destruct (same_spec e (str "..")).
Qed.

Lemma clean_snoc r d l e : plain e -> clean_elements r d (l ++ [e]) = clean_elements r d l ++ [e].
Proof.
  intros He. revert d. induction l as [|x l IH]; intros d.
  - cbn [app]. by rewrite clean_plain.
  - cbn [app clean_elements]. repeat (case_match; try apply IH).
Qed.

Lemma clean_empty_end r d l : clean_elements r d (l ++ [[]]) = clean_elements r d l.
Proof. revert d. induction l as [|x l IH]; intros d; [done|]. cbn [app clean_elements]. repeat (case_match; try apply IH). Qed.

Lemma rev_replicate {A} k (x : A) : rev (replicate k x) = replicate k x.
Proof. induction k as [|k IH]; [done|]. cbn [replicate rev]. rewrite IH. by rewrite <- replicate_cons_app. Qed.

Lemma clean_settled r l k p : Forall no_slash l -> Forall plain p -> (r = true -> k = 0%nat) ->
  settled r (clean_elements r (rev p ++ replicate k (str "..")) l).
Proof.
  intros Hl. revert k p. induction Hl as [|e l He _ IH]; intros k p Hp Hk; cbn [clean_elements].
  { exists k, p. split; [|done]. by rewrite rev_app_distr, rev_involutive, rev_replicate. }
  destruct (same_spec e []) as [|H1]; [by apply IH|]. destruct (same_spec e (str ".")) as [|H2]; [by apply IH|]. cbn [orb].
  destruct (same_spec e (str "..")) as [->|H3]; cycle 1.
  { change (e :: rev p ++ replicate k (str "..")) with ((e :: rev p) ++ replicate k (str "..")).
    rewrite <- (rev_unit p e). apply IH; [|done]. apply Forall_app. split; [done|]. by repeat constructor. }
  destruct p as [|x p _] using rev_ind.
  - cbn [rev app]. destruct k as [|k]; cbn [replicate].
    + destruct r; [by apply (IH 0%nat [])|by apply (IH 1%nat [])].
    + destruct r; [by specialize (Hk eq_refl)|]. by apply (IH (S (S k)) []).
  - rewrite rev_unit. cbn [app]. apply Forall_app in Hp as [Hp Hx]. apply Forall_inv in Hx as (_ & _ & Hx & _).
    destruct (same_spec x (str "..")); [done|]. by apply IH.
Qed.

Lemma clean_fixed r es : settled r es -> clean_elements r [] es = es.
Proof.
  intros (k & p & -> & Hp & Hk).
  assert (forall d, clean_elements r d p = rev d ++ p) as Hplain.
  { clear Hk. induction Hp as [|e p He _ IH]; intros d; [by rewrite app_nil_r|]. rewrite clean_plain by done. rewrite IH. cbn.
    by rewrite <- app_assoc. }
  destruct r; [rewrite (Hk eq_refl); apply (Hplain [])|].
  assert (forall j, clean_elements false (replicate j (str "..")) (replicate k (str "..") ++ p)
    = replicate j (str "..") ++ replicate k (str "..") ++ p) as Hdots.
  { clear Hk. induction k as [|k IH]; intros j; [by rewrite Hplain, rev_replicate|]. cbn [replicate app].
    transitivity (clean_elements false (replicate (S j) (str "..")) (replicate k (str "..") ++ p)).
    - by destruct j.
    - rewrite IH. cbn [replicate]. rewrite (replicate_cons_app j), <- app_assoc. done. }
  apply (Hdots 0%nat).
Qed.

(** The prefix of a rooted path, and its elements joined. *)
Definition path_of (rooted : bool) (es : list gostring) : gostring :=
  let body := Join es (str "/") in
  if rooted then 47 :: body else match body with [] => str "." | _ => body end.
Definition elements (a : gostring) : bool * list gostring :=
  let rooted := HasPrefix a (str "/") in (rooted, clean_elements rooted [] (Split a 47)).

Lemma HasPrefix_slash c s t : HasPrefix (c :: s) (str "/") = HasPrefix (c :: t) (str "/").
Proof. change (str "/") with [47]. cbn. by destruct s, t. Qed.
Lemma not_rooted c s : c <> 47 -> HasPrefix (c :: s) (str "/") = false.
Proof. intros Hc. change (str "/") with [47]. cbn. by rewrite (proj2 (Z.eqb_neq c 47) Hc). Qed.
Lemma is_rooted s : HasPrefix (47 :: s) (str "/") = true.
Proof. by destruct s. Qed.

Lemma Clean_path a : Clean a = path_of (fst (elements a)) (snd (elements a)).
Proof. done. Qed.

Lemma elements_settled a : settled (fst (elements a)) (snd (elements a)).
Proof. apply (clean_settled _ _ 0 []); [apply Split_parts|constructor|done]. Qed.

Lemma Split_Join es : Forall no_slash es -> es <> [] -> Split (Join es (str "/")) 47 = es.
Proof.
  induction 1 as [|e es He Hes IH]; [done|]. intros _. destruct es as [|e2 es]; [by apply Split_lacks|].
  change (Join (e :: e2 :: es) (str "/")) with (e ++ 47 :: Join (e2 :: es) (str "/")).
  rewrite Split_sep, Split_lacks, IH by done. done.
Qed.

Lemma settled_no_slash r es : settled r es -> Forall no_slash es.
Proof.
  intros (k & p & -> & Hp & _). apply Forall_app. split.
  - apply Forall_replicate. by repeat constructor.
  - eapply List.Forall_impl; [|exact Hp]. by intros e (_ & _ & _ & ?).
Qed.

Lemma elements_append a e : a <> [] -> plain e -> elements (a ++ 47 :: e) = (fst (elements a), snd (elements a) ++ [e]).
Proof.
  intros Ha He. unfold elements. cbn [fst snd]. assert (HasPrefix (a ++ 47 :: e) (str "/") = HasPrefix a (str "/")) as ->.
  { destruct a as [|c a]; [done|]. apply HasPrefix_slash. }
  rewrite Split_sep, (Split_lacks 47 e) by (by apply plain_no_slash). by rewrite clean_snoc.
Qed.

Lemma elements_join_name e : plain e -> elements e = (false, [e]).
Proof.
  intros He. unfold elements. assert (HasPrefix e (str "/") = false) as ->.
  { destruct He as (_ & _ & _ & Hs). destruct e as [|c e]; [done|]. inversion_clear Hs. by apply not_rooted. }
  rewrite Split_lacks by (by apply plain_no_slash). by rewrite clean_plain.
Qed.

Lemma elements_path r es : settled r es -> elements (path_of r es ++ [47]) = (r, es).
Proof.
  intros Hs. pose proof (settled_no_slash _ _ Hs) as Hn. unfold path_of. cbv zeta.
  assert (es = [] \/ es <> []) as [->|He] by (destruct es; auto); [by destruct r|].
  assert (exists c b, Join es (str "/") = c :: b /\ c <> 47) as (c & b & Hj & Hc).
  { destruct Hs as (k & p & -> & Hp & _). destruct k as [|k].
    - destruct p as [|e p]; [done|]. inversion_clear Hp as [|? ? (He1 & _ & _ & He2) _].
      destruct e as [|c e]; [done|]. inversion_clear He2. exists c. cbn. destruct p; eexists; by split.
    - exists 46. cbn. destruct (replicate k _ ++ p); eexists; by split. }
  assert (clean_elements r [] (Split (Join es (str "/")) 47 ++ [[]]) = es) as Hcl.
  { rewrite Split_Join by done. rewrite clean_empty_end. by apply clean_fixed. }
  unfold elements. destruct r.
  - cbn [app]. rewrite is_rooted.
    change (47 :: Join es (str "/") ++ [47]) with ([] ++ 47 :: (Join es (str "/") ++ 47 :: [])). rewrite !Split_sep.
    f_equal. exact Hcl.
  - rewrite Hj. assert (HasPrefix ((c :: b) ++ [47]) (str "/") = false) as -> by (by apply not_rooted).
    rewrite <- Hj, Split_sep. f_equal. exact Hcl.
Qed.

Lemma elements_slash a : a <> [] -> elements (a ++ [47]) = elements a.
Proof.
  intros Ha. unfold elements. assert (HasPrefix (a ++ [47]) (str "/") = HasPrefix a (str "/")) as ->.
  { destruct a as [|c a]; [done|]. apply HasPrefix_slash. }
  rewrite Split_sep. change (Split [] 47) with [@nil Z]. by rewrite clean_empty_end.
Qed.

Lemma path_of_nonempty r es : path_of r es <> [].
Proof. unfold path_of. destruct r; [done|]. by destruct (Join es _). Qed.

Lemma Join_snoc es x : es <> [] -> Join (es ++ [x]) (str "/") = Join es (str "/") ++ 47 :: x.
Proof.
  induction es as [|e es IH]; [done|]. intros _. destruct es as [|e2 es]; [done|].
  change (Join ((e :: e2 :: es) ++ [x]) (str "/")) with (e ++ 47 :: Join ((e2 :: es) ++ [x]) (str "/")).
  rewrite IH by done. change (Join (e :: e2 :: es) (str "/")) with (e ++ 47 :: Join (e2 :: es) (str "/")). by rewrite <- app_assoc.
Qed.

Lemma elements_path_of r es : settled r es -> elements (path_of r es) = (r, es).
Proof. intros Hs. rewrite <- elements_slash by apply path_of_nonempty. by apply elements_path. Qed.

Lemma Dir_path r es x : settled r es -> plain x -> Dir (path_of r (es ++ [x])) = path_of r es.
Proof.
  intros Hs Hx. pose proof (plain_no_slash x Hx) as Hns. unfold Dir.
  assert (forall P, path_of r (es ++ [x]) = P ++ 47 :: x -> elements (P ++ [47]) = (r, es) ->
    Clean (take (Z.to_nat (LastIndexByte (path_of r (es ++ [x])) 47 + 1)) (path_of r (es ++ [x]))) = path_of r es) as Hcase.
  { intros P HP HE. rewrite HP, LastIndexByte_last by done.
    replace (take _ _) with (P ++ [47]); [by rewrite Clean_path, HE|].
    replace (P ++ 47 :: x) with ((P ++ [47]) ++ x) by (by rewrite <- app_assoc).
    rewrite take_app_length'; [done|]. rewrite length_app. unfold len. cbn. lia. }
  assert (es = [] \/ es <> []) as [->|He] by (destruct es; auto).
  - destruct r; [by apply (Hcase [])|]. clear Hcase. destruct Hx as (Hx & _). unfold path_of. cbn [app Join].
    destruct x as [|c x]; [done|]. unfold LastIndexByte. by rewrite LastIndexByte_lacks.
  - apply (Hcase (path_of r es)); [|by apply elements_path]. unfold path_of. cbv zeta. rewrite Join_snoc by done.
    destruct r; [done|]. destruct (Join es (str "/")) as [|c b] eqn:E; [|done].
    pose proof (elements_path false es Hs) as Hp. unfold path_of in Hp. rewrite E in Hp. vm_compute in Hp. congruence.
Qed.

(** Replacing the last element of a path: [Join(Dir(Join(a, x)), y)] is [Join(a, y)]. *)
Lemma Join2_Dir a x y : plain x -> plain y -> Join2 (Dir (Join2 a x)) y = Join2 a y.
Proof.
  intros Hx Hy.
  assert (exists r es, settled r es /\ forall e, plain e -> Join2 a e = path_of r (es ++ [e])) as (r & es & Hs & Hj).
  { destruct a as [|c a].
    - exists false, []. split; [by exists 0%nat, []|]. intros e He. unfold Join2. by rewrite Clean_path, elements_join_name.
    - eexists _, _. split; [apply (elements_settled (c :: a))|]. intros e He. unfold Join2. rewrite Clean_path.
      by rewrite elements_append. }
  rewrite !Hj by done. rewrite Dir_path by done. unfold Join2.
  destruct (path_of r es) as [|c b] eqn:E; [by apply path_of_nonempty in E|]. rewrite <- E, Clean_path.
  rewrite elements_append by (by auto using path_of_nonempty). by rewrite elements_path_of.
Qed.
