(* ===== verification/Json.v ===== *)
(** * encoding/json as the relay uses it

The decoder of Go's [encoding/json] on byte strings: the value grammar, string
unquoting (escapes, surrogate pairs, replacement of invalid UTF-8), and decoding
into a struct with [DisallowUnknownFields], where a key selects a field by exact
name or, failing that, by case folding.  On top of it [strictJSON] of
[internal/relay/tickets.go].  Also the encoder for the objects the relay signs
or hashes. *)

From stdpp Require Import base list numbers.
From Stdlib Require Import ZArith Lia String.
From S2P Require Import Prelude.
From S2P Require Import GoStrings.

Local Open Scope Z_scope.
Set Warnings "-register-all".

Inductive json :=
| JNull
| JBool (b : bool)
| JNum (literal : gostring)
| JStr (s : gostring)
| JArr (vs : list json)
| JObj (members : list (gostring * json)).

(** ** Lexical level *)

Definition is_ws (c : Z) : bool := (c =? 32) || (c =? 9) || (c =? 10) || (c =? 13).
Definition skip_ws (s : gostring) : gostring := drop_while is_ws s.

(** [utf8.EncodeRune] on a valid code point. *)
Definition utf8_encode (r : Z) : gostring :=
  if r <? 0x80 then [r]
  else if r <? 0x800 then [0xC0 + r / 64; 0x80 + r mod 64]
  else if r <? 0x10000 then [0xE0 + r / 4096; 0x80 + r / 64 mod 64; 0x80 + r mod 64]
  else [0xF0 + r / 262144; 0x80 + r / 4096 mod 64; 0x80 + r / 64 mod 64; 0x80 + r mod 64].
Definition replacement : gostring := [0xEF; 0xBF; 0xBD].

(** [utf8.DecodeRune]: the bytes of the first rune of [s], or the replacement
character for one byte that starts no valid sequence. *)
Definition cont (c : Z) : bool := (0x80 <=? c) && (c <=? 0xBF).
Definition utf8_first (c : Z) (s : gostring) : gostring * gostring :=
  match s with
  | c1 :: s1 =>
    if (0xC2 <=? c) && (c <=? 0xDF) && cont c1 then ([c; c1], s1)
    else match s1 with
    | c2 :: s2 =>
      let lo := if c =? 0xE0 then 0xA0 else 0x80 in
      let hi := if c =? 0xED then 0x9F else 0xBF in
      if (0xE0 <=? c) && (c <=? 0xEF) && (lo <=? c1) && (c1 <=? hi) && cont c2 then ([c; c1; c2], s2)
      else match s2 with
      | c3 :: s3 =>
        let lo := if c =? 0xF0 then 0x90 else 0x80 in
        let hi := if c =? 0xF4 then 0x8F else 0xBF in
        if (0xF0 <=? c) && (c <=? 0xF4) && (lo <=? c1) && (c1 <=? hi) && cont c2 && cont c3
        then ([c; c1; c2; c3], s3) else (replacement, s)
      | [] => (replacement, s)
      end
    | [] => (replacement, s)
    end
  | [] => (replacement, s)
  end.

(** Four hexadecimal digits. *)
Definition u4 (s : gostring) : option (Z * gostring) :=
  match s with
  | a :: b :: c :: d :: r =>
    a ← hex_value a; b ← hex_value b; c ← hex_value c; d ← hex_value d;
    Some (((a * 16 + b) * 16 + c) * 16 + d, r)
  | _ => None
  end.
Definition surrogate (r : Z) : bool := (0xD800 <=? r) && (r <? 0xE000).

(** The rune of a [\u] escape, with the second half of a surrogate pair; a half
alone is the replacement character. *)
Definition u_escape (s : gostring) : option (gostring * gostring) :=
  '(r, s1) ← u4 s;
  if negb (surrogate r) then Some (utf8_encode r, s1)
  else match s1 with
  | 92 :: 117 :: s2 =>
    '(r2, s3) ← u4 s2;
    if (r <? 0xDC00) && (0xDC00 <=? r2) && (r2 <? 0xE000)
    then Some (utf8_encode (0x10000 + (r - 0xD800) * 1024 + (r2 - 0xDC00)), s3)
    else Some (replacement, s1)
  | _ => Some (replacement, s1)
  end.

Definition simple_escape (c : Z) : option Z :=
  if (c =? 34) || (c =? 92) || (c =? 47) then Some c
  else if c =? 98 then Some 8
  else if c =? 102 then Some 12
  else if c =? 110 then Some 10
  else if c =? 114 then Some 13
  else if c =? 116 then Some 9
  else None.

(** The body of a string literal after its opening quote. *)
Fixpoint lex_string (fuel : nat) (s : gostring) : option (gostring * gostring) :=
  match fuel with
  | O => None
  | S fuel =>
    match s with
    | [] => None
    | c :: s =>
      if c =? 34 then Some ([], s)
      else if c <? 32 then None
      else if c =? 92 then
        match s with
        | e :: s =>
          if e =? 117 then '(r, s) ← u_escape s; '(w, s) ← lex_string fuel s; Some (r ++ w, s)
          else x ← simple_escape e; '(w, s) ← lex_string fuel s; Some (x :: w, s)
        | [] => None
        end
      else if c <? 128 then '(w, s) ← lex_string fuel s; Some (c :: w, s)
      else let '(r, s) := utf8_first c s in '(w, s) ← lex_string fuel s; Some (r ++ w, s)
    end
  end.

Definition lex_str (s : gostring) : option (gostring * gostring) := lex_string (S (List.length s)) s.

Fixpoint span_digits (s : gostring) : gostring * gostring :=
  match s with
  | c :: s' => if is_digit c then let '(a, b) := span_digits s' in (c :: a, b) else ([], s)
  | [] => ([], [])
  end.
Definition lex_frac (s : gostring) : option (gostring * gostring) :=
  match s with
  | c :: s' =>
    if c =? 46 then
      let '(ds, r) := span_digits s' in
      match ds with [] => None | _ => Some (46 :: ds, r) end
    else Some ([], s)
  | [] => Some ([], s)
  end.
Definition lex_exp (s : gostring) : option (gostring * gostring) :=
  match s with
  | c :: s' =>
    if (c =? 101) || (c =? 69) then
      let '(sign, s'') := match s' with
                          | x :: t => if (x =? 43) || (x =? 45) then ([x], t) else ([], s')
                          | [] => ([], s') end in
      let '(ds, r) := span_digits s'' in
      match ds with [] => None | _ => Some (c :: sign ++ ds, r) end
    else Some ([], s)
  | [] => Some ([], s)
  end.
Definition lex_number (s : gostring) : option (gostring * gostring) :=
  let '(sign, s1) := match s with
                     | c :: t => if c =? 45 then ([45], t) else ([], s)
                     | [] => ([], s) end in
  let '(ds, s2) := span_digits s1 in
  match ds with
  | [] => None
  | d :: ds' =>
    if (d =? 48) && negb (Nat.eqb (List.length ds') 0) then None
    else '(f, s3) ← lex_frac s2; '(e, s4) ← lex_exp s3; Some (sign ++ ds ++ f ++ e, s4)
  end.

(** ** Values *)

Definition lex_literal (s : gostring) : option (json * gostring) :=
  if HasPrefix s (str "null") then Some (JNull, drop 4 s)
  else if HasPrefix s (str "true") then Some (JBool true, drop 4 s)
  else if HasPrefix s (str "false") then Some (JBool false, drop 5 s)
  else '(n, s) ← lex_number s; Some (JNum n, s).

Fixpoint parse_value (fuel : nat) (s : gostring) : option (json * gostring) :=
  match fuel with
  | O => None
  | S fuel =>
    match skip_ws s with
    | [] => None
    | c :: s =>
      if c =? 123 then
        match skip_ws s with
        | [] => None
        | c1 :: s1 =>
          if c1 =? 125 then Some (JObj [], s1)
          else '(ms, s) ← parse_members fuel s; Some (JObj ms, s)
        end
      else if c =? 91 then
        match skip_ws s with
        | [] => None
        | c1 :: s1 =>
          if c1 =? 93 then Some (JArr [], s1)
          else '(vs, s) ← parse_elements fuel s; Some (JArr vs, s)
        end
      else if c =? 34 then '(w, s) ← lex_str s; Some (JStr w, s)
      else lex_literal (c :: s)
    end
  end
with parse_members (fuel : nat) (s : gostring) : option (list (gostring * json) * gostring) :=
  match fuel with
  | O => None
  | S fuel =>
    match skip_ws s with
    | [] => None
    | c :: s =>
      if negb (c =? 34) then None else
      '(k, s) ← lex_str s;
      match skip_ws s with
      | [] => None
      | c :: s =>
        if negb (c =? 58) then None else
        '(v, s) ← parse_value fuel s;
        match skip_ws s with
        | [] => None
        | c :: s =>
          if c =? 44 then '(ms, s) ← parse_members fuel s; Some ((k, v) :: ms, s)
          else if c =? 125 then Some ([(k, v)], s)
          else None
        end
      end
    end
  end
with parse_elements (fuel : nat) (s : gostring) : option (list json * gostring) :=
  match fuel with
  | O => None
  | S fuel =>
    '(v, s) ← parse_value fuel s;
    match skip_ws s with
    | [] => None
    | c :: s =>
      if c =? 44 then '(vs, s) ← parse_elements fuel s; Some (v :: vs, s)
      else if c =? 93 then Some ([v], s)
      else None
    end
  end.

(** Every nested call is preceded by at least one consumed byte, and a level
takes two calls, so twice the length is enough. *)
Definition json_Decode (s : gostring) : option (json * gostring) :=
  parse_value (S (2 * List.length s)) s.


(** ** Decoding into Go values

The types the relay decodes into, and values of them.  A slice keeps its backing
array next to its visible length (or nil): decoding a repeated key reuses the
array, so a [null] element leaves what was there. *)

Inductive jty :=
| TString
| TInt (bits : Z)
| TBool
| TSlice (elem : jty)
| TPtr (elem : jty)
| TStruct (fields : list (gostring * jty)).

Inductive jval :=
| VStr (s : gostring)
| VInt (z : Z)
| VBool (b : bool)
| VSlice (backing : list jval) (visible : option nat)
| VPtr (target : option jval)
| VStruct (fields : list jval).

Fixpoint zero_value (t : jty) : jval :=
  match t with
  | TString => VStr []
  | TInt _ => VInt 0
  | TBool => VBool false
  | TSlice _ => VSlice [] None
  | TPtr _ => VPtr None
  | TStruct fs => VStruct (map (fun f => zero_value (snd f)) fs)
  end.

(** Field names are compared after simple case folding: ASCII letters, and the
two other runes that fold to ASCII ones, U+017F (s) and U+212A (k). *)
Fixpoint foldName (s : gostring) : gostring :=
  match s with
  | 0xC5 :: 0xBF :: s => 83 :: foldName s
  | 0xE2 :: 0x84 :: 0xAA :: s => 75 :: foldName s
  | c :: s => (if (97 <=? c) && (c <=? 122) then c - 32 else c) :: foldName s
  | [] => []
  end.

Definition gostring_eqb (a b : gostring) : bool := bool_decide (a = b).

Fixpoint field_index (p : gostring -> bool) (i : nat) (fs : list (gostring * jty)) : option (nat * jty) :=
  match fs with
  | [] => None
  | (n, t) :: fs => if p n then Some (i, t) else field_index p (S i) fs
  end.
(** The exact name first, then the folded one. *)
Definition find_field (fs : list (gostring * jty)) (key : gostring) : option (nat * jty) :=
  match field_index (gostring_eqb key) 0 fs with
  | Some r => Some r
  | None => field_index (fun n => gostring_eqb (foldName key) (foldName n)) 0 fs
  end.

Definition int_literal (bits : Z) (lit : gostring) : option Z :=
  v ← ParseInt64 lit; if (- 2 ^ (bits - 1) <=? v) && (v <? 2 ^ (bits - 1)) then Some v else None.

Definition elem_or_zero (t : jty) (backing : list jval) (i : nat) : jval :=
  nth i backing (zero_value t).

(** [Decoder.Decode] into a value of type [t] that currently holds [old];
[strict] is [DisallowUnknownFields].  Every error makes the caller reject the
input, so errors are not told apart. *)
Fixpoint decode_into (strict : bool) (t : jty) (old : jval) (j : json) {struct j} : option jval :=
  match j with
  | JNull =>
    match t with
    | TSlice _ | TPtr _ => Some (zero_value t)
    | _ => Some old
    end
  | JArr vs =>
    let arr := fix arr (elem : jty) (backing : list jval) (i : nat) (vs : list json) : option (list jval * nat) :=
      match vs with
      | [] => Some (backing, i)
      | v :: vs =>
        x ← decode_into strict elem (elem_or_zero elem backing i) v;
        arr elem (take i backing ++ x :: drop (S i) backing) (S i) vs
      end in
    let slice elem old :=
      match old with
      | VSlice backing _ =>
        '(b, n) ← arr elem backing 0%nat vs;
        Some (match n with O => VSlice [] (Some O) | _ => VSlice b (Some n) end)
      | _ => None
      end in
    match t with
    | TSlice elem => slice elem old
    | TPtr (TSlice elem) =>
      v ← slice elem (match old with VPtr (Some v) => v | _ => zero_value (TSlice elem) end);
      Some (VPtr (Some v))
    | _ => None
    end
  | JObj ms =>
    let obj := fix obj (fs : list (gostring * jty)) (vals : list jval) (ms : list (gostring * json)) : option (list jval) :=
      match ms with
      | [] => Some vals
      | (k, v) :: ms =>
        match find_field fs k with
        | None => if strict then None else obj fs vals ms
        | Some (i, ft) =>
          x ← decode_into strict ft (elem_or_zero ft vals i) v;
          obj fs (<[i := x]> vals) ms
        end
      end in
    let struct fs old :=
      match old with
      | VStruct vals => vals' ← obj fs vals ms; Some (VStruct vals')
      | _ => None
      end in
    match t with
    | TStruct fs => struct fs old
    | TPtr (TStruct fs) =>
      v ← struct fs (match old with VPtr (Some v) => v | _ => zero_value (TStruct fs) end);
      Some (VPtr (Some v))
    | _ => None
    end
  | JStr s =>
    match t with
    | TString => Some (VStr s)
    | TPtr TString => Some (VPtr (Some (VStr s)))
    | _ => None
    end
  | JNum lit =>
    match t with
    | TInt bits => z ← int_literal bits lit; Some (VInt z)
    | TPtr (TInt bits) => z ← int_literal bits lit; Some (VPtr (Some (VInt z)))
    | _ => None
    end
  | JBool b =>
    match t with
    | TBool => Some (VBool b)
    | TPtr TBool => Some (VPtr (Some (VBool b)))
    | _ => None
    end
  end.

(** [json.Unmarshal]: one value, then nothing but white space. *)
Definition json_Unmarshal (t : jty) (raw : gostring) : option jval :=
  '(j, rest) ← json_Decode raw;
  match skip_ws rest with
  | [] => decode_into false t (zero_value t) j
  | _ => None
  end.

(** ** strictJSON *)

Definition key_seen (k : gostring) (seen : list gostring) : bool := existsb (gostring_eqb k) seen.
Fixpoint no_dup_keys (ks : list gostring) (seen : list gostring) : bool :=
  match ks with
  | [] => true
  | k :: ks => negb (key_seen k seen) && no_dup_keys ks (k :: seen)
  end.

(** The tokens of a value as [Decoder.Token] delivers them; commas and colons are none. *)
Inductive token := Delim (c : Z) | TokString (s : gostring) | TokScalar.
Fixpoint json_tokens (j : json) : list token :=
  match j with
  | JObj ms => Delim 123 :: List.concat (map (fun m => TokString (fst m) :: json_tokens (snd m)) ms) ++ [Delim 125]
  | JArr vs => Delim 91 :: List.concat (map json_tokens vs) ++ [Delim 93]
  | JStr s => [TokString s]
  | _ => [TokScalar]
  end.

(** [Decoder.More]: the next token does not close an array or object. *)
Definition More (ts : list token) : bool :=
  match ts with
  | [] => false
  | Delim c :: _ => negb ((c =? 93) || (c =? 125))
  | _ => true
  end.

(** [walk] with its two loops: the tokens that are left, or the error. *)
Fixpoint walk (fuel : nat) (ts : list token) : option (list token) :=
  match fuel, ts with
  | S fuel, Delim c :: ts =>
    if c =? 123 then walk_members fuel [] ts else if c =? 91 then walk_elements fuel ts else None
  | S fuel, _ :: ts => Some ts
  | _, _ => None
  end
with walk_members (fuel : nat) (seen : list gostring) (ts : list token) : option (list token) :=
  match fuel with
  | O => None
  | S fuel =>
    if More ts then
      match ts with
      | TokString s :: ts => if key_seen s seen then None else ts ← walk fuel ts; walk_members fuel (s :: seen) ts
      | _ => None
      end
    else match ts with [] => None | _ :: ts => Some ts end
  end
with walk_elements (fuel : nat) (ts : list token) : option (list token) :=
  match fuel with
  | O => None
  | S fuel =>
    if More ts then ts ← walk fuel ts; walk_elements fuel ts
    else match ts with [] => None | _ :: ts => Some ts end
  end.

Definition strictJSON (t : jty) (raw : gostring) : option jval :=
  '(j, rest) ← json_Decode raw;
  let ts := json_tokens j in
  _ ← walk (2 * List.length ts) ts;
  v ← decode_into true t (zero_value t) j;
  match skip_ws rest with
  | [] => Some v
  | _ => None
  end.

(** ** Encoding *)

Definition hex4 (r : Z) : gostring :=
  [92; 117; hex_digit (r / 4096); hex_digit (r / 256 mod 16); hex_digit (r / 16 mod 16); hex_digit (r mod 16)].

(** One ASCII byte of a string literal; HTML characters are escaped. *)
Definition marshal_byte (c : Z) : gostring :=
  if (c =? 34) || (c =? 92) then [92; c]
  else if c =? 8 then [92; 98]
  else if c =? 12 then [92; 102]
  else if c =? 10 then [92; 110]
  else if c =? 13 then [92; 114]
  else if c =? 9 then [92; 116]
  else if (c <? 32) || (c =? 60) || (c =? 62) || (c =? 38) then hex4 c
  else [c].

(** Invalid UTF-8 becomes [\ufffd]; U+2028 and U+2029 are escaped. *)
Fixpoint marshal_chars (fuel : nat) (s : gostring) : gostring :=
  match fuel with
  | O => []
  | S fuel =>
    match s with
    | [] => []
    | c :: s =>
      if c <? 128 then marshal_byte c ++ marshal_chars fuel s
      else
        let '(r, s') := utf8_first c s in
        (if Nat.eqb (List.length s') (List.length s) then str "\ufffd"
         else if gostring_eqb r [0xE2; 0x80; 0xA8] then str "\u2028"
         else if gostring_eqb r [0xE2; 0x80; 0xA9] then str "\u2029"
         else r) ++ marshal_chars fuel s'
    end
  end.
Definition marshal_string (s : gostring) : gostring :=
  34 :: marshal_chars (List.length s) s ++ [34].

Definition marshal_list {A} (f : A -> gostring) (l : list A) : gostring :=
  str "[" ++ Join (map f l) (str ",") ++ str "]".
(** A nil slice is [null]. *)
Definition marshal_slice {A} (f : A -> gostring) (l : option (list A)) : gostring :=
  match l with None => str "null" | Some l => marshal_list f l end.

(** An object from its already encoded member values, in the given order. *)
Definition marshal_object (ms : list (gostring * gostring)) : gostring :=
  str "{" ++ Join (map (fun m => marshal_string (fst m) ++ str ":" ++ snd m) ms) (str ",") ++ str "}".

(** ** Encoding and decoding strings *)

Definition is_ascii (s : gostring) : Prop := Forall (fun c => 0 <= c < 128) s.

Lemma marshal_chars_ascii fuel s : is_ascii s -> (List.length s <= fuel)%nat ->
  marshal_chars fuel s = List.concat (map marshal_byte s).
Proof.
  intros Hs. revert fuel. induction Hs as [|c s Hc _ IH]; intros [|fuel] Hf; try done; cbn in Hf; [lia|].
  cbn. rewrite (proj2 (Z.ltb_lt c 128)) by lia. f_equal. apply IH. lia.
Qed.

Lemma lex_string_byte fuel c t : 0 <= c < 128 ->
  lex_string (S fuel) (marshal_byte c ++ t) = '(w, r) ← lex_string fuel t; Some (c :: w, r).
Proof.
  intros Hc. rewrite <- (Z2Nat.id c) by lia. assert (Z.to_nat c < 128)%nat as Hn by lia.
  revert Hn. generalize (Z.to_nat c). clear c Hc. intros n Hn.
  do 128 (destruct n as [|n]; [reflexivity|]). lia.
Qed.

(** Reading back an encoded string, whatever follows its closing quote. *)
Lemma lex_marshal fuel s rest : is_ascii s -> (List.length s < fuel)%nat ->
  lex_string fuel (List.concat (map marshal_byte s) ++ 34 :: rest) = Some (s, rest).
Proof.
  intros Hs. revert fuel. induction Hs as [|c s Hc _ IH]; intros [|fuel] Hf; cbn in Hf; try lia; [done|].
  cbn [map List.concat]. rewrite <- app_assoc, lex_string_byte, IH by lia. done.
Qed.

(** An encoded string determines both the string and what follows it. *)
Lemma marshal_string_inj s1 s2 r1 r2 : is_ascii s1 -> is_ascii s2 ->
  marshal_string s1 ++ r1 = marshal_string s2 ++ r2 -> s1 = s2 /\ r1 = r2.
Proof.
  intros H1 H2 H. unfold marshal_string in H. rewrite !marshal_chars_ascii in H by done.
  cbn in H. injection H as H. rewrite <- !app_assoc in H. cbn in H.
  pose proof (lex_marshal (S (Nat.max (List.length s1) (List.length s2))) s1 r1 H1 ltac:(lia)) as L1.
  pose proof (lex_marshal (S (Nat.max (List.length s1) (List.length s2))) s2 r2 H2 ltac:(lia)) as L2.
  rewrite H, L2 in L1. by injection L1.
Qed.

Lemma FormatInt_ends a b c1 c2 r1 r2 : is_digit c1 = false -> is_digit c2 = false ->
  0 <= a -> 0 <= b -> FormatInt a ++ c1 :: r1 = FormatInt b ++ c2 :: r2 -> a = b /\ r1 = r2.
Proof.
  intros Hc1 Hc2 Ha Hb H. unfold FormatInt in H.
  rewrite (proj2 (Z.ltb_ge a 0)), (proj2 (Z.ltb_ge b 0)) in H by lia.
  assert (forall s1 s2, Forall (fun c => is_digit c = true) s1 -> Forall (fun c => is_digit c = true) s2 ->
    s1 ++ c1 :: r1 = s2 ++ c2 :: r2 -> s1 = s2 /\ r1 = r2) as Hs.
  { induction s1 as [|x s1 IH]; intros [|y s2] D1 D2 E; cbn in E; injection E as E1 E2; subst; try done.
    - inversion D2; congruence.
    - inversion D1; congruence.
    - inversion D1; inversion D2; subst. destruct (IH s2) as [-> ->]; done. }
  apply Hs in H as [H ->]; try by apply FormatUint_digits.
  split; [|done]. pose proof (parse_FormatUint a Ha) as P1. rewrite H, parse_FormatUint in P1 by done.
  congruence.
Qed.

(** ** What strictJSON rejects *)

Lemma key_seen_spec k seen : key_seen k seen = true <-> In k seen.
Proof.
  unfold key_seen. rewrite existsb_exists. split.
  - intros (x & Hx & E). apply bool_decide_eq_true in E. by subst.
  - intros H. exists k. split; [done|]. by apply bool_decide_eq_true.
Qed.

Lemma key_unseen_spec k seen : negb (key_seen k seen) = true <-> ~ In k seen.
Proof. rewrite <- key_seen_spec. destruct (key_seen k seen); cbn; intuition congruence. Qed.

Lemma no_dup_keys_spec ks seen : no_dup_keys ks seen = true <->
  List.NoDup ks /\ forall k, In k ks -> ~ In k seen.
Proof.
  revert seen. induction ks as [|k ks IH]; intros seen; cbn; [split; [intros _; split; [constructor|done]|done]|].
  rewrite andb_true_iff, IH, key_unseen_spec, List.NoDup_cons_iff.
  split.
  - intros (H1 & H2 & H3). split_and!; [|done|].
    + intros Hk. apply (H3 k Hk). by left.
    + intros k' [<-|Hk']; [done|]. intros Hin. apply (H3 k' Hk'). by right.
  - intros ((H1 & H2) & H3). split_and!; [apply H3; by left|done|].
    intros k' Hk' [<-|Hin]; [done|]. by apply (H3 k'); [right|].
Qed.

(** ** The fuel of the decoder is enough *)

Lemma length_skip_ws s : (List.length (skip_ws s) <= List.length s)%nat.
Proof. unfold skip_ws. induction s as [|c s IH]; cbn; [lia|]. destruct (is_ws c); cbn; lia. Qed.

Lemma length_u4 s r t : u4 s = Some (r, t) -> (List.length t < List.length s)%nat.
Proof.
  destruct s as [|a [|b [|c [|d s]]]]; cbn; try done. intros H.
  repeat (apply bind_Some in H as (? & _ & H)). simplify_eq. lia.
Qed.

Lemma length_u_escape s r t : u_escape s = Some (r, t) -> (List.length t < List.length s)%nat.
Proof.
  intros H. apply bind_Some in H as ([r1 s1] & H1 & H). apply length_u4 in H1.
  destruct (negb (surrogate r1)); [simplify_eq; lia|].
  repeat match type of H with
  | context [match ?l with _ => _ end] => is_var l; destruct l; cbn in H; try (simplify_eq; lia)
  end.
  apply bind_Some in H as ([r2 s3] & H2 & H). apply length_u4 in H2. cbn in *.
  destruct (_ && _); simplify_eq; cbn; lia.
Qed.

Lemma length_utf8_first c s : (List.length (snd (utf8_first c s)) <= List.length s)%nat.
Proof.
  destruct s as [|c1 [|c2 [|c3 s]]]; cbn; repeat (destruct (_ && _); cbn); lia.
Qed.

Lemma length_lex_string fuel s w r : lex_string fuel s = Some (w, r) ->
  (List.length r < List.length s)%nat.
Proof.
  revert s w r. induction fuel as [|fuel IH]; intros s w r; cbn; [done|].
  destruct s as [|c s]; [done|]. destruct (c =? 34); [intros; simplify_eq/=; lia|].
  destruct (c <? 32); [done|]. destruct (c =? 92).
  - destruct s as [|e s]; [done|]. destruct (e =? 117); intros H.
    + apply bind_Some in H as ([r1 s1] & H1 & H). apply length_u_escape in H1.
      apply bind_Some in H as ([w' s'] & H2 & H). simplify_eq. apply IH in H2. cbn. lia.
    + apply bind_Some in H as (x & _ & H). apply bind_Some in H as ([w' s'] & H1 & H).
      simplify_eq. apply IH in H1. cbn. lia.
  - intros H. cbn. destruct (c <? 128).
    + apply bind_Some in H as ([w' s'] & H1 & H). simplify_eq. apply IH in H1. lia.
    + pose proof (length_utf8_first c s). destruct (utf8_first c s) as [r' s'].
      apply bind_Some in H as ([w' s''] & H1 & H). simplify_eq. apply IH in H1. cbn in *. lia.
Qed.

Lemma length_lex_str s w r : lex_str s = Some (w, r) -> (List.length r < List.length s)%nat.
Proof. apply length_lex_string. Qed.
#[local] Arguments lex_str : simpl never.

Lemma span_digits_app s : fst (span_digits s) ++ snd (span_digits s) = s.
Proof.
  induction s as [|c s IH]; [done|]. cbn. destruct (is_digit c); [|done].
  destruct (span_digits s); cbn in *. by f_equal.
Qed.
Lemma length_span_digits s a b : span_digits s = (a, b) ->
  (List.length a + List.length b = List.length s)%nat.
Proof. intros H. rewrite <- (span_digits_app s), H, length_app. done. Qed.


Lemma length_lex_frac s f r : lex_frac s = Some (f, r) -> (List.length r <= List.length s)%nat.
Proof.
  unfold lex_frac. destruct s as [|c s]; [intros; by simplify_eq|]. destruct (c =? 46); [|intros; by simplify_eq].
  destruct (span_digits s) as [ds t] eqn:E. apply length_span_digits in E.
  destruct ds; intros; simplify_eq. cbn. lia.
Qed.

Lemma length_lex_exp s f r : lex_exp s = Some (f, r) -> (List.length r <= List.length s)%nat.
Proof.
  unfold lex_exp. destruct s as [|c s]; [intros; by simplify_eq|]. destruct (_ || _); [|intros; by simplify_eq].
  destruct (match s with [] => _ | _ => _ end) as [sign t] eqn:Et.
  assert (List.length t <= List.length s)%nat by (destruct s as [|x t']; [|destruct (_ || _)]; simplify_eq/=; lia).
  destruct (span_digits t) as [ds t2] eqn:E. apply length_span_digits in E.
  destruct ds; intros; simplify_eq. cbn in *. lia.
Qed.

Lemma length_lex_number s n r : lex_number s = Some (n, r) -> (List.length r < List.length s)%nat.
Proof.
  unfold lex_number. destruct (match s with [] => _ | _ => _ end) as [sign s1] eqn:Es.
  assert (List.length s1 <= List.length s)%nat by (destruct s as [|x t']; [|destruct (_ =? _)]; simplify_eq/=; lia).
  destruct (span_digits s1) as [ds s2] eqn:E. apply length_span_digits in E. destruct ds as [|d ds]; [done|].
  destruct (_ && _); [done|]. intros H'.
  apply bind_Some in H' as ([f s3] & H3 & H'). apply bind_Some in H' as ([e s4] & H4 & H').
  apply length_lex_frac in H3. apply length_lex_exp in H4. cbn in *. simplify_eq. lia.
Qed.

Lemma length_lex_literal c s v r : lex_literal (c :: s) = Some (v, r) ->
  (List.length r < S (List.length s))%nat.
Proof.
  unfold lex_literal. repeat (split_if; [intros; simplify_eq; rewrite length_drop; cbn; lia|]).
  intros H. apply bind_Some in H as ([n t] & H & H'). apply length_lex_number in H. by simplify_eq.
Qed.

Definition fuel_enough {A} (p : nat -> gostring -> option (A * gostring)) (slack : nat) (fuel : nat) : Prop :=
  forall s a r, p fuel s = Some (a, r) ->
    (List.length r < List.length s)%nat
    /\ forall fuel', (2 * List.length s + slack <= fuel')%nat -> p fuel' s = Some (a, r).

Ltac next_token s :=
  let c := fresh "c" in let t := fresh "t" in
  pose proof (length_skip_ws s); destruct (skip_ws s) as [|c t]; [done|]; cbn [List.length] in *.

Lemma parse_value_step fuel :
  fuel_enough parse_members 0 fuel -> fuel_enough parse_elements 1 fuel ->
  fuel_enough parse_value 0 (S fuel).
Proof.
  intros Hm He s a r H. cbn in H.
  enough (List.length r < List.length s /\ forall fuel', 2 * List.length s <= S fuel' ->
    parse_value (S fuel') s = Some (a, r))%nat as [? Hf].
  { split; [done|]. intros [|f] ?; [lia|]. apply Hf. lia. }
  cbn. next_token s.
  destruct (c =? 123); [|destruct (c =? 91); [|destruct (c =? 34)]].
  - pose proof (length_skip_ws t). destruct (skip_ws t) as [|c1 s1]; [done|]. cbn [List.length] in *.
    destruct (c1 =? 125); [simplify_eq; split; [lia|done]|].
    apply bind_Some in H as ([ms t2] & H & H'). simplify_eq. apply Hm in H as [? Hf].
    split; [lia|]. intros. rewrite Hf by lia. done.
  - pose proof (length_skip_ws t). destruct (skip_ws t) as [|c1 s1]; [done|]. cbn [List.length] in *.
    destruct (c1 =? 93); [simplify_eq; split; [lia|done]|].
    apply bind_Some in H as ([ms t2] & H & H'). simplify_eq. apply He in H as [? Hf].
    split; [lia|]. intros. rewrite Hf by lia. done.
  - split; [|done]. apply bind_Some in H as ([w t2] & H & H'). simplify_eq. apply length_lex_str in H. lia.
  - split; [|done]. apply length_lex_literal in H. lia.
Qed.

Lemma parse_members_step fuel :
  fuel_enough parse_value 0 fuel -> fuel_enough parse_members 0 fuel ->
  fuel_enough parse_members 0 (S fuel).
Proof.
  intros Hv Hm s a r H. cbn in H.
  enough (List.length r < List.length s /\ forall fuel', 2 * List.length s <= S fuel' ->
    parse_members (S fuel') s = Some (a, r))%nat as [? Hf].
  { split; [done|]. intros [|f] ?; [lia|]. apply Hf. lia. }
  cbn. next_token s. destruct (negb (c =? 34)); [done|].
  apply bind_Some in H as ([k t2] & Hk & H). rewrite Hk. apply length_lex_str in Hk. cbn.
  next_token t2. destruct (negb (c0 =? 58)); [done|].
  apply bind_Some in H as ([v t3] & Hv' & H). apply Hv in Hv' as [? Hvf].
  pose proof (length_skip_ws t3). destruct (skip_ws t3) as [|c1 t4] eqn:E; [done|]; cbn [List.length] in *.
  destruct (c1 =? 44) eqn:Ec; [|destruct (c1 =? 125) eqn:Ec']; [| |done].
  - apply bind_Some in H as ([ms t5] & H & H'). simplify_eq. apply Hm in H as [? Hmf].
    split; [lia|]. intros. rewrite Hvf by lia. cbn. rewrite E. cbn. rewrite Ec. rewrite Hmf by lia. done.
  - simplify_eq. split; [lia|]. intros. rewrite Hvf by lia. cbn. rewrite E. by rewrite Ec, Ec'.
Qed.

Lemma parse_elements_step fuel :
  fuel_enough parse_value 0 fuel -> fuel_enough parse_elements 1 fuel ->
  fuel_enough parse_elements 1 (S fuel).
Proof.
  intros Hv He s a r H. cbn in H.
  enough (List.length r < List.length s /\ forall fuel', 2 * List.length s + 1 <= S fuel' ->
    parse_elements (S fuel') s = Some (a, r))%nat as [? Hf].
  { split; [done|]. intros [|f] ?; [lia|]. apply Hf. lia. }
  apply bind_Some in H as ([v t3] & Hv' & H). apply Hv in Hv' as [? Hvf].
  pose proof (length_skip_ws t3). destruct (skip_ws t3) as [|c1 t4] eqn:E; [done|]; cbn [List.length] in *.
  destruct (c1 =? 44) eqn:Ec; [|destruct (c1 =? 93) eqn:Ec']; [| |done].
  - apply bind_Some in H as ([ms t5] & H & H'). simplify_eq. apply He in H as [? Hmf].
    split; [lia|]. intros. cbn. rewrite Hvf by lia. cbn. rewrite E. cbn. rewrite Ec. rewrite Hmf by lia. done.
  - simplify_eq. split; [lia|]. intros. cbn. rewrite Hvf by lia. cbn. rewrite E. by rewrite Ec, Ec'.
Qed.

Lemma parse_fuel fuel :
  fuel_enough parse_value 0 fuel /\ fuel_enough parse_members 0 fuel /\ fuel_enough parse_elements 1 fuel.
Proof.
  induction fuel as [|fuel (Hv & Hm & He)]; [split_and!; by intros ???|].
  split_and!; [by apply parse_value_step|by apply parse_members_step|by apply parse_elements_step].
Qed.

(** The decoder's fuel never decides the outcome: whatever amount of fuel
lets the grammar recognise a value at the front of the input, [json_Decode]
recognises the same value with the same remaining input, and some input is
consumed.  So a rejection by the decoder is a rejection by the grammar. *)
Theorem json_Decode_complete fuel s j rest :
  parse_value fuel s = Some (j, rest) ->
  json_Decode s = Some (j, rest) /\ (List.length rest < List.length s)%nat.
Proof.
  intros H. destruct (parse_fuel fuel) as (Hv & _). apply Hv in H as [? Hf].
  split; [|done]. apply Hf. lia.
Qed.

Lemma json_Decode_complete_witness :
  json_Decode (str "[1,[true]] x") = Some (JArr [JNum (str "1"); JArr [JBool true]], str " x").
Proof.
  apply (json_Decode_complete 9 (str "[1,[true]] x")). vm_compute. reflexivity.
Defined.

(** ** What strictJSON guarantees *)

(** No object, at any depth, has two members of the same name. *)
Inductive keys_unique : json -> Prop :=
| ku_obj ms : List.NoDup (map fst ms) -> Forall (fun m => keys_unique (snd m)) ms -> keys_unique (JObj ms)
| ku_arr vs : Forall keys_unique vs -> keys_unique (JArr vs)
| ku_atom j : (forall ms, j <> JObj ms) -> (forall vs, j <> JArr vs) -> keys_unique j.

(** No object, at any depth, repeats a key: a test on the value. *)
Fixpoint distinct (j : json) : bool :=
  match j with
  | JObj ms => no_dup_keys (map fst ms) [] && forallb (fun m => distinct (snd m)) ms
  | JArr vs => forallb distinct vs
  | _ => true
  end.

Lemma tokens_more j rest : More (json_tokens j ++ rest) = true /\ (0 < List.length (json_tokens j))%nat.
Proof. destruct j; cbn; split; done || lia. Qed.

(** Two steps for a token are enough, and the walk succeeds, at the end of the value,
exactly if no key is repeated. *)
Lemma walk_elements_spec vs :
  Forall (fun v => forall fuel rest, (2 * List.length (json_tokens v) <= fuel)%nat ->
    walk fuel (json_tokens v ++ rest) = if distinct v then Some rest else None) vs ->
  forall fuel rest, (2 * List.length (List.concat (map json_tokens vs)) < fuel)%nat ->
    walk_elements fuel (List.concat (map json_tokens vs) ++ Delim 93 :: rest) = if forallb distinct vs then Some rest else None.
Proof.
  induction 1 as [|v vs Hv _ IH]; intros [|fuel] rest Hf; cbn [map List.concat app List.length] in *; try lia; [done|].
  rewrite length_app in Hf. rewrite <- app_assoc. cbn [walk_elements]. destruct (tokens_more v (List.concat (map json_tokens vs) ++ Delim 93 :: rest)) as [-> Hn].
  rewrite Hv by lia. cbn [forallb]. destruct (distinct v); [|done]. cbn [mbind option_bind andb]. apply IH. lia.
Qed.

Lemma walk_members_spec ms :
  Forall (fun m => forall fuel rest, (2 * List.length (json_tokens (snd m)) <= fuel)%nat ->
    walk fuel (json_tokens (snd m) ++ rest) = if distinct (snd m) then Some rest else None) ms ->
  let tokens := List.concat (map (fun m => TokString (fst m) :: json_tokens (snd m)) ms) in
  forall fuel seen rest, (2 * List.length tokens < fuel)%nat ->
    walk_members fuel seen (tokens ++ Delim 125 :: rest)
    = if no_dup_keys (map fst ms) seen && forallb (fun m => distinct (snd m)) ms then Some rest else None.
Proof.
  cbv zeta. induction 1 as [|[k v] ms Hv _ IH]; intros [|fuel] seen rest Hf; cbn [map List.concat app List.length fst snd] in *; try lia; [done|].
  rewrite length_app in Hf. cbn [List.length] in Hf. rewrite <- app_assoc. cbn [walk_members More forallb no_dup_keys fst snd].
  destruct (key_seen k seen); [done|]. cbn [negb andb]. rewrite Hv by lia.
  destruct (distinct v); [|by rewrite andb_false_r]. cbn [mbind option_bind andb]. apply IH. lia.
Qed.

Lemma walk_spec : forall j fuel rest, (2 * List.length (json_tokens j) <= fuel)%nat ->
  walk fuel (json_tokens j ++ rest) = if distinct j then Some rest else None.
Proof.
  fix IH 1. intros [| | | |vs|ms] [|fuel] rest Hf; try (cbn in Hf; lia); try done; cbn [json_tokens List.length] in Hf; rewrite length_app in Hf; cbn in Hf.
  - cbn [json_tokens app walk Z.eqb Pos.eqb distinct]. rewrite <- app_assoc. apply walk_elements_spec; [|cbn; lia].
    clear fuel rest Hf. induction vs as [|v vs IHvs]; constructor; [apply IH|exact IHvs].
  - cbn [json_tokens app walk Z.eqb Pos.eqb distinct]. rewrite <- app_assoc. apply walk_members_spec; [|cbn; lia].
    clear fuel rest Hf. induction ms as [|[k v] ms IHms]; constructor; [apply IH|exact IHms].
Qed.

Lemma distinct_keys_unique : forall j, distinct j = true -> keys_unique j.
Proof.
  fix IH 1. intros [| | | |vs|ms] H; try (apply ku_atom; discriminate).
  - apply ku_arr. cbn in H. induction vs as [|v vs IHvs]; [constructor|].
    cbn in H. apply andb_prop in H as [H1 H2]. constructor; [by apply IH|by apply IHvs].
  - cbn in H. apply andb_prop in H as [H1 H2]. apply no_dup_keys_spec in H1 as [H1 _].
    apply ku_obj; [done|]. clear H1. induction ms as [|[k v] ms IHms]; [constructor|].
    cbn in H2. apply andb_prop in H2 as [H2 H3]. constructor; [by apply IH|by apply IHms].
Qed.

Lemma field_index_in p i fs r : field_index p i fs = Some r -> exists f, In f fs /\ p (fst f) = true.
Proof.
  revert i. induction fs as [|[n t] fs IH]; intros i; cbn; [done|].
  destruct (p n) eqn:E; [intros _; exists (n, t); auto|].
  intros H. apply IH in H as (f & ? & ?). eauto.
Qed.

Definition names_field (fs : list (gostring * jty)) (k : gostring) : Prop :=
  exists f, In f fs /\ foldName k = foldName (fst f).

Lemma find_field_names fs k r : find_field fs k = Some r -> names_field fs k.
Proof.
  unfold find_field. destruct (field_index (gostring_eqb k) 0 fs) eqn:E.
  - apply field_index_in in E as (f & ? & E). apply bool_decide_eq_true in E. intros _. exists f. by rewrite E.
  - intros H. apply field_index_in in H as (f & ? & H). apply bool_decide_eq_true in H. by exists f.
Qed.

Lemma decode_struct_known fs old ms v :
  decode_into true (TStruct fs) old (JObj ms) = Some v -> Forall (names_field fs) (map fst ms).
Proof.
  cbn. destruct old as [| | | | |vals]; try done. intros H. apply bind_Some in H as (vals' & H & _).
  revert vals H. induction ms as [|[k j] ms IH]; intros vals H; cbn; [constructor|].
  destruct (find_field fs k) as [[i ft]|] eqn:E; [|done].
  apply bind_Some in H as (x & _ & H). constructor; [by eapply find_field_names|by eapply IH].
Qed.

(** C27: What [strictJSON] lets through: the input is one JSON value followed by
white space only, no object in it repeats a member name, and every member of
the outermost object names a declared field (after case folding). *)
Theorem strictJSON_sound fs raw v :
  strictJSON (TStruct fs) raw = Some v ->
  exists j rest, json_Decode raw = Some (j, rest) /\ Forall (fun c => is_ws c = true) rest
    /\ keys_unique j /\ decode_into true (TStruct fs) (zero_value (TStruct fs)) j = Some v
    /\ (j = JNull \/ exists ms, j = JObj ms /\ Forall (names_field fs) (map fst ms)).
Proof.
  unfold strictJSON. intros H. apply bind_Some in H as ([j rest] & Hd & H).
  pose proof (walk_spec j (2 * List.length (json_tokens j)) [] ltac:(lia)) as Hw. rewrite app_nil_r in Hw. cbv zeta in H. rewrite Hw in H.
  destruct (distinct j) eqn:Hk; [|done]. cbn [mbind option_bind] in H. apply bind_Some in H as (v' & Hv & H).
  destruct (skip_ws rest) eqn:E; simplify_eq. exists j, rest. split_and!; try done.
  - clear -E. unfold skip_ws in E. induction rest as [|c rest IH]; [constructor|]. cbn in E.
    destruct (is_ws c) eqn:Ec; [constructor; auto|done].
  - by apply distinct_keys_unique.
  - destruct j; try done; [by left|right]. eexists. split; [done|]. by eapply decode_struct_known.
Qed.

Lemma strictJSON_sound_witness :
  exists j rest, json_Decode (qstr "{'epoch':7} ") = Some (j, rest) /\ keys_unique j.
Proof.
  destruct (strictJSON_sound [(str "epoch", TInt 64)] (qstr "{'epoch':7} ") (VStruct [VInt 7]) ltac:(reflexivity))
    as (j & rest & H1 & _ & H2 & _).
  exists j, rest. done.
Defined.
