(* ===== verification/Base58.v ===== *)
(** * Base58 keys and addresses

[decodeBase58], [encodeBase58] and [addressForKey] of [internal/relay/access.go].
[math/big] is modelled by [Z]; SHA-256 and RIPEMD-160 are parameters.  The two
conversions are inverse to each other on every key length the relay uses, so a
public key or signature has exactly one accepted text form. *)

From stdpp Require Import base list numbers.
From Stdlib Require Import ZArith Lia String.
From S2P Require Import Prelude.
From S2P Require Import GoStrings.

Local Open Scope Z_scope.

(** ** Positional notation *)

Definition from_base (base : Z) (ds : list Z) : Z := fold_left (fun n d => n * base + d) ds 0.

(** Digits of [n], least significant first; each step at least halves [n]. *)
Fixpoint to_base_rev (fuel : nat) (base n : Z) : list Z :=
  match fuel with
  | O => []
  | S fuel => if n >? 0 then n mod base :: to_base_rev fuel base (n / base) else []
  end.
Definition digits_fuel (n : Z) : nat := S (Z.to_nat (Z.log2 n)).
Definition to_base (base n : Z) : list Z := rev (to_base_rev (digits_fuel n) base n).

(** ** big.Int and the Base58 functions *)

(** [big.Int.Bytes] and [big.Int.SetBytes]: big-endian, no leading zero. *)
Definition big_Bytes (n : Z) : list Z := to_base 256 n.
Definition big_SetBytes (bs : list Z) : Z := from_base 256 bs.

Definition base58Alphabet : gostring :=
  str "123456789ABCDEFGHJKLMNPQRSTUVWXYZabcdefghijkmnopqrstuvwxyz".
Definition base58_index (c : Z) : Z := IndexByte base58Alphabet c.
Definition base58_char (d : Z) : Z := nth (Z.to_nat d) base58Alphabet 0.

(** The accumulation loop; a character outside the alphabet stops it.  A rune
that is not ASCII is not in the alphabet, so bytes do for runes. *)
Fixpoint decode_loop (n : Z) (s : gostring) : option Z :=
  match s with
  | [] => Some n
  | c :: s => let i := base58_index c in if i <? 0 then None else decode_loop (n * 58 + i) s
  end.
(** Leading [c]s of a string. *)
Fixpoint count_leading (c : Z) (s : list Z) : nat :=
  match s with
  | x :: s => if negb (x =? c) then O else S (count_leading c s)
  | [] => O
  end.

Definition decodeBase58 (s : gostring) (size : Z) : option (list Z) :=
  if (len s >? 100) || bool_decide (s = []) then None
  else n ← decode_loop 0 s;
       let b := replicate (count_leading 49 s) 0 ++ big_Bytes n in
       if negb (len b =? size) then None else Some b.

Definition encodeBase58 (b : list Z) : gostring :=
  let n := big_SetBytes b in
  let out := map base58_char (to_base_rev (digits_fuel n) 58 n) in
  let out := out ++ replicate (count_leading 0 b) 49 in
  rev out.

(** The hash functions: [sha256.Sum256] is the standard library's, and
[golang.org/x/crypto/ripemd160] a third-party package. *)
Class Hashes := {
  sha256 : list Z -> list Z;
  ripemd160 : list Z -> list Z;
}.
Class HashesOk (H : Hashes) : Prop := {
  sha256_length bs : List.length (sha256 bs) = 32%nat;
  sha256_bytes bs : is_bytes (sha256 bs);
  ripemd160_length bs : List.length (ripemd160 bs) = 20%nat;
  ripemd160_bytes bs : is_bytes (ripemd160 bs);
}.

Definition addressForKey `{Hashes} (key : list Z) : gostring :=
  let digest := sha256 key in
  let b := 58 :: ripemd160 digest in
  let check := sha256 (sha256 b) in
  encodeBase58 (b ++ take 4 check).

(** ** Lemmas on positional notation *)

Lemma to_base_rev_fuel base n f1 f2 : 2 <= base ->
  n < 2 ^ Z.of_nat f1 -> n < 2 ^ Z.of_nat f2 -> to_base_rev f1 base n = to_base_rev f2 base n.
Proof.
  intros Hb. revert n f2. induction f1 as [|f1 IH]; intros n f2 H1 H2.
  { change (2 ^ Z.of_nat 0) with 1 in H1. destruct f2; [done|]. cbn. split_if; [lia|done]. }
  destruct f2 as [|f2].
  { change (2 ^ Z.of_nat 0) with 1 in H2. cbn. split_if; [lia|done]. }
  rewrite Nat2Z.inj_succ, Z.pow_succ_r in H1, H2 by lia. cbn. split_if; [|done]. f_equal.
  apply Z.gtb_lt in Heqb. assert (n / base <= n / 2) by (apply Z.div_le_compat_l; lia).
  apply IH; dlia.
Qed.

Lemma digits_fuel_enough n : n < 2 ^ Z.of_nat (digits_fuel n).
Proof.
  destruct (decide (0 <= n)); [by apply log2_bound|]. 
  pose proof (Z.pow_nonneg 2 (Z.of_nat (digits_fuel n))). lia.
Qed.

Lemma to_base_step base n : 2 <= base -> 0 < n -> to_base base n = to_base base (n / base) ++ [n mod base].
Proof.
  intros Hb Hn. unfold to_base at 1. unfold digits_fuel. cbn [to_base_rev].
  rewrite (proj2 (Z.gtb_lt n 0)) by lia. cbn [rev]. f_equal. unfold to_base. f_equal.
  apply to_base_rev_fuel; [done| |apply digits_fuel_enough].
  pose proof (log2_bound n ltac:(lia)) as H. rewrite Nat2Z.inj_succ, Z.pow_succ_r in H by lia.
  assert (n / base <= n / 2) by (apply Z.div_le_compat_l; lia). dlia.
Qed.

Lemma to_base_0 base n : n <= 0 -> to_base base n = [].
Proof. intros. unfold to_base, digits_fuel. cbn. split_if; [lia|done]. Qed.

Lemma from_base_snoc base ds d : from_base base (ds ++ [d]) = from_base base ds * base + d.
Proof. unfold from_base. by rewrite fold_left_app. Qed.

Lemma div_shrinks base n : 2 <= base -> 0 < n -> 0 <= n / base < n.
Proof. intros. split; [apply Z.div_pos; lia|apply Z.div_lt; lia]. Qed.

Lemma from_to_base base n : 2 <= base -> 0 <= n -> from_base base (to_base base n) = n.
Proof.
  intros Hb Hn. revert n Hn. refine (Zlt_0_ind _ _). intros n IH Hn.
  destruct (decide (n = 0)) as [->|]; [by rewrite to_base_0|].
  pose proof (div_shrinks base n Hb ltac:(lia)).
  rewrite to_base_step, from_base_snoc, IH by lia. pose proof (Z.div_mod n base). lia.
Qed.

Lemma from_base_nonneg base ds : 2 <= base -> Forall (fun d => 0 <= d < base) ds -> 0 <= from_base base ds.
Proof.
  intros Hb. induction ds as [|d ds IH] using rev_ind; intros H; [done|].
  apply Forall_app in H as [H1 H2]. inversion_clear H2. rewrite from_base_snoc.
  specialize (IH H1). nia.
Qed.

(** Digits come back without their leading zeros. *)
Lemma to_from_base base ds : 2 <= base -> Forall (fun d => 0 <= d < base) ds ->
  ds = replicate (count_leading 0 ds) 0 ++ to_base base (from_base base ds).
Proof.
  intros Hb. induction ds as [|d ds IH] using rev_ind; intros H; [done|].
  apply Forall_app in H as [H1 H2]. inversion_clear H2 as [|?? Hd _].
  pose proof (from_base_nonneg base ds Hb H1) as Hn. specialize (IH H1).
  rewrite from_base_snoc. destruct (decide (from_base base ds = 0)) as [E|E].
  - rewrite E, to_base_0, app_nil_r in IH by lia. rewrite E, Z.mul_0_l, Z.add_0_l.
    set (k := count_leading 0 ds) in IH. rewrite IH.
    assert (forall k, count_leading 0 (replicate k 0 ++ [d]) = if d =? 0 then S k else k) as Hc.
    { clear. induction k as [|k IH]; cbn; [by destruct (d =? 0)|]. rewrite IH. by destruct (d =? 0). }
    rewrite Hc. destruct (Z.eqb_spec d 0) as [->|].
    + rewrite to_base_0, app_nil_r by lia. by rewrite <- (replicate_cons_app k 0).
    + rewrite to_base_step, Z.div_small, Z.mod_small, to_base_0 by lia. done.
  - rewrite to_base_step by nia. rewrite Z.div_add_l, Z.div_small, Z.add_0_r by lia.
    rewrite (Z.add_comm _ d), Z.mod_add, Z.mod_small by lia.
    assert (count_leading 0 (ds ++ [d]) = count_leading 0 ds) as ->; [|by rewrite app_assoc, <- IH].
    assert (Exists (fun x => x <> 0) ds) as He.
    { apply not_Forall_Exists; [apply _|]. intros Hall. apply E. clear -Hall.
      unfold from_base. induction Hall as [|x l Hx ? IH]; [done|]. cbn. rewrite (Hx : x = 0). done. }
    clear -He. induction He as [x l Hx|x l _ IH]; cbn.
    + by rewrite (proj2 (Z.eqb_neq x 0)).
    + destruct (x =? 0); cbn; congruence.
Qed.

(** ** The alphabet *)

Lemma base58_index_char d : 0 <= d < 58 -> base58_index (base58_char d) = d.
Proof.
  intros Hd.
  assert (forallb (fun i => base58_index (base58_char (Z.of_nat i)) =? Z.of_nat i) (seq 0 58) = true) as H
    by (vm_compute; reflexivity).
  rewrite forallb_forall in H. specialize (H (Z.to_nat d) ltac:(apply in_seq; lia)).
  rewrite Z2Nat.id in H by lia. by breflect.
Qed.

Lemma base58_char_index c : 0 <= base58_index c ->
  base58_char (base58_index c) = c /\ 0 <= base58_index c < 58.
Proof.
  intros H. unfold base58_index in *. apply IndexByte_found in H as [H1 H2].
  split; [done|]. exact H1.
Qed.

Lemma base58_char_49 d : 0 <= d < 58 -> (base58_char d =? 49) = (d =? 0).
Proof.
  intros Hd. destruct (Z.eqb_spec d 0) as [->|Hne]; [done|]. apply Z.eqb_neq. intros E.
  apply Hne. rewrite <- (base58_index_char d), E by done. done.
Qed.

Lemma count_leading_chars ds : Forall (fun d => 0 <= d < 58) ds ->
  count_leading 49 (map base58_char ds) = count_leading 0 ds.
Proof.
  induction 1 as [|d ds Hd _ IH]; [done|]. cbn [count_leading map]. rewrite base58_char_49 by done.
  destruct (d =? 0); cbn; congruence.
Qed.

Lemma decode_loop_chars ds n : Forall (fun d => 0 <= d < 58) ds ->
  decode_loop n (map base58_char ds) = Some (fold_left (fun n d => n * 58 + d) ds n).
Proof.
  intros H. revert n. induction H as [|d ds Hd _ IH]; intros n; [done|]. cbn [map decode_loop fold_left].
  rewrite base58_index_char by done. cbv zeta. rewrite (proj2 (Z.ltb_ge d 0)) by lia. apply IH.
Qed.

Lemma decode_loop_digits s n v : decode_loop n s = Some v ->
  exists ds, Forall (fun d => 0 <= d < 58) ds /\ s = map base58_char ds.
Proof.
  revert n. induction s as [|c s IH]; intros n H; [by exists []|]. cbn [decode_loop] in H. cbv zeta in H.
  destruct (base58_index c <? 0) eqn:E; [done|]. breflect.
  apply base58_char_index in E as [E1 E2]. apply IH in H as (ds & Hds & ->).
  exists (base58_index c :: ds). split; [by constructor|]. cbn [map]. by rewrite E1.
Qed.

(** ** Lengths *)

Lemma from_base_bound base ds : 2 <= base -> Forall (fun d => 0 <= d < base) ds ->
  from_base base ds < base ^ len ds.
Proof.
  intros Hb. induction ds as [|d ds IH] using rev_ind; intros H; [done|].
  apply Forall_app in H as [H1 H2]. inversion_clear H2. rewrite from_base_snoc, len_app.
  change (len [d]) with 1. rewrite Z.pow_add_r by (pose proof (len_nonneg ds); lia).
  specialize (IH H1). nia.
Qed.

Lemma to_base_digits base n : 2 <= base -> 0 <= n -> Forall (fun d => 0 <= d < base) (to_base base n).
Proof.
  intros Hb Hn. revert n Hn. refine (Zlt_0_ind _ _). intros n IH Hn.
  destruct (decide (n = 0)) as [->|]; [rewrite to_base_0 by lia; constructor|].
  rewrite to_base_step by lia. apply Forall_app. split; [apply IH, div_shrinks; lia|].
  constructor; [apply Z.mod_pos_bound; lia|constructor].
Qed.

Lemma to_base_length base n k : 2 <= base -> 0 <= n -> 0 <= k -> n < base ^ k -> len (to_base base n) <= k.
Proof.
  intros Hb Hn. revert n Hn k.
  refine (Zlt_0_ind (fun n => forall k, 0 <= k -> n < base ^ k -> len (to_base base n) <= k) _).
  intros n IH Hn k Hk H. destruct (decide (n = 0)) as [->|]; [by rewrite to_base_0|].
  assert (0 < k) by (destruct (decide (k = 0)) as [->|]; [change (base ^ 0) with 1 in H|]; lia).
  rewrite to_base_step, len_app by lia. change (len [n mod base]) with 1.
  enough (len (to_base base (n / base)) <= k - 1) by lia.
  apply IH; [apply div_shrinks; lia|lia|].
  replace k with (1 + (k - 1)) in H by lia. rewrite Z.pow_add_r, Z.pow_1_r in H by lia.
  apply Z.div_lt_upper_bound; lia.
Qed.

Lemma pow_256_58 m k : 0 <= m -> 0 <= k -> 11 * m <= 8 * k -> 256 ^ m <= 58 ^ k.
Proof.
  intros Hm Hk H. apply (Z.pow_le_mono_l_iff _ _ 8); [apply Z.pow_nonneg; lia..|lia|].
  rewrite <- !Z.pow_mul_r by lia. transitivity (58 ^ (11 * m)).
  - rewrite (Z.mul_comm m 8), !Z.pow_mul_r by lia. apply Z.pow_le_mono_l. split; [by vm_compute|].
    by vm_compute.
  - rewrite (Z.mul_comm k 8). apply Z.pow_le_mono_r; lia.
Qed.

(** ** The two conversions are inverse *)

Lemma rev_replicate_same {A} k (x : A) : rev (replicate k x) = replicate k x.
Proof. induction k as [|k IH]; [done|]. cbn. rewrite IH. symmetry. apply (replicate_cons_app k x). Qed.

Lemma encodeBase58_digits b :
  encodeBase58 b = map base58_char (replicate (count_leading 0 b) 0 ++ to_base 58 (big_SetBytes b)).
Proof.
  unfold encodeBase58. rewrite rev_app_distr, map_app, rev_replicate_same, <- map_rev.
  f_equal. symmetry. exact (fmap_replicate base58_char _ 0).
Qed.

Lemma is_bytes_digits b : is_bytes b <-> Forall (fun d => 0 <= d < 256) b.
Proof. done. Qed.

Lemma encode_digits_valid b : is_bytes b ->
  Forall (fun d => 0 <= d < 58) (replicate (count_leading 0 b) 0 ++ to_base 58 (big_SetBytes b)).
Proof.
  intros Hb. apply Forall_app. split; [apply Forall_replicate; lia|].
  apply to_base_digits; [lia|]. by apply from_base_nonneg.
Qed.

Lemma from_base_zeros base k ds : from_base base (replicate k 0 ++ ds) = from_base base ds.
Proof. unfold from_base. rewrite fold_left_app. f_equal. induction k; [done|]. exact IHk. Qed.

(** No digit of a number starts with zero. *)
Lemma to_base_no_zero base n : 2 <= base -> 0 <= n -> count_leading 0 (to_base base n) = O.
Proof.
  intros Hb Hn. pose proof (to_from_base base (to_base base n) Hb (to_base_digits base n Hb Hn)) as H.
  rewrite from_to_base in H by done. apply (f_equal List.length) in H.
  rewrite length_app, length_replicate in H. lia.
Qed.

Lemma count_leading_zeros k ds : count_leading 0 (replicate k 0 ++ ds) = (k + count_leading 0 ds)%nat.
Proof. induction k; cbn; congruence. Qed.

Lemma encodeBase58_short b : is_bytes b -> (List.length b <= 64)%nat -> len (encodeBase58 b) <= 88.
Proof.
  intros Hb Hl. rewrite encodeBase58_digits. unfold len. rewrite length_map, length_app, length_replicate.
  set (z := count_leading 0 b).
  pose proof (to_from_base 256 b ltac:(lia) Hb) as Hz. fold z in Hz.
  set (n := big_SetBytes b). change (from_base 256 b) with n in Hz.
  assert (0 <= n) as Hn by (by apply from_base_nonneg).
  set (m := len (to_base 256 n)).
  assert (Z.of_nat z + m <= 64) as Hm.
  { apply (f_equal len) in Hz. rewrite len_app in Hz. unfold m, len in *. rewrite length_replicate in Hz. lia. }
  assert (0 <= m) by apply len_nonneg.
  assert (n < 256 ^ m) as Hlt.
  { unfold m. rewrite <- (from_to_base 256 n) at 1 by lia. apply from_base_bound; [lia|].
    apply to_base_digits; lia. }
  assert (len (to_base 58 n) <= 88 - Z.of_nat z) as Hd.
  { apply to_base_length; [lia..|]. eapply Z.lt_le_trans; [exact Hlt|]. apply pow_256_58; lia. }
  unfold len in Hd. lia.
Qed.

(** Every non-empty byte string of up to 64 bytes (a 32-byte public key, a
64-byte signature, a 25-byte address) is encoded in at most 88 characters and
decoded back at its length. *)
Theorem decode_encodeBase58 b :
  is_bytes b -> (0 < List.length b <= 64)%nat ->
  len (encodeBase58 b) <= 88 /\ decodeBase58 (encodeBase58 b) (len b) = Some b.
Proof.
  intros Hb Hl. pose proof (encodeBase58_short b Hb ltac:(lia)) as Hs. split; [done|].
  assert (encodeBase58 b <> []) as Hne.
  { rewrite encodeBase58_digits. intros E. apply map_eq_nil, app_eq_nil in E as [E1 E2].
    pose proof (to_from_base 256 b ltac:(lia) Hb) as Hz. rewrite E1 in Hz.
    change (from_base 256 b) with (big_SetBytes b) in Hz.
    assert (0 <= big_SetBytes b) as Hn by (by apply from_base_nonneg).
    assert (big_SetBytes b = 0) as E0 by (rewrite <- (from_to_base 58 (big_SetBytes b)) by lia; by rewrite E2).
    rewrite E0 in Hz. apply (f_equal List.length) in Hz. cbn in Hz. lia. }
  unfold decodeBase58. rewrite (proj2 (orb_false_iff _ _)) by (split; [lia|by apply bool_decide_eq_false]).
  rewrite encodeBase58_digits. pose proof (encode_digits_valid b Hb) as Hv.
  rewrite decode_loop_chars, count_leading_chars by done. cbn [mbind option_bind].
  fold (from_base 58 (replicate (count_leading 0 b) 0 ++ to_base 58 (big_SetBytes b))).
  assert (0 <= big_SetBytes b) by (by apply from_base_nonneg).
  rewrite from_base_zeros, from_to_base, count_leading_zeros, to_base_no_zero, Nat.add_0_r by lia.
  unfold big_Bytes, big_SetBytes. rewrite <- (to_from_base 256 b ltac:(lia) Hb).
  by rewrite Z.eqb_refl.
Qed.

Lemma decode_encodeBase58_witness :
  decodeBase58 (encodeBase58 [0; 0; 58; 255]) 4 = Some [0; 0; 58; 255].
Proof.
  apply (decode_encodeBase58 [0; 0; 58; 255]); [repeat constructor; by vm_compute|cbn; lia].
Defined.

(** A text accepted by [decodeBase58] is the one [encodeBase58] produces for
its value: a key or signature of a given size has a single accepted spelling, and
what is returned has the requested size. *)
Theorem encode_decodeBase58 s size b :
  decodeBase58 s size = Some b -> encodeBase58 b = s /\ len b = size /\ is_bytes b.
Proof.
  unfold decodeBase58. destruct (_ || _); [done|]. intros H.
  apply bind_Some in H as (n & Hn & H). split_if_in H; [done|]. breflect.
  destruct (decode_loop_digits s 0 n Hn) as (ds & Hds & ->).
  rewrite decode_loop_chars in Hn by done. injection Hn as <-. fold (from_base 58 ds) in *.
  rewrite count_leading_chars in * by done. injection H as <-.
  assert (0 <= from_base 58 ds) as Hp by (by apply from_base_nonneg).
  split_and!; [|done|].
  - rewrite encodeBase58_digits. unfold big_SetBytes, big_Bytes.
    rewrite from_base_zeros, from_to_base, count_leading_zeros, to_base_no_zero, Nat.add_0_r by lia.
    by rewrite <- (to_from_base 58 ds ltac:(lia) Hds).
  - apply Forall_app. split; [apply Forall_replicate; unfold is_byte; lia|]. apply to_base_digits; lia.
Qed.

Lemma encode_decodeBase58_witness : encodeBase58 [0; 0; 58; 235] = str "115V4".
Proof.
  apply (encode_decodeBase58 (str "115V4") 4 [0; 0; 58; 235]). vm_compute. reflexivity.
Defined.
