(* ===== verification/Netip.v ===== *)
(** * net/netip as the relay uses it

Addresses, their classification predicates, prefixes, and the parsers
[ParseAddr] and [ParseAddrPort] of Go's [net/netip], with [net.SplitHostPort].
An IPv4 address is its 32-bit value, an IPv6 address its 128-bit value with a
zone; an IPv4-mapped IPv6 address is the IPv6 one until [Unmap]. *)

From stdpp Require Import base list numbers.
From Stdlib Require Import ZArith Lia String.
From S2P Require Import Prelude.
From S2P Require Import GoStrings.

Local Open Scope Z_scope.

Inductive Addr :=
| AInvalid
| A4 (v : Z)
| A6 (v : Z) (zone : gostring).

#[export] Instance Addr_eq_dec : EqDecision Addr.
Proof. solve_decision. Defined.

Record AddrPort := { ap_addr : Addr; ap_port : Z }.

#[export] Instance AddrPort_eq_dec : EqDecision AddrPort.
Proof. solve_decision. Defined.

(** Values that fit the representation. *)
Definition addr_wf (a : Addr) : Prop :=
  match a with
  | AInvalid => True
  | A4 v => 0 <= v < 2 ^ 32
  | A6 v _ => 0 <= v < 2 ^ 128
  end.

(** ** Predicates *)

Definition Addr_IsValid (a : Addr) : bool := match a with AInvalid => false | _ => true end.
Definition Is4 (a : Addr) : bool := match a with A4 _ => true | _ => false end.
Definition Is6 (a : Addr) : bool := match a with A6 _ _ => true | _ => false end.
Definition Zone (a : Addr) : gostring := match a with A6 _ z => z | _ => [] end.
Definition Is4In6 (a : Addr) : bool :=
  match a with A6 v _ => Z.shiftr v 32 =? 0xffff | _ => false end.
Definition Unmap (a : Addr) : Addr :=
  match a with
  | A6 v _ => if Is4In6 a then A4 (Z.land v 0xffffffff) else a
  | _ => a
  end.

(** Octet [i] of an IPv4 address and byte [i] of an IPv6 one. *)
Definition v4 (v : Z) (i : Z) : Z := Z.land (Z.shiftr v (24 - 8 * i)) 0xff.
Definition v6 (v : Z) (i : Z) : Z := Z.land (Z.shiftr v (120 - 8 * i)) 0xff.
Definition As4 (a : Addr) : Z * Z * Z * Z :=
  match a with A4 v => (v4 v 0, v4 v 1, v4 v 2, v4 v 3) | _ => (0, 0, 0, 0) end.

Definition IsUnspecified (a : Addr) : bool :=
  bool_decide (a = A4 0) || bool_decide (a = A6 0 []).
Definition IsLoopback (a : Addr) : bool :=
  match Unmap a with
  | A4 v => v4 v 0 =? 127
  | A6 v _ => v =? 1
  | AInvalid => false
  end.
Definition IsMulticast (a : Addr) : bool :=
  match Unmap a with
  | A4 v => Z.land (v4 v 0) 0xf0 =? 0xe0
  | A6 v _ => Z.shiftr v 120 =? 0xff
  | AInvalid => false
  end.
Definition IsLinkLocalUnicast (a : Addr) : bool :=
  match Unmap a with
  | A4 v => (v4 v 0 =? 169) && (v4 v 1 =? 254)
  | A6 v _ => Z.land (Z.shiftr v 112) 0xffc0 =? 0xfe80
  | AInvalid => false
  end.
Definition IsPrivate (a : Addr) : bool :=
  match Unmap a with
  | A4 v => (v4 v 0 =? 10) || ((v4 v 0 =? 172) && (Z.land (v4 v 1) 0xf0 =? 16))
            || ((v4 v 0 =? 192) && (v4 v 1 =? 168))
  | A6 v _ => Z.land (v6 v 0) 0xfe =? 0xfc
  | AInvalid => false
  end.
Definition IsGlobalUnicast (a : Addr) : bool :=
  match Unmap a with
  | AInvalid => false
  | A4 v => negb (v =? 0) && negb (v =? 0xffffffff)
            && negb (IsLoopback (A4 v)) && negb (IsMulticast (A4 v)) && negb (IsLinkLocalUnicast (A4 v))
  | A6 v z => negb (bool_decide (A6 v z = A6 0 []))
              && negb (IsLoopback (A6 v z)) && negb (IsMulticast (A6 v z)) && negb (IsLinkLocalUnicast (A6 v z))
  end.
Definition AsSlice_len (a : Addr) : Z := match a with AInvalid => 0 | A4 _ => 4 | A6 _ _ => 16 end.

(** [Prefix.Contains] for a valid IPv6 prefix: an address with a zone, and one of
the other family, is in none. *)
Definition Prefix6_Contains (prefix bits : Z) (a : Addr) : bool :=
  match a with
  | A6 v zone => bool_decide (zone = []) && (Z.shiftr (Z.lxor v prefix) (128 - bits) =? 0)
  | _ => false
  end.

Definition AddrPort_IsValid (p : AddrPort) : bool := Addr_IsValid (ap_addr p).
Definition AddrPortFrom (a : Addr) (port : Z) : AddrPort := {| ap_addr := a; ap_port := port |}.

(** ** Parsing *)

(** One decimal octet: digits, no leading zero, at most 255. *)
Definition parse_octet (s : gostring) : option Z :=
  match s with
  | 48 :: _ :: _ => None
  | _ => v ← parse_digits s; if v <=? 255 then Some v else None
  end.
Definition parseIPv4Fields (s : gostring) : option Z :=
  match Split s 46 with
  | [a; b; c; d] =>
    a ← parse_octet a; b ← parse_octet b; c ← parse_octet c; d ← parse_octet d;
    Some (((a * 256 + b) * 256 + c) * 256 + d)
  | _ => None
  end.

(** Leading hexadecimal digits, with their value. *)
Fixpoint span_hex (acc : Z) (n : nat) (s : gostring) : Z * nat * gostring :=
  match s with
  | c :: s' => match hex_value c with
               | Some d => span_hex (acc * 16 + d) (S n) s'
               | None => (acc, n, s)
               end
  | [] => (acc, n, [])
  end.

(** State of the group loop: the bytes read so far and where the ellipsis was. *)
Record groups := { g_bytes : list Z; g_ellipsis : option nat }.

(** The loop reads at most eight groups; the [nat] counts the ones left. *)
Fixpoint parse6_loop (more : nat) (s : gostring) (g : groups) : option (gostring * groups) :=
  match more with
  | O => Some (s, g)
  | S more =>
    let '(acc, n, r) := span_hex 0 0 s in
    let i := List.length (g_bytes g) in
    if (4 <? n)%nat || (n =? 0)%nat then None
    else match r with
    | 46 :: _ =>
      if bool_decide (g_ellipsis g = None) && negb (i =? 12)%nat then None
      else if (16 <? i + 4)%nat then None
      else v ← parseIPv4Fields s;
           Some ([], {| g_bytes := g_bytes g ++ be_bytes 4 v; g_ellipsis := g_ellipsis g |})
    | _ =>
      let g := {| g_bytes := g_bytes g ++ be_bytes 2 acc; g_ellipsis := g_ellipsis g |} in
      match r with
      | [] => Some ([], g)
      | 58 :: [] => None
      | 58 :: 58 :: r =>
        match g_ellipsis g with
        | Some _ => None
        | None =>
          let g := {| g_bytes := g_bytes g; g_ellipsis := Some (List.length (g_bytes g)) |} in
          match r with [] => Some ([], g) | _ => parse6_loop more r g end
        end
      | 58 :: r => parse6_loop more r g
      | _ => None
      end
    end
  end.

(** Expand the ellipsis to fill sixteen bytes. *)
Definition expand (g : groups) : option Z :=
  let i := List.length (g_bytes g) in
  match g_ellipsis g with
  | None => if (i <? 16)%nat then None else Some (be_value (g_bytes g))
  | Some e =>
    if (i <? 16)%nat
    then Some (be_value (take e (g_bytes g) ++ replicate (16 - i) 0 ++ drop e (g_bytes g)))
    else None
  end.

Definition split_zone (s : gostring) : option (gostring * gostring) :=
  let i := IndexByte s 37 in
  if i =? -1 then Some (s, [])
  else match drop (S (Z.to_nat i)) s with
       | [] => None
       | zone => Some (take (Z.to_nat i) s, zone)
       end.

(** The groups, with an ellipsis before them or not. *)
Definition parse_body (e : option nat) (s zone : gostring) : option Addr :=
  '(r, g) ← parse6_loop 8 s {| g_bytes := []; g_ellipsis := e |};
  match r with
  | [] => v ← expand g; Some (A6 v zone)
  | _ => None
  end.

(** What follows a leading ellipsis. *)
Definition leading_gap (s : gostring) : option gostring := match s with 58 :: 58 :: r => Some r | _ => None end.

Definition parseIPv6 (s : gostring) : option Addr :=
  '(s, zone) ← split_zone s;
  match leading_gap s with
  | Some [] => Some (A6 0 zone)
  | Some r => parse_body (Some 0%nat) r zone
  | None => parse_body None s zone
  end.

(** The first of [.], [:] and [%] decides the family. *)
Fixpoint ParseAddr_from (rest s : gostring) : option Addr :=
  match rest with
  | [] => None
  | c :: rest =>
    if c =? 46 then v ← parseIPv4Fields s; Some (A4 v)
    else if c =? 58 then parseIPv6 s
    else if c =? 37 then None
    else ParseAddr_from rest s
  end.
Definition ParseAddr (s : gostring) : option Addr := ParseAddr_from s s.

(** [net.ParseIP]: no zones; the 16-byte form, so IPv4 is kept mapped. *)
Definition ParseIP (s : gostring) : option Addr :=
  a ← ParseAddr s;
  match Zone a with [] => Some (Unmap a) | _ => None end.

Definition ParseAddrPort (s : gostring) : option AddrPort :=
  let i := LastIndexByte s 58 in
  if i =? -1 then None
  else
    let ip := take (Z.to_nat i) s in
    let port := drop (S (Z.to_nat i)) s in
    if bool_decide (ip = []) || bool_decide (port = []) then None
    else
      '(ip, v6) ←
        match ip with
        | 91 :: r => match rev r with
                     | 93 :: m => Some (rev m, true)
                     | _ => None
                     end
        | _ => Some (ip, false)
        end;
      p ← ParseUint 16 port;
      a ← ParseAddr ip;
      if (v6 && Is4 a) || (negb v6 && Is6 a) then None else Some (AddrPortFrom a p).

(** ** Printing *)

Definition string_v4 (v : Z) : gostring :=
  FormatUint (v4 v 0) ++ 46 :: FormatUint (v4 v 1) ++ 46 :: FormatUint (v4 v 2) ++ 46 :: FormatUint (v4 v 3).

(** The 16-bit group [i] of an IPv6 value and its shortest hexadecimal form. *)
Definition v6u16 (v : Z) (i : nat) : Z := Z.land (Z.shiftr v (112 - 16 * Z.of_nat i)) 0xffff.
Definition appendHex (x : Z) : gostring :=
  (if x >=? 0x1000 then [hex_digit (Z.shiftr x 12)] else [])
  ++ (if x >=? 0x100 then [hex_digit (Z.land (Z.shiftr x 8) 0xf)] else [])
  ++ (if x >=? 0x10 then [hex_digit (Z.land (Z.shiftr x 4) 0xf)] else [])
  ++ [hex_digit (Z.land x 0xf)].

(** The first longest run of at least two zero groups, as start and end. *)
Fixpoint zero_run_end (v : Z) (fuel j : nat) : nat :=
  match fuel with
  | O => j
  | S fuel => if (v6u16 v j =? 0) then zero_run_end v fuel (S j) else j
  end.
Definition zero_run (v : Z) : option (nat * nat) :=
  fold_left (fun best i =>
    let j := zero_run_end v (8 - i) i in
    let width := match best with None => O | Some (s, e) => (e - s)%nat end in
    if (2 <=? j - i)%nat && (width <? j - i)%nat then Some (i, j) else best) (seq 0 8) None.

Definition string_v6 (v : Z) : gostring :=
  let group i := appendHex (v6u16 v i) in
  match zero_run v with
  | None => Join (map group (seq 0 8)) [58]
  | Some (s, e) => Join (map group (seq 0 s)) [58] ++ [58; 58] ++ Join (map group (seq e (8 - e))) [58]
  end.

(** [Addr.String] and [AddrPort.String] *)
Definition with_zone (s z : gostring) : gostring := match z with [] => s | _ => s ++ 37 :: z end.
Definition Addr_String (a : Addr) : gostring :=
  match a with
  | AInvalid => str "invalid IP"
  | A4 v => string_v4 v
  | A6 v z =>
    with_zone (if Is4In6 a then str "::ffff:" ++ string_v4 (Z.land v 0xffffffff) else string_v6 v) z
  end.
Definition AddrPort_String (p : AddrPort) : gostring :=
  match ap_addr p with
  | AInvalid => str "invalid AddrPort"
  | A4 v => string_v4 v ++ 58 :: FormatUint (ap_port p)
  | a => 91 :: Addr_String a ++ [93; 58] ++ FormatUint (ap_port p)
  end.

(** [net.SplitHostPort] *)
Definition SplitHostPort (s : gostring) : option (gostring * gostring) :=
  let i := LastIndexByte s 58 in
  if i <? 0 then None
  else
    let host_part := take (Z.to_nat i) s in
    let port := drop (S (Z.to_nat i)) s in
    match s with
    | 91 :: _ =>
      let e := IndexByte s 93 in
      if e <? 0 then None
      else if e + 1 =? i then
        let host := take (Z.to_nat (e - 1)) (drop 1 s) in
        if contains_byte (drop 1 s) 91 || contains_byte (drop (Z.to_nat (e + 1)) s) 93 then None
        else Some (host, port)
      else None
    | _ =>
      if contains_byte host_part 58 then None
      else if contains_byte s 91 || contains_byte s 93 then None
      else Some (host_part, port)
    end.

Example parse_v4 : ParseAddrPort (str "203.0.113.9:443") = Some (AddrPortFrom (A4 0xcb007109) 443).
Proof. vm_compute. reflexivity. Qed.
Example parse_v6 :
  ParseAddrPort (str "[2001:db8::1:0:203.0.113.9%eth0]:53")
  = Some (AddrPortFrom (A6 0x20010db80000000000010000cb007109 (str "eth0")) 53).
Proof. vm_compute. reflexivity. Qed.
Example parse_mapped : option_map (fun p => Unmap (ap_addr p)) (ParseAddrPort (str "[::ffff:127.0.0.1]:53"))
  = Some (A4 0x7f000001).
Proof. vm_compute. reflexivity. Qed.
Example parse_rejects : map ParseAddrPort
  [str "1.2.3.04:1"; str "1.2.3:1"; str "1::2::3"; str "[1.2.3.4]:1"; str "::1:2"; str "[1:2:3:4:5:6:7:8:9]:1";
   str "[1::2%]:3"; str "1.2.3.4:65536"; str "host:1"; str "[1:2:3:4:5:6:7:8::]:1"; str "1.2.3.4:+5"]
  = replicate 11 None.
Proof. vm_compute. reflexivity. Qed.
Example print_addrs : map (fun s => option_map AddrPort_String (ParseAddrPort s))
  [str "203.0.113.9:443"; str "[2001:db8:0:0:1:0:0:1]:53"; str "[::]:1"; str "[::ffff:1.2.3.4]:7"; str "[1:0:3:4:5:6:0:0%x]:8"]
  = map Some
  [str "203.0.113.9:443"; str "[2001:db8::1:0:0:1]:53"; str "[::]:1"; str "[::ffff:1.2.3.4]:7"; str "[1:0:3:4:5:6::%x]:8"].
Proof. vm_compute. reflexivity. Qed.
