(* ===== verification/Endpoints.v ===== *)
(** * Texts of endpoints

The relay passes endpoints around as text: the public address goes from the port
mapping to [Start], from there into the metadata, the announcer's arguments and
the URI template, and a client writes its target into the path of its request.
Each text is printed by [netip.AddrPort.String] and read back by
[netip.ParseAddrPort]: here, that nothing is lost on the way. *)

From stdpp Require Import base gmap strings list numbers.
From Stdlib Require Import ZArith Lia.
From S2P Require Import Prelude.
From S2P Require Import GoStrings.
From S2P Require Import Netip.

Local Open Scope Z_scope.

(** ** IPv4 *)

Lemma parse_octet_FormatUint o : 0 <= o <= 255 -> parse_octet (FormatUint o) = Some o.
Proof.
  intros Ho.
  assert (forallb (fun n => bool_decide (parse_octet (FormatUint (Z.of_nat n)) = Some (Z.of_nat n))) (seq 0 256) = true)
    as H by (vm_compute; reflexivity).
  rewrite forallb_forall in H. specialize (H (Z.to_nat o)). rewrite Z2Nat.id in H by lia.
  apply (bool_decide_eq_true_1 (parse_octet (FormatUint o) = Some o)), H, in_seq. lia.
Qed.

Lemma v4_range v i : 0 <= v4 v i <= 255.
Proof.
  unfold v4. change 0xff with (Z.ones 8). rewrite Z.land_ones by lia.
  pose proof (Z.mod_pos_bound (Z.shiftr v (24 - 8 * i)) (2 ^ 8) ltac:(lia)). change (Z.ones 8) with 255. lia.
Qed.

Lemma v4_value v : 0 <= v < 2 ^ 32 -> ((v4 v 0 * 256 + v4 v 1) * 256 + v4 v 2) * 256 + v4 v 3 = v.
Proof.
  intros Hv. unfold v4. change 0xff with (Z.ones 8). rewrite !Z.land_ones, !Z.shiftr_div_pow2 by lia.
  change (2 ^ (24 - 8 * 0)) with 16777216. change (2 ^ (24 - 8 * 1)) with 65536.
  change (2 ^ (24 - 8 * 2)) with 256. change (2 ^ (24 - 8 * 3)) with 1. change (2 ^ 8) with 256. dlia.
Qed.

Lemma octet_digits v i : Forall (fun c => is_digit c = true) (FormatUint (v4 v i)).
Proof. apply FormatUint_digits. apply v4_range. Qed.

Lemma octet_lacks v i c : c < 48 \/ 57 < c -> lacks c (FormatUint (v4 v i)).
Proof. apply digits_lack, octet_digits. Qed.

Lemma string_v4_lacks v c : c < 46 \/ 57 < c -> lacks c (string_v4 v).
Proof.
  intros Hc. unfold string_v4, lacks.
  assert (46 <> c) as Hd by lia.
  repeat (apply Forall_app_2; [apply octet_lacks; lia|constructor; [exact Hd|]]). apply octet_lacks. lia.
Qed.

Lemma parse_string_v4 v : 0 <= v < 2 ^ 32 -> parseIPv4Fields (string_v4 v) = Some v.
Proof.
  intros Hv. unfold parseIPv4Fields, string_v4. rewrite !Split_sep, !Split_lacks by (apply octet_lacks; lia).
  cbn [app]. rewrite !parse_octet_FormatUint by apply v4_range. cbn [mbind option_bind]. by rewrite v4_value.
Qed.

(** The characters before the first dot or colon do not decide the family. *)
Lemma ParseAddr_decide pre c rest : Forall (fun x => x <> 46 /\ x <> 58 /\ x <> 37) pre ->
  ParseAddr (pre ++ c :: rest) = ParseAddr_from (c :: rest) (pre ++ c :: rest).
Proof.
  intros Hpre. unfold ParseAddr.
  assert (forall whole, ParseAddr_from (pre ++ c :: rest) whole = ParseAddr_from (c :: rest) whole) as Hw; [|apply Hw].
  intros whole. induction Hpre as [|x pre (H1 & H2 & H3) _ IH]; [done|]. cbn [app ParseAddr_from].
  by rewrite (proj2 (Z.eqb_neq x 46)), (proj2 (Z.eqb_neq x 58)), (proj2 (Z.eqb_neq x 37)).
Qed.

Lemma ParseAddr_v4 v : 0 <= v < 2 ^ 32 -> ParseAddr (string_v4 v) = Some (A4 v).
Proof.
  intros Hv. pose proof (parse_string_v4 v Hv) as Hp. unfold string_v4 in *.
  rewrite ParseAddr_decide; [cbn [ParseAddr_from Z.eqb Pos.eqb]; by rewrite Hp|].
  eapply List.Forall_impl; [|apply octet_digits]. cbn. intros x Hx. unfold is_digit in Hx. breflect. lia.
Qed.

(** ** Hexadecimal groups *)

Definition u16_group (x : Z) : Prop := 0 <= x < 65536.

(** Sixteen cases. *)
Ltac hex_cases d :=
  let H := fresh in
  assert (d = 0 \/ d = 1 \/ d = 2 \/ d = 3 \/ d = 4 \/ d = 5 \/ d = 6 \/ d = 7 \/ d = 8 \/ d = 9 \/ d = 10
          \/ d = 11 \/ d = 12 \/ d = 13 \/ d = 14 \/ d = 15) as H by lia;
  repeat (destruct H as [->|H]); [..|subst d].

Lemma appendHex_head x : u16_group x -> exists d r, 0 <= d < 16 /\ appendHex x = hex_digit d :: r.
Proof.
  intros Hx. unfold appendHex, u16_group in *. change 0xf with (Z.ones 4). rewrite !Z.land_ones, !Z.shiftr_div_pow2 by lia.
  change (2 ^ 12) with 4096. change (2 ^ 8) with 256. change (2 ^ 4) with 16.
  repeat split_if; breflect; eexists _, _; (split; [|reflexivity]); dlia.
Qed.

Definition hex_stops (r : gostring) : Prop := match r with [] => True | c :: _ => hex_value c = None end.

Lemma span_hex_stop acc n r : hex_stops r -> span_hex acc n r = (acc, n, r).
Proof. destruct r as [|c r]; [done|]. cbn. by intros ->. Qed.

Lemma span_hex_digit acc n d r : 0 <= d < 16 -> span_hex acc n (hex_digit d :: r) = span_hex (acc * 16 + d) (S n) r.
Proof. intros Hd. cbn [span_hex]. by rewrite hex_value_digit. Qed.

Lemma appendHex_span x r : u16_group x -> hex_stops r ->
  exists n, (1 <= n <= 4)%nat /\ span_hex 0 0 (appendHex x ++ r) = (x, n, r).
Proof.
  intros Hx Hr. unfold appendHex, u16_group in *. change 0xf with (Z.ones 4). rewrite !Z.land_ones, !Z.shiftr_div_pow2 by lia.
  change (2 ^ 12) with 4096. change (2 ^ 8) with 256. change (2 ^ 4) with 16.
  repeat split_if; breflect; cbn [app]; rewrite ?span_hex_digit, span_hex_stop by first [done|dlia];
    eexists; (split; [|do 2 f_equal; dlia]); lia.
Qed.

(** ** The group loop *)

Definition group_bytes (xs : list Z) : list Z := flat_map (be_bytes 2) xs.
Definition hex_groups (xs : list Z) : gostring := Join (map appendHex xs) [58].

Definition add_groups (g : groups) (xs : list Z) : groups :=
  {| g_bytes := g_bytes g ++ group_bytes xs; g_ellipsis := g_ellipsis g |}.

Lemma add_groups_cons g x xs : add_groups (add_groups g [x]) xs = add_groups g (x :: xs).
Proof. unfold add_groups. cbn [g_bytes g_ellipsis group_bytes flat_map]. by rewrite app_nil_r, <- app_assoc. Qed.

Lemma hex_groups_head x xs : u16_group x -> exists d r, 0 <= d < 16 /\ hex_groups (x :: xs) = hex_digit d :: r.
Proof.
  intros Hx. destruct (appendHex_head x Hx) as (d & r & Hd & E). unfold hex_groups. cbn [map Join]. rewrite E.
  destruct (map appendHex xs); [by exists d, r|]. exists d. eexists. split; [done|]. cbn. reflexivity.
Qed.

Lemma group_length x n r s : span_hex 0 0 s = (x, n, r) -> (1 <= n <= 4)%nat -> ((4 <? n)%nat || (n =? 0)%nat) = false.
Proof. intros _ Hn. apply orb_false_iff. split; [apply Nat.ltb_ge|apply Nat.eqb_neq]; lia. Qed.

(** One group, followed by another, by the end, and by the ellipsis. *)
Lemma parse6_next more x d r g : u16_group x -> 0 <= d < 16 ->
  parse6_loop (S more) (appendHex x ++ 58 :: hex_digit d :: r) g = parse6_loop more (hex_digit d :: r) (add_groups g [x]).
Proof.
  intros Hx Hd. destruct (appendHex_span x (58 :: hex_digit d :: r) Hx eq_refl) as (n & Hn & E).
  cbn [parse6_loop]. rewrite E, (group_length _ _ _ _ E Hn). unfold add_groups. cbn [group_bytes flat_map]. rewrite app_nil_r.
  hex_cases d; reflexivity.
Qed.

Lemma parse6_last more x g : u16_group x -> parse6_loop (S more) (appendHex x) g = Some ([], add_groups g [x]).
Proof.
  intros Hx. destruct (appendHex_span x [] Hx I) as (n & Hn & E). rewrite app_nil_r in E.
  cbn [parse6_loop]. rewrite E, (group_length _ _ _ _ E Hn). unfold add_groups. cbn [group_bytes flat_map]. by rewrite app_nil_r.
Qed.

Definition with_ellipsis (g : groups) : groups :=
  {| g_bytes := g_bytes g; g_ellipsis := Some (List.length (g_bytes g)) |}.

Lemma parse6_gap more x r g : u16_group x -> g_ellipsis g = None ->
  parse6_loop (S more) (appendHex x ++ 58 :: 58 :: r) g
  = match r with [] => Some ([], with_ellipsis (add_groups g [x])) | _ => parse6_loop more r (with_ellipsis (add_groups g [x])) end.
Proof.
  intros Hx Hg. destruct (appendHex_span x (58 :: 58 :: r) Hx eq_refl) as (n & Hn & E).
  cbn [parse6_loop]. rewrite E, (group_length _ _ _ _ E Hn). cbn [g_ellipsis]. rewrite Hg.
  unfold with_ellipsis, add_groups. cbn [group_bytes flat_map g_bytes g_ellipsis]. by rewrite app_nil_r.
Qed.

Lemma parse6_groups xs more g : Forall u16_group xs -> xs <> [] -> (List.length xs <= more)%nat ->
  parse6_loop more (hex_groups xs) g = Some ([], add_groups g xs).
Proof.
  intros Hxs. revert more g. induction Hxs as [|x xs Hx Hxs IH]; intros more g Hne Hl; [done|].
  destruct more as [|more]; [cbn in Hl; lia|]. destruct xs as [|y ys].
  - unfold hex_groups. cbn [map Join]. by apply parse6_last.
  - change (hex_groups (x :: y :: ys)) with (appendHex x ++ 58 :: hex_groups (y :: ys)).
    pose proof (IH more (add_groups g [x]) ltac:(done) ltac:(cbn in *; lia)) as IH'.
    inversion_clear Hxs as [|? ? Hy Hys]. destruct (hex_groups_head y ys Hy) as (d & r & Hd & E). rewrite E in *.
    by rewrite parse6_next, IH', add_groups_cons.
Qed.

Lemma parse6_groups_gap xs more r g : Forall u16_group xs -> xs <> [] -> (List.length xs <= more)%nat -> g_ellipsis g = None ->
  parse6_loop more (hex_groups xs ++ 58 :: 58 :: r) g
  = match r with [] => Some ([], with_ellipsis (add_groups g xs))
               | _ => parse6_loop (more - List.length xs) r (with_ellipsis (add_groups g xs)) end.
Proof.
  intros Hxs. revert more g. induction Hxs as [|x xs Hx Hxs IH]; intros more g Hne Hl Hg; [done|].
  destruct more as [|more]; [cbn in Hl; lia|]. destruct xs as [|y ys].
  - unfold hex_groups. cbn [map Join]. rewrite parse6_gap by done. cbn [List.length Nat.sub]. by rewrite Nat.sub_0_r.
  - change (hex_groups (x :: y :: ys) ++ 58 :: 58 :: r) with ((appendHex x ++ 58 :: hex_groups (y :: ys)) ++ 58 :: 58 :: r).
    pose proof (IH more (add_groups g [x]) ltac:(done) ltac:(cbn in *; lia) Hg) as IH'.
    inversion_clear Hxs as [|? ? Hy Hys]. destruct (hex_groups_head y ys Hy) as (d & s & Hd & E). rewrite E in *.
    rewrite <- app_assoc. cbn [app] in *. rewrite parse6_next, IH', add_groups_cons by done. done.
Qed.

(** ** The groups of an address *)

Definition v6_groups (v : Z) : list Z := map (v6u16 v) (seq 0 8).

Lemma v6u16_value v i : (i < 8)%nat -> v6u16 v i = v / 2 ^ (112 - 16 * Z.of_nat i) mod 65536.
Proof.
  intros Hi. unfold v6u16. change 0xffff with (Z.ones 16). rewrite Z.land_ones, Z.shiftr_div_pow2 by lia. done.
Qed.

Lemma v6u16_range v i : (i < 8)%nat -> u16_group (v6u16 v i).
Proof. intros Hi. rewrite v6u16_value by done. unfold u16_group. apply Z.mod_pos_bound. lia. Qed.

Lemma seq_groups v a n : (a + n <= 8)%nat -> Forall u16_group (map (v6u16 v) (seq a n)).
Proof. intros Ha. apply Forall_map, List.Forall_forall. intros i Hi%in_seq. cbn. apply v6u16_range. lia. Qed.

(** The bytes of a group are bytes of the address. *)
Lemma group_byte v k a b : 0 <= k -> a = 2 ^ k -> b = 2 ^ (k + 8) ->
  be_bytes 2 (v / a mod 65536) = [v / b mod 256; v / a mod 256].
Proof.
  intros Hk -> ->. cbn [be_bytes]. change (256 ^ Z.of_nat 1) with 256. change (256 ^ Z.of_nat 0) with 1.
  rewrite Z.pow_add_r, <- Z.div_div, Z.div_1_r by lia. change (2 ^ 8) with 256. set (q := v / 2 ^ k).
  f_equal; [|f_equal]; dlia.
Qed.

Lemma v6_bytes v : be_bytes 16 v = group_bytes (v6_groups v).
Proof.
  unfold v6_groups, group_bytes. cbn [seq map flat_map]. rewrite !v6u16_value by lia.
  rewrite (group_byte v 112 _ (2 ^ 120)), (group_byte v 96 _ (2 ^ 104)), (group_byte v 80 _ (2 ^ 88)),
    (group_byte v 64 _ (2 ^ 72)), (group_byte v 48 _ (2 ^ 56)), (group_byte v 32 _ (2 ^ 40)),
    (group_byte v 16 _ (2 ^ 24)), (group_byte v 0 _ (2 ^ 8)) by (lia || reflexivity).
  reflexivity.
Qed.

Lemma v6_value v : 0 <= v < 2 ^ 128 -> be_value (group_bytes (v6_groups v)) = v.
Proof. intros Hv. rewrite <- v6_bytes, be_value_be_bytes. apply Z.mod_small. exact Hv. Qed.

(** ** The run of zero groups *)

Lemma zero_run_end_spec v fuel j : let e := zero_run_end v fuel j in
  (j <= e <= j + fuel)%nat /\ forall i, (j <= i < e)%nat -> v6u16 v i = 0.
Proof.
  revert j. induction fuel as [|fuel IH]; intros j; cbn [zero_run_end]; [split; intros; lia|].
  destruct (Z.eqb_spec (v6u16 v j) 0) as [Hz|]; [|split; intros; lia].
  destruct (IH (S j)) as [H1 H2]. split; [lia|]. intros i Hi. destruct (decide (i = j)) as [->|]; [done|]. apply H2. lia.
Qed.

Lemma zero_run_spec v s e : zero_run v = Some (s, e) ->
  (s + 2 <= e <= 8)%nat /\ forall i, (s <= i < e)%nat -> v6u16 v i = 0.
Proof.
  unfold zero_run.
  assert (forall l best, (forall i, In i l -> (i < 8)%nat) ->
    (forall s e, best = Some (s, e) -> (s + 2 <= e <= 8)%nat /\ forall i, (s <= i < e)%nat -> v6u16 v i = 0) ->
    forall s e, fold_left (fun best i =>
      let j := zero_run_end v (8 - i) i in
      let width := match best with None => O | Some (s, e) => (e - s)%nat end in
      if (2 <=? j - i)%nat && (width <? j - i)%nat then Some (i, j) else best) l best = Some (s, e) ->
    (s + 2 <= e <= 8)%nat /\ forall i, (s <= i < e)%nat -> v6u16 v i = 0) as H.
  { induction l as [|i l IH]; intros best Hl Hb s0 e0 Hf; [by apply Hb|]. cbn [fold_left] in Hf. cbv zeta in Hf.
    refine (IH _ _ _ s0 e0 Hf); [intros k Hk; apply Hl; by right|]. intros s1 e1 E. revert E. split_if; [|apply Hb].
    destruct (zero_run_end_spec v (8 - i) i) as [H1 H2]. intros [= <- <-].
    match goal with H : _ = true |- _ => apply andb_prop in H as [H%Nat.leb_le _] end.
    assert (i < 8)%nat by (apply Hl; by left). split; [lia|exact H2]. }
  apply H; [|done]. intros i Hi%in_seq. lia.
Qed.

Lemma zero_groups v s n : (forall i, (s <= i < s + n)%nat -> v6u16 v i = 0) ->
  group_bytes (map (v6u16 v) (seq s n)) = replicate (2 * n) 0.
Proof.
  revert s. induction n as [|n IH]; intros s Hz; [done|]. cbn [seq map group_bytes flat_map]. rewrite Hz by lia.
  fold (group_bytes (map (v6u16 v) (seq (S s) n))). rewrite IH by (intros; apply Hz; lia).
  replace (2 * S n)%nat with (S (S (2 * n))) by lia. done.
Qed.

Lemma length_group_bytes xs : List.length (group_bytes xs) = (2 * List.length xs)%nat.
Proof. induction xs as [|x xs IH]; [done|]. cbn [group_bytes flat_map]. rewrite length_app, length_be_bytes. fold (group_bytes xs). rewrite IH. cbn. lia. Qed.

Lemma v6_groups_split v s e : (s <= e <= 8)%nat -> (forall i, (s <= i < e)%nat -> v6u16 v i = 0) ->
  group_bytes (v6_groups v)
  = group_bytes (map (v6u16 v) (seq 0 s)) ++ replicate (2 * (e - s)) 0 ++ group_bytes (map (v6u16 v) (seq e (8 - e))).
Proof.
  intros He Hz. unfold v6_groups. replace 8%nat with (s + ((e - s) + (8 - e)))%nat at 1 by lia.
  rewrite !seq_app, !map_app. unfold group_bytes. rewrite !flat_map_app. fold group_bytes.
  change (0 + s)%nat with s. replace (s + (e - s))%nat with e by lia. f_equal. f_equal.
  apply zero_groups. intros i Hi. apply Hz. lia.
Qed.

Lemma expand_gap v s e : 0 <= v < 2 ^ 128 -> (s + 2 <= e <= 8)%nat -> (forall i, (s <= i < e)%nat -> v6u16 v i = 0) ->
  expand {| g_bytes := group_bytes (map (v6u16 v) (seq 0 s)) ++ group_bytes (map (v6u16 v) (seq e (8 - e)));
            g_ellipsis := Some (2 * s)%nat |} = Some v.
Proof.
  intros Hv He Hz. unfold expand. cbn [g_bytes g_ellipsis]. rewrite length_app, !length_group_bytes, !length_map, !length_seq.
  rewrite (proj2 (Nat.ltb_lt _ _)) by lia.
  assert (List.length (group_bytes (map (v6u16 v) (seq 0 s))) = 2 * s)%nat as Hl by (by rewrite length_group_bytes, length_map, length_seq).
  rewrite take_app_length', drop_app_length' by done. f_equal. rewrite <- (v6_value v Hv) at 3. f_equal.
  rewrite (v6_groups_split v s e) by (done || lia). do 2 f_equal. f_equal. lia.
Qed.

(** ** IPv6 *)

Definition v6_char (c : Z) : Prop := 48 <= c <= 58 \/ 97 <= c <= 102.

Lemma hex_digit_char d : 0 <= d < 16 -> v6_char (hex_digit d) /\ hex_digit d <> 58.
Proof. intros Hd. unfold hex_digit, v6_char. split_if; breflect; lia. Qed.

Lemma appendHex_chars x : u16_group x -> Forall (fun c => v6_char c /\ c <> 58) (appendHex x).
Proof.
  intros Hx. unfold appendHex, u16_group in *. change 0xf with (Z.ones 4). rewrite !Z.land_ones, !Z.shiftr_div_pow2 by lia.
  change (2 ^ 12) with 4096. change (2 ^ 8) with 256. change (2 ^ 4) with 16.
  repeat (apply Forall_app_2; [split_if; [constructor; [apply hex_digit_char; breflect; dlia|constructor]|constructor]|]).
  constructor; [apply hex_digit_char; dlia|constructor].
Qed.

Lemma hex_groups_chars xs : Forall u16_group xs -> Forall v6_char (hex_groups xs).
Proof.
  unfold hex_groups. induction 1 as [|x xs Hx Hxs IH]; [constructor|].
  assert (Forall v6_char (appendHex x)) as Ha by (eapply List.Forall_impl; [|apply appendHex_chars, Hx]; by intros ? []).
  cbn [map Join]. destruct (map appendHex xs); [exact Ha|]. apply Forall_app_2; [exact Ha|].
  apply Forall_app_2; [|exact IH]. constructor; [left; lia|constructor].
Qed.

Lemma v6_chars_lack c s : Forall v6_char s -> ~ v6_char c -> lacks c s.
Proof. intros Hs Hc. eapply List.Forall_impl; [|exact Hs]. by intros x Hx ->. Qed.

Lemma string_v6_chars v : Forall v6_char (string_v6 v).
Proof.
  unfold string_v6. rewrite <- !(map_map (v6u16 v) appendHex). fold (hex_groups (map (v6u16 v) (seq 0 8))).
  destruct (zero_run v) as [[s e]|] eqn:E; [|apply hex_groups_chars, seq_groups; lia].
  destruct (zero_run_spec _ _ _ E) as [He _]. rewrite <- !(map_map (v6u16 v) appendHex).
  apply Forall_app_2; [apply (hex_groups_chars _ (seq_groups v 0 s ltac:(lia)))|].
  apply Forall_app_2; [constructor; [left; lia|constructor; [left; lia|constructor]]|]. apply (hex_groups_chars _ (seq_groups v e (8 - e) ltac:(lia))).
Qed.

Lemma split_zone_with s z : lacks 37 s -> split_zone (with_zone s z) = Some (s, z).
Proof.
  intros Hs. unfold split_zone, with_zone. destruct z as [|c z]; [by rewrite IndexByte_lacks|].
  rewrite IndexByte_first by done. pose proof (len_nonneg s). rewrite (proj2 (Z.eqb_neq _ _)) by lia.
  unfold len. rewrite Nat2Z.id, take_app_length, drop_app_ge by lia.
  by replace (S (List.length s) - List.length s)%nat with 1%nat by lia.
Qed.

Lemma parseIPv6_start text d r z : split_zone text = Some (hex_digit d :: r, z) -> 0 <= d < 16 ->
  parseIPv6 text = parse_body None (hex_digit d :: r) z.
Proof.
  intros E Hd. assert (leading_gap (hex_digit d :: r) = None) as Hg by (hex_cases d; reflexivity).
  unfold parseIPv6. rewrite E. cbn [mbind option_bind]. by rewrite Hg.
Qed.

Lemma parseIPv6_gap text c r z : split_zone text = Some (58 :: 58 :: c :: r, z) ->
  parseIPv6 text = parse_body (Some 0%nat) (c :: r) z.
Proof. intros E. unfold parseIPv6. by rewrite E. Qed.

Lemma be_value_zeros n l : be_value (replicate n 0 ++ l) = be_value l.
Proof. induction n as [|n IH]; [done|]. cbn [replicate app be_value]. rewrite IH. lia. Qed.

(** The two forms of a text: all groups, or an ellipsis between some of them. *)
Lemma parseIPv6_all text x xs z : split_zone text = Some (hex_groups (x :: xs), z) -> Forall u16_group (x :: xs) ->
  (List.length (x :: xs) <= 8)%nat ->
  parseIPv6 text = (v ← expand {| g_bytes := group_bytes (x :: xs); g_ellipsis := None |}; Some (A6 v z)).
Proof.
  intros Hz Hxs Hl. inversion_clear Hxs as [|? ? Hx Hxs']. destruct (hex_groups_head x xs Hx) as (d & r & Hd & E).
  rewrite E in Hz. rewrite (parseIPv6_start _ _ _ _ Hz Hd), <- E. unfold parse_body. rewrite parse6_groups by (done || by constructor).
  done.
Qed.

Lemma parseIPv6_two text xs ys z : split_zone text = Some (hex_groups xs ++ 58 :: 58 :: hex_groups ys, z) ->
  Forall u16_group xs -> Forall u16_group ys -> (List.length xs + List.length ys <= 8)%nat ->
  parseIPv6 text
  = (v ← expand {| g_bytes := group_bytes xs ++ group_bytes ys; g_ellipsis := Some (2 * List.length xs)%nat |}; Some (A6 v z)).
Proof.
  intros Hz Hxs Hys Hl. destruct xs as [|x xs], ys as [|y ys].
  - unfold parseIPv6. by rewrite Hz.
  - destruct (hex_groups_head y ys ltac:(by inversion Hys)) as (d & r & Hd & E). change (hex_groups []) with (@nil Z) in Hz.
    cbn [app] in Hz. rewrite E in Hz. rewrite (parseIPv6_gap _ _ _ _ Hz), <- E. unfold parse_body. by rewrite parse6_groups.
  - destruct (hex_groups_head x xs ltac:(by inversion Hxs)) as (d & r & Hd & E). rewrite E in Hz. cbn [app] in Hz.
    rewrite (parseIPv6_start _ _ _ _ Hz Hd). change (hex_digit d :: r ++ ?t) with ((hex_digit d :: r) ++ t). rewrite <- E.
    unfold parse_body. rewrite parse6_groups_gap by (done || (cbn in *; lia)). cbn [hex_groups map Join mbind option_bind].
    unfold with_ellipsis. cbn [add_groups g_bytes app]. by rewrite app_nil_r, length_group_bytes.
  - destruct (hex_groups_head x xs ltac:(by inversion Hxs)) as (d & r & Hd & E). rewrite E in Hz. cbn [app] in Hz.
    rewrite (parseIPv6_start _ _ _ _ Hz Hd). change (hex_digit d :: r ++ ?t) with ((hex_digit d :: r) ++ t). rewrite <- E.
    unfold parse_body. rewrite parse6_groups_gap by (done || (cbn in *; lia)).
    pose proof (parse6_groups (y :: ys) (8 - List.length (x :: xs)) (with_ellipsis (add_groups {| g_bytes := []; g_ellipsis := None |} (x :: xs))) Hys
      ltac:(done) ltac:(lia)) as Hp.
    destruct (hex_groups_head y ys ltac:(by inversion Hys)) as (d2 & r2 & Hd2 & E2). rewrite E2 in Hp |- *. rewrite Hp.
    cbn [mbind option_bind]. unfold with_ellipsis, add_groups. cbn [g_bytes g_ellipsis app]. by rewrite length_group_bytes.
Qed.

Lemma parse_string_v6 v z : 0 <= v < 2 ^ 128 -> parseIPv6 (with_zone (string_v6 v) z) = Some (A6 v z).
Proof.
  intros Hv. pose proof (split_zone_with _ z (v6_chars_lack 37 _ (string_v6_chars v) ltac:(unfold v6_char; lia))) as Hz.
  revert Hz. generalize (with_zone (string_v6 v) z) as text. intros text.
  unfold string_v6. destruct (zero_run v) as [[s e]|] eqn:E; rewrite <- !(map_map (v6u16 v) appendHex); intros Hz.
  - destruct (zero_run_spec _ _ _ E) as [He Hzero].
    rewrite (parseIPv6_two text _ _ z Hz); [|apply seq_groups; lia..|rewrite !length_map, !length_seq; lia].
    by rewrite length_map, length_seq, (expand_gap v s e).
  - rewrite (parseIPv6_all text _ _ z Hz); [|apply (seq_groups v 0 8); lia|cbn; lia].
    unfold expand. cbn [g_bytes g_ellipsis]. rewrite length_group_bytes.
    change (v6u16 v 0 :: _) with (v6_groups v). change (2 * List.length (v6_groups v))%nat with 16%nat.
    cbn [Nat.ltb Nat.leb]. by rewrite v6_value.
Qed.

(** ** IPv4-mapped addresses *)

Lemma span_hex_digits s acc n r : Forall (fun c => is_digit c = true) s ->
  exists acc', span_hex acc n (s ++ 46 :: r) = (acc', (n + List.length s)%nat, 46 :: r).
Proof.
  intros Hs. revert acc n. induction Hs as [|c s Hc _ IH]; intros acc n.
  - exists acc. rewrite Nat.add_0_r. by apply span_hex_stop.
  - unfold is_digit in Hc. breflect. cbn [app].
    replace c with (hex_digit (c - 48)) by (unfold hex_digit; split_if; breflect; lia). rewrite span_hex_digit by lia.
    destruct (IH (acc * 16 + (c - 48)) (S n)) as [acc' E]. exists acc'. rewrite E. cbn [List.length]. do 2 f_equal. lia.
Qed.

Lemma length_octet v i : (1 <= List.length (FormatUint (v4 v i)) <= 3)%nat.
Proof.
  split.
  - pose proof (FormatUint_nonempty (v4 v i)). destruct (FormatUint _); [done|cbn; lia].
  - unfold FormatUint. rewrite length_rev. apply (length_digits_rev _ _ 3); [|lia]. pose proof (v4_range v i). cbn. lia.
Qed.

Lemma parse6_v4 more w g e : 0 <= w < 2 ^ 32 -> g_ellipsis g = Some e -> (List.length (g_bytes g) + 4 <= 16)%nat ->
  parse6_loop (S more) (string_v4 w) g = Some ([], {| g_bytes := g_bytes g ++ be_bytes 4 w; g_ellipsis := Some e |}).
Proof.
  intros Hw Hg Hl. pose proof (parse_string_v4 w Hw) as Hp. unfold string_v4 in *.
  destruct (span_hex_digits (FormatUint (v4 w 0)) 0 0
    (FormatUint (v4 w 1) ++ 46 :: FormatUint (v4 w 2) ++ 46 :: FormatUint (v4 w 3)) (octet_digits w 0)) as [acc E].
  pose proof (length_octet w 0) as Ho. cbn [parse6_loop]. rewrite E, (group_length _ _ _ _ E) by lia.
  cbv beta iota. rewrite Hp, Hg. rewrite bool_decide_false by done. cbn [andb].
  rewrite (proj2 (Nat.ltb_ge _ _)) by lia. done.
Qed.

Lemma parse_mapped_text v z : 0 <= v < 2 ^ 128 -> Z.shiftr v 32 = 0xffff ->
  parseIPv6 (with_zone (str "::ffff:" ++ string_v4 (Z.land v 0xffffffff)) z) = Some (A6 v z).
Proof.
  intros Hv Hm. set (w := Z.land v 0xffffffff).
  assert (0 <= w < 2 ^ 32 /\ v = 0xffff * 2 ^ 32 + w) as [Hw Ev].
  { unfold w. change 0xffffffff with (Z.ones 32). rewrite Z.land_ones by lia. rewrite Z.shiftr_div_pow2 in Hm by lia.
    pose proof (Z.mod_pos_bound v (2 ^ 32) ltac:(lia)). pose proof (Z.div_mod v (2 ^ 32) ltac:(lia)). lia. }
  assert (split_zone (with_zone (str "::ffff:" ++ string_v4 w) z) = Some (str "::ffff:" ++ string_v4 w, z)) as Hz.
  { apply split_zone_with, lacks_app. split; [repeat constructor; done|apply string_v4_lacks; lia]. }
  rewrite (parseIPv6_gap _ 102 (str "fff:" ++ string_v4 w) z Hz). unfold parse_body.
  assert (exists d r, 0 <= d < 16 /\ string_v4 w = hex_digit d :: r) as (d & r & Hd & Er).
  { unfold string_v4. pose proof (octet_digits w 0) as Hd. pose proof (FormatUint_nonempty (v4 w 0)) as Hn.
    destruct (FormatUint (v4 w 0)) as [|c s]; [done|]. inversion_clear Hd as [|? ? Hc Hs]. unfold is_digit in Hc. breflect.
    exists (c - 48). eexists. split; [lia|]. cbn [app]. f_equal. unfold hex_digit. split_if; breflect; lia. }
  change (102 :: str "fff:" ++ string_v4 w) with (appendHex 0xffff ++ 58 :: string_v4 w). rewrite Er, parse6_next, <- Er by (done || lia).
  rewrite (parse6_v4 6 w _ 0) by (done || (cbn; lia)). cbn [mbind option_bind add_groups g_bytes app group_bytes flat_map].
  unfold expand. cbn [g_bytes g_ellipsis]. rewrite length_app, length_be_bytes.
  change (List.length (be_bytes 2 65535 ++ []) + 4)%nat with 6%nat. cbn [Nat.ltb Nat.leb Nat.sub].
  rewrite take_0, drop_0. cbn [app]. rewrite be_value_zeros. change (be_bytes 2 65535 ++ []) with [255; 255].
  cbn [app be_value mbind option_bind]. rewrite be_value_be_bytes, len_cons, !len_be_bytes, Z.mod_small by (cbn; lia).
  do 2 f_equal. rewrite Ev. change (256 ^ (1 + Z.of_nat 4)) with (256 * 2 ^ 32). change (256 ^ Z.of_nat 4) with (2 ^ 32). lia.
Qed.

(** ** Addresses and endpoints *)

Lemma v6_text_colon v : exists pre rest, string_v6 v = pre ++ 58 :: rest /\ Forall (fun x => x <> 46 /\ x <> 58 /\ x <> 37) pre.
Proof.
  assert (forall i, (i < 8)%nat -> Forall (fun x => x <> 46 /\ x <> 58 /\ x <> 37) (appendHex (v6u16 v i))) as Hx.
  { intros i Hi. eapply List.Forall_impl; [|apply appendHex_chars, v6u16_range, Hi]. unfold v6_char. cbn. intros. lia. }
  unfold string_v6. destruct (zero_run v) as [[s e]|] eqn:E.
  - destruct (zero_run_spec _ _ _ E) as [He _]. destruct s as [|[|s]]; cbn [seq map Join].
    + by eexists [], _.
    + eexists _, _. split; [reflexivity|]. apply Hx. lia.
    + eexists _, _. rewrite <- app_assoc. split; [reflexivity|]. apply Hx. lia.
  - cbn [seq map Join]. eexists _, _. split; [reflexivity|]. apply Hx. lia.
Qed.

Lemma with_zone_app a b z : with_zone (a ++ b) z = a ++ with_zone b z.
Proof. unfold with_zone. destruct z; [done|]. by rewrite <- app_assoc. Qed.

Lemma with_zone_cons c b z : with_zone (c :: b) z = c :: with_zone b z.
Proof. by destruct z. Qed.

(** An address survives printing and parsing. *)
Lemma ParseAddr_String a : addr_wf a -> Addr_IsValid a = true -> ParseAddr (Addr_String a) = Some a.
Proof.
  destruct a as [|v|v z]; [done|intros; by apply ParseAddr_v4|]. cbn [addr_wf Addr_String Is4In6]. intros Hv _.
  destruct (Z.eqb_spec (Z.shiftr v 32) 0xffff) as [Hm|_].
  - pose proof (parse_mapped_text v z Hv Hm) as Hp. revert Hp.
    change (str "::ffff:" ++ ?t) with (58 :: str ":ffff:" ++ t). by rewrite with_zone_cons.
  - pose proof (parse_string_v6 v z Hv) as Hp. destruct (v6_text_colon v) as (pre & rest & E & Hpre).
    rewrite E, with_zone_app, with_zone_cons in *. by rewrite ParseAddr_decide.
Qed.

Lemma string_v4_head v : exists d r, 0 <= d < 16 /\ string_v4 v = hex_digit d :: r.
Proof.
  unfold string_v4. pose proof (octet_digits v 0) as Hd. pose proof (FormatUint_nonempty (v4 v 0)) as Hn.
  destruct (FormatUint (v4 v 0)) as [|c s]; [done|]. inversion_clear Hd as [|? ? Hc Hs]. unfold is_digit in Hc. breflect.
  exists (c - 48). eexists. split; [lia|]. cbn [app]. f_equal. unfold hex_digit. split_if; breflect; lia.
Qed.

Lemma port_text port : 0 <= port < 65536 -> ParseUint 16 (FormatUint port) = Some port /\ lacks 58 (FormatUint port).
Proof.
  intros Hp. split; [|apply digits_lack; [apply FormatUint_digits; lia|lia]]. unfold ParseUint. rewrite parse_FormatUint by lia.
  cbn [mbind option_bind]. by rewrite (proj2 (Z.ltb_lt _ _)) by lia.
Qed.

(** The host and port of a text that ends in a colon and a port. *)
Lemma ParseAddrPort_at ip port : 0 <= port < 65536 -> ip <> [] ->
  ParseAddrPort (ip ++ 58 :: FormatUint port)
  = ('(ip, v6) ← match ip with
                 | 91 :: r => match rev r with 93 :: m => Some (rev m, true) | _ => None end
                 | _ => Some (ip, false)
                 end;
     a ← ParseAddr ip;
     if (v6 && Is4 a) || (negb v6 && Is6 a) then None else Some (AddrPortFrom a port)).
Proof.
  intros Hp Hip. destruct (port_text port Hp) as [Hu Hl]. unfold ParseAddrPort. rewrite LastIndexByte_last by done.
  pose proof (len_nonneg ip). rewrite (proj2 (Z.eqb_neq _ _)) by lia. unfold len. rewrite Nat2Z.id, take_app_length, drop_app_ge by lia.
  replace (S (List.length ip) - List.length ip)%nat with 1%nat by lia. cbn [drop]. rewrite !drop_0.
  rewrite !bool_decide_false; [|apply FormatUint_nonempty|done]. cbn [orb]. by rewrite Hu.
Qed.

(** An endpoint survives printing and parsing. *)
Lemma ParseAddrPort_String a port : addr_wf a -> Addr_IsValid a = true -> 0 <= port < 65536 ->
  ParseAddrPort (AddrPort_String (AddrPortFrom a port)) = Some (AddrPortFrom a port).
Proof.
  intros Hw Hv Hp. pose proof (ParseAddr_String a Hw Hv) as Ha. destruct a as [|v|v z]; [done| |].
  - cbn [AddrPort_String AddrPortFrom ap_addr ap_port]. cbn [Addr_String] in Ha.
    destruct (string_v4_head v) as (d & r & Hd & E). rewrite ParseAddrPort_at by (done || by rewrite E). rewrite E in *.
    assert (forall s, match hex_digit d :: s with
      | 91 :: r => match rev r with 93 :: m => Some (rev m, true) | _ => None end
      | _ => Some (hex_digit d :: s, false) end = Some (hex_digit d :: s, false)) as -> by (intros s; hex_cases d; reflexivity).
    cbn [mbind option_bind]. by rewrite Ha.
  - cbn [AddrPort_String AddrPortFrom ap_addr ap_port]. set (t := Addr_String (A6 v z)) in *.
    change (91 :: t ++ [93; 58] ++ FormatUint port) with ((91 :: t) ++ [93] ++ (58 :: FormatUint port)). rewrite app_assoc.
    rewrite ParseAddrPort_at by done. cbn [app]. rewrite rev_app_distr. cbn [rev app]. rewrite rev_involutive.
    cbn [mbind option_bind]. by rewrite Ha.
Qed.

(** A text without a zone has no brackets, and [SplitHostPort] takes it apart. *)
Lemma v6_text_lacks v c : c = 91 \/ c = 93 -> lacks c (Addr_String (A6 v [])).
Proof.
  intros Hc. cbn [Addr_String with_zone]. split_if.
  - apply lacks_app. split; [|apply string_v4_lacks; lia]. destruct Hc as [-> | ->]; repeat constructor; done.
  - apply v6_chars_lack; [apply string_v6_chars|]. unfold v6_char. lia.
Qed.

Lemma SplitHostPort_String a port : addr_wf a -> Addr_IsValid a = true -> Zone a = [] -> 0 <= port < 65536 ->
  SplitHostPort (AddrPort_String (AddrPortFrom a port)) = Some (Addr_String a, FormatUint port).
Proof.
  intros Hw Hv Hz Hp. destruct (port_text port Hp) as [_ Hl].
  assert (forall c, c = 91 \/ c = 93 -> lacks c (FormatUint port)) as Hlp
    by (intros c Hc; apply digits_lack; [apply FormatUint_digits; lia|lia]).
  destruct a as [|v|v z]; [done| |]; unfold SplitHostPort.
  - cbn [AddrPort_String AddrPortFrom ap_addr ap_port Addr_String]. rewrite LastIndexByte_last by done.
    pose proof (len_nonneg (string_v4 v)). rewrite (proj2 (Z.ltb_ge _ _)) by lia. unfold len.
    rewrite Nat2Z.id, take_app_length, drop_app_ge by lia.
    replace (S (List.length (string_v4 v)) - List.length (string_v4 v))%nat with 1%nat by lia. cbn [drop]. rewrite !drop_0.
    rewrite (contains_byte_lacks 58) by (apply string_v4_lacks; lia).
    rewrite (contains_byte_lacks 91), (contains_byte_lacks 93)
      by (apply lacks_app; split; [apply string_v4_lacks; lia|constructor; [done|apply Hlp; lia]]).
    destruct (string_v4_head v) as (d & r & Hd & E). rewrite E. cbn [app]. hex_cases d; reflexivity.
  - cbn in Hz. subst z. cbn [AddrPort_String AddrPortFrom ap_addr ap_port]. set (t := Addr_String (A6 v [])).
    assert (lacks 91 t /\ lacks 93 t) as [H1 H2] by (split; apply v6_text_lacks; lia).
    change (91 :: t ++ [93; 58] ++ FormatUint port) with ((91 :: t) ++ [93] ++ (58 :: FormatUint port)).
    rewrite app_assoc, LastIndexByte_last by done. rewrite <- app_assoc. cbn [app].
    change (91 :: t ++ 93 :: ?r) with ((91 :: t) ++ 93 :: r). rewrite IndexByte_first by (constructor; done).
    rewrite len_app, !len_cons, len_nil. pose proof (len_nonneg t).
    rewrite !(proj2 (Z.ltb_ge _ _)) by lia. rewrite (proj2 (Z.eqb_eq _ _)) by lia. cbn [app].
    replace (Z.to_nat (1 + len t - 1)) with (List.length t) by (unfold len; lia).
    cbn [drop]. rewrite !drop_0, take_app_length.
    rewrite (contains_byte_lacks 91) by (apply lacks_app; split; [done|repeat (constructor; [done|]); apply Hlp; lia]).
    replace (Z.to_nat (1 + len t + 1)) with (S (List.length t + 1))%nat by (unfold len; lia).
    replace (Z.to_nat (1 + len t + (1 + 0))) with (S (List.length t + 1))%nat by (unfold len; lia).
    cbn [drop]. rewrite !drop_app_ge by lia. replace (List.length t + 1 - List.length t)%nat with 1%nat by lia.
    replace (S (List.length t + 1) - List.length t)%nat with 2%nat by lia. cbn [drop]. rewrite !drop_0.
    rewrite (contains_byte_lacks 93) by (constructor; [done|apply Hlp; lia]). done.
Qed.

(** ** What the parser returns fits the representation *)

Lemma digits_value_nonneg acc s v : 0 <= acc -> digits_value acc s = Some v -> 0 <= v.
Proof.
  revert acc. induction s as [|c s IH]; intros acc Ha; cbn; [intros [= <-]; done|].
  destruct (is_digit c) eqn:E; [|done]. unfold is_digit in E. breflect. apply IH. lia.
Qed.

Lemma parse_octet_range s o : parse_octet s = Some o -> 0 <= o <= 255.
Proof.
  intros H. assert (exists v, parse_digits s = Some v /\ v <=? 255 = true /\ v = o) as (v & Hv & Hle & ->).
  { unfold parse_octet in H. destruct s as [|c s]; [done|].
    assert ((v ← parse_digits (c :: s); if v <=? 255 then Some v else None) = Some o) as Hb by (repeat case_match; done).
    destruct (parse_digits (c :: s)) as [v|]; [|done]. cbn in Hb. exists v. destruct (v <=? 255); [|done]. by injection Hb as ->. }
  breflect. split; [|done]. unfold parse_digits in Hv. destruct s; [done|]. by eapply (digits_value_nonneg 0).
Qed.

Lemma parseIPv4Fields_range s v : parseIPv4Fields s = Some v -> 0 <= v < 2 ^ 32.
Proof.
  unfold parseIPv4Fields. destruct (Split s 46) as [|a [|b [|c [|d [|]]]]]; try done.
  destruct (parse_octet a) eqn:Ea, (parse_octet b) eqn:Eb, (parse_octet c) eqn:Ec, (parse_octet d) eqn:Ed; try done.
  intros [= <-]. apply parse_octet_range in Ea, Eb, Ec, Ed. lia.
Qed.

Lemma parse6_loop_bytes more s g r g' : is_bytes (g_bytes g) -> (List.length (g_bytes g) + 2 * more <= 16)%nat ->
  parse6_loop more s g = Some (r, g') -> is_bytes (g_bytes g') /\ (List.length (g_bytes g') <= 16)%nat.
Proof.
  revert s g. induction more as [|more IH]; intros s g Hb Hl; [intros [= <- <-]; split; [done|lia]|].
  cbn [parse6_loop]. destruct (span_hex 0 0 s) as [[acc n] rest]. split_if; [done|].
  assert (is_bytes (g_bytes g ++ be_bytes 2 acc)) as Hb2 by (apply Forall_app_2; [done|apply be_bytes_is_bytes]).
  assert (List.length (g_bytes g ++ be_bytes 2 acc) + 2 * more <= 16)%nat as Hl2 by (rewrite length_app, length_be_bytes; lia).
  revert Hb2 Hl2. generalize (g_bytes g ++ be_bytes 2 acc) as bs. intros bs Hb2 Hl2.
  assert (forall e t, parse6_loop more t {| g_bytes := bs; g_ellipsis := e |} = Some (r, g') ->
    is_bytes (g_bytes g') /\ (List.length (g_bytes g') <= 16)%nat) as Hrec by (intros e t; by apply IH).
  assert (forall e, Some (@nil Z, {| g_bytes := bs; g_ellipsis := e |}) = Some (r, g') ->
    is_bytes (g_bytes g') /\ (List.length (g_bytes g') <= 16)%nat) as Hend by (intros e [= <- <-]; split; [done|cbn [g_bytes]; lia]).
  assert (forall w, (v ← parseIPv4Fields s; Some (@nil Z, {| g_bytes := g_bytes g ++ be_bytes 4 v; g_ellipsis := g_ellipsis g |})) = Some (r, g') ->
    (16 <? w)%nat = false -> w = (List.length (g_bytes g) + 4)%nat -> is_bytes (g_bytes g') /\ (List.length (g_bytes g') <= 16)%nat) as H4.
  { intros w Hv Hw ->. apply Nat.ltb_ge in Hw. destruct (parseIPv4Fields s) as [v|]; [|done]. cbn [mbind option_bind] in Hv.
    pose proof (be_bytes_is_bytes 4 v) as Hv4. pose proof (length_be_bytes 4 v) as Hl4. revert Hv Hv4 Hl4.
    generalize (be_bytes 4 v) as vs. intros vs [= <- <-] Hv4 Hl4. cbn [g_bytes]. rewrite length_app, Hl4. split; [by apply Forall_app_2|done]. }
  intros H. repeat first [progress cbn [g_bytes g_ellipsis] in H | case_match]; try done; eauto.
Qed.

Lemma expand_range g v : is_bytes (g_bytes g) -> (List.length (g_bytes g) <= 16)%nat -> expand g = Some v -> 0 <= v < 2 ^ 128.
Proof.
  intros Hb Hl. assert (forall bs, is_bytes bs -> List.length bs = 16%nat -> 0 <= be_value bs < 2 ^ 128) as Hr.
  { intros bs Hbs E. pose proof (be_value_range bs Hbs) as Hv. unfold len in Hv. rewrite E in Hv. exact Hv. }
  unfold expand. destruct (g_ellipsis g) as [e|]; split_if; try done; intros [= <-]; apply Hr.
  - apply Forall_app_2; [by apply Forall_take|]. apply Forall_app_2; [by apply Forall_replicate|by apply Forall_drop].
  - rewrite !length_app, length_replicate, length_take, length_drop.
    match goal with H : _ = true |- _ => apply Nat.ltb_lt in H end. lia.
  - done.
  - match goal with H : _ = false |- _ => apply Nat.ltb_ge in H end. lia.
Qed.

Lemma parse_body_wf e s z a : parse_body e s z = Some a -> addr_wf a /\ Addr_IsValid a = true.
Proof.
  unfold parse_body. destruct (parse6_loop 8 s _) as [[r g]|] eqn:E; [|done]. cbn [mbind option_bind].
  apply parse6_loop_bytes in E as [Hb Hl]; [|constructor|cbn; lia]. destruct r; [|done].
  destruct (expand g) as [v|] eqn:Ex; [|done]. intros [= <-]. split; [|done]. by apply expand_range in Ex.
Qed.

Lemma ParseAddr_wf s a : ParseAddr s = Some a -> addr_wf a /\ Addr_IsValid a = true.
Proof.
  unfold ParseAddr. generalize s at 1 as rest. intros rest. induction rest as [|c rest IH]; cbn [ParseAddr_from]; [done|].
  split_if; [|split_if; [|split_if; [done|exact IH]]].
  - destruct (parseIPv4Fields s) as [v|] eqn:E; [|done]. intros [= <-]. split; [|done]. by apply parseIPv4Fields_range in E.
  - unfold parseIPv6. destruct (split_zone s) as [[t z]|]; [|done]. cbn [mbind option_bind].
    destruct (leading_gap t) as [[|x r]|]; [intros [= <-]; split; [cbn; lia|done]|apply parse_body_wf..].
Qed.

Lemma ParseAddrPort_wf s p : ParseAddrPort s = Some p ->
  addr_wf (ap_addr p) /\ Addr_IsValid (ap_addr p) = true /\ 0 <= ap_port p < 65536.
Proof.
  unfold ParseAddrPort. cbv zeta. split_if; [done|]. split_if; [done|].
  match goal with |- (?m ≫= _) = _ -> _ => destruct m as [[ip six]|] end; [|done]. cbn [mbind option_bind].
  unfold ParseUint. set (t := drop _ s). destruct (parse_digits t) as [port|] eqn:Ep; [|done]. cbn [mbind option_bind].
  destruct (port <? 2 ^ 16) eqn:Hlt; [|done]. cbn [mbind option_bind]. destruct (ParseAddr ip) as [a|] eqn:Ea; [|done].
  cbn [mbind option_bind]. split_if; [done|]. intros [= <-]. cbn. apply ParseAddr_wf in Ea as [H1 H2]. split_and!; try done.
  - unfold parse_digits in Ep. destruct t; [done|]. by eapply (digits_value_nonneg 0).
  - breflect. lia.
Qed.

(** Every endpoint that was parsed survives being printed and parsed again. *)
Lemma ParseAddrPort_again s p : ParseAddrPort s = Some p -> ParseAddrPort (AddrPort_String p) = Some p.
Proof.
  intros H. apply ParseAddrPort_wf in H as (H1 & H2 & H3). destruct p as [a port]. by apply ParseAddrPort_String.
Qed.
