(* ===== verification/TargetPolicy.v ===== *)
(** * Target policy of the relay

[publiclyRoutable] and [Server.targetAllowed] of [internal/relay/server.go].  The
bit and octet tests of the code are proved equivalent to a table of address
blocks, so that an IPv4-mapped IPv6 spelling of a target gets the decision of the
IPv4 address. *)

From stdpp Require Import base list numbers.
From Stdlib Require Import ZArith Lia String.
From S2P Require Import Prelude.
From S2P Require Import GoStrings.
From S2P Require Import Netip.

Local Open Scope Z_scope.

(** ** The code *)

(** [netip.MustParsePrefix("2001:db8::/32")] *)
Definition documentation6 : Z := 0x20010db8000000000000000000000000.

(** The IPv4 blocks [publiclyRoutable] refuses by octets. *)
Definition refused_octets (a : Addr) : bool :=
  let '(o0, o1, o2, _) := As4 a in
  (o0 =? 0) || (o0 >=? 224) || ((o0 =? 100) && (o1 >=? 64) && (o1 <=? 127))
  || ((o0 =? 192) && (o1 =? 0)) || ((o0 =? 198) && ((o1 =? 18) || (o1 =? 19)))
  || ((o0 =? 198) && (o1 =? 51) && (o2 =? 100)) || ((o0 =? 203) && (o1 =? 0) && (o2 =? 113)).

Definition publiclyRoutable (address : Addr) : bool :=
  let address := Unmap address in
  if negb (Addr_IsValid address) || IsUnspecified address || IsLoopback address
     || IsMulticast address || IsLinkLocalUnicast address || IsPrivate address then false
  else if Is4 address && refused_octets address then false
  else if Prefix6_Contains documentation6 32 address then false
  else true.

(** The two fields of [Server] the decision reads. *)
Record target_config := {
  tc_allowedTargets : list AddrPort;
  tc_AllowPrivateTargets : bool;
}.

Definition targetAllowed (s : target_config) (target : AddrPort) : bool :=
  if negb (AddrPort_IsValid target) || (ap_port target =? 0) then false
  else
    let target := AddrPortFrom (Unmap (ap_addr target)) (ap_port target) in
    let address := ap_addr target in
    if IsUnspecified address || IsMulticast address || negb (bool_decide (Zone address = [])) then false
    else if publiclyRoutable address then true
    else if IsPrivate address || IsLoopback address then
      let explicitlyAllowed := bool_decide (target ∈ tc_allowedTargets s) in
      explicitlyAllowed || tc_AllowPrivateTargets s
    else false.

(** The map [Start] builds from [Config.AllowedTargets]. *)
Definition allowed_targets (configured : list AddrPort) : list AddrPort :=
  map (fun t => AddrPortFrom (Unmap (ap_addr t)) (ap_port t)) configured.

(** ** The table of blocks *)

(** Membership of an address value of [width] bits in a block. *)
Definition in_block (width : Z) (v : Z) (block : Z * Z) : bool :=
  let '(base, bits) := block in v / 2 ^ (width - bits) =? base / 2 ^ (width - bits).
Definition in_blocks (width : Z) (v : Z) (blocks : list (Z * Z)) : bool := existsb (in_block width v) blocks.

Definition ip4 (a b c d : Z) : Z := ((a * 256 + b) * 256 + c) * 256 + d.

(** Private and loopback blocks: reachable only by explicit permission. *)
Definition private4 : list (Z * Z) :=
  [(ip4 10 0 0 0, 8); (ip4 127 0 0 0, 8); (ip4 172 16 0 0, 12); (ip4 192 168 0 0, 16)].
(** Blocks no configuration makes reachable. *)
Definition denied4 : list (Z * Z) :=
  [(ip4 0 0 0 0, 8); (ip4 100 64 0 0, 10); (ip4 169 254 0 0, 16); (ip4 192 0 0 0, 16);
   (ip4 198 18 0 0, 15); (ip4 198 51 100 0, 24); (ip4 203 0 113 0, 24); (ip4 224 0 0 0, 3)].
(** fc00::/7 and ::1. *)
Definition private6 : list (Z * Z) := [(0xfc * 2 ^ 120, 7); (1, 128)].
(** ::, ff00::/8, fe80::/10, 2001:db8::/32. *)
Definition denied6 : list (Z * Z) :=
  [(0, 128); (0xff * 2 ^ 120, 8); (0xfe80 * 2 ^ 112, 10); (documentation6, 32)].

Inductive decision := Public | NeedsPermission | Denied.

(** What the policy says of an unmapped address. *)
Definition classify (a : Addr) : decision :=
  match a with
  | AInvalid => Denied
  | A4 v => if in_blocks 32 v denied4 then Denied
            else if in_blocks 32 v private4 then NeedsPermission else Public
  | A6 v zone => if negb (bool_decide (zone = [])) then Denied
                 else if in_blocks 128 v denied6 then Denied
                 else if in_blocks 128 v private6 then NeedsPermission else Public
  end.

(** ** Octets and blocks *)

Lemma v4_octet v i : v4 v i = Z.shiftr v (24 - 8 * i) mod 256.
Proof. unfold v4. change 0xff with (2 ^ 8 - 1). by rewrite land_ones_mod. Qed.

Definition octet (z : Z) : Prop := 0 <= z < 256.

Lemma v4_ip4 a b c d : octet a -> octet b -> octet c -> octet d ->
  v4 (ip4 a b c d) 0 = a /\ v4 (ip4 a b c d) 1 = b /\ v4 (ip4 a b c d) 2 = c /\ v4 (ip4 a b c d) 3 = d.
Proof.
  unfold octet, ip4. intros. rewrite !v4_octet, !Z.shiftr_div_pow2 by lia.
  change (2 ^ (24 - 8 * 0)) with 16777216. change (2 ^ (24 - 8 * 1)) with 65536.
  change (2 ^ (24 - 8 * 2)) with 256. change (2 ^ (24 - 8 * 3)) with 1.
  split_and!; dlia.
Qed.

(** Every IPv4 address is its four octets. *)
Lemma ip4_octets v : 0 <= v < 2 ^ 32 ->
  exists a b c d, v = ip4 a b c d /\ octet a /\ octet b /\ octet c /\ octet d.
Proof.
  intros Hv. exists (v / 16777216), (v / 65536 mod 256), (v / 256 mod 256), (v mod 256).
  change (2 ^ 32) with 4294967296 in Hv. unfold ip4, octet. split_and!; dlia.
Qed.

(** A mask of [m] ones above [k] zeros keeps [m] bits in place. *)
Lemma land_high_mask x k m : 0 <= k -> 0 <= m ->
  Z.land x (Z.shiftl (Z.ones m) k) = (x / 2 ^ k) mod 2 ^ m * 2 ^ k.
Proof.
  intros. rewrite <- Z.land_ones, <- Z.shiftr_div_pow2, <- Z.shiftl_mul_pow2 by done.
  apply Z.bits_inj'. intros i Hi. rewrite Z.land_spec, !Z.shiftl_spec, Z.land_spec by done.
  destruct (decide (k <= i)); [rewrite Z.shiftr_spec by lia; do 2 f_equal; lia|].
  rewrite (Z.testbit_neg_r (Z.ones m)), !andb_false_r by lia. done.
Qed.

Lemma byte_mask_f0 x k : octet x -> (Z.land x 0xf0 =? 16 * k) = (x / 16 =? k).
Proof.
  intros Hx. unfold octet in Hx. change 0xf0 with (Z.shiftl (Z.ones 4) 4).
  rewrite land_high_mask by lia. change (2 ^ 4) with 16.
  apply eq_true_iff_eq. rewrite !Z.eqb_eq. dlia.
Qed.

(** The prefix test of a block is a test on octets. *)
Lemma in_block_octets a b c d : octet a -> octet b -> octet c -> octet d ->
  let v := ip4 a b c d in
  (forall x, octet x -> in_block 32 v (ip4 x 0 0 0, 8) = (a =? x))
  /\ (forall x y, octet x -> octet y -> in_block 32 v (ip4 x y 0 0, 16) = (a =? x) && (b =? y))
  /\ (forall x y z, octet x -> octet y -> octet z ->
        in_block 32 v (ip4 x y z 0, 24) = (a =? x) && (b =? y) && (c =? z))
  /\ in_block 32 v (ip4 100 64 0 0, 10) = (a =? 100) && (64 <=? b) && (b <=? 127)
  /\ in_block 32 v (ip4 172 16 0 0, 12) = (a =? 172) && (16 <=? b) && (b <=? 31)
  /\ in_block 32 v (ip4 198 18 0 0, 15) = (a =? 198) && (18 <=? b) && (b <=? 19)
  /\ in_block 32 v (ip4 224 0 0 0, 3) = (224 <=? a).
Proof.
  unfold octet, in_block, ip4. intros.
  change (2 ^ (32 - 8)) with 16777216. change (2 ^ (32 - 16)) with 65536.
  change (2 ^ (32 - 24)) with 256. change (2 ^ (32 - 10)) with 4194304.
  change (2 ^ (32 - 12)) with 1048576. change (2 ^ (32 - 15)) with 131072. change (2 ^ (32 - 3)) with 536870912.
  split_and!; intros; apply eq_true_iff_eq; rewrite ?andb_true_iff, ?Z.eqb_eq, ?Z.leb_le; dlia.
Qed.

(** ** IPv4 *)

Lemma predicates4 a b c d : octet a -> octet b -> octet c -> octet d ->
  let x := A4 (ip4 a b c d) in
  IsLoopback x = (a =? 127) /\ IsMulticast x = (a / 16 =? 14)
  /\ IsLinkLocalUnicast x = (a =? 169) && (b =? 254)
  /\ IsPrivate x = (a =? 10) || ((a =? 172) && (b / 16 =? 1)) || ((a =? 192) && (b =? 168))
  /\ As4 x = (a, b, c, d).
Proof.
  intros Ha Hb Hc Hd. destruct (v4_ip4 a b c d Ha Hb Hc Hd) as (E0 & E1 & E2 & E3).
  unfold IsLoopback, IsMulticast, IsLinkLocalUnicast, IsPrivate, As4. cbn [Unmap].
  rewrite E0, E1, E2, E3. change 0xe0 with (16 * 14). change 16 with (16 * 1) at 3.
  rewrite !byte_mask_f0 by done. done.
Qed.

Ltac octet_cases a :=
  let go k := (destruct (Z.eqb_spec a k) as [->|?]; [|]) in
  go 0; [|go 10; [|go 100; [|go 127; [|go 169; [|go 172; [|go 192; [|go 198; [|go 203]]]]]]]].

Definition public_decision (d : decision) : bool := match d with Public => true | _ => false end.
Definition permission_decision (d : decision) : bool := match d with NeedsPermission => true | _ => false end.

Lemma blocks4 a b c d : octet a -> octet b -> octet c -> octet d ->
  let v := ip4 a b c d in
  in_blocks 32 v private4 = (a =? 10) || (a =? 127) || ((a =? 172) && (16 <=? b) && (b <=? 31))
                            || ((a =? 192) && (b =? 168))
  /\ in_blocks 32 v denied4 =
     (a =? 0) || ((a =? 100) && (64 <=? b) && (b <=? 127)) || ((a =? 169) && (b =? 254))
     || ((a =? 192) && (b =? 0)) || ((a =? 198) && (18 <=? b) && (b <=? 19))
     || ((a =? 198) && (b =? 51) && (c =? 100)) || ((a =? 203) && (b =? 0) && (c =? 113)) || (224 <=? a).
Proof.
  intros Ha Hb Hc Hd v.
  destruct (in_block_octets a b c d Ha Hb Hc Hd) as (H8 & H16 & H24 & H10 & H12 & H15 & H3).
  unfold in_blocks, private4, denied4, v. cbn [existsb].
  rewrite !H8, !H16, !H24, H10, H12, H15, H3 by (unfold octet; lia).
  rewrite !orb_false_r, !orb_assoc. done.
Qed.

(** Decide the comparisons of a goal one by one, dropping impossible cases. *)
Ltac decide_comparisons :=
  repeat match goal with
  | |- context [?x =? ?y] => destruct (Z.eqb_spec x y); try lia; cbn [andb orb negb]
  | |- context [?x <=? ?y] => destruct (Z.leb_spec x y); try lia; cbn [andb orb negb]
  end; try done; try (exfalso; dlia).

(** The branches of the code in terms of octets, against the table. *)
Lemma decision4 v : 0 <= v < 2 ^ 32 ->
  publiclyRoutable (A4 v) = public_decision (classify (A4 v))
  /\ IsPrivate (A4 v) || IsLoopback (A4 v) = permission_decision (classify (A4 v))
  /\ (IsUnspecified (A4 v) || IsMulticast (A4 v) = true -> classify (A4 v) = Denied).
Proof.
  intros Hv. destruct (ip4_octets v Hv) as (a & b & c & d & -> & Ha & Hb & Hc & Hd).
  destruct (predicates4 a b c d Ha Hb Hc Hd) as (E1 & E2 & E3 & E4 & E5).
  destruct (blocks4 a b c d Ha Hb Hc Hd) as [B1 B2].
  assert (IsUnspecified (A4 (ip4 a b c d)) = true -> a = 0) as Hu.
  { unfold IsUnspecified. intros H. apply orb_true_iff in H as [H|H]; apply bool_decide_eq_true in H; [|done].
    injection H as H. unfold ip4, octet in *. lia. }
  unfold publiclyRoutable, classify, refused_octets. cbn [Unmap Addr_IsValid Is4 Prefix6_Contains].
  rewrite E1, E2, E3, E4, E5, B1, B2. clear E1 E2 E3 E4 E5 B1 B2.
  unfold octet in *. rewrite Z.geb_leb. rewrite (Z.geb_leb b 64).
  destruct (IsUnspecified _); [rewrite (Hu eq_refl); done|]. clear Hu. cbn [negb orb].
  split_and!; [| |intros Hm]; try (revert Hm);
    octet_cases a; cbn [Z.eqb Pos.eqb andb orb]; decide_comparisons.
Qed.

(** ** IPv6 *)

Lemma predicates6 v zone : 0 <= v < 2 ^ 128 -> Is4In6 (A6 v zone) = false ->
  let x := A6 v zone in
  IsLoopback x = in_block 128 v (1, 128)
  /\ IsMulticast x = in_block 128 v (0xff * 2 ^ 120, 8)
  /\ IsLinkLocalUnicast x = in_block 128 v (0xfe80 * 2 ^ 112, 10)
  /\ IsPrivate x = in_block 128 v (0xfc * 2 ^ 120, 7)
  /\ Prefix6_Contains documentation6 32 x = bool_decide (zone = []) && in_block 128 v (documentation6, 32)
  /\ IsUnspecified x = bool_decide (zone = []) && in_block 128 v (0, 128).
Proof.
  intros Hv Hm x. unfold x, IsLoopback, IsMulticast, IsLinkLocalUnicast, IsPrivate, Prefix6_Contains, in_block.
  cbn [Unmap]. rewrite Hm. split_and!.
  - change (2 ^ (128 - 128)) with 1. by rewrite !Z.div_1_r.
  - by rewrite Z.shiftr_div_pow2 by lia.
  - change 0xffc0 with (Z.shiftl (Z.ones 10) 6). rewrite land_high_mask, Z.shiftr_div_pow2 by lia.
    rewrite Z.div_div, <- Z.pow_add_r by lia. change (112 + 6) with (128 - 10).
    rewrite Z.mod_small by (split; [apply Z.div_pos; lia|apply Z.div_lt_upper_bound; lia]).
    apply eq_true_iff_eq. rewrite !Z.eqb_eq. change (0xfe80 * 2 ^ 112 / 2 ^ (128 - 10)) with 1018.
    change (2 ^ 6) with 64. lia.
  - unfold v6. change 0xff with (2 ^ 8 - 1). rewrite land_ones_mod by lia.
    change 0xfe with (Z.shiftl (Z.ones 7) 1). rewrite land_high_mask, Z.shiftr_div_pow2 by lia.
    change (120 - 8 * 0) with 120.
    rewrite (Z.mod_small (v / 2 ^ 120)) by (split; [apply Z.div_pos; lia|apply Z.div_lt_upper_bound; lia]).
    rewrite Z.div_div, <- Z.pow_add_r by lia. change (120 + 1) with (128 - 7).
    rewrite Z.mod_small by (split; [apply Z.div_pos; lia|apply Z.div_lt_upper_bound; lia]).
    apply eq_true_iff_eq. rewrite !Z.eqb_eq. change (0xfc * 2 ^ 120 / 2 ^ (128 - 7)) with 126.
    change (2 ^ 1) with 2. lia.
  - f_equal. rewrite Z.shiftr_lxor, <- !Z.shiftr_div_pow2 by lia.
    apply eq_true_iff_eq. rewrite !Z.eqb_eq. apply Z.lxor_eq_0_iff.
  - change (2 ^ (128 - 128)) with 1. rewrite !Z.div_1_r. unfold IsUnspecified.
    rewrite (bool_decide_false (A6 v zone = A4 0)) by discriminate. cbn [orb].
    apply eq_true_iff_eq. rewrite andb_true_iff, !bool_decide_eq_true, Z.eqb_eq.
    split; [by intros [= -> ->]|by intros [-> ->]].
Qed.

Lemma decision6 v : 0 <= v < 2 ^ 128 -> Is4In6 (A6 v []) = false ->
  publiclyRoutable (A6 v []) = public_decision (classify (A6 v []))
  /\ (classify (A6 v []) <> Denied ->
      IsPrivate (A6 v []) || IsLoopback (A6 v []) = permission_decision (classify (A6 v [])))
  /\ (classify (A6 v []) = Denied ->
      IsUnspecified (A6 v []) || IsMulticast (A6 v []) || negb (IsPrivate (A6 v []) || IsLoopback (A6 v [])) = true)
  /\ (IsUnspecified (A6 v []) || IsMulticast (A6 v []) = true -> classify (A6 v []) = Denied).
Proof.
  intros Hv Hm. destruct (predicates6 v [] Hv Hm) as (E1 & E2 & E3 & E4 & E5 & E6).
  unfold publiclyRoutable, classify. cbn [Unmap Addr_IsValid Is4 negb]. rewrite Hm.
  rewrite E1, E2, E3, E4, E5, E6. cbn [bool_decide_eq_true]. rewrite !(bool_decide_true ([] = [])) by done.
  unfold in_blocks, denied6, private6. cbn [existsb negb andb].
  assert (in_block 128 v (documentation6, 32) = true -> in_block 128 v (0xfc * 2 ^ 120, 7) = false
          /\ in_block 128 v (1, 128) = false) as Hx.
  { unfold in_block, documentation6. rewrite Z.eqb_eq. intros H. split; apply Z.eqb_neq.
    all: change (2 ^ (128 - 32)) with 79228162514264337593543950336 in *.
    all: change (2 ^ (128 - 7)) with 2658455991569831745807614120560689152 in *.
    all: change (2 ^ (128 - 128)) with 1 in *. all: dlia. }
  assert (in_block 128 v (0xfe80 * 2 ^ 112, 10) = true -> in_block 128 v (0xfc * 2 ^ 120, 7) = false
          /\ in_block 128 v (1, 128) = false) as Hy.
  { unfold in_block. rewrite Z.eqb_eq. intros H. split; apply Z.eqb_neq.
    all: change (2 ^ (128 - 10)) with 332306998946228968225951765070086144 in *.
    all: change (2 ^ (128 - 7)) with 2658455991569831745807614120560689152 in *.
    all: change (2 ^ 112) with 5192296858534827628530496329220096 in *.
    all: change (2 ^ 120) with 1329227995784915872903807060280344576 in *.
    all: change (2 ^ (128 - 128)) with 1 in *. all: dlia. }
  revert Hx Hy. clear. generalize (in_block 128 v (0, 128)), (in_block 128 v (0xff * 2 ^ 120, 8)),
    (in_block 128 v (0xfe80 * 2 ^ 112, 10)), (in_block 128 v (documentation6, 32)),
    (in_block 128 v (0xfc * 2 ^ 120, 7)), (in_block 128 v (1, 128)).
  intros [] [] [] [] [] [] Hx Hy; cbn in *;
    try (by destruct (Hx eq_refl)); try (by destruct (Hy eq_refl)); by split_and!.
Qed.

(** ** The decision *)

Lemma Unmap_wf a : addr_wf a -> addr_wf (Unmap a).
Proof.
  destruct a as [|v|v z]; intros Hv; [exact Hv..|]. unfold Unmap.
  destruct (Is4In6 _); [|exact Hv]. unfold addr_wf.
  change 0xffffffff with (2 ^ 32 - 1). rewrite land_ones_mod by lia. apply Z.mod_pos_bound. lia.
Qed.

Lemma Unmap_not_mapped v z : Unmap (A6 v z) = A6 v z -> Is4In6 (A6 v z) = false.
Proof. cbn. by destruct (_ =? _). Qed.

Lemma Unmap_idem a : Unmap (Unmap a) = Unmap a.
Proof. destruct a as [|v|v z]; try done. cbn. destruct (Z.shiftr v 32 =? 0xffff) eqn:E; cbn; by rewrite ?E. Qed.

Definition permitted (s : target_config) (target : AddrPort) : bool :=
  bool_decide (target ∈ tc_allowedTargets s) || tc_AllowPrivateTargets s.

Lemma decide_unmapped s a port : addr_wf a -> Unmap a = a -> port <> 0 ->
  targetAllowed s (AddrPortFrom a port)
  = match classify a with
    | Public => true
    | NeedsPermission => permitted s (AddrPortFrom a port)
    | Denied => false
    end.
Proof.
  intros Hw Hu Hp. unfold targetAllowed, permitted. cbn [ap_addr ap_port AddrPortFrom AddrPort_IsValid].
  rewrite (proj2 (Z.eqb_neq port 0)) by done. rewrite Hu.
  destruct a as [|v|v z]; [done| |]; cbn [Addr_IsValid AddrPort_IsValid ap_addr negb orb AddrPortFrom].
  - destruct (decision4 v Hw) as (D1 & D2 & D3). cbn [Zone]. rewrite (bool_decide_true ([] = [])) by done.
    rewrite orb_false_r, D1, D2.
    destruct (IsUnspecified _ || IsMulticast _); [by rewrite D3|]. by destruct (classify (A4 v)).
  - cbn [Zone]. destruct (decide (z = [])) as [->|Hz].
    + rewrite (bool_decide_true ([] = [])) by done. rewrite orb_false_r.
      destruct (decision6 v Hw (Unmap_not_mapped _ _ Hu)) as (D1 & D2 & D3 & D4). rewrite D1.
      destruct (IsUnspecified _ || IsMulticast _); [by rewrite D4|].
      destruct (classify (A6 v [])); [done|by rewrite D2|].
      specialize (D3 eq_refl). cbn in D3. by apply negb_true_iff in D3 as ->.
    + unfold classify. rewrite (bool_decide_false (z = [])) by done. by rewrite orb_true_r.
Qed.

(** C6: The relay forwards to exactly these targets.  After unmapping an
IPv4-mapped address, a target with a non-zero port is allowed if and only if it
lies in no listed block, or lies in a private or loopback block and is either
configured explicitly or covered by [AllowPrivateTargets]; an invalid address, a
zoned one, and one in a denied block are refused under every configuration. *)
Theorem targetAllowed_policy s target :
  addr_wf (ap_addr target) ->
  targetAllowed s target
  = negb (ap_port target =? 0)
    && match classify (Unmap (ap_addr target)) with
       | Public => true
       | NeedsPermission => permitted s (AddrPortFrom (Unmap (ap_addr target)) (ap_port target))
       | Denied => false
       end.
Proof.
  destruct target as [a port]. cbn [ap_addr ap_port]. intros Hw.
  destruct (Z.eqb_spec port 0) as [->|Hp]; [unfold targetAllowed; cbn; by rewrite orb_true_r|].
  cbn [negb andb]. rewrite <- decide_unmapped; [|by apply Unmap_wf|apply Unmap_idem|done].
  unfold targetAllowed, AddrPort_IsValid. cbn [ap_addr ap_port AddrPortFrom]. rewrite Unmap_idem.
  assert (Addr_IsValid (Unmap a) = Addr_IsValid a) as ->; [|done].
  destruct a as [|v|v z]; [done..|]. unfold Unmap. by destruct (Is4In6 _).
Qed.

Lemma targetAllowed_policy_witness :
  targetAllowed {| tc_allowedTargets := []; tc_AllowPrivateTargets := true |}
    {| ap_addr := A6 0xffff64400001 []; ap_port := 53 |} = false.
Proof.
  rewrite (targetAllowed_policy _ {| ap_addr := A6 0xffff64400001 []; ap_port := 53 |});
    [vm_compute; reflexivity|cbn; lia].
Defined.
