(* ===== verification/Sessions.v ===== *)
(** * Session accounting of the relay

[Server.acquire], [Server.release] and [ActiveSessions] of
[internal/relay/server.go] on the counters they share under the server's mutex,
and the promise they make to the request handler: as long as every admitted
session is released once, the counters are exactly the live sessions, and the
limits hold. *)

From stdpp Require Import base gmap list numbers.
From Stdlib Require Import ZArith Lia.
From S2P Require Import Prelude.
From S2P Require Import GoStrings.

Local Open Scope Z_scope.

(** ** The code *)

Record sessions := {
  maxSessions : Z;
  activeByAddress : gmap gostring Z;
  activeSessions : Z;
  closed : bool;
}.

(** Reading a Go map: a missing key is zero. *)
Definition map_get (m : gmap gostring Z) (k : gostring) : Z := default 0 (m !! k).

Definition ActiveSessions (s : sessions) : Z := activeSessions s.

Definition acquire (s : sessions) (source : gostring) : sessions * bool :=
  if closed s || (activeSessions s >=? maxSessions s) || (map_get (activeByAddress s) source >=? 8)
  then (s, false)
  else ({| maxSessions := maxSessions s;
           activeByAddress := <[source := map_get (activeByAddress s) source + 1]> (activeByAddress s);
           activeSessions := activeSessions s + 1;
           closed := closed s |}, true).

Definition release (s : sessions) (source : gostring) : sessions :=
  {| maxSessions := maxSessions s;
     activeByAddress :=
       if map_get (activeByAddress s) source <=? 1 then delete source (activeByAddress s)
       else <[source := map_get (activeByAddress s) source - 1]> (activeByAddress s);
     activeSessions := if activeSessions s >? 0 then activeSessions s - 1 else activeSessions s;
     closed := closed s |}.

Definition set_closed (s : sessions) : sessions :=
  {| maxSessions := maxSessions s; activeByAddress := activeByAddress s;
     activeSessions := activeSessions s; closed := true |}.

(** The counters [Start] creates; a limit that is not positive is 256. *)
Definition new_sessions (configured : Z) : sessions :=
  {| maxSessions := if configured <=? 0 then 256 else configured;
     activeByAddress := ∅; activeSessions := 0; closed := false |}.

(** ** The specification: a bag of live sessions *)

(** How many live sessions a source has. *)
Definition count (source : gostring) (live : list gostring) : Z :=
  len (List.filter (fun x => bool_decide (x = source)) live).

(** A map of counters agrees with a bag, each count within a limit; sources
without an element have no entry. *)
Record counted (limit : Z) (m : gmap gostring Z) (live : list gostring) : Prop := {
  counted_get source : map_get m source = count source live;
  counted_dom source : is_Some (m !! source) <-> source ∈ live;
  counted_limit source : count source live <= limit;
}.

Definition represents (s : sessions) (live : list gostring) : Prop :=
  activeSessions s = len live /\ len live <= maxSessions s /\ counted 8 (activeByAddress s) live.

(** ** Lemmas *)

Lemma count_cons x source live :
  count source (x :: live) = (if bool_decide (x = source) then 1 else 0) + count source live.
Proof. unfold count. cbn. destruct (bool_decide _); [rewrite len_cons|]; lia. Qed.

Lemma count_nonneg source live : 0 <= count source live.
Proof. apply len_nonneg. Qed.

Lemma count_le_len source live : count source live <= len live.
Proof.
  induction live as [|x live IH]; [done|]. rewrite count_cons, len_cons. destruct (bool_decide _); lia.
Qed.

Lemma count_pos source live : 0 < count source live <-> source ∈ live.
Proof.
  induction live as [|x live IH]; [split; [done|by intros ?%elem_of_nil]|].
  rewrite count_cons, elem_of_cons. pose proof (count_nonneg source live).
  destruct (bool_decide_reflect (x = source)) as [->|]; [split; [by left|lia]|].
  rewrite <- IH. split; [intros; right; lia|]. intros [->|]; [done|lia].
Qed.

Lemma count_perm source l k : l ≡ₚ k -> count source l = count source k.
Proof. intros H. induction H; rewrite ?count_cons; lia. Qed.

Lemma len_perm {A} (l k : list A) : l ≡ₚ k -> len l = len k.
Proof. intros H. unfold len. by rewrite H. Qed.

#[export] Instance counted_perm limit m : Proper (Permutation ==> iff) (counted limit m).
Proof.
  assert (forall l k, l ≡ₚ k -> counted limit m l -> counted limit m k) as Hw.
  { intros l k H [H1 H2 H3]. split; intros x.
    - by rewrite H1, (count_perm x l k H).
    - by rewrite H2, H.
    - by rewrite <- (count_perm x l k H). }
  intros l k H. split; apply Hw; by rewrite H.
Qed.

#[export] Instance represents_perm s : Proper (Permutation ==> iff) (represents s).
Proof. intros l k H. unfold represents. by rewrite (len_perm l k H), H. Qed.

Lemma map_get_insert m k v k' : map_get (<[k := v]> m) k' = if bool_decide (k = k') then v else map_get m k'.
Proof.
  unfold map_get. destruct (bool_decide_reflect (k = k')) as [->|]; [by rewrite lookup_insert_eq|].
  by rewrite lookup_insert_ne.
Qed.

Lemma map_get_delete m k k' : map_get (delete k m) k' = if bool_decide (k = k') then 0 else map_get m k'.
Proof.
  unfold map_get. destruct (bool_decide_reflect (k = k')) as [->|]; [by rewrite lookup_delete_eq|].
  by rewrite lookup_delete_ne.
Qed.

(** Counting one more, and one less. *)
Lemma counted_add limit m live source : counted limit m live -> count source live < limit ->
  counted limit (<[source := map_get m source + 1]> m) (source :: live).
Proof.
  intros [H1 H2 H3] Hl. split; intros x.
  - rewrite map_get_insert, count_cons, !H1. destruct (bool_decide_reflect (source = x)) as [->|]; lia.
  - rewrite elem_of_cons, <- H2. destruct (decide (source = x)) as [->|].
    + rewrite lookup_insert_eq. split; [by left|done].
    + rewrite lookup_insert_ne by done. split; [by right|]. by intros [<-|].
  - rewrite count_cons. specialize (H3 x). destruct (bool_decide_reflect (source = x)) as [->|]; lia.
Qed.

Lemma counted_sub limit m live source : counted limit m (source :: live) ->
  counted limit (if map_get m source <=? 1 then delete source m else <[source := map_get m source - 1]> m) live.
Proof.
  intros [H1 H2 H3]. pose proof (H1 source) as Hc. rewrite count_cons, bool_decide_true in Hc by done.
  pose proof (count_nonneg source live) as Hn. rewrite Hc. split; intros x.
  - specialize (H1 x). rewrite count_cons in H1.
    split_if; breflect; rewrite ?map_get_delete, ?map_get_insert, ?H1;
      destruct (bool_decide_reflect (source = x)) as [->|]; lia.
  - specialize (H2 x). rewrite elem_of_cons in H2. destruct (decide (source = x)) as [->|Hne].
    + rewrite <- count_pos. split_if; breflect.
      * rewrite lookup_delete_eq. split; [by intros [? [=]]|lia].
      * rewrite lookup_insert_eq. split; [lia|done].
    + assert (is_Some (m !! x) <-> x ∈ live) as Hx by (rewrite H2; split; [by intros [<-|]|by right]).
      split_if; [rewrite lookup_delete_ne by done|rewrite lookup_insert_ne by done]; done.
  - specialize (H3 x). rewrite count_cons in H3. destruct (bool_decide _); lia.
Qed.

Lemma counted_empty limit : 0 <= limit -> counted limit ∅ [].
Proof.
  intros Hl. split; intros x; [done| |done]. rewrite lookup_empty. split; [by intros [? [=]]|by intros ?%elem_of_nil].
Qed.

(** ** The operations implement the bag *)

Lemma acquire_represents s live source : represents s live ->
  match acquire s source with
  | (s', true) => represents s' (source :: live) /\ closed s = false
  | (s', false) => s' = s /\ (closed s = true \/ len live = maxSessions s \/ count source live = 8)
  end.
Proof.
  intros (H1 & H4 & Hc). unfold acquire. rewrite (counted_get _ _ _ Hc), H1.
  destruct (closed s); [by split; [|left]|]. cbn [orb].
  destruct (len live >=? maxSessions s) eqn:E1; breflect; [split; [done|right; left; lia]|]. cbn [orb].
  destruct (count source live >=? 8) eqn:E2; breflect.
  { split; [done|]. right. right. pose proof (counted_limit _ _ _ Hc source). lia. }
  split; [|done]. unfold represents. cbn. rewrite len_cons. split_and!; [lia..|].
  rewrite <- (counted_get _ _ _ Hc). by apply counted_add.
Qed.

Lemma release_represents s live source : represents s (source :: live) ->
  represents (release s source) live.
Proof.
  intros (H1 & H4 & Hc). rewrite len_cons in *. pose proof (len_nonneg live).
  unfold represents, release. cbn. split_and!; [rewrite (proj2 (Z.gtb_lt _ _)) by lia; lia|lia|].
  by apply counted_sub.
Qed.

(** ** Interleavings of handlers

The handlers run concurrently; each call is atomic under the mutex.  A handler
releases its own source once, and only after its [acquire] succeeded. *)
Inductive session_step : sessions * list gostring -> sessions * list gostring -> Prop :=
| step_admit s s' live source :
    acquire s source = (s', true) -> session_step (s, live) (s', source :: live)
| step_refuse s s' live source :
    acquire s source = (s', false) -> session_step (s, live) (s', live)
| step_release s live live' source :
    live ≡ₚ source :: live' -> session_step (s, live) (release s source, live')
| step_close s live : session_step (s, live) (set_closed s, live).

Lemma session_step_represents s live s' live' :
  session_step (s, live) (s', live') -> represents s live ->
  represents s' live' /\ maxSessions s' = maxSessions s.
Proof.
  intros Hstep Hr. inversion Hstep as [??? source Ha|??? source Ha|??? source Hp|]; subst; clear Hstep.
  - pose proof (acquire_represents s live source Hr) as H. rewrite Ha in H. split; [apply H|].
    unfold acquire in Ha. by split_if_in Ha; simplify_eq.
  - pose proof (acquire_represents s live' source Hr) as H. rewrite Ha in H. by destruct H as [-> _].
  - split; [|done]. apply release_represents. by rewrite <- Hp.
  - done.
Qed.

Lemma new_sessions_represents configured : represents (new_sessions configured) [].
Proof.
  unfold represents, new_sessions. cbn [activeSessions activeByAddress maxSessions].
  split_and!; [done| |by apply counted_empty].
  destruct (configured <=? 0) eqn:E; breflect; rewrite len_nil; lia.
Qed.

(** Admission control of tunnels.  In every state reached by any interleaving
of admissions, refusals, releases and a close, the counter [ActiveSessions]
reports is the number of live tunnels and at most the configured maximum (256 by
default), every source has at most eight, the per-source map holds exactly the
sources with a live tunnel, and a closed server admits nobody. *)
Theorem admission_invariant configured s live :
  rtc session_step (new_sessions configured, []) (s, live) ->
  ActiveSessions s = len live
  /\ len live <= (if configured <=? 0 then 256 else configured)
  /\ (forall source, map_get (activeByAddress s) source = count source live /\ count source live <= 8)
  /\ (forall source, source ∈ dom (activeByAddress s) <-> source ∈ live)
  /\ (closed s = true -> forall source, acquire s source = (s, false)).
Proof.
  intros Hr.
  assert (represents s live /\ maxSessions s = maxSessions (new_sessions configured)) as [(H1 & H4 & [H2 H3 H5]) Hm].
  { change s with (fst (s, live)). change live with (snd (s, live)) at 2.
    revert Hr. generalize (s, live). refine (rtc_ind_r _ _ _ _); [split; [apply new_sessions_represents|done]|].
    intros [s1 l1] [s2 l2] _ Hstep [IH1 IH2]. apply session_step_represents in Hstep as [? Hm]; [|done].
    cbn in *. by rewrite Hm. }
  split_and!; [done|by rewrite Hm in H4|done| |].
  - intros source. by rewrite elem_of_dom.
  - intros Hc source. unfold acquire. by rewrite Hc.
Qed.

Lemma admission_invariant_witness :
  ActiveSessions (release (fst (acquire (new_sessions 1) [7])) [7]) = 0.
Proof.
  apply (admission_invariant 1 _ []).
  eapply rtc_l; [by apply (step_admit _ (fst (acquire (new_sessions 1) [7])) [] [7])|].
  eapply rtc_l; [by apply (step_release _ [[7]] [] [7])|]. apply rtc_refl.
Defined.
