(* ===== verification/AccessConfig.v ===== *)
(** * Access configuration

[AccessConfig], [LoadAccessConfig], [validate] and the policy revision of
[newAccessPolicy] in [internal/relay/access.go].  The file's contents and
[url.Parse] are parameters; JSON decoding is that of [Json]. *)

From stdpp Require Import base gmap list numbers sorting.
From Stdlib Require Import ZArith Lia String.
From S2P Require Import Prelude.
From S2P Require Import GoStrings.
From S2P Require Import Json.
From S2P Require Import Base58.

Local Open Scope Z_scope.

(** ** Data *)

(** A nil slice and an empty one are told apart: they are encoded differently. *)
Record AccessConfig := {
  Mode : gostring;
  AllowedGroupIDs : option (list Z);
  CoreURLBases : option (list gostring);
}.

Definition slice {A} (s : option (list A)) : list A := default [] s.

(** What [validate] reads of a parsed URL. *)
Record url := {
  url_Scheme : gostring;
  url_Hostname : gostring;
  url_has_User : bool;
  url_RawQuery : gostring;
  url_Fragment : gostring;
}.

Inductive config_error :=
| BadMode
| PublicWithGroups
| BadGroupID
| BadGroupCount
| BadCoreCount
| InvalidCoreURL
| RemoteCoreNotHTTPS.

Definition public : gostring := str "public".
Definition groups : gostring := str "groups".

(** ** validate *)

(** The loop over group IDs: positive, none seen before. *)
Fixpoint check_ids (ids : list Z) (seen : gset Z) : option (gset Z) :=
  match ids with
  | [] => Some seen
  | id :: ids =>
    if (id <=? 0) || bool_decide (id ∈ seen) then None else check_ids ids ({[id]} ∪ seen)
  end.

Section Validate.
  Context (url_Parse : gostring -> option url).

Definition check_url (base : gostring) : option config_error :=
  match url_Parse base with
  | None => Some InvalidCoreURL
  | Some u =>
    if same (url_Hostname u) [] || url_has_User u || negb (same (url_RawQuery u) []) || negb (same (url_Fragment u) [])
       || (negb (same (url_Scheme u) (str "https")) && negb (same (url_Scheme u) (str "http")))
    then Some InvalidCoreURL
    else if same (url_Scheme u) (str "http") && negb (same (url_Hostname u) (str "127.0.0.1"))
            && negb (same (url_Hostname u) (str "localhost")) && negb (same (url_Hostname u) (str "::1"))
    then Some RemoteCoreNotHTTPS
    else None
  end.

(** The loop over Core URLs replaces each accepted one in place; it stops at the
first that is refused, leaving the rest. *)
Fixpoint check_urls (bases : list gostring) : list gostring * option config_error :=
  match bases with
  | [] => ([], None)
  | base :: rest =>
    match check_url base with
    | Some e => (bases, Some e)
    | None => let '(rest', e) := check_urls rest in (TrimRight base 47 :: rest', e)
    end
  end.

Definition validate (c : AccessConfig) : AccessConfig * option config_error :=
  if negb (same (Mode c) public) && negb (same (Mode c) groups) then (c, Some BadMode)
  else if same (Mode c) public && negb (len (slice (AllowedGroupIDs c)) =? 0) then (c, Some PublicWithGroups)
  else match check_ids (slice (AllowedGroupIDs c)) ∅ with
  | None => (c, Some BadGroupID)
  | Some seen =>
    let n := Z.of_nat (size seen) in
    let cores := len (slice (CoreURLBases c)) in
    if (n >? 16) || (same (Mode c) groups && (n =? 0)) then (c, Some BadGroupCount)
    else if (cores >? 8) || (same (Mode c) groups && (cores =? 0)) then (c, Some BadCoreCount)
    else
      let '(bases, e) := check_urls (slice (CoreURLBases c)) in
      let c := {| Mode := Mode c; AllowedGroupIDs := AllowedGroupIDs c;
                  CoreURLBases := option_map (fun _ => bases) (CoreURLBases c) |} in
      match e with
      | Some e => (c, Some e)
      | None => ({| Mode := Mode c;
                    AllowedGroupIDs := option_map (merge_sort Z.le) (AllowedGroupIDs c);
                    CoreURLBases := CoreURLBases c |}, None)
      end
  end.

(** ** LoadAccessConfig *)

Definition access_type : jty :=
  TStruct [(str "mode", TString); (str "allowed_group_ids", TSlice (TInt 32));
           (str "core_url_bases", TSlice TString)].

Definition as_string (v : jval) : gostring := match v with VStr s => s | _ => [] end.
Definition as_int (v : jval) : Z := match v with VInt z => z | _ => 0 end.
Definition as_slice {A} (f : jval -> A) (v : jval) : option (list A) :=
  match v with VSlice backing (Some n) => Some (map f (take n backing)) | _ => None end.

Definition as_config (v : jval) : AccessConfig :=
  match v with
  | VStruct [m; g; c] =>
    {| Mode := as_string m; AllowedGroupIDs := as_slice as_int g; CoreURLBases := as_slice as_string c |}
  | _ => {| Mode := []; AllowedGroupIDs := None; CoreURLBases := None |}
  end.

Inductive load_error :=
| Unreadable
| TooLarge
| NotAnObject
| DuplicateKey
| Undecodable
| TrailingData
| Invalid (e : config_error).

(** The first token is an opening brace. *)
Definition opens_object (raw : gostring) : bool :=
  match skip_ws raw with
  | c :: _ => c =? 123
  | [] => false
  end.

(** [raw] is the first 16385 bytes of the file, or [None] if reading failed.
Syntax errors after the opening brace are reported as [Undecodable], whichever
pass meets them. *)
Definition LoadAccessConfig (raw : option gostring) : result load_error AccessConfig :=
  match raw with
  | None => Err Unreadable
  | Some raw =>
    if len raw >? 16384 then Err TooLarge
    else if negb (opens_object raw) then Err NotAnObject
    else match json_Decode raw with
    | None => Err Undecodable
    | Some (JObj ms, rest) =>
      if negb (no_dup_keys (map fst ms) []) then Err DuplicateKey
      else match decode_into true access_type (zero_value access_type) (JObj ms) with
      | None => Err Undecodable
      | Some v =>
        match skip_ws rest with
        | [] => match validate (as_config v) with
                | (c, None) => Ok c
                | (_, Some e) => Err (Invalid e)
                end
        | _ => Err TrailingData
        end
      end
    | Some _ => Err NotAnObject
    end
  end.

(** ** newAccessPolicy *)

(** The document whose digest is the policy revision. *)
Definition policy_document (c : AccessConfig) : gostring :=
  marshal_object [(str "Mode", marshal_string (Mode c));
                  (str "Groups", marshal_slice FormatInt (AllowedGroupIDs c))].

(** An unset mode means public; then the configuration is validated. *)
Definition default_mode (c : AccessConfig) : AccessConfig :=
  if same (Mode c) []
  then {| Mode := public; AllowedGroupIDs := AllowedGroupIDs c; CoreURLBases := CoreURLBases c |}
  else c.

Definition newAccessPolicy `{Hashes} (c : AccessConfig) : result config_error (AccessConfig * gostring) :=
  match validate (default_mode c) with
  | (_, Some e) => Err e
  | (c, None) => Ok (c, hex_EncodeToString (sha256 (policy_document c)))
  end.

End Validate.

(** ** What a valid configuration is *)

Section Spec.
  Context (url_Parse : gostring -> option url).

(** A Core URL: a host, no credentials, query or fragment, HTTPS unless local. *)
Definition core_url_ok (base : gostring) : Prop :=
  exists u, url_Parse base = Some u
    /\ url_Hostname u <> [] /\ url_has_User u = false /\ url_RawQuery u = [] /\ url_Fragment u = []
    /\ (url_Scheme u = str "https"
        \/ url_Scheme u = str "http" /\ url_Hostname u ∈ [str "127.0.0.1"; str "localhost"; str "::1"]).

Definition config_ok (c : AccessConfig) : Prop :=
  let ids := slice (AllowedGroupIDs c) in
  let cores := slice (CoreURLBases c) in
  (Mode c = public /\ ids = [] \/ Mode c = groups /\ ids <> [] /\ cores <> [])
  /\ List.NoDup ids /\ Forall (fun id => 0 < id) ids /\ len ids <= 16
  /\ len cores <= 8 /\ Forall core_url_ok cores.

Lemma check_url_ok base : check_url url_Parse base = None <-> core_url_ok base.
Proof.
  unfold check_url, core_url_ok. destruct (url_Parse base) as [u|]; [|split; [done|by intros (? & [=] & _)]].
  assert (str "http" <> str "https") as Hne by done.
  destruct (same_spec (url_Hostname u) []); [split; [done|]; by intros (? & [= <-] & ? & _)|].
  destruct (url_has_User u) eqn:Hu; [split; [done|]; intros (? & [= <-] & _ & ? & _); congruence|].
  destruct (same_spec (url_RawQuery u) []); [|split; [done|]; by intros (? & [= <-] & _ & _ & ? & _)].
  destruct (same_spec (url_Fragment u) []); [|split; [done|]; by intros (? & [= <-] & _ & _ & _ & ? & _)].
  cbn [orb negb]. split.
  - intros H. exists u. split_and!; try done.
    destruct (same_spec (url_Scheme u) (str "https")) as [|Hs]; [by left|].
    destruct (same_spec (url_Scheme u) (str "http")) as [Hs'|Hs']; [|done]. right. split; [done|].
    rewrite !elem_of_cons. cbn [negb andb] in H.
    destruct (same_spec (url_Hostname u) (str "127.0.0.1")), (same_spec (url_Hostname u) (str "localhost")),
      (same_spec (url_Hostname u) (str "::1")); try done; auto.
  - intros (? & [= <-] & _ & _ & _ & _ & [Hs|[Hs Hl]]); rewrite Hs; [done|].
    rewrite !elem_of_cons in Hl. destruct Hl as [->|[->|[->|?%elem_of_nil]]]; done.
Qed.

Lemma check_urls_ok bases bases' : check_urls url_Parse bases = (bases', None) <->
  Forall core_url_ok bases /\ bases' = map (fun b => TrimRight b 47) bases.
Proof.
  revert bases'. induction bases as [|b bases IH]; intros bases'; cbn.
  { split; [by intros [= <-]|by intros [_ ->]]. }
  rewrite Forall_cons_iff, <- (check_url_ok b).
  destruct (check_url url_Parse b); [split; [done|by intros [[? _] _]]|].
  destruct (check_urls url_Parse bases) as [r e]. split.
  - intros [= <- ->]. destruct (proj1 (IH r) eq_refl) as [? ->]. done.
  - intros [[_ H] ->]. injection (proj2 (IH _) (conj H eq_refl)) as -> ->. done.
Qed.

End Spec.

Lemma check_ids_ok ids seen seen' : check_ids ids seen = Some seen' <->
  List.NoDup ids /\ Forall (fun id => 0 < id /\ id ∉ seen) ids /\ seen' = list_to_set ids ∪ seen.
Proof.
  revert seen. induction ids as [|id ids IH]; intros seen; cbn.
  { split; [intros [= <-]; split_and!; [constructor|done|set_solver]|]. intros (_ & _ & ->). f_equal. set_solver. }
  rewrite List.NoDup_cons_iff, Forall_cons_iff. destruct (id <=? 0) eqn:E; breflect; cbn.
  { split; [done|]. intros (_ & [[? _] _] & _). lia. }
  destruct (bool_decide_reflect (id ∈ seen)) as [Hin|Hin]; [split; [done|by intros (_ & [[_ ?] _] & _)]|].
  rewrite IH, !List.Forall_forall. split.
  - intros (H1 & H2 & ->). split_and!; [|done|lia|done| |set_solver].
    + intros Hi. apply H2 in Hi as [_ Hi]. set_solver.
    + intros x Hx. apply H2 in Hx. set_solver.
  - intros ((H1 & H2) & (_ & H3) & ->). split_and!; [done| |set_solver].
    intros x Hx. specialize (H3 x Hx) as [??]. split; [done|]. intros Hi.
    assert (x = id) as -> by set_solver. done.
Qed.

Lemma size_list_to_set_nodup (ids : list Z) : List.NoDup ids -> size (list_to_set ids ∪ ∅ : gset Z) = List.length ids.
Proof. intros H. rewrite (right_id_L ∅ (∪)). apply size_list_to_set. by apply NoDup_ListNoDup. Qed.

(** The outcome of [validate] on a valid configuration. *)
Definition normalised (c : AccessConfig) : AccessConfig :=
  {| Mode := Mode c; AllowedGroupIDs := option_map (merge_sort Z.le) (AllowedGroupIDs c);
     CoreURLBases := option_map (map (fun b => TrimRight b 47)) (CoreURLBases c) |}.

Lemma public_not_groups : public <> groups.
Proof. done. Qed.

Lemma len_zero {A} (l : list A) : len l = 0 <-> l = [].
Proof. destruct l; [done|]. rewrite len_cons. pose proof (len_nonneg l). split; [lia|done]. Qed.

Lemma bases_normalised (c : AccessConfig) bases :
  bases = map (fun b => TrimRight b 47) (slice (CoreURLBases c)) ->
  option_map (fun _ => bases) (CoreURLBases c) = CoreURLBases (normalised c).
Proof. intros ->. cbn. by destruct (CoreURLBases c). Qed.

Lemma validate_tail url_Parse c c' :
  (let '(bases, e) := check_urls url_Parse (slice (CoreURLBases c)) in
   let c := {| Mode := Mode c; AllowedGroupIDs := AllowedGroupIDs c;
               CoreURLBases := option_map (fun _ => bases) (CoreURLBases c) |} in
   match e with
   | Some e => (c, Some e)
   | None => ({| Mode := Mode c;
                 AllowedGroupIDs := option_map (merge_sort Z.le) (AllowedGroupIDs c);
                 CoreURLBases := CoreURLBases c |}, None)
   end) = (c', None)
  <-> Forall (core_url_ok url_Parse) (slice (CoreURLBases c)) /\ c' = normalised c.
Proof.
  destruct (check_urls url_Parse (slice (CoreURLBases c))) as [bases [e|]] eqn:E; cbn.
  - split; [done|]. intros [H _].
    pose proof (proj2 (check_urls_ok url_Parse _ _) (conj H eq_refl)) as H'. congruence.
  - apply check_urls_ok in E as [H Hb]. rewrite (bases_normalised c bases Hb). unfold normalised; cbn.
    split; [by intros [= <-]|by intros [_ ->]].
Qed.

Lemma config_ids_ok ids : List.NoDup ids -> Forall (fun id => 0 < id) ids ->
  exists seen, check_ids ids ∅ = Some seen.
Proof.
  intros H1 H2. exists (list_to_set ids ∪ ∅). apply (proj2 (check_ids_ok ids ∅ _)). split; [done|split; [|done]].
  eapply List.Forall_impl; [|exact H2]. intros x ?. split; [done|set_solver].
Qed.

Lemma cores_count (cores : list gostring) :
  (len cores >? 8) = true /\ 8 < len cores \/ (len cores >? 8) = false /\ len cores <= 8.
Proof. destruct (Z.gtb_spec (len cores) 8); [by left|right; split; [done|lia]]. Qed.

Lemma strictly_sorted l : StronglySorted Z.le l -> NoDup l -> StronglySorted Z.lt l.
Proof.
  induction 1 as [|x l Hl IH Hx]; intros Hn; [constructor|]. apply NoDup_cons in Hn as [Hn Hn'].
  constructor; [auto|]. apply Forall_forall. intros y Hy. rewrite Forall_forall in Hx.
  specialize (Hx y Hy). assert (x <> y) by (by intros ->). lia.
Qed.

Lemma strictly_sorted_le l : StronglySorted Z.lt l -> StronglySorted Z.le l.
Proof.
  induction 1 as [|x l Hl IH Hx]; constructor; [done|].
  eapply List.Forall_impl; [|exact Hx]. cbn. lia.
Qed.

Lemma validate_accepts url_Parse c c' :
  validate url_Parse c = (c', None) <-> config_ok url_Parse c /\ c' = normalised c.
Proof.
  unfold validate, config_ok. set (ids := slice (AllowedGroupIDs c)). set (cores := slice (CoreURLBases c)).
  destruct (check_ids ids ∅) as [seen|] eqn:Ei; cycle 1.
  { split; [intros H; repeat split_if_in H; done|]. intros [(_ & H1 & H2 & _) _].
    destruct (config_ids_ok ids H1 H2). congruence. }
  apply check_ids_ok in Ei as (Hnd & Hpos & ->). rewrite size_list_to_set_nodup by done. fold (len ids).
  assert (Forall (fun id => 0 < id) ids) as Hpos' by (eapply List.Forall_impl; [|exact Hpos]; by intros ? [? _]).
  pose proof (validate_tail url_Parse c c') as Ht. fold cores in Ht.
  pose proof public_not_groups as Hpg. pose proof (len_zero ids) as Zi. pose proof (len_zero cores) as Zc.
  destruct (same_spec (Mode c) public) as [Hp|Hp], (same_spec (Mode c) groups) as [Hg|Hg];
    [congruence| | |split; [done|]; intros [[[[? _]|[? _]] _] _]; congruence]; cbn [negb andb].
  - destruct (Z.eqb_spec (len ids) 0) as [E|E]; cbn [negb]; cycle 1.
    { split; [done|]. intros [([[_ H]|[? _]] & _) _]; [by apply Zi in H|congruence]. }
    rewrite E. cbn [Z.gtb Z.compare orb]. rewrite orb_false_r.
    destruct (cores_count cores) as [[-> H8]|[-> H8]]; [split; [done|]; intros [(_ & _ & _ & _ & H & _) _]; lia|].
    rewrite Ht. split; [intros [HF ->]|by intros [(_ & _ & _ & _ & _ & HF) ->]].
    split; [|done]. split_and!; try done. left. split; [done|by apply Zi].
  - destruct (Z.gtb_spec (len ids) 16) as [G|G]; cbn [orb].
    { split; [done|]. intros [(_ & _ & _ & H & _) _]. lia. }
    destruct (Z.eqb_spec (len ids) 0) as [E|E].
    { split; [done|]. intros [([[? _]|[_ [H _]]] & _) _]; [congruence|destruct H; by apply Zi]. }
    destruct (cores_count cores) as [[-> H8]|[-> H8]]; cbn [orb].
    { split; [done|]. intros [(_ & _ & _ & _ & H & _) _]. lia. }
    destruct (Z.eqb_spec (len cores) 0) as [E2|E2].
    { split; [done|]. intros [([[? _]|[_ [_ H]]] & _) _]; [congruence|destruct H; by apply Zc]. }
    rewrite Ht. split; [intros [HF ->]|by intros [(_ & _ & _ & _ & _ & HF) ->]].
    split; [|done]. split_and!; try done. right. by rewrite <- Zi, <- Zc.
Qed.

(** C18: [validate] accepts a configuration exactly when it is valid: mode
[public] without groups, or mode [groups] with 1 to 16 distinct positive group
IDs and at least one Core URL; at most 8 Core URLs, each an HTTPS URL (or HTTP
to the local host) without credentials, query or fragment.  It then keeps the
mode, sorts the same IDs and strips trailing slashes from the URLs. *)
Theorem validate_correct (url_Parse : gostring -> option url) (c c' : AccessConfig) :
  validate url_Parse c = (c', None) <->
  config_ok url_Parse c
  /\ Mode c' = Mode c
  /\ (exists ids, AllowedGroupIDs c' = option_map (fun _ => ids) (AllowedGroupIDs c)
        /\ ids ≡ₚ slice (AllowedGroupIDs c) /\ StronglySorted Z.lt ids)
  /\ CoreURLBases c' = option_map (map (fun b => TrimRight b 47)) (CoreURLBases c).
Proof.
  rewrite validate_accepts. split.
  - intros [Hok ->]. split; [done|]. split; [done|]. split; [|done].
    exists (merge_sort Z.le (slice (AllowedGroupIDs c))). split_and!.
    + cbn. by destruct (AllowedGroupIDs c).
    + apply merge_sort_Permutation.
    + apply strictly_sorted; [apply StronglySorted_merge_sort; apply _|].
      rewrite (merge_sort_Permutation Z.le). destruct Hok as (_ & H & _). by apply NoDup_ListNoDup.
  - intros (Hok & Hm & (ids & Hi & Hp & Hs) & Hb). split; [done|].
    destruct c' as [m g b]. unfold normalised. cbn in *. subst. f_equal.
    destruct (AllowedGroupIDs c) as [l|]; [|done]. cbn in *. f_equal.
    apply (StronglySorted_unique Z.le); [by apply strictly_sorted_le|apply StronglySorted_merge_sort; apply _|].
    by rewrite (merge_sort_Permutation Z.le).
Qed.

Definition sample_url (s : gostring) : option url :=
  Some {| url_Scheme := str "https"; url_Hostname := s; url_has_User := false;
          url_RawQuery := []; url_Fragment := [] |}.

Lemma validate_correct_witness :
  Mode (fst (validate sample_url {| Mode := groups; AllowedGroupIDs := Some [5; 3];
                                    CoreURLBases := Some [str "core/"] |})) = groups.
Proof.
  pose proof (proj1 (validate_correct sample_url
    {| Mode := groups; AllowedGroupIDs := Some [5; 3]; CoreURLBases := Some [str "core/"] |}
    {| Mode := groups; AllowedGroupIDs := Some [3; 5]; CoreURLBases := Some [str "core"] |})) as H.
  assert (validate sample_url {| Mode := groups; AllowedGroupIDs := Some [5; 3]; CoreURLBases := Some [str "core/"] |}
    = ({| Mode := groups; AllowedGroupIDs := Some [3; 5]; CoreURLBases := Some [str "core"] |}, None)) as E
    by (vm_compute; reflexivity).
  rewrite E. apply (H E).
Defined.

(** ** The policy revision *)

Lemma Join_ints_ends l1 l2 r1 r2 : Forall (fun z => 0 <= z) l1 -> Forall (fun z => 0 <= z) l2 ->
  Join (map FormatInt l1) (str ",") ++ str "]" ++ r1 = Join (map FormatInt l2) (str ",") ++ str "]" ++ r2 ->
  l1 = l2 /\ r1 = r2.
Proof.
  assert (forall z, 0 <= z -> exists c s, FormatInt z = c :: s /\ is_digit c = true) as Hd.
  { intros z Hz. unfold FormatInt. rewrite (proj2 (Z.ltb_ge z 0)) by lia.
    pose proof (FormatUint_digits z Hz) as H. pose proof (FormatUint_nonempty z).
    destruct (FormatUint z) as [|c s]; [done|]. inversion H. eauto. }
  assert (forall x l, map FormatInt (x :: l) <> []) by done.
  intros H1. revert l2. induction H1 as [|x l1 Hx _ IH]; intros l2 H2 E.
  - destruct H2 as [|y l2 Hy H2]; [by injection E|]. exfalso.
    destruct (Hd y Hy) as (c & s & Ec & Hc). cbn in E. rewrite Ec in E.
    destruct (map FormatInt l2); cbn in E; injection E as <- _; done.
  - destruct H2 as [|y l2 Hy H2].
    { exfalso. destruct (Hd x Hx) as (c & s & Ec & Hc). cbn in E. rewrite Ec in E.
      destruct (map FormatInt l1); cbn in E; injection E as -> _; done. }
    destruct l1 as [|x' l1], l2 as [|y' l2]; cbn [map Join] in E.
    + apply FormatInt_ends in E as [-> ->]; done.
    + rewrite <- !app_assoc in E. pose proof E as E'. apply FormatInt_ends in E' as [-> _]; try done.
      apply app_inv_head in E. done.
    + rewrite <- !app_assoc in E. pose proof E as E'. apply FormatInt_ends in E' as [-> _]; try done.
      apply app_inv_head in E. done.
    + rewrite <- !app_assoc in E. pose proof E as E'. apply FormatInt_ends in E' as [-> _]; try done.
      apply app_inv_head in E. injection E as E.
      destruct (IH (y' :: l2) H2 E) as [-> ->]. done.
Qed.

Lemma marshal_slice_inj s1 s2 r1 r2 :
  Forall (fun z => 0 <= z) (slice s1) -> Forall (fun z => 0 <= z) (slice s2) ->
  marshal_slice FormatInt s1 ++ r1 = marshal_slice FormatInt s2 ++ r2 -> s1 = s2.
Proof.
  destruct s1 as [l1|], s2 as [l2|]; intros H1 H2 E; try done. cbn in H1, H2.
  unfold marshal_slice, marshal_list in E. rewrite <- !app_assoc in E. apply app_inv_head in E.
  apply Join_ints_ends in E as [-> _]; done.
Qed.

(** The policy revision commits to the access rules: two configurations
whose revision documents are equal have the same mode and the same list of
allowed groups, so revisions of different rules differ unless SHA-256 collides. *)
Theorem policy_document_inj c1 c2 :
  is_ascii (Mode c1) -> is_ascii (Mode c2) ->
  Forall (fun id => 0 <= id) (slice (AllowedGroupIDs c1)) ->
  Forall (fun id => 0 <= id) (slice (AllowedGroupIDs c2)) ->
  policy_document c1 = policy_document c2 ->
  Mode c1 = Mode c2 /\ AllowedGroupIDs c1 = AllowedGroupIDs c2.
Proof.
  intros M1 M2 G1 G2 E. unfold policy_document, marshal_object in E. cbn [map Join fst snd] in E.
  rewrite <- !app_assoc in E. do 3 apply app_inv_head in E.
  apply marshal_string_inj in E as [-> E]; [|done..]. split; [done|].
  do 3 apply app_inv_head in E. by eapply marshal_slice_inj in E.
Qed.

Definition sample_config (ids : option (list Z)) : AccessConfig :=
  {| Mode := groups; AllowedGroupIDs := ids; CoreURLBases := None |}.
Lemma policy_document_inj_witness :
  AllowedGroupIDs (sample_config (Some [1; 23])) = Some [1; 23].
Proof.
  apply (policy_document_inj (sample_config (Some [1; 23])) (sample_config (Some [1; 23])));
    solve [reflexivity|repeat constructor; lia].
Defined.
