(* ===== verification/Membership.v ===== *)
(** * Group membership

[accessPolicy.membership], [checkGroups], [checkGroup] and [coreFailed] of
[internal/relay/access.go]: the bounded cache with one lookup per address in
flight, the collection of parallel group lookups, and the Core endpoints tried in
order with temporary demotion.

Times are nanoseconds.  The mutex makes the two locked regions of [membership]
atomic: [membership_enter] is the region up to the start of a lookup,
[membership_finish] the one after it.  What the network does is an argument. *)

From stdpp Require Import base gmap list numbers.
From Stdlib Require Import ZArith Lia String.
From S2P Require Import Prelude.
From S2P Require Import GoStrings.
From S2P Require Import Json.
From S2P Require Import AccessConfig.

Local Open Scope Z_scope.

(** ** Data *)

Inductive mem_error :=
| ContextDone
| MembershipCapacity
| VerificationUnavailable.

Record membershipResult := {
  member : bool;
  checked : Z;
  mem_err : option mem_error;
}.

(** A result without an error. *)
Definition answer (m : bool) (t : Z) : membershipResult := {| member := m; checked := t; mem_err := None |}.
(** The zero result with an error. *)
Definition failed (e : mem_error) : membershipResult := {| member := false; checked := 0; mem_err := Some e |}.

(** The fields of [accessPolicy] under its mutex that these functions use.
[pending] has a channel per address; its keys are what matters here. *)
Record mem_state := {
  cache : gmap gostring membershipResult;
  pending : gset gostring;
}.

Definition new_mem_state : mem_state := {| cache := ∅; pending := ∅ |}.

(** ** membership *)

Inductive enter_result :=
| Cached (r : membershipResult)
| Wait
| AtCapacity (r : membershipResult)
| Lookup.

(** [time.Since(r.checked) < 30*time.Second] *)
Definition fresh (now : Z) (r : membershipResult) : bool := now - checked r <? 30 * Second.

Definition membership_enter (st : mem_state) (now : Z) (address : gostring) : mem_state * enter_result :=
  let lookup :=
    if bool_decide (address ∈ pending st) then (st, Wait)
    else if Z.of_nat (size (pending st)) >=? 128 then (st, AtCapacity (failed MembershipCapacity))
    else ({| cache := cache st; pending := {[address]} ∪ pending st |}, Lookup) in
  match cache st !! address with
  | Some r => if fresh now r then (st, Cached r) else lookup
  | None => lookup
  end.

(** Make room: drop what is stale, then, if the map is still full, one entry.
Go's map iteration order is not specified; [victim] is the key it gives first. *)
Definition make_room (now : Z) (victim : gostring) (c : gmap gostring membershipResult) : gmap gostring membershipResult :=
  if Z.of_nat (size c) >=? 4096 then
    let c := filter (fun kv => now - checked (snd kv) < 30 * Second) c in
    if Z.of_nat (size c) >=? 4096 then delete victim c else c
  else c.

Definition membership_finish (st : mem_state) (now : Z) (victim address : gostring) (r : membershipResult) : mem_state :=
  {| cache := match mem_err r with
              | None => <[address := r]> (make_room now victim (cache st))
              | Some _ => cache st
              end;
     pending := pending st ∖ {[address]} |}.

(** ** checkGroups *)

(** The collecting loop, over the results in the order they arrive. *)
Fixpoint collect (now : Z) (unresolved : option mem_error) (arrivals : list membershipResult) : membershipResult :=
  match arrivals with
  | [] => {| member := false; checked := now; mem_err := unresolved |}
  | r :: arrivals =>
    match mem_err r with
    | Some e => collect now (Some e) arrivals
    | None => if member r then r else collect now unresolved arrivals
    end
  end.
(** Parallel lookups, one per allowed group; [arrivals] is the order of the
results' channel, [now] the time after the last of them. *)
Definition checkGroups (now : Z) (arrivals : list membershipResult) : membershipResult := collect now None arrivals.

(** ** checkGroup *)

(** One HTTP exchange with a Core. *)
Inductive exchange :=
| NoRequest                                    (* NewRequestWithContext failed *)
| NoResponse (ctx_done : bool)                 (* client.Do failed *)
| Response (status : Z) (body : option gostring). (* what LimitReader(body, 8193) gave *)

(** An attempt: whether a policy slot was obtained before the context ended,
when it started, what happened, and the clock when a failure is noted. *)
Record attempt := {
  got_slot : bool;
  started : Z;
  happened : exchange;
  noted : Z;
}.

(** The failure deadlines, and the slots of the policy in use. *)
Record core_state := {
  coreFailures : gmap gostring Z;
  slots : Z;
}.

Definition coreFailed (st : core_state) (now : Z) (base : gostring) : core_state :=
  {| coreFailures := <[base := now + 5 * Second]> (coreFailures st); slots := slots st |}.
Definition take_slot (st : core_state) : core_state := {| coreFailures := coreFailures st; slots := slots st + 1 |}.
Definition give_slot (st : core_state) : core_state := {| coreFailures := coreFailures st; slots := slots st - 1 |}.

(** Endpoints whose last failure is over; all of them if none is.  A missing
entry is Go's zero time, long past. *)
Definition healthy (st : core_state) (now : Z) (base : gostring) : bool :=
  match coreFailures st !! base with
  | Some until => negb (now <? until)
  | None => true
  end.
Definition choose_bases (st : core_state) (now : Z) (configured : list gostring) : list gostring :=
  match List.filter (healthy st now) configured with
  | [] => configured
  | bases => bases
  end.

Definition rows_type : jty :=
  TSlice (TStruct [(str "address", TString); (str "isMember", TPtr TBool)]).

(** The membership a response states for [address], if it is a proper answer. *)
Definition read_rows (address : gostring) (status : Z) (body : option gostring) : option bool :=
  match body with
  | None => None
  | Some raw =>
    if (len raw >? 8192) || negb (status =? 200) then None
    else match json_Unmarshal rows_type raw with
    | Some (VSlice backing (Some n)) =>
      match take n backing with
      | [VStruct [VStr a; VPtr (Some (VBool m))]] => if bool_decide (a = address) then Some m else None
      | _ => None
      end
    | _ => None
    end
  end.

(** The loop over endpoints; attempt [i] is what happens at the [i]-th. *)
Fixpoint try_bases (env : nat -> attempt) (i : nat) (st : core_state) (address : gostring) (bases : list gostring)
  : core_state * membershipResult :=
  match bases with
  | [] => (st, failed VerificationUnavailable)
  | base :: bases =>
    let a := env i in
    if negb (got_slot a) then (st, failed ContextDone)
    else
      let st := take_slot st in
      match happened a with
      | NoRequest =>
        let st := coreFailed (give_slot st) (noted a) base in
        try_bases env (S i) st address bases
      | NoResponse ctx_done =>
        let st := give_slot st in
        let st := if negb ctx_done then coreFailed st (noted a) base else st in
        try_bases env (S i) st address bases
      | Response status body =>
        let st := give_slot st in
        match read_rows address status body with
        | None => try_bases env (S i) (coreFailed st (noted a) base) address bases
        | Some m => (st, answer m (started a))
        end
      end
  end.

Definition checkGroup (env : nat -> attempt) (st : core_state) (now : Z) (configured : list gostring) (address : gostring)
  : core_state * membershipResult :=
  try_bases env 0 st address (choose_bases st now configured).

(** The request path and body sent for a group. *)
Definition group_url (base : gostring) (id : Z) : gostring :=
  base ++ str "/groups/members/" ++ FormatInt id ++ str "/validate".
Definition group_body (address : gostring) : gostring := marshal_list marshal_string [address].

(** ** Interleavings of membership calls *)

(** The policy with the lookups in flight and a log of the finished ones. *)
Record mem_run := {
  mr_state : mem_state;
  inflight : list gostring;
  finished : list (gostring * membershipResult);
}.

Definition mem_init : mem_run := {| mr_state := new_mem_state; inflight := []; finished := [] |}.

(** The fresh part of a cache, and what the runtime may pick to evict from it. *)
Definition fresh_part (now : Z) (c : gmap gostring membershipResult) : gmap gostring membershipResult :=
  filter (fun kv => now - checked (snd kv) < 30 * Second) c.
Definition evictable (now : Z) (c : gmap gostring membershipResult) (victim : gostring) : Prop :=
  4096 <= Z.of_nat (size (fresh_part now c)) -> is_Some (fresh_part now c !! victim).

Inductive mem_step : mem_run -> mem_run -> Prop :=
| mem_no_lookup m now address st out :
    membership_enter (mr_state m) now address = (st, out) -> out <> Lookup ->
    mem_step m {| mr_state := st; inflight := inflight m; finished := finished m |}
| mem_start m now address st :
    membership_enter (mr_state m) now address = (st, Lookup) ->
    mem_step m {| mr_state := st; inflight := address :: inflight m; finished := finished m |}
| mem_finish m now victim address rest r :
    inflight m ≡ₚ address :: rest -> evictable now (cache (mr_state m)) victim ->
    mem_step m {| mr_state := membership_finish (mr_state m) now victim address r;
                  inflight := rest; finished := (address, r) :: finished m |}.

Record mem_inv (m : mem_run) : Prop := {
  inv_single : NoDup (inflight m);
  inv_pending : pending (mr_state m) = list_to_set (inflight m);
  inv_pending_bound : Z.of_nat (size (pending (mr_state m))) <= 128;
  inv_cache_bound : Z.of_nat (size (cache (mr_state m))) <= 4096;
  inv_cache : map_Forall (fun a r => mem_err r = None /\ (a, r) ∈ finished m) (cache (mr_state m));
}.

Lemma make_room_sub now victim c : make_room now victim c ⊆ c.
Proof.
  unfold make_room. split_if; [|done]. cbv zeta. split_if; [|apply map_filter_subseteq].
  etransitivity; [apply delete_subseteq|apply map_filter_subseteq].
Qed.

Lemma make_room_bound now victim c : evictable now c victim -> Z.of_nat (size c) <= 4096 ->
  Z.of_nat (size (make_room now victim c)) < 4096.
Proof.
  intros Hv Hc. unfold make_room. destruct (Z.of_nat (size c) >=? 4096) eqn:E1; breflect; [|lia]. cbv zeta.
  unfold evictable in Hv. fold (fresh_part now c).
  assert (size (fresh_part now c) <= size c)%nat by (apply map_subseteq_size, map_filter_subseteq).
  destruct (Z.of_nat (size (fresh_part now c)) >=? 4096) eqn:E2; breflect; [|lia].
  destruct (Hv E2) as [r Hr]. rewrite map_size_delete, Hr.
  assert (size (fresh_part now c) <> 0)%nat by lia. lia.
Qed.

Lemma membership_enter_cases st now address st' out : membership_enter st now address = (st', out) ->
  match out with
  | Lookup => st' = {| cache := cache st; pending := {[address]} ∪ pending st |}
              /\ address ∉ pending st /\ Z.of_nat (size (pending st)) < 128
  | Cached r => st' = st /\ cache st !! address = Some r /\ now - checked r < 30 * Second
  | AtCapacity r => st' = st /\ r = failed MembershipCapacity
  | Wait => st' = st /\ address ∈ pending st
  end.
Proof.
  unfold membership_enter. cbv zeta.
  assert (forall st' out,
    (if bool_decide (address ∈ pending st) then (st, Wait)
     else if Z.of_nat (size (pending st)) >=? 128 then (st, AtCapacity (failed MembershipCapacity))
     else ({| cache := cache st; pending := {[address]} ∪ pending st |}, Lookup)) = (st', out) ->
    match out with
    | Lookup => st' = {| cache := cache st; pending := {[address]} ∪ pending st |}
                /\ address ∉ pending st /\ Z.of_nat (size (pending st)) < 128
    | Cached r => False
    | AtCapacity r => st' = st /\ r = failed MembershipCapacity
    | Wait => st' = st /\ address ∈ pending st
    end) as Hl.
  { intros ??. case_bool_decide; [by intros [= <- <-]|].
    destruct (_ >=? _) eqn:E; breflect; intros [= <- <-]; split_and!; (done || lia). }
  destruct (cache st !! address) as [r|] eqn:Ec.
  - unfold fresh. destruct (_ <? _) eqn:E; breflect; [by intros [= <- <-]|].
    intros H. apply Hl in H. by destruct out.
  - intros H. apply Hl in H. by destruct out.
Qed.

Lemma mem_step_inv m m' : mem_step m m' -> mem_inv m -> mem_inv m'.
Proof.
  intros Hs [H1 H2 H3 H4 H5]. destruct Hs as [m now address st out He Ho|m now address st He|m now victim address rest r Hp Hv].
  - apply membership_enter_cases in He. destruct out; try done; by destruct He as [-> ?].
  - apply membership_enter_cases in He as (-> & Hn & Hlt). split; cbn; try done.
    + apply list.NoDup_cons. split; [|done]. rewrite H2 in Hn. set_solver.
    + by rewrite H2.
    + rewrite size_union, size_singleton by set_solver. lia.
  - rewrite Hp in H1; apply list.NoDup_cons in H1 as [Hna Hnd].
    assert (pending (mr_state m) ∖ {[address]} = list_to_set rest) as Hpd.
    { rewrite H2. apply set_eq. intros x. rewrite elem_of_difference, !elem_of_list_to_set, Hp. set_solver. }
    split; cbn; try done.
    + pose proof (subseteq_size (pending (mr_state m) ∖ {[address]}) (pending (mr_state m)) ltac:(set_solver)). lia.
    + destruct (mem_err r); [done|]. pose proof (make_room_bound _ _ _ Hv H4).
      rewrite map_size_insert. destruct (_ !! address); cbn; lia.
    + intros a x Hx. destruct (mem_err r) eqn:Er.
      * specialize (H5 a x Hx) as [??]. split; [done|]. by right.
      * destruct (decide (address = a)) as [->|Hne].
        { rewrite lookup_insert_eq in Hx. simplify_eq. split; [done|]. by left. }
        rewrite lookup_insert_ne in Hx by done.
        eapply lookup_weaken in Hx; [|apply make_room_sub]. specialize (H5 a x Hx) as [??]. split; [done|]. by right.
Qed.

(** C15: The membership cache under concurrency.  In every state reached by any
interleaving of calls at most one lookup per address is in flight and at most 128
in all, at most 4096 results are cached, and a result [membership] hands out
without a lookup is the error-free outcome of a finished lookup for that same
address, begun less than 30 seconds ago. *)
Theorem membership_cache_sound m :
  rtc mem_step mem_init m ->
  NoDup (inflight m) /\ Z.of_nat (List.length (inflight m)) <= 128
  /\ Z.of_nat (size (cache (mr_state m))) <= 4096
  /\ forall now address st r, membership_enter (mr_state m) now address = (st, Cached r) ->
     (address, r) ∈ finished m /\ mem_err r = None /\ now - checked r < 30 * Second.
Proof.
  intros Hr.
  assert (mem_inv m) as [H1 H2 H3 H4 H5].
  { revert Hr. refine (rtc_ind_r mem_inv mem_init _ _ m).
    - split; cbn; [constructor|done..|apply map_Forall_empty].
    - intros ?? _ Hs Hi. by eapply mem_step_inv. }
  split_and!; [done| |done|].
  - rewrite H2, size_list_to_set in H3 by done. done.
  - intros now address st r He. apply membership_enter_cases in He as (_ & Hc & Hf).
    specialize (H5 _ _ Hc) as [??]. done.
Qed.

Lemma membership_cache_sound_witness :
  let st := membership_finish (fst (membership_enter new_mem_state 0 [65])) 5 [] [65] (answer true 1) in
  exists r, membership_enter st 9 [65] = (st, Cached r) /\ mem_err r = None.
Proof.
  intros st. exists (answer true 1). split; [by vm_compute|].
  apply (membership_cache_sound {| mr_state := st; inflight := []; finished := [([65], answer true 1)] |}) with 9 [65] st.
  - set (mid := {| mr_state := fst (membership_enter new_mem_state 0 [65]); inflight := [[65]]; finished := [] |}).
    apply (rtc_l _ _ mid); [exact (mem_start mem_init 0 [65] _ eq_refl)|].
    eapply rtc_l; [|apply rtc_refl]. apply (mem_finish mid 5 [] [65] [] (answer true 1)); [done|].
    intros H. vm_compute in H. done.
  - by vm_compute.
Defined.

(** ** checkGroups does not depend on the order of arrival *)

Definition positive (r : membershipResult) : Prop := mem_err r = None /\ member r = true.

Lemma collect_spec now u rs :
  (exists r, r ∈ rs /\ positive r /\ collect now u rs = r)
  \/ (forall r, r ∈ rs -> ~ positive r)
     /\ member (collect now u rs) = false /\ checked (collect now u rs) = now
     /\ (mem_err (collect now u rs) = None <-> u = None /\ forall r, r ∈ rs -> mem_err r = None).
Proof.
  revert u. induction rs as [|r rs IH]; intros u; cbn.
  { right. split_and!; try done; [by intros ? ?%elem_of_nil|].
    split; [intros ->; split; [done|by intros ? ?%elem_of_nil]|by intros [-> _]]. }
  destruct (mem_err r) as [e|] eqn:Er.
  - destruct (IH (Some e)) as [(r' & Hin & Hp & Hc)|(Hn & Hm & Ht & He)].
    + left. exists r'. split; [by right|done].
    + right. split_and!; [|done..|].
      * intros r' [->|Hin]%elem_of_cons [Hp ?]; [congruence|]. by apply (Hn r' Hin).
      * rewrite He. split; [by intros [[=] _]|]. intros [_ H]. specialize (H r ltac:(by left)). congruence.
  - destruct (member r) eqn:Em; [left; exists r; split; [by left|done]|].
    destruct (IH u) as [(r' & Hin & Hp & Hc)|(Hn & Hm & Ht & He)].
    + left. exists r'. split; [by right|done].
    + right. split_and!; [|done..|].
      * intros r' [->|Hin]%elem_of_cons [? Hp]; [congruence|]. by apply (Hn r' Hin).
      * rewrite He. split; intros [-> H]; (split; [done|]); intros r' Hr'.
        { apply elem_of_cons in Hr' as [->|Hr']; [done|by apply H]. }
        apply H. by right.
Qed.

(** Group lookups fail closed and do not race.  Whatever the order in which
the parallel lookups answer, the combined result says member exactly when some
group answered member, and then it is that group's result with its own start
time; it says non-member without an error exactly when every group answered. *)
Theorem checkGroups_order_independent now rs rs' :
  rs ≡ₚ rs' ->
  member (checkGroups now rs) = member (checkGroups now rs')
  /\ (mem_err (checkGroups now rs) = None <-> mem_err (checkGroups now rs') = None)
  /\ (positive (checkGroups now rs) <-> exists r, r ∈ rs /\ positive r)
  /\ (positive (checkGroups now rs) -> checkGroups now rs ∈ rs)
  /\ (mem_err (checkGroups now rs) = None /\ member (checkGroups now rs) = false
      <-> forall r, r ∈ rs -> mem_err r = None /\ member r = false).
Proof.
  intros Hp. unfold checkGroups, positive.
  destruct (collect_spec now None rs) as [(r & Hin & [Hr Hm] & ->)|(Hn & Hm & _ & He)],
    (collect_spec now None rs') as [(r' & Hin' & [Hr' Hm'] & ->)|(Hn' & Hm' & _ & He')].
  - split_and!; [congruence|by rewrite Hr, Hr'|split; [eauto|done]|done|].
    split; [intros [_ ?]; congruence|]. intros H. destruct (H r Hin). congruence.
  - exfalso. apply (Hn' r); [by rewrite <- Hp|done].
  - exfalso. apply (Hn r'); [by rewrite Hp|done].
  - split_and!; [congruence| |split; [intros [_ ?]; congruence|]|intros [_ ?]; congruence|].
    + rewrite He, He'. by setoid_rewrite Hp.
    + intros (r & Hin & Hr). by destruct (Hn r Hin).
    + rewrite He. split.
      * intros [[_ H] _] r Hin. specialize (H r Hin). split; [done|].
        destruct (member r) eqn:E; [|done]. by destruct (Hn r Hin).
      * intros H. split_and!; [done| |done]. intros r Hin. by apply H.
Qed.

Lemma checkGroups_order_independent_witness :
  member (checkGroups 9 [failed ContextDone; answer true 4]) = member (checkGroups 9 [answer true 4; failed ContextDone]).
Proof.
  exact (proj1 (checkGroups_order_independent 9 [failed ContextDone; answer true 4]
    [answer true 4; failed ContextDone] (perm_swap _ _ _))).
Defined.

(** ** checkGroup *)

Lemma give_take st : give_slot (take_slot st) = st.
Proof. destruct st. unfold give_slot, take_slot. cbn. f_equal. lia. Qed.

Lemma try_bases_spec env i st address bases st' res :
  try_bases env i st address bases = (st', res) ->
  slots st' = slots st
  /\ (mem_err res = None -> exists j status body, (i <= j < i + List.length bases)%nat
        /\ happened (env j) = Response status body /\ read_rows address status body = Some (member res)
        /\ checked res = started (env j)).
Proof.
  revert i st. induction bases as [|base bases IH]; intros i st; cbn [try_bases].
  { intros [= <- <-]. done. }
  cbv zeta. rewrite !give_take.
  assert (forall st1, slots st1 = slots st -> try_bases env (S i) st1 address bases = (st', res) ->
    slots st' = slots st
    /\ (mem_err res = None -> exists j status body, (i <= j < i + S (List.length bases))%nat
        /\ happened (env j) = Response status body /\ read_rows address status body = Some (member res)
        /\ checked res = started (env j))) as Hnext.
  { intros st1 Hs H. apply IH in H as [H1 H2]. split; [congruence|]. intros He.
    destruct (H2 He) as (j & status & body & ? & ?). exists j, status, body. split; [lia|done]. }
  destruct (negb (got_slot (env i))); [by intros [= <- <-]|].
  destruct (happened (env i)) as [|ctx|status body] eqn:Eh.
  - by apply Hnext.
  - apply Hnext. by destruct (negb ctx).
  - destruct (read_rows address status body) as [m|] eqn:Er; [|by apply Hnext].
    intros [= <- <-]. split; [done|]. intros _. exists i, status, body. split; [cbn; lia|done].
Qed.

(** What a response must be to count: complete, small, status 200, and one row
for the address that was asked about. *)
Lemma read_rows_spec address status body m : read_rows address status body = Some m ->
  exists raw backing n, body = Some raw /\ len raw <= 8192 /\ status = 200
    /\ json_Unmarshal rows_type raw = Some (VSlice backing (Some n))
    /\ take n backing = [VStruct [VStr address; VPtr (Some (VBool m))]].
Proof.
  unfold read_rows. destruct body as [raw|]; [|done].
  destruct (len raw >? 8192) eqn:E1; [done|]. destruct (status =? 200) eqn:E2; [|done]. cbn [orb negb]. breflect.
  destruct (json_Unmarshal rows_type raw) as [v|] eqn:Eu; [|done]. destruct v as [| | |backing [n|]| |]; try done.
  destruct (take n backing) as [|v l] eqn:Et; [done|].
  repeat match goal with
  | |- context [match ?x with _ => _ end] => is_var x; destruct x; try done
  end.
  case_bool_decide; [|done]. intros [= <-]. subst.
  exists raw, backing, n. done.
Qed.


(** C16: A Core's answer counts only if it is one.  When [checkGroup] reports a
membership without an error, one of the endpoints it tried answered with status
200 and a complete body of at most 8192 bytes holding a single row for exactly
the requested address with a membership flag, the reported membership is that
flag, and the time reported is when that attempt started.  On every path each
policy slot taken has been given back. *)
Theorem checkGroup_sound env st now configured address st' res :
  checkGroup env st now configured address = (st', res) ->
  slots st' = slots st
  /\ (mem_err res = None ->
      exists j status raw backing n,
        (j < List.length (choose_bases st now configured))%nat
        /\ happened (env j) = Response status (Some raw) /\ status = 200 /\ len raw <= 8192
        /\ json_Unmarshal rows_type raw = Some (VSlice backing (Some n))
        /\ take n backing = [VStruct [VStr address; VPtr (Some (VBool (member res)))]]
        /\ checked res = started (env j)).
Proof.
  intros H. apply try_bases_spec in H as [H1 H2]. split; [done|]. intros He.
  destruct (H2 He) as (j & status & body & Hj & Hh & Hr & Hc).
  apply read_rows_spec in Hr as (raw & backing & n & -> & Hl & Hs & Hu & Ht).
  exists j, status, raw, backing, n. split_and!; (done || lia).
Qed.

Definition sample_env (_ : nat) : attempt :=
  {| got_slot := true; started := 11; noted := 12;
     happened := Response 200 (Some (qstr "[{'address':'Qx','isMember':true}]")) |}.
Lemma checkGroup_sound_witness :
  checkGroup sample_env {| coreFailures := ∅; slots := 3 |} 10 [str "https://core"] (str "Qx")
  = ({| coreFailures := ∅; slots := 3 |}, answer true 11)
  /\ slots {| coreFailures := ∅; slots := 3 |} = 3.
Proof.
  assert (checkGroup sample_env {| coreFailures := ∅; slots := 3 |} 10 [str "https://core"] (str "Qx")
    = ({| coreFailures := ∅; slots := 3 |}, answer true 11)) as E by (vm_compute; reflexivity).
  split; [exact E|]. exact (proj1 (checkGroup_sound _ _ _ _ _ _ _ E)).
Defined.

(** The endpoints tried are configured ones, all of them healthy unless none is,
and there is at least one. *)
Lemma choose_bases_spec st now configured :
  (forall b, b ∈ choose_bases st now configured -> b ∈ configured)
  /\ ((forall b, b ∈ choose_bases st now configured -> healthy st now b = true)
      \/ choose_bases st now configured = configured /\ forall b, b ∈ configured -> healthy st now b = false)
  /\ (configured <> [] -> choose_bases st now configured <> []).
Proof.
  unfold choose_bases. destruct (List.filter (healthy st now) configured) as [|b0 l] eqn:E.
  - split_and!; [done| |done]. right. split; [done|]. intros b Hb. apply list_elem_of_In in Hb.
    destruct (healthy st now b) eqn:Eb; [|done].
    assert (In b (List.filter (healthy st now) configured)) as H by (by apply filter_In). by rewrite E in H.
  - rewrite <- E. split_and!; [|left|by rewrite E]; intros b Hb; apply list_elem_of_In, filter_In in Hb as [Hb Hh]; [|done].
    by apply list_elem_of_In.
Qed.
