(* ===== verification/Bolt.v ===== *)
(** * The ticket database

[go.etcd.io/bbolt] is a third-party package: a bucket is an interface with the
operations the relay calls, and [BucketOk] states the documented behaviour the
relay relies on (a map, a cursor in byte order, transactions that take effect
entirely or not at all).  What a cursor visits while its loop deletes is left open,
as in bbolt's documentation: some of the keys, in order.  A bucket kept in a finite map is an instance. *)

From stdpp Require Import base gmap list numbers sorting.
From Stdlib Require Import ZArith Lia.
From S2P Require Import Prelude.
From S2P Require Import GoStrings.

Local Open Scope Z_scope.

Class Bucket := {
  bucket : Type;
  b_new : bucket;
  Get : bucket -> gostring -> option (list Z);
  Put : gostring -> list Z -> bucket -> bucket;
  Delete : gostring -> bucket -> bucket;
  (** The keys a cursor visits from [First], in order. *)
  Keys : bucket -> list gostring;
  (** The keys it visits if the loop deletes, as it goes, those of which the predicate
  holds: a cursor under which the bucket changes may miss some. *)
  Visited : (gostring -> bool) -> bucket -> list gostring;
  (** [Stats().KeyN] inside a transaction that started from the first bucket and
  now sees the second: the count is of one of the two. *)
  KeyN : bucket -> bucket -> Z;
}.

Class BucketOk (B : Bucket) : Prop := {
  get_new k : Get b_new k = None;
  get_put k v b : Get (Put k v b) k = Some v;
  get_put_ne k v b k' : k <> k' -> Get (Put k v b) k' = Get b k';
  get_delete k b : Get (Delete k b) k = None;
  get_delete_ne k b k' : k <> k' -> Get (Delete k b) k' = Get b k';
  keys_get k b : k ∈ Keys b <-> is_Some (Get b k);
  keys_sorted b : StronglySorted (fun x y => bytes_lt x y = true) (Keys b);
  visited_keys p b k : k ∈ Visited p b -> k ∈ Keys b;
  visited_sorted p b : StronglySorted (fun x y => bytes_lt x y = true) (Visited p b);
  keyN_count b0 b : KeyN b0 b = len (Keys b0) \/ KeyN b0 b = len (Keys b);
}.

(** A cursor that misses nothing, which bbolt does not promise. *)
Class CursorExact (B : Bucket) : Prop := { visited_all p b : Visited p b = Keys b }.

(** ** Transactions *)

(** [db.Update(f)]: on an error from [f], or if the commit fails, nothing has
changed. *)
Definition Update {D E} (commit : option E) (f : D -> result E D) (db : D) : D * option E :=
  match f db with
  | Err e => (db, Some e)
  | Ok db' => match commit with
              | Some e => (db, Some e)
              | None => (db', None)
              end
  end.

Lemma Update_ok {D E} commit (f : D -> result E D) db db' :
  Update commit f db = (db', None) -> f db = Ok db'.
Proof. unfold Update. destruct (f db), commit; by intros [=->]. Qed.

Lemma Update_err {D E} commit (f : D -> result E D) db db' e :
  Update commit f db = (db', Some e) -> db' = db.
Proof. unfold Update. destruct (f db), commit; by intros [=-> ?]. Qed.

(** ** A bucket in a finite map *)

Definition bytes_le (x y : gostring) : Prop := bytes_lt y x = false.
#[export] Instance bytes_le_dec x y : Decision (bytes_le x y).
Proof. unfold bytes_le. apply _. Defined.

#[export] Instance map_bucket : Bucket := {|
  bucket := gmap gostring (list Z);
  b_new := ∅;
  Get b k := b !! k;
  Put k v b := <[k := v]> b;
  Delete k b := delete k b;
  Keys b := merge_sort bytes_le (map fst (map_to_list b));
  Visited _ b := merge_sort bytes_le (map fst (map_to_list b));
  KeyN _ b := len (merge_sort bytes_le (map fst (map_to_list b)));
|}.

#[local] Instance bytes_le_total : Total bytes_le.
Proof.
  intros x y. unfold bytes_le. destruct (bytes_lt y x) eqn:E1; [right|by left].
  destruct (bytes_lt x y) eqn:E2; [|done].
  pose proof (bytes_lt_trans _ _ _ E1 E2) as H. by rewrite bytes_lt_irrefl in H.
Qed.
#[local] Instance bytes_le_trans : Transitive bytes_le.
Proof.
  intros x y z H1 H2. unfold bytes_le in *. destruct (bytes_lt z x) eqn:E; [|done].
  destruct (bytes_lt x y) eqn:Exy.
  - rewrite (bytes_lt_trans _ _ _ E Exy) in H2. done.
  - rewrite (bytes_lt_total x y Exy H1) in *. congruence.
Qed.

Lemma bytes_sorted_strict l : StronglySorted bytes_le l -> base.NoDup l ->
  StronglySorted (fun x y => bytes_lt x y = true) l.
Proof.
  induction 1 as [|x l Hl IH Hx]; intros Hn; [constructor|]. apply NoDup_cons in Hn as [Hn Hn'].
  constructor; [auto|]. apply Forall_forall. intros y Hy. rewrite Forall_forall in Hx.
  specialize (Hx y Hy). unfold bytes_le in Hx. destruct (bytes_lt x y) eqn:E; [done|].
  rewrite (bytes_lt_total x y E Hx) in Hn. done.
Qed.

#[export] Instance map_bucket_ok : BucketOk map_bucket.
Proof.
  split; cbn.
  - intros k. apply lookup_empty.
  - intros. apply lookup_insert_eq.
  - intros. by apply lookup_insert_ne.
  - intros. apply lookup_delete_eq.
  - intros. by apply lookup_delete_ne.
  - intros k b. rewrite (merge_sort_Permutation bytes_le), list_elem_of_fmap. split.
    + intros ([k' v] & -> & H). apply elem_of_map_to_list in H. eauto.
    + intros [v H]. exists (k, v). split; [done|]. by apply elem_of_map_to_list.
  - intros b. apply bytes_sorted_strict; [apply StronglySorted_merge_sort; apply _|].
    rewrite (merge_sort_Permutation bytes_le). apply NoDup_fst_map_to_list.
  - done.
  - intros p b. apply bytes_sorted_strict; [apply StronglySorted_merge_sort; apply _|].
    rewrite (merge_sort_Permutation bytes_le). apply NoDup_fst_map_to_list.
  - by right.
Qed.
#[export] Instance map_bucket_exact : CursorExact map_bucket.
Proof. done. Qed.
