(* ===== verification/Tickets.v ===== *)
(** * The ticket authority

[ticketAuthority] of [internal/relay/tickets.go]: the hourly signing key
([descriptor]), the issuing protocol of the private socket ([handle]) and the
redemption of tickets ([redeem]).  RSA, RSA blind signatures and Ed25519 are
parameters, as are the random bytes, the outcome of each commit, the membership
lookups and the clock readings of a call; times are nanoseconds since 1970. *)

From stdpp Require Import base gmap list numbers.
From Stdlib Require Import ZArith Lia String.
From S2P Require Import Prelude.
From S2P Require Import GoStrings.
From S2P Require Import Json.
From S2P Require Import Base58.
From S2P Require Import AccessConfig.
From S2P Require Import Membership.
From S2P Require Import Bolt.

Local Open Scope Z_scope.

(** ** Parameters *)

Class Crypto := {
  rsa_key : Type;
  MarshalPKCS1PrivateKey : rsa_key -> list Z;
  ParsePKCS1PrivateKey : list Z -> option rsa_key;
  MarshalPKCS1PublicKey : rsa_key -> list Z;
  BlindSign : rsa_key -> list Z -> option (list Z);
  (** [blindrsa.SHA384PSSDeterministic] verification under the key's public half. *)
  blindrsa_Verify : rsa_key -> list Z -> list Z -> bool;
  ed25519_Verify : list Z -> list Z -> list Z -> bool;
}.

(** What is stored of a key gives it back. *)
Class CryptoOk (C : Crypto) : Prop := {
  parse_private k : ParsePKCS1PrivateKey (MarshalPKCS1PrivateKey k) = Some k;
  private_nonempty k : MarshalPKCS1PrivateKey k <> [];
}.

(** ** Time *)

Definition Unix (t : Z) : Z := t / Second.
Definition UnixMilli (t : Z) : Z := t / 1000000.
Definition epoch_of (t : Z) : Z := Z.quot (Unix t) 3600.
(** [ticketLifetime], in seconds. *)
Definition ticketLifetime : Z := 43200.

(** ** Data *)

Definition ticketDomain : gostring := str "Qortal-MASQUE-Ticket-v1" ++ [0].

Record ticketDescriptor := {
  Epoch : Z;
  ExpiresAt : Z;
  PublicKey : gostring;
  KeyID : gostring;
  Policy : gostring;
  RelayPin : gostring;
}.
#[export] Instance ticketDescriptor_eq_dec : EqDecision ticketDescriptor.
Proof. solve_decision. Defined.

Record issueChallenge := {
  ch_Binding : gostring;
  ch_Epoch : Z;
  ch_Expires : Z;
}.

Record relayProof := {
  pf_Type : gostring;
  pf_RelayPin : gostring;
  pf_Policy : gostring;
  pf_Binding : gostring;
  pf_Nonce : gostring;
  pf_ExpiresAt : Z;
  pf_AuthorAddress : gostring;
  pf_AuthorPublicKey : gostring;
  pf_Signature : gostring;
}.

Inductive ticket_error :=
| ProofInvalid
| ClockBackwards
| InvalidDatabase
| BadEpoch
| BadKey
| NoRandomness
| Capacity
| Quota
| RelayFull
| Storage.

(** The fields of the access policy the authority reads. *)
Record policy_id := {
  revision : gostring;
  pin : gostring;
  policy_Mode : gostring;
}.

Section Authority.
  Context {B : Bucket} {H : Hashes} {C : Crypto}.
  Context (policy : policy_id).

Record ticket_db := {
  keys_bucket : bucket;
  spent_bucket : bucket;
  quota_bucket : bucket;
  meta_bucket : bucket;
}.

Record ticketAuthority := {
  db : ticket_db;
  challenges : gmap gostring issueChallenge;
  keys : gmap Z rsa_key;
}.

Definition set_db (t : ticketAuthority) (d : ticket_db) : ticketAuthority :=
  {| db := d; challenges := challenges t; keys := keys t |}.
Definition set_keys (t : ticketAuthority) (k : gmap Z rsa_key) : ticketAuthority :=
  {| db := db t; challenges := challenges t; keys := k |}.
Definition set_challenges (t : ticketAuthority) (c : gmap gostring issueChallenge) : ticketAuthority :=
  {| db := db t; challenges := c; keys := keys t |}.

(** ** descriptor *)

Definition ticketKeyID (der : list Z) (pol pin : gostring) (epoch : Z) : gostring :=
  hex_EncodeToString (sha256 (ticketDomain ++ pol ++ pin ++ FormatInt epoch ++ der)).

(** The value [strconv.ParseInt] (and [Atoi]) gives when its error is ignored:
zero for a malformed text, the nearest bound for one out of range. *)
Definition ParseInt64_value (s : gostring) : Z :=
  let v := match s with
           | 45 :: r => option_map Z.opp (parse_digits r)
           | 43 :: r => parse_digits r
           | _ => parse_digits s
           end in
  match v with
  | None => 0
  | Some v => Z.max (- 2 ^ 63) (Z.min (2 ^ 63 - 1) v)
  end.

Definition latestEpoch_key : gostring := str "latestEpoch".
Definition latestEpoch (d : ticket_db) : Z :=
  ParseInt64_value (default [] (Get (meta_bucket d) latestEpoch_key)).

(** The keys the loop of [descriptor] deletes. *)
Definition epoch_expired (index : nat) (cutoff : Z) (k : gostring) : bool :=
  match nth_error (Split k 58) index with
  | Some part => match ParseInt64 part with Some ep => ep <=? cutoff | None => false end
  | None => false
  end.

(** Delete, in cursor order, the keys whose epoch field is at most [cutoff]. *)
Fixpoint clean_epochs (index : nat) (cutoff : Z) (ks : list gostring) (b : bucket) : result ticket_error bucket :=
  match ks with
  | [] => Ok b
  | k :: ks =>
    match nth_error (Split k 58) index with
    | None => Err InvalidDatabase
    | Some part =>
      match ParseInt64 part with
      | None => Err BadEpoch
      | Some ep => clean_epochs index cutoff ks (if ep <=? cutoff then Delete k b else b)
      end
    end
  end.

(** The transaction at the start of [descriptor]: refuse a clock that went back,
and on a new hour record it and drop what has expired. *)
Definition advance_tx (nowEpoch : Z) (d : ticket_db) : result ticket_error ticket_db :=
  let latest := latestEpoch d in
  if nowEpoch <? latest then Err ClockBackwards
  else if nowEpoch >? latest then
    let meta := Put latestEpoch_key (FormatInt nowEpoch) (meta_bucket d) in
    let? ks := clean_epochs 1 (nowEpoch - 12) (Visited (epoch_expired 1 (nowEpoch - 12)) (keys_bucket d)) (keys_bucket d) in
    let? qs := clean_epochs 0 (nowEpoch - 12) (Visited (epoch_expired 0 (nowEpoch - 12)) (quota_bucket d)) (quota_bucket d) in
    let? ss := clean_epochs 0 (nowEpoch - 12) (Visited (epoch_expired 0 (nowEpoch - 12)) (spent_bucket d)) (spent_bucket d) in
    Ok {| keys_bucket := ks; spent_bucket := ss; quota_bucket := qs; meta_bucket := meta |}
  else Ok d.

Definition put_key_tx (name : gostring) (k : rsa_key) (d : ticket_db) : result ticket_error ticket_db :=
  Ok {| keys_bucket := Put name (MarshalPKCS1PrivateKey k) (keys_bucket d);
        spent_bucket := spent_bucket d; quota_bucket := quota_bucket d; meta_bucket := meta_bucket d |}.

(** What the environment contributes to one call of [descriptor]. *)
Record desc_env := {
  d_now : Z;
  d_commit : option ticket_error;
  d_view : option ticket_error;
  d_generated : option rsa_key;
  d_commit_key : option ticket_error;
}.

Definition key_name (epoch : Z) : gostring := revision policy ++ str ":" ++ FormatInt epoch.

(** The key of an epoch: from memory, from the database, or new for this hour. *)
Definition find_key (env : desc_env) (nowEpoch : Z) (t : ticketAuthority) (epoch : Z)
  : ticketAuthority * result ticket_error rsa_key :=
  match keys t !! epoch with
  | Some k => (t, Ok k)
  | None =>
    let name := key_name epoch in
    match d_view env with
    | Some e => (t, Err e)
    | None =>
      let raw := default [] (Get (keys_bucket (db t)) name) in
      let '(d, r) :=
        if len raw >? 0 then
          (db t, match ParsePKCS1PrivateKey raw with Some k => Ok k | None => Err BadKey end)
        else if epoch =? nowEpoch then
          match d_generated env with
          | None => (db t, Err NoRandomness)
          | Some k => match Update (d_commit_key env) (put_key_tx name k) (db t) with
                      | (d, None) => (d, Ok k)
                      | (d, Some e) => (d, Err e)
                      end
          end
        else (db t, Err ProofInvalid) in
      match r with
      | Err e => (set_db t d, Err e)
      | Ok k => (set_keys (set_db t d) (<[epoch := k]> (keys t)), Ok k)
      end
    end
  end.

Definition make_descriptor (epoch : Z) (key : rsa_key) : ticketDescriptor :=
  let der := MarshalPKCS1PublicKey key in
  {| Epoch := epoch; ExpiresAt := (epoch * 3600 + ticketLifetime) * 1000;
     PublicKey := base64_EncodeToString der;
     KeyID := ticketKeyID der (revision policy) (pin policy) epoch;
     Policy := revision policy; RelayPin := pin policy |}.

Definition descriptor (env : desc_env) (t : ticketAuthority) (epoch : Z)
  : ticketAuthority * result ticket_error (ticketDescriptor * rsa_key) :=
  let nowEpoch := epoch_of (d_now env) in
  if (epoch >? nowEpoch) || (epoch <=? nowEpoch - 12) then (t, Err ProofInvalid)
  else match Update (d_commit env) (advance_tx nowEpoch) (db t) with
  | (d, Some e) => (set_db t d, Err e)
  | (d, None) =>
    match find_key env nowEpoch (set_db t d) epoch with
    | (t, Err e) => (t, Err e)
    | (t, Ok key) =>
      let t := set_keys t (filter (fun kv => nowEpoch - 12 < fst kv) (keys t)) in
      (t, Ok (make_descriptor epoch key, key))
    end
  end.

(** [newTicketAuthority]: open the database (creating the buckets), and check
that this hour's key can be had; [now] is the clock reading that chooses the
hour, before the one inside [descriptor]. *)
Definition newTicketAuthority (now : Z) (env : desc_env) (d : ticket_db) : result ticket_error ticketAuthority :=
  let t := {| db := d; challenges := ∅; keys := ∅ |} in
  match descriptor env t (epoch_of now) with
  | (_, Err e) => Err e
  | (t, Ok _) => Ok t
  end.

Definition empty_db : ticket_db :=
  {| keys_bucket := b_new; spent_bucket := b_new; quota_bucket := b_new; meta_bucket := b_new |}.

(** ** redeem *)

Definition ticket_type : jty :=
  TStruct [(str "epoch", TInt 64); (str "keyId", TString); (str "message", TString); (str "signature", TString)].

Record ticket := {
  tk_Epoch : Z;
  tk_KeyID : gostring;
  tk_Message : gostring;
  tk_Signature : gostring;
}.
Definition as_ticket (v : jval) : ticket :=
  match v with
  | VStruct [e; k; m; s] =>
    {| tk_Epoch := as_int e; tk_KeyID := as_string k; tk_Message := as_string m; tk_Signature := as_string s |}
  | _ => {| tk_Epoch := 0; tk_KeyID := []; tk_Message := []; tk_Signature := [] |}
  end.

(** The keys the loop of [redeem] deletes. *)
Definition prefix_expired (cutoff : Z) (k : gostring) : bool :=
  match ParseInt64 (take 12 k) with Some ep => ep <=? cutoff | None => false end.

(** The hourly clean-up of [redeem]: keys in cursor order until the first that
has not expired. *)
Fixpoint clean_prefix (cutoff : Z) (ks : list gostring) (b : bucket) : result ticket_error bucket :=
  match ks with
  | [] => Ok b
  | k :: ks =>
    if len k <? 13 then Err InvalidDatabase
    else match ParseInt64 (take 12 k) with
    | None => Err BadEpoch
    | Some ep => if ep >? cutoff then Ok b else clean_prefix cutoff ks (Delete k b)
    end
  end.

Definition spent_key (epoch : Z) (id : gostring) : gostring := pad12 epoch ++ str ":" ++ id.

(** The redeeming transaction: expire, refuse a spent ticket, mark it spent. *)
Definition spend_tx (now : Z) (key : gostring) (d : ticket_db) : result ticket_error ticket_db :=
  let cutoff := epoch_of now - 12 in
  let? spent := clean_prefix cutoff (Visited (prefix_expired cutoff) (spent_bucket d)) (spent_bucket d) in
  let? quota := clean_prefix cutoff (Visited (prefix_expired cutoff) (quota_bucket d)) (quota_bucket d) in
  match Get spent key with
  | Some _ => Err ProofInvalid
  | None =>
    if KeyN (spent_bucket d) spent >=? 100000 then Err RelayFull
    else Ok {| keys_bucket := keys_bucket d; spent_bucket := Put key [1] spent;
               quota_bucket := quota; meta_bucket := meta_bucket d |}
  end.

(** Clock readings and storage outcomes of one [redeem]. *)
Record redeem_env := {
  r_desc : desc_env;
  r_check : Z;
  r_clean : Z;
  r_commit : option ticket_error;
  r_end1 : Z;
  r_end2 : Z;
}.

(** The checks on a decoded ticket before the spending transaction; on success
the ticket's identifier. *)
Definition ticket_id (now : Z) (d : ticketDescriptor) (key : rsa_key) (v : ticket) : option gostring :=
  if negb (bool_decide (KeyID d = tk_KeyID v)) || (ExpiresAt d <=? UnixMilli now) then None
  else
    let prefix := ticketDomain ++ KeyID d in
    match base64_DecodeString (tk_Message v), base64_DecodeString (tk_Signature v) with
    | Some msg, Some sig =>
      if negb (len msg =? len prefix + 32) || negb (HasPrefix msg prefix) || negb (len sig =? 256) then None
      else if negb (blindrsa_Verify key msg sig) then None
      else Some (hex_EncodeToString (sha256 msg))
    | _, _ => None
    end.

Definition redeem (env : redeem_env) (t : ticketAuthority) (raw : gostring)
  : ticketAuthority * result ticket_error (gostring * Z) :=
  if len raw >? 2048 then (t, Err ProofInvalid)
  else match strictJSON ticket_type raw with
  | None => (t, Err ProofInvalid)
  | Some v =>
    let v := as_ticket v in
    match descriptor (r_desc env) t (tk_Epoch v) with
    | (t, Err _) => (t, Err ProofInvalid)
    | (t, Ok (d, key)) =>
      match ticket_id (r_check env) d key v with
      | None => (t, Err ProofInvalid)
      | Some id =>
        match Update (r_commit env) (spend_tx (r_clean env) (spent_key (tk_Epoch v) id)) (db t) with
        | (d', Some _) => (set_db t d', Err ProofInvalid)
        | (d', None) =>
          (set_db t d', Ok (id, r_end1 env + (ExpiresAt d - UnixMilli (r_end2 env)) * 1000000))
        end
      end
    end
  end.

End Authority.
Arguments ticket_db : clear implicits.
Arguments ticket_db {B}.
Arguments ticketAuthority : clear implicits.
Arguments ticketAuthority {B C}.
