(* ===== verification/Issue.v ===== *)
(** * The issuing protocol

[ticketAuthority.handle] of [internal/relay/tickets.go], the handler of the
private socket: the catalogue, the challenge and the issue request, each a branch
of one function in the order of the code.  The request, the random nonce, the
membership lookups, the clock readings and the storage outcomes are its input. *)

From stdpp Require Import base gmap list numbers.
From Stdlib Require Import ZArith Lia String.
From S2P Require Import Prelude.
From S2P Require Import GoStrings.
From S2P Require Import Json.
From S2P Require Import Base58.
From S2P Require Import AccessConfig.
From S2P Require Import Membership.
From S2P Require Import Bolt.
From S2P Require Import Tickets.

Local Open Scope Z_scope.

(** ** Requests *)

Definition descriptor_type : jty :=
  TStruct [(str "epoch", TInt 64); (str "expiresAt", TInt 64); (str "publicKey", TString);
           (str "keyId", TString); (str "policy", TString); (str "relayPin", TString)].
Definition proof_type : jty :=
  TStruct [(str "type", TString); (str "relayPin", TString); (str "policy", TString); (str "binding", TString);
           (str "nonce", TString); (str "expiresAt", TInt 64); (str "authorAddress", TString);
           (str "authorPublicKey", TString); (str "signature", TString)].
Definition input_type : jty :=
  TStruct [(str "descriptor", TPtr descriptor_type); (str "blinded", TSlice TString); (str "proof", TPtr proof_type)].

Record issue_input := {
  in_Descriptor : option ticketDescriptor;
  in_Blinded : list gostring;
  in_Proof : option relayProof;
}.

Definition as_descriptor (v : jval) : option ticketDescriptor :=
  match v with
  | VPtr (Some (VStruct [e; x; k; i; p; r])) =>
    Some {| Epoch := as_int e; ExpiresAt := as_int x; PublicKey := as_string k; KeyID := as_string i;
            Policy := as_string p; RelayPin := as_string r |}
  | _ => None
  end.
Definition as_proof (v : jval) : option relayProof :=
  match v with
  | VPtr (Some (VStruct [ty; rp; po; bi; no; ex; aa; ak; sg])) =>
    Some {| pf_Type := as_string ty; pf_RelayPin := as_string rp; pf_Policy := as_string po;
            pf_Binding := as_string bi; pf_Nonce := as_string no; pf_ExpiresAt := as_int ex;
            pf_AuthorAddress := as_string aa; pf_AuthorPublicKey := as_string ak; pf_Signature := as_string sg |}
  | _ => None
  end.
Definition as_input (v : jval) : issue_input :=
  match v with
  | VStruct [d; b; p] =>
    {| in_Descriptor := as_descriptor d; in_Blinded := default [] (as_slice as_string b); in_Proof := as_proof p |}
  | _ => {| in_Descriptor := None; in_Blinded := []; in_Proof := None |}
  end.

Record request := {
  rq_Method : gostring;
  rq_Path : gostring;
  rq_Body : option gostring;  (** what [LimitReader(r.Body, 8193)] gave *)
}.

(** ** Responses *)

Inductive reply :=
| Refused (status : Z) (code : gostring)
| CatalogReply (d : ticketDescriptor)
| ChallengeReply (binding nonce : gostring) (expiresAt : Z)
| SignaturesReply (signatures : list gostring).

Definition proof_invalid (status : Z) : reply := Refused status (str "RELAY_PROOF_INVALID").
Definition rate_limited : reply := Refused 429 (str "RELAY_AUTH_RATE_LIMITED").
Definition auth_unavailable : reply := Refused 503 (str "RELAY_AUTH_UNAVAILABLE").

(** ** The documents that are hashed and signed *)

Definition issue_type : gostring := str "masque-ticket-issue-v1".

Definition binding_document (key : gostring) (blinded : list gostring) : gostring :=
  marshal_object [(str "key", marshal_string key); (str "blinded", marshal_list marshal_string blinded)].

(** A map is encoded with its keys sorted. *)
Definition signed_message (p : relayProof) : gostring :=
  marshal_object
    [(str "authorAddress", marshal_string (pf_AuthorAddress p));
     (str "authorPublicKey", marshal_string (pf_AuthorPublicKey p));
     (str "binding", marshal_string (pf_Binding p));
     (str "expiresAt", FormatInt (pf_ExpiresAt p));
     (str "nonce", marshal_string (pf_Nonce p));
     (str "policy", marshal_string (pf_Policy p));
     (str "relayPin", marshal_string (pf_RelayPin p));
     (str "type", marshal_string (pf_Type p))].

Section Handle.
  Context {B : Bucket} {Hs : Hashes} {C : Crypto}.
  Context (policy : policy_id).

(** Clock readings, randomness, lookups and storage outcomes of one request. *)
Record handle_env := {
  h_slots_used : Z;
  h_now : Z;                      (** chooses the hour *)
  h_desc : desc_env;
  h_nonce : option (list Z);      (** [rand.Read] of 32 bytes *)
  h_challenge_now : Z;
  h_prune_now : gostring -> Z;    (** the reading of the loop at each stored nonce *)
  h_prune_end : Z;                (** no reading of the loop is later *)
  h_issue_now : Z;
  h_membership : gostring -> membershipResult;   (** of an address *)
  h_recheck : gostring -> membershipResult;
  h_commit : option ticket_error;
  h_desc2 : desc_env;
}.

Definition handle_binding (d : ticketDescriptor) (blinded : list gostring) : gostring :=
  hex_EncodeToString (sha256 (binding_document (KeyID d) blinded)).

Definition blinded_ok (b : gostring) : bool :=
  match base64_DecodeString b with Some v => len v =? 256 | None => false end.

(** *** /challenge *)

Definition handle_challenge (env : handle_env) (t : ticketAuthority) (d : ticketDescriptor) (binding : gostring)
  : ticketAuthority * reply :=
  match h_nonce env with
  | None => (t, auth_unavailable)
  | Some nonce =>
    let n := hex_EncodeToString nonce in
    let expires := h_challenge_now env + 60 * Second in
    let live := filter (fun kc => h_prune_now env (fst kc) <= ch_Expires (snd kc)) (challenges t) in
    if Z.of_nat (size live) >=? 256 then (set_challenges t live, rate_limited)
    else
      (set_challenges t (<[n := {| ch_Binding := binding; ch_Epoch := Epoch d; ch_Expires := expires |}]> live),
       ChallengeReply binding n (UnixMilli expires))
  end.

(** *** /issue *)

Definition challenge_matches (now : Z) (c : option issueChallenge) (d : ticketDescriptor) (binding : gostring)
  (p : relayProof) : bool :=
  match c with
  | None => false
  | Some c =>
    negb ((now >? ch_Expires c) || negb (ch_Epoch c =? Epoch d) || negb (bool_decide (ch_Binding c = binding))
          || negb (bool_decide (pf_Type p = issue_type)) || negb (bool_decide (pf_RelayPin p = pin policy))
          || negb (bool_decide (pf_Policy p = revision policy)) || negb (bool_decide (pf_Binding p = ch_Binding c))
          || negb (pf_ExpiresAt p =? UnixMilli (ch_Expires c)))
  end.

(** The author's key signed the message, and the address is the key's. *)
Definition proof_signed (p : relayProof) : bool :=
  match decodeBase58 (pf_AuthorPublicKey p) 32, decodeBase58 (pf_Signature p) 64 with
  | Some key, Some sig =>
    bool_decide (addressForKey key = pf_AuthorAddress p) && ed25519_Verify key (signed_message p) sig
  | _, _ => false
  end.

(** The lookup, repeated when the cached answer predates the hour. *)
Definition issue_membership (env : handle_env) (d : ticketDescriptor) (address : gostring) : membershipResult :=
  let r := h_membership env address in
  match mem_err r with
  | None => if member r && (Unix (checked r) <? Epoch d * 3600) then h_recheck env address else r
  | Some _ => r
  end.

Definition quota_key (epoch : Z) (address : gostring) : gostring :=
  pad12 epoch ++ str ":" ++ hex_EncodeToString (sha256 address).

Definition quota_count (b : bucket) (key : gostring) : Z := ParseInt64_value (default [] (Get b key)).

Definition quota_tx (key : gostring) (n : Z) (d : ticket_db) : result ticket_error ticket_db :=
  let b := quota_bucket d in
  if (KeyN b b >=? 100000) && bool_decide (Get b key = None) then Err Capacity
  else
    let count := quota_count b key in
    if count + n >? 24 then Err Quota
    else Ok {| keys_bucket := keys_bucket d; spent_bucket := spent_bucket d;
               quota_bucket := Put key (FormatInt (count + n)) b; meta_bucket := meta_bucket d |}.

(** Sign each blinded message; stop at the first that cannot be signed. *)
Fixpoint sign_all (key : rsa_key) (blinded : list gostring) : option (list gostring) :=
  match blinded with
  | [] => Some []
  | b :: blinded =>
    s ← BlindSign key (default [] (base64_DecodeString b));
    rest ← sign_all key blinded;
    Some (base64_EncodeToString s :: rest)
  end.

(** After the proof has been accepted: membership, quota, signatures. *)
Definition issue_signatures (env : handle_env) (t : ticketAuthority) (d : ticketDescriptor)
  (blinded : list gostring) (address : gostring) : ticketAuthority * reply :=
  let r := issue_membership env d address in
  match mem_err r with
  | Some _ => (t, Refused 503 (str "RELAY_MEMBERSHIP_UNAVAILABLE"))
  | None =>
    if negb (member r) then (t, Refused 403 (str "RELAY_ACCESS_DENIED"))
    else if ExpiresAt d >? UnixMilli (checked r + ticketLifetime * Second) then (t, auth_unavailable)
    else match Update (h_commit env) (quota_tx (quota_key (Epoch d) address) (len blinded)) (db t) with
    | (d', Some _) => (set_db t d', rate_limited)
    | (d', None) =>
      match descriptor policy (h_desc2 env) (set_db t d') (Epoch d) with
      | (t, Err _) => (t, auth_unavailable)
      | (t, Ok (_, private)) =>
        match sign_all private blinded with
        | None => (t, proof_invalid 403)
        | Some out => (t, SignaturesReply out)
        end
      end
    end
  end.

Definition handle_issue (env : handle_env) (t : ticketAuthority) (d : ticketDescriptor)
  (blinded : list gostring) (binding : gostring) (p : relayProof) : ticketAuthority * reply :=
  let c := challenges t !! pf_Nonce p in
  let t := set_challenges t (delete (pf_Nonce p) (challenges t)) in
  if negb (challenge_matches (h_issue_now env) c d binding p) then (t, proof_invalid 403)
  else if negb (proof_signed p) then (t, proof_invalid 403)
  else issue_signatures env t d blinded (pf_AuthorAddress p).

(** *** The whole handler *)

Definition handle (env : handle_env) (t : ticketAuthority) (r : request) : ticketAuthority * reply :=
  if h_slots_used env >=? 8 then (t, rate_limited)
  else if negb (bool_decide (rq_Method r = str "POST")) then (t, proof_invalid 405)
  else match rq_Body r with
  | None => (t, proof_invalid 400)
  | Some raw =>
    if len raw >? 8192 then (t, proof_invalid 400)
    else match strictJSON input_type raw with
    | None => (t, proof_invalid 400)
    | Some v =>
      let input := as_input v in
      match descriptor policy (h_desc env) t (epoch_of (h_now env)) with
      | (t, Err _) => (t, auth_unavailable)
      | (t, Ok (d, _)) =>
        if bool_decide (rq_Path r = str "/catalog") then (t, CatalogReply d)
        else if negb (bool_decide (policy_Mode policy = groups)) then (t, Refused 403 (str "RELAY_ACCESS_DENIED"))
        else if negb (bool_decide (in_Descriptor input = Some d))
                || (len (in_Blinded input) <? 1) || (len (in_Blinded input) >? 3) then (t, proof_invalid 403)
        else if negb (forallb blinded_ok (in_Blinded input)) then (t, proof_invalid 403)
        else
          let binding := handle_binding d (in_Blinded input) in
          if bool_decide (rq_Path r = str "/challenge") then handle_challenge env t d binding
          else match in_Proof input with
          | Some p =>
            if negb (bool_decide (rq_Path r = str "/issue")) then (t, proof_invalid 403)
            else handle_issue env t d (in_Blinded input) binding p
          | None => (t, proof_invalid 403)
          end
      end
    end
  end.

End Handle.
