(* ===== verification/Samples.v ===== *)
(** * Concrete parameters

Small executable stand-ins for the hash functions, RSA, Ed25519 and the
database, with which the theorems are evaluated on concrete inputs. *)

From stdpp Require Import base gmap list numbers.
From Stdlib Require Import ZArith Lia String.
From S2P Require Import Prelude.
From S2P Require Import GoStrings.
From S2P Require Import Json.
From S2P Require Import Base58.
From S2P Require Import AccessConfig.
From S2P Require Import Membership.
From S2P Require Import Bolt.
From S2P Require Import Tickets.

Local Open Scope Z_scope.

Definition mix (modulus : Z) (bs : list Z) : Z := fold_left (fun h b => (h * 257 + b + 1) mod modulus) bs 0.

#[export] Instance sample_hashes : Hashes :=
  {| sha256 bs := be_bytes 32 (mix (2 ^ 256) bs); ripemd160 bs := be_bytes 20 (mix (2 ^ 160) bs) |}.
#[export] Instance sample_hashes_ok : HashesOk sample_hashes.
Proof. split; intros; cbn [sha256 ripemd160 sample_hashes]; auto using length_be_bytes, be_bytes_is_bytes. Qed.

(** A key is a number; a signature is valid if it repeats the key's low byte. *)
#[export] Instance sample_crypto : Crypto :=
  {| rsa_key := Z;
     MarshalPKCS1PrivateKey k := [k];
     ParsePKCS1PrivateKey bs := match bs with [k] => Some k | _ => None end;
     MarshalPKCS1PublicKey k := be_bytes 4 k;
     BlindSign k m := Some (map (fun b => (b + k) mod 256) m);
     blindrsa_Verify k _ sig := bool_decide (sig = replicate 256 (k mod 256));
     ed25519_Verify key _ sig := bool_decide (sig = replicate 64 (hd 0 key)) |}.

#[export] Instance sample_crypto_ok : CryptoOk sample_crypto.
Proof. done. Qed.

Definition sample_policy : policy_id :=
  {| revision := str "rev"; pin := str "pin"; policy_Mode := groups |}.

Definition sample_hour : Z := 500000.
(** Second [s] of the sample hour, in nanoseconds. *)
Definition at_second (s : Z) : Z := (sample_hour * 3600 + s) * Second.

Definition sample_desc (now : Z) : desc_env :=
  {| d_now := now; d_commit := None; d_view := None; d_generated := Some 42; d_commit_key := None |}.

Definition sample_authority : ticketAuthority :=
  {| db := empty_db; challenges := ∅; keys := ∅ |}.

(** The text of a ticket signed by key 42, with 32 bytes [b] after the prefix. *)
Definition ticket_text (epoch b : Z) : gostring :=
  let keyId := KeyID (make_descriptor sample_policy epoch 42) in
  marshal_object
    [(str "epoch", FormatInt epoch);
     (str "keyId", marshal_string keyId);
     (str "message", marshal_string (base64_EncodeToString (ticketDomain ++ keyId ++ replicate 32 b)));
     (str "signature", marshal_string (base64_EncodeToString (replicate 256 42)))].

Definition sample_redeem (now : Z) : redeem_env :=
  {| r_desc := sample_desc now; r_check := now; r_clean := now; r_commit := None; r_end1 := now; r_end2 := now |}.

(** A well-formed ticket is accepted, and not a second time. *)
Example redeem_sample :
  let '(t, r) := redeem sample_policy (sample_redeem (at_second 10)) sample_authority (ticket_text sample_hour 9) in
  is_ok r = true
  /\ is_ok (snd (redeem sample_policy (sample_redeem (at_second 20)) t (ticket_text sample_hour 9))) = false
  /\ is_ok (snd (redeem sample_policy (sample_redeem (at_second 20)) t (ticket_text sample_hour 8))) = true.
Proof. vm_compute. auto. Qed.
