(* ===== verification/TicketSpend.v ===== *)
(** * Tickets are spent once

What [redeem] promises: a ticket is accepted at most once.  The argument is made
twice.  At the level of database transactions, which concurrent requests
interleave in any order, a ticket's record outlives the ticket, so at most one
spending transaction succeeds while the ticket is valid.  At the level of whole
calls, with a clock that may jump backwards or forwards between calls and with
restarts, the recorded latest hour closes the gap that deleting expired records
would open. *)

From stdpp Require Import base gmap list numbers sorting.
From Stdlib Require Import ZArith Lia String.
From S2P Require Import Prelude.
From S2P Require Import GoStrings.
From S2P Require Import Json.
From S2P Require Import Base58.
From S2P Require Import AccessConfig.
From S2P Require Import Membership.
From S2P Require Import Bolt.
From S2P Require Import Tickets.
From S2P Require Import Issue.
From S2P Require Import Samples.

Local Open Scope Z_scope.

(** ** Keys that start with an hour *)

(** The shape shared by [spent_key] and [quota_key]. *)
Definition epoch_key (e : Z) (s : gostring) : gostring := pad12 e ++ str ":" ++ s.
Definition epoch_range (e : Z) : Prop := 0 <= e < 10 ^ 12.

Lemma parse_unsigned_digits s : Forall (fun c => is_digit c = true) s -> s <> [] ->
  ParseInt64 s = (v ← digits_value 0 s; if (- 2 ^ 63 <=? v) && (v <? 2 ^ 63) then Some v else None).
Proof.
  intros Hd Hne. destruct s as [|c s]; [done|]. inversion Hd as [|?? Hc _]; subst. unfold ParseInt64.
  rewrite (match_not_sign c) by (unfold is_digit in Hc; breflect; lia). done.
Qed.

Lemma ParseInt64_pad12 e : epoch_range e -> ParseInt64 (pad12 e) = Some e.
Proof.
  intros He. rewrite parse_unsigned_digits.
  - rewrite parse_pad12 by done. cbn. unfold epoch_range in He.
    rewrite (proj2 (andb_true_iff _ _)) by lia. done.
  - apply pad12_digits. apply He.
  - intros E. pose proof (length_pad12 e He) as Hl. by rewrite E in Hl.
Qed.

Lemma Split_head a r sep : Forall (fun c => c <> sep) a -> Split (a ++ sep :: r) sep = a :: Split r sep.
Proof.
  induction 1 as [|c a Hc _ IH]; cbn; [by rewrite Z.eqb_refl|].
  by rewrite (proj2 (Z.eqb_neq c sep) Hc), IH.
Qed.

Lemma epoch_key_part e s : epoch_range e -> nth_error (Split (epoch_key e s) 58) 0 = Some (pad12 e).
Proof.
  intros He. unfold epoch_key. change (str ":" ++ s) with (58 :: s). rewrite Split_head; [done|].
  eapply List.Forall_impl; [|apply pad12_digits; apply He]. intros c Hc. unfold is_digit in Hc. cbn in Hc. breflect. lia.
Qed.

Lemma epoch_key_take e s : epoch_range e -> take 12 (epoch_key e s) = pad12 e.
Proof.
  intros He. unfold epoch_key. rewrite take_app_le by (rewrite length_pad12; [done|exact He]).
  apply take_ge. rewrite length_pad12; [done|exact He].
Qed.

Lemma epoch_key_inj e1 e2 s1 s2 : epoch_range e1 -> epoch_range e2 ->
  epoch_key e1 s1 = epoch_key e2 s2 -> e1 = e2 /\ s1 = s2.
Proof.
  intros H1 H2 E. assert (pad12 e1 = pad12 e2) as Ep
    by (rewrite <- (epoch_key_take e1 s1), <- (epoch_key_take e2 s2) by done; by rewrite E).
  split.
  - pose proof (ParseInt64_pad12 e1 H1) as P. rewrite Ep, ParseInt64_pad12 in P by done. congruence.
  - unfold epoch_key in E. rewrite Ep in E. by do 2 apply app_inv_head in E.
Qed.

Lemma len_epoch_key e s : epoch_range e -> len (epoch_key e s) = 13 + len s.
Proof.
  intros He. unfold epoch_key, len. rewrite !length_app, length_pad12 by done.
  change (List.length (str ":")) with 1%nat. lia.
Qed.

(** The decimal value stored under [latestEpoch] and the quota keys is read back. *)
Lemma ParseInt64_value_FormatInt n : 0 <= n < 2 ^ 63 -> ParseInt64_value (FormatInt n) = n.
Proof.
  intros Hn. unfold ParseInt64_value, FormatInt. rewrite (proj2 (Z.ltb_ge n 0)) by lia.
  pose proof (FormatUint_digits n ltac:(lia)) as Hd. pose proof (parse_FormatUint n ltac:(lia)) as Hp.
  pose proof (FormatUint_nonempty n). destruct (FormatUint n) as [|c s]; [done|].
  inversion Hd as [|?? Hc _]; subst.
  rewrite (match_not_sign c) by (unfold is_digit in Hc; breflect; lia). rewrite Hp. lia.
Qed.

(** ** Cleaning keeps what has not expired *)

Section Clean.
  Context {B : Bucket} {BO : BucketOk B}.

Lemma clean_prefix_keeps cutoff ks b b' e s : epoch_range e -> cutoff < e ->
  clean_prefix cutoff ks b = Ok b' -> Get b' (epoch_key e s) = Get b (epoch_key e s).
Proof.
  intros He Hc. revert b. induction ks as [|k ks IH]; intros b; cbn; [by intros [= <-]|].
  destruct (len k <? 13); [done|]. destruct (ParseInt64 (take 12 k)) as [ep|] eqn:Ep; [|done].
  destruct (ep >? cutoff) eqn:Ec; [by intros [= <-]|]. intros Hr. apply IH in Hr. rewrite Hr.
  apply get_delete_ne. intros ->. rewrite epoch_key_take, ParseInt64_pad12 in Ep by done.
  simplify_eq. apply Z.gtb_ltb in Ec || breflect; lia.
Qed.

Lemma clean_epochs_keeps cutoff ks b b' e s : epoch_range e -> cutoff < e ->
  clean_epochs 0 cutoff ks b = Ok b' -> Get b' (epoch_key e s) = Get b (epoch_key e s).
Proof.
  intros He Hc. revert b. induction ks as [|k ks IH]; intros b; cbn [clean_epochs]; [by intros [= <-]|].
  destruct (nth_error (Split k 58) 0) as [part|] eqn:En; [|done].
  destruct (ParseInt64 part) as [ep|] eqn:Ep; [|done]. intros Hr. apply IH in Hr. rewrite Hr.
  destruct (ep <=? cutoff) eqn:Ec; [|done]. breflect.
  apply get_delete_ne. intros ->. rewrite epoch_key_part in En by done. injection En as <-.
  rewrite ParseInt64_pad12 in Ep by done. simplify_eq. lia.
Qed.

(** Cleaning creates nothing. *)
Lemma clean_prefix_sub cutoff ks b b' k v :
  clean_prefix cutoff ks b = Ok b' -> Get b' k = Some v -> Get b k = Some v.
Proof.
  revert b. induction ks as [|k' ks IH]; intros b; cbn; [by intros [= <-]|].
  destruct (len k' <? 13); [done|]. destruct (ParseInt64 (take 12 k')) as [ep|]; [|done].
  destruct (ep >? cutoff); [by intros [= <-]|]. intros Hr Hk. specialize (IH _ Hr Hk).
  destruct (decide (k' = k)) as [->|]; [by rewrite get_delete in IH|by rewrite get_delete_ne in IH].
Qed.

End Clean.

(** ** Interleaved transactions *)

Section Spend.
  Context {B : Bucket} {BO : BucketOk B} {Hs : Hashes} {C : Crypto}.

(** The transactions that requests commit. *)
Inductive tx :=
| TAdvance
| TPutKey (name : gostring) (k : rsa_key)
| TSpend (key : gostring)
| TQuota (key : gostring) (n : Z).

Definition run_tx (now : Z) (x : tx) (d : ticket_db) : result ticket_error ticket_db :=
  match x with
  | TAdvance => advance_tx (epoch_of now) d
  | TPutKey name k => put_key_tx name k d
  | TSpend key => spend_tx now key d
  | TQuota key n => quota_tx key n d
  end.

(** A schedule: each transaction with the clock at the time it runs and whether
its commit succeeds. *)
Definition schedule := list (Z * tx * option ticket_error).

(** The spending transactions that succeed, with their times. *)
Fixpoint spends (l : schedule) (d : ticket_db) : list (Z * gostring) :=
  match l with
  | [] => []
  | (now, x, commit) :: l =>
    let '(d', err) := Update commit (run_tx now x) d in
    match x, err with
    | TSpend key, None => (now, key) :: spends l d'
    | _, _ => spends l d'
    end
  end.

(** Successful spends of [key] at a time when a ticket of hour [e] is valid. *)
Definition valid_spends (e : Z) (key : gostring) (l : list (Z * gostring)) : list (Z * gostring) :=
  List.filter (fun s => bool_decide (snd s = key) && (epoch_of (fst s) - 12 <? e)) l.

Definition spent (d : ticket_db) (key : gostring) : Prop := Get (spent_bucket d) key <> None.

Lemma advance_keeps nowEpoch d d' e s : epoch_range e -> nowEpoch - 12 < e ->
  advance_tx nowEpoch d = Ok d' -> Get (spent_bucket d') (epoch_key e s) = Get (spent_bucket d) (epoch_key e s)
    /\ Get (quota_bucket d') (epoch_key e s) = Get (quota_bucket d) (epoch_key e s).
Proof.
  intros He Hc. unfold advance_tx. split_if; [done|]. split_if; [|by intros [= <-]].
  intros H. apply result_bind_ok in H as (ks & _ & H). apply result_bind_ok in H as (qs & Hq & H).
  apply result_bind_ok in H as (ss & Hss & H). injection H as <-. cbn.
  split; by eapply clean_epochs_keeps.
Qed.

Lemma spend_tx_inv now key d d' : spend_tx now key d = Ok d' ->
  exists sp qu, clean_prefix (epoch_of now - 12) (Visited (prefix_expired (epoch_of now - 12)) (spent_bucket d)) (spent_bucket d) = Ok sp
    /\ clean_prefix (epoch_of now - 12) (Visited (prefix_expired (epoch_of now - 12)) (quota_bucket d)) (quota_bucket d) = Ok qu
    /\ Get sp key = None /\ KeyN (spent_bucket d) sp < 100000
    /\ d' = {| keys_bucket := keys_bucket d; spent_bucket := Put key [1] sp;
               quota_bucket := qu; meta_bucket := meta_bucket d |}.
Proof.
  unfold spend_tx. intros H. apply result_bind_ok in H as (sp & H1 & H).
  apply result_bind_ok in H as (qu & H2 & H). destruct (Get sp key) eqn:Eg; [done|].
  split_if_in H; [done|]. breflect. injection H as <-. exists sp, qu. done.
Qed.

(** While a ticket of hour [e] is valid, no transaction removes its record, and
the spending transaction for it fails. *)
Lemma run_tx_keeps now x d d' e s : epoch_range e -> epoch_of now - 12 < e ->
  run_tx now x d = Ok d' -> spent d (epoch_key e s) -> spent d' (epoch_key e s) /\ x <> TSpend (epoch_key e s).
Proof.
  intros He Hc. unfold spent. destruct x as [|name k|key|key n]; cbn.
  - intros H Hs'. split; [|done]. by rewrite (proj1 (advance_keeps _ _ _ e s He Hc H)).
  - intros [= <-] Hs'. done.
  - intros H Hs'. apply spend_tx_inv in H as (sp & qu & Hsp & _ & Hg & _ & ->). cbn.
    pose proof (clean_prefix_keeps _ _ _ _ e s He Hc Hsp) as Hk.
    assert (key <> epoch_key e s) as Hne by (intros ->; congruence).
    rewrite get_put_ne by done. split; [congruence|]. by intros [= ->].
  - unfold quota_tx. intros H Hs'. repeat split_if_in H; try done. injection H as <-. done.
Qed.

Lemma spend_marks now key d d' : spend_tx now key d = Ok d' -> spent d' key.
Proof. intros H. apply spend_tx_inv in H as (sp & qu & _ & _ & _ & _ & ->). unfold spent. cbn. by rewrite get_put. Qed.

Definition times (l : schedule) : list Z := map (fun s => epoch_of (fst (fst s))) l.

(** Once the hour is past, nothing is a valid spend. *)
Lemma no_valid_spends_late e key l d : Forall (fun t => e <= t - 12) (times l) -> valid_spends e key (spends l d) = [].
Proof.
  revert d. induction l as [|[[now x] c] l IH]; intros d Ht; [done|]. cbn in Ht |- *.
  inversion Ht; subst. destruct (Update c (run_tx now x) d) as [d' err].
  destruct x as [| |k|]; try (by apply IH). destruct err; [by apply IH|]. cbn.
  rewrite (proj2 (Z.ltb_ge _ _)) by lia. rewrite andb_false_r. by apply IH.
Qed.

Lemma no_second_spend e s l d : epoch_range e -> StronglySorted Z.le (times l) ->
  spent d (epoch_key e s) -> valid_spends e (epoch_key e s) (spends l d) = [].
Proof.
  intros He. revert d. induction l as [|[[now x] c] l IH]; intros d Ht Hsp; [done|].
  inversion Ht as [|?? Ht' Hmin]; subst. cbn in Hmin. destruct (decide (epoch_of now - 12 < e)) as [Hc|Hc]; cycle 1.
  { apply no_valid_spends_late. constructor; [cbn; lia|]. eapply List.Forall_impl; [|exact Hmin]. cbn. lia. }
  cbn. destruct (Update c (run_tx now x) d) as [d' [err|]] eqn:Eu.
  - apply Update_err in Eu as ->. destruct x; by apply IH.
  - apply Update_ok in Eu. destruct (run_tx_keeps _ _ _ _ e s He Hc Eu Hsp) as [Hsp' Hx].
    destruct x as [| |k|]; try (by apply IH). cbn. rewrite bool_decide_false by congruence. by apply IH.
Qed.

(** Single use under concurrency.  Whatever the interleaving of the
transactions of concurrent requests, with a clock that does not go back and with
commits that may fail, a ticket (its hour and identifier) is marked spent by at
most one successful spending transaction within its validity. *)
Theorem ticket_single_use e id (l : schedule) (d : ticket_db) :
  epoch_range e -> StronglySorted Z.le (times l) ->
  len (valid_spends e (spent_key e id) (spends l d)) <= 1.
Proof.
  intros He. change (spent_key e id) with (epoch_key e id). revert d.
  induction l as [|[[now x] c] l IH]; intros d Ht; [by vm_compute|].
  inversion Ht as [|?? Ht' Hmin]; subst. cbn [spends].
  destruct (Update c (run_tx now x) d) as [d' [err|]] eqn:Eu; [destruct x; by apply IH|].
  destruct x as [| |k|]; try (by apply IH). apply Update_ok in Eu. cbn in Eu. unfold valid_spends. cbn [List.filter fst snd].
  destruct (bool_decide_reflect (k = epoch_key e id)) as [->|]; [|by apply IH].
  apply spend_marks in Eu. fold (valid_spends e (epoch_key e id) (spends l d')).
  rewrite (no_second_spend e id l d' He Ht' Eu). by destruct (_ && _).
Qed.

End Spend.

(** ** Whole calls, restarts and clock jumps *)

Section Calls.
  Context {B : Bucket} {BO : BucketOk B} {Hs : Hashes} {C : Crypto}.

(** A clock reading of this era. *)
Definition plausible (now : Z) : Prop := 0 <= now < 2 ^ 63.

(** The lifetime of hour [e] does not end inside this call of [redeem], between its
check and its clean-up: the clean-up runs before that end, or the check after it. *)
Definition keeps (e : Z) (env : redeem_env) : Prop :=
  plausible (d_now (r_desc env)) /\ (epoch_of (r_clean env) < e + 12 \/ e + 12 <= epoch_of (d_now (r_desc env))).

(** What the authority does to its state: calls of its operations under any
policy, and a restart, which keeps only the database.  Between calls the clock may do
anything; the redemptions keep the records of hour [e]. *)
Inductive authority_step (e : Z) : ticketAuthority -> ticketAuthority -> Prop :=
| step_redeem policy env t raw t' r :
    keeps e env -> redeem policy env t raw = (t', r) -> authority_step e t t'
| step_handle policy env t rq t' rp :
    plausible (d_now (h_desc env)) -> plausible (d_now (h_desc2 env)) ->
    handle policy env t rq = (t', rp) -> authority_step e t t'
| step_restart policy env t epoch t' r :
    plausible (d_now env) ->
    descriptor policy env {| db := db t; challenges := ∅; keys := ∅ |} epoch = (t', r) -> authority_step e t t'.

(** The ticket can never be accepted again: it is marked, or its hour is over
for every clock the authority will accept. *)
Definition burned (d : ticket_db) (e : Z) (id : gostring) : Prop :=
  spent d (spent_key e id) \/ e <= latestEpoch d - 12.

Lemma epoch_of_range now : plausible now -> 0 <= epoch_of now < 2 ^ 63.
Proof.
  intros [H1 H2]. unfold epoch_of, Unix, Second. rewrite Z.quot_div_nonneg by (try apply Z.div_pos; lia).
  split; [apply Z.div_pos; [apply Z.div_pos|]; lia|]. apply Z.div_lt_upper_bound; [lia|]. apply Z.div_lt_upper_bound; lia.
Qed.

Lemma advance_latest n d d' : 0 <= n < 2 ^ 63 -> advance_tx n d = Ok d' ->
  latestEpoch d' = n /\ latestEpoch d <= n.
Proof.
  intros Hn. unfold advance_tx. destruct (n <? latestEpoch d) eqn:E1; [done|]. breflect.
  destruct (n >? latestEpoch d) eqn:E2; breflect.
  - intros H. do 3 (apply result_bind_ok in H as (? & _ & H)). injection H as <-.
    unfold latestEpoch at 1. cbn. rewrite get_put. cbn. split; [|lia]. by apply ParseInt64_value_FormatInt.
  - intros [= <-]. lia.
Qed.

Lemma advance_burned n d d' e id : epoch_range e -> 0 <= n < 2 ^ 63 ->
  advance_tx n d = Ok d' -> burned d e id -> burned d' e id.
Proof.
  intros He Hn Ha Hb. destruct (advance_latest n d d' Hn Ha) as [Hl Hl'].
  destruct (decide (n - 12 < e)) as [Hc|Hc]; [|right; lia].
  destruct Hb as [Hb|Hb]; [|lia]. left. unfold spent in *. change (spent_key e id) with (epoch_key e id) in *.
  by rewrite (proj1 (advance_keeps _ _ _ e id He Hc Ha)).
Qed.

(** Nothing but [advance_tx] and [spend_tx] touches the two records. *)
Definition same_records (d d' : ticket_db) : Prop :=
  spent_bucket d' = spent_bucket d /\ meta_bucket d' = meta_bucket d.

Lemma same_records_burned d d' e id : same_records d d' -> burned d e id -> burned d' e id.
Proof. intros [H1 H2]. unfold burned, spent, latestEpoch. by rewrite H1, H2. Qed.

Lemma find_key_records policy env n t epoch t' r :
  find_key policy env n t epoch = (t', r) -> same_records (db t) (db t').
Proof.
  unfold find_key, same_records. destruct (keys t !! epoch); [by intros [= <- <-]|]. cbv zeta.
  destruct (d_view env); [by intros [= <- <-]|].
  destruct (len _ >? 0); [destruct (ParsePKCS1PrivateKey _); by intros [= <- <-]|].
  destruct (epoch =? n); [|by intros [= <- <-]].
  destruct (d_generated env) as [k|]; [|by intros [= <- <-]].
  destruct (Update _ _ _) as [d [err|]] eqn:Eu.
  - apply Update_err in Eu as ->. by intros [= <- <-].
  - apply Update_ok in Eu. injection Eu as <-. by intros [= <- <-].
Qed.

(** What [descriptor] does to the records, and when it succeeds. *)
Lemma descriptor_records policy env t epoch t' r : descriptor policy env t epoch = (t', r) ->
  (db t' = db t /\ is_ok r = false
   \/ exists d, advance_tx (epoch_of (d_now env)) (db t) = Ok d /\ same_records d (db t'))
  /\ (forall dk, r = Ok dk -> epoch <= epoch_of (d_now env) < epoch + 12
        /\ (exists k, dk = (make_descriptor policy epoch k, k))
        /\ exists d, advance_tx (epoch_of (d_now env)) (db t) = Ok d /\ same_records d (db t')).
Proof.
  unfold descriptor. destruct (_ || _) eqn:Ew; [intros [= <- <-]; split; [by left|done]|].
  apply orb_false_iff in Ew as [Ew1 Ew2].
  destruct (Update _ _ _) as [d [err|]] eqn:Eu.
  { apply Update_err in Eu as ->. intros [= <- <-]. split; [by left|done]. }
  apply Update_ok in Eu. destruct (find_key _ _ _ _ _) as [t1 [key|e]] eqn:Ef;
    apply find_key_records in Ef; cbn in Ef; intros [= <- <-]; cbn.
  - split; [right; by exists d|]. intros dk [= <-]. breflect. split_and!; [lia..|by exists key|by exists d].
  - split; [|done]. right. by exists d.
Qed.

Lemma descriptor_burned policy env t epoch t' r e id : epoch_range e -> plausible (d_now env) ->
  descriptor policy env t epoch = (t', r) -> burned (db t) e id -> burned (db t') e id.
Proof.
  intros He Hp Hd Hb. apply descriptor_records in Hd as [[[-> _]|(d & Ha & Hs')] _]; [done|].
  eapply same_records_burned; [done|]. eapply advance_burned; [done|by apply epoch_of_range|done..].
Qed.

Lemma set_challenges_db (t : ticketAuthority) c : db (set_challenges t c) = db t.
Proof. done. Qed.

Lemma issue_burned policy env t d blinded address t' rp e id :
  epoch_range e -> plausible (d_now (h_desc2 env)) ->
  issue_signatures policy env t d blinded address = (t', rp) -> burned (db t) e id -> burned (db t') e id.
Proof.
  intros He Hp. unfold issue_signatures. destruct (mem_err _); [by intros [= <- <-]|].
  do 2 (split_if; [by intros [= <- <-]|]).
  destruct (Update _ _ _) as [d1 [err|]] eqn:Eu.
  { apply Update_err in Eu as ->. by intros [= <- <-]. }
  apply Update_ok in Eu. intros H Hb.
  assert (burned d1 e id) as Hb1.
  { eapply same_records_burned; [|done]. unfold quota_tx in Eu. repeat split_if_in Eu; try done. by injection Eu as <-. }
  destruct (descriptor _ _ _ _) as [t1 r] eqn:Ed. eapply descriptor_burned in Ed; [|done..].
  destruct r as [[? key]|]; [destruct (sign_all key blinded)|]; by injection H as <- <-.
Qed.

Lemma handle_burned policy env t rq t' rp e id :
  epoch_range e -> plausible (d_now (h_desc env)) -> plausible (d_now (h_desc2 env)) ->
  handle policy env t rq = (t', rp) -> burned (db t) e id -> burned (db t') e id.
Proof.
  intros He Hp1 Hp2 H Hb. unfold handle in H. do 2 (split_if_in H; [by injection H as <- <-|]).
  destruct (rq_Body rq) as [raw|]; [|by injection H as <- <-]. split_if_in H; [by injection H as <- <-|].
  destruct (strictJSON input_type raw) as [v|]; [|by injection H as <- <-]. cbv zeta in H.
  destruct (descriptor policy (h_desc env) t _) as [t1 r] eqn:Ed. eapply descriptor_burned in Ed; [|done..].
  destruct r as [[d key]|]; [|by injection H as <- <-].
  do 4 (split_if_in H; [by injection H as <- <-|]). split_if_in H.
  - unfold handle_challenge in H. destruct (h_nonce env); [|by injection H as <- <-]. cbv zeta in H.
    split_if_in H; by injection H as <- <-.
  - destruct (in_Proof (as_input v)) as [p|]; [|by injection H as <- <-]. split_if_in H; [by injection H as <- <-|].
    unfold handle_issue in H. do 2 (split_if_in H; [by injection H as <- <-|]). by eapply issue_burned in H.
Qed.

(** The successful path of [redeem]. *)
Lemma redeem_inv policy env t raw t' id until : redeem policy env t raw = (t', Ok (id, until)) ->
  exists v t1 d key,
    strictJSON ticket_type raw = Some v /\ len raw <= 2048
    /\ descriptor policy (r_desc env) t (tk_Epoch (as_ticket v)) = (t1, Ok (d, key))
    /\ ticket_id (r_check env) d key (as_ticket v) = Some id
    /\ spend_tx (r_clean env) (spent_key (tk_Epoch (as_ticket v)) id) (db t1) = Ok (db t')
    /\ until = r_end1 env + (ExpiresAt d - UnixMilli (r_end2 env)) * 1000000.
Proof.
  unfold redeem. destruct (len raw >? 2048) eqn:El; [done|]. breflect.
  destruct (strictJSON ticket_type raw) as [v|]; [|done]. cbv zeta.
  destruct (descriptor _ _ _ _) as [t1 [[d key]|]] eqn:Ed; [|done].
  destruct (ticket_id _ _ _ _) as [id'|] eqn:Ei; [|done].
  destruct (Update _ _ _) as [d' [err|]] eqn:Eu; [done|]. apply Update_ok in Eu.
  intros [= <- <- <-]. exists v, t1, d, key. done.
Qed.

(** After a successful [descriptor] the recorded hour is the clock's. *)
Lemma descriptor_latest policy env t epoch t' dk : plausible (d_now env) ->
  descriptor policy env t epoch = (t', Ok dk) -> latestEpoch (db t') = epoch_of (d_now env).
Proof.
  intros Hp Hd. apply descriptor_records in Hd as [_ Hd].
  destruct (Hd dk eq_refl) as (_ & _ & d & Ha & [_ Hm]).
  apply advance_latest in Ha as [Ha _]; [|by apply epoch_of_range].
  unfold latestEpoch in *. by rewrite Hm.
Qed.

Lemma spend_burned now key d d' e id : epoch_range e -> epoch_of now < e + 12 \/ e + 12 <= latestEpoch d ->
  spend_tx now key d = Ok d' -> burned d e id -> burned d' e id.
Proof.
  intros He Hl Hs' Hb. apply spend_tx_inv in Hs' as (sp & qu & Hsp & _ & _ & _ & ->).
  destruct Hl as [Hc|Hl]; cycle 1.
  { right. unfold latestEpoch in *. cbn [meta_bucket]. lia. }
  destruct Hb as [Hb|Hb]; [|by right]. left. unfold spent in *. cbn.
  change (spent_key e id) with (epoch_key e id) in *.
  destruct (decide (key = epoch_key e id)) as [->|]; [by rewrite get_put|].
  assert (epoch_of now - 12 < e) as Hc' by lia. rewrite get_put_ne by done. by rewrite (clean_prefix_keeps _ _ _ _ e id He Hc' Hsp).
Qed.

Lemma redeem_burned policy env t raw t' r e id : epoch_range e -> keeps e env ->
  redeem policy env t raw = (t', r) -> burned (db t) e id -> burned (db t') e id.
Proof.
  intros He [Hp Hc] H Hb. unfold redeem in H. split_if_in H; [by injection H as <- <-|].
  destruct (strictJSON ticket_type raw) as [v|]; [|by injection H as <- <-]. cbv zeta in H.
  destruct (descriptor _ _ _ _) as [t1 r1] eqn:Ed.
  pose proof (descriptor_burned _ _ _ _ _ _ e id He Hp Ed Hb) as Hb1.
  destruct r1 as [[d key]|]; [|by injection H as <- <-].
  pose proof (descriptor_latest _ _ _ _ _ _ Hp Ed) as Hl.
  destruct (ticket_id _ _ _ _) as [id'|]; [|by injection H as <- <-].
  destruct (Update _ _ _) as [d' [err|]] eqn:Eu.
  - apply Update_err in Eu as ->. by injection H as <- <-.
  - apply Update_ok in Eu. injection H as <- <-. cbn.
    eapply spend_burned; [done| |exact Eu|done]. by rewrite Hl.
Qed.

Lemma authority_step_burned t t' e id : epoch_range e ->
  authority_step e t t' -> burned (db t) e id -> burned (db t') e id.
Proof.
  intros He [policy env ? raw ? r Hst H|policy env ? rq ? rp Hp1 Hp2 H|policy env ? epoch ? r Hp H] Hb.
  - by eapply redeem_burned in H.
  - by eapply handle_burned in H.
  - by eapply descriptor_burned in H.
Qed.

(** The hour a ticket text carries. *)
Definition ticket_epoch (raw : gostring) : Z :=
  match strictJSON ticket_type raw with Some v => tk_Epoch (as_ticket v) | None => 0 end.

Lemma redeem_burns policy env t raw t' id until :
  redeem policy env t raw = (t', Ok (id, until)) -> burned (db t') (ticket_epoch raw) id.
Proof.
  intros H. apply redeem_inv in H as (v & t1 & d & key & Hv & _ & _ & _ & Hs' & _).
  unfold ticket_epoch. rewrite Hv. left. by eapply spend_marks.
Qed.

(** A burned ticket is only accepted if the clean-up of that very call ran after the
end of the ticket's lifetime. *)
Lemma burned_lapsed policy env t raw t' id until e : epoch_range e -> plausible (d_now (r_desc env)) -> ticket_epoch raw = e ->
  burned (db t) e id -> redeem policy env t raw = (t', Ok (id, until)) ->
  e + 12 <= epoch_of (r_clean env) /\ until = r_end1 env + ((e + 12) * 3600000 - UnixMilli (r_end2 env)) * 1000000.
Proof.
  intros He Hp Ht Hb H. apply redeem_inv in H as (v & t1 & d & key & Hv & _ & Hd & _ & Hs' & ->).
  unfold ticket_epoch in Ht. rewrite Hv in Ht. rewrite Ht in *.
  pose proof (descriptor_burned _ _ _ _ _ _ e id He Hp Hd Hb) as Hb1.
  pose proof (descriptor_latest _ _ _ _ _ _ Hp Hd) as Hl.
  apply descriptor_records in Hd as [_ Hd]. destruct (Hd _ eq_refl) as (Hw & (k & [= -> ->]) & _).
  split; [|unfold make_descriptor, ticketLifetime; cbn [ExpiresAt]; lia].
  destruct Hb1 as [Hb1|Hb1]; [|lia]. unfold spent in Hb1.
  apply spend_tx_inv in Hs' as (sp & qu & Hsp & _ & Hg & _).
  change (spent_key e id) with (epoch_key e id) in *. destruct (decide (e + 12 <= epoch_of (r_clean env))) as [|Hlt]; [done|].
  assert (epoch_of (r_clean env) - 12 < e) as Hc by lia. rewrite (clean_prefix_keeps _ _ _ _ e id He Hc Hsp) in Hg. done.
Qed.

(** C2: Single use across restarts and clock changes.  After a ticket has been
redeemed, let the authority go through any redemptions, issuing requests and restarts
(with the same or another policy), with a clock that may jump between calls, as long
as the ticket's lifetime does not end inside one of those redemptions, between its
check and its clean-up.  A later call of [redeem] that accepts a ticket of that hour
with that identifier is then one inside which the lifetime does end, before its
clean-up; and what it returns is an authorization that is already over.  A call inside
which the hour does not change refuses it. *)
Theorem ticket_redeemed_once policy env t raw t1 id until t2 policy' env' raw' t3 until' :
  epoch_range (ticket_epoch raw) -> plausible (d_now (r_desc env')) ->
  redeem policy env t raw = (t1, Ok (id, until)) ->
  rtc (authority_step (ticket_epoch raw)) t1 t2 ->
  ticket_epoch raw' = ticket_epoch raw ->
  redeem policy' env' t2 raw' = (t3, Ok (id, until')) ->
  epoch_of (d_now (r_desc env')) < ticket_epoch raw + 12 <= epoch_of (r_clean env')
  /\ (plausible (r_clean env') -> r_clean env' <= r_end2 env' -> until' <= r_end1 env').
Proof.
  intros He Hp H Hr Ht H'.
  assert (burned (db t2) (ticket_epoch raw) id) as Hb.
  { apply redeem_burns in H. clear H'. revert H. induction Hr as [|x y z Hxy _ IH]; [done|]. intros H. apply IH. by eapply authority_step_burned. }
  destruct (burned_lapsed _ _ _ _ _ _ _ _ He Hp Ht Hb H') as [Hl ->].
  apply redeem_inv in H' as (v & ? & d & key & Hv & _ & Hd & _). unfold ticket_epoch in Ht at 1. rewrite Hv in Ht.
  apply descriptor_records in Hd as [_ Hd]. destruct (Hd _ eq_refl) as (Hw & _). rewrite Ht in Hw.
  split; [lia|]. intros Hpc Hle. unfold epoch_of, UnixMilli, Unix, Second in *. unfold plausible in Hpc.
  rewrite Z.quot_div_nonneg in Hl by (try apply Z.div_pos; lia). dlia.
Qed.
End Calls.

Definition sample_schedule : schedule :=
  [(at_second 1, TAdvance, None); (at_second 2, TSpend (spent_key sample_hour [65]), None);
   (at_second 3, TSpend (spent_key sample_hour [65]), None)].

Lemma ticket_single_use_witness :
  spends sample_schedule empty_db = [(at_second 2, spent_key sample_hour [65])]
  /\ len (valid_spends sample_hour (spent_key sample_hour [65]) (spends sample_schedule empty_db)) <= 1.
Proof.
  split; [vm_compute; reflexivity|].
  apply (ticket_single_use sample_hour [65] sample_schedule empty_db).
  - unfold epoch_range, sample_hour. lia.
  - repeat constructor; vm_compute; discriminate.
Defined.

Definition redeemed_once : ticketAuthority :=
  fst (redeem sample_policy (sample_redeem (at_second 10)) sample_authority (ticket_text sample_hour 9)).

Lemma sample_epoch_range : epoch_range (ticket_epoch (ticket_text sample_hour 9)).
Proof. vm_compute. split; [discriminate|reflexivity]. Qed.

Definition first_text : gostring := ticket_text sample_hour 9.

(** The lifetime ends between the check of the second call and its clean-up. *)
Definition lapsing_redeem : redeem_env :=
  {| r_desc := sample_desc (at_second (12 * 3600 - 2)); r_check := at_second (12 * 3600 - 1); r_clean := at_second (12 * 3600 + 1);
     r_commit := None; r_end1 := at_second (12 * 3600 + 2); r_end2 := at_second (12 * 3600 + 2) |}.

Lemma ticket_redeemed_once_witness :
  exists t1 id until t3 until',
    redeem sample_policy (sample_redeem (at_second 10)) sample_authority first_text = (t1, Ok (id, until))
    /\ is_ok (snd (redeem sample_policy (sample_redeem (at_second 20)) t1 first_text)) = false
    /\ redeem sample_policy lapsing_redeem t1 first_text = (t3, Ok (id, until'))
    /\ until' <= r_end1 lapsing_redeem.
Proof.
  assert (match redeem sample_policy (sample_redeem (at_second 10)) sample_authority first_text with
          | (t1, Ok (id, _)) =>
            negb (is_ok (snd (redeem sample_policy (sample_redeem (at_second 20)) t1 first_text)))
            && match redeem sample_policy lapsing_redeem t1 first_text with (_, Ok (id', _)) => bool_decide (id' = id) | _ => false end
          | _ => false end = true) as Hok by (vm_compute; reflexivity).
  destruct (redeem sample_policy (sample_redeem (at_second 10)) sample_authority first_text) as [t1 [[id until]|e]] eqn:E; [|discriminate].
  destruct (is_ok (snd (redeem sample_policy (sample_redeem (at_second 20)) t1 first_text))) eqn:E2; [discriminate|].
  destruct (redeem sample_policy lapsing_redeem t1 first_text) as [t3 [[id' until']|e]] eqn:E3; [|discriminate].
  apply bool_decide_eq_true in Hok. subst id'.
  exists t1, id, until, t3, until'. split; [reflexivity|]. split; [exact E2|]. split; [exact E3|].
  apply (ticket_redeemed_once sample_policy (sample_redeem (at_second 10)) sample_authority first_text
    t1 id until t1 sample_policy lapsing_redeem first_text t3 until').
  - exact sample_epoch_range.
  - vm_compute. split; [discriminate|reflexivity].
  - exact E.
  - apply rtc_refl.
  - reflexivity.
  - exact E3.
  - vm_compute. split; [discriminate|reflexivity].
  - vm_compute. discriminate.
Defined.

(** ** Exact retention of records *)

Section Retention.
  Context {B : Bucket} {BO : BucketOk B}.

(** Every key of the bucket starts with an hour. *)
Definition bucket_wf (b : bucket) : Prop :=
  forall k, k ∈ Keys b -> exists e s, epoch_range e /\ k = epoch_key e s.

Lemma epoch_key_order e1 e2 s1 s2 : epoch_range e1 -> epoch_range e2 ->
  bytes_lt (epoch_key e1 s1) (epoch_key e2 s2) = true -> e1 <= e2.
Proof.
  intros H1 H2. unfold epoch_key. apply (bytes_lt_digits 0); [|by apply parse_pad12..].
  by rewrite !length_pad12.
Qed.

Definition key_wf (k : gostring) : Prop := exists e s, epoch_range e /\ k = epoch_key e s.

(** On well-formed keys in cursor order the clean-up succeeds and removes
exactly the expired ones, although it stops at the first that has not. *)
Lemma clean_prefix_exact cutoff ks b :
  Forall key_wf ks -> StronglySorted (fun x y => bytes_lt x y = true) ks ->
  exists b', clean_prefix cutoff ks b = Ok b'
    /\ forall e s, epoch_range e -> epoch_key e s ∈ ks -> e <= cutoff -> Get b' (epoch_key e s) = None.
Proof.
  intros Hw Hs. revert b. induction Hs as [|k ks Hs IH Hmin]; intros b.
  { exists b. split; [done|]. by intros ?? _ ?%elem_of_nil. }
  inversion Hw as [|?? (e0 & s0 & He0 & Hk) Hw']; subst. cbn [clean_prefix].
  rewrite len_epoch_key by done. pose proof (len_nonneg s0).
  rewrite (proj2 (Z.ltb_ge _ 13)) by lia. rewrite epoch_key_take, ParseInt64_pad12 by done.
  destruct (e0 >? cutoff) eqn:Ec.
  - exists b. split; [done|]. intros e s He Hin Hle. apply Z.gtb_lt in Ec. exfalso.
    apply elem_of_cons in Hin as [Heq|Hin].
    + apply epoch_key_inj in Heq as [-> _]; [lia|done..].
    + rewrite List.Forall_forall in Hmin. apply list_elem_of_In, Hmin, epoch_key_order in Hin; [lia|done..].
  - destruct (IH Hw' (Delete (epoch_key e0 s0) b)) as (b' & Hb' & Hd). exists b'. split; [done|].
    intros e s He Hin Hle. apply elem_of_cons in Hin as [Heq|Hin]; [|by apply Hd].
    rewrite Heq. destruct (Get b' (epoch_key e0 s0)) eqn:Eg; [|done].
    eapply clean_prefix_sub in Eg; [|exact Hb']. by rewrite get_delete in Eg.
Qed.

Lemma visited_wf p b : bucket_wf b -> Forall key_wf (Visited p b).
Proof. intros Hw. apply List.Forall_forall. intros k Hk. apply Hw, (visited_keys p). by apply list_elem_of_In. Qed.

(** The clean-up succeeds and removes nothing that has not expired; with a cursor that
misses nothing it removes just the rest. *)
Lemma clean_bucket cutoff b : bucket_wf b ->
  exists b', clean_prefix cutoff (Visited (prefix_expired cutoff) b) b = Ok b'
    /\ (forall e s, epoch_range e -> cutoff < e -> Get b' (epoch_key e s) = Get b (epoch_key e s))
    /\ (CursorExact B -> forall e s, epoch_range e -> Get b' (epoch_key e s) = if cutoff <? e then Get b (epoch_key e s) else None).
Proof.
  intros Hw. destruct (clean_prefix_exact cutoff (Visited (prefix_expired cutoff) b) b) as (b' & Hb' & Hd);
    [by apply visited_wf|apply visited_sorted|].
  exists b'. split; [done|]. split; [intros e s He Hc; by eapply clean_prefix_keeps|].
  intros Hx e s He. destruct (cutoff <? e) eqn:Ec; breflect.
  - by eapply clean_prefix_keeps.
  - destruct (Get b (epoch_key e s)) eqn:Eg.
    + apply Hd; [done| |lia]. rewrite visited_all. apply keys_get. by rewrite Eg.
    + destruct (Get b' (epoch_key e s)) eqn:Eg'; [|done].
      eapply clean_prefix_sub in Eg'; [|exact Hb']. congruence.
Qed.

Lemma keys_nodup b : List.NoDup (Keys b).
Proof.
  pose proof (keys_sorted b) as H. induction H as [|k ks Hs IH Hmin]; constructor; [|done].
  intros Hin. rewrite List.Forall_forall in Hmin. apply Hmin in Hin. by rewrite bytes_lt_irrefl in Hin.
Qed.

Lemma keys_len_le b b' : (forall k, is_Some (Get b k) -> is_Some (Get b' k)) -> len (Keys b) <= len (Keys b').
Proof.
  intros H. unfold len. apply Nat2Z.inj_le, List.NoDup_incl_length; [apply keys_nodup|].
  intros k Hk. apply list_elem_of_In, keys_get, H, keys_get, list_elem_of_In, Hk.
Qed.

Lemma keys_len_put k v b : len (Keys (Put k v b)) <= len (Keys b) + 1.
Proof.
  rewrite Z.add_comm, <- (len_cons k). unfold len. apply Nat2Z.inj_le, List.NoDup_incl_length; [apply keys_nodup|].
  intros k' Hk. apply list_elem_of_In, keys_get in Hk. destruct (decide (k = k')) as [->|]; [by left|right].
  rewrite get_put_ne in Hk by done. by apply list_elem_of_In, keys_get.
Qed.

Lemma clean_wf cutoff ks b b' : bucket_wf b -> clean_prefix cutoff ks b = Ok b' -> bucket_wf b'.
Proof.
  intros Hw Hc k Hk. apply keys_get in Hk as [v Hk]. apply Hw, keys_get. exists v. by eapply clean_prefix_sub.
Qed.

Lemma put_wf e s v b : epoch_range e -> bucket_wf b -> bucket_wf (Put (epoch_key e s) v b).
Proof.
  intros He Hw k Hk. apply keys_get in Hk. destruct (decide (epoch_key e s = k)) as [<-|]; [eauto|].
  rewrite get_put_ne in Hk by done. by apply Hw, keys_get.
Qed.

(** The spending transaction, branch by branch, on a well-formed database, with a
cursor that misses nothing.
It never fails on the clean-up.  It refuses exactly a ticket that is marked and
not expired, or a full store.  Otherwise afterwards the ticket is marked, the
other records of spent tickets and of quotas are kept exactly if their hour has
not expired (although the clean-up only walks a prefix of the keys), at most
100000 spent records remain, and the database is still well-formed. *)
Theorem spend_tx_correct (CE : CursorExact B) now e id d :
  bucket_wf (spent_bucket d) -> bucket_wf (quota_bucket d) -> epoch_range e ->
  match spend_tx now (spent_key e id) d with
  | Err err => err = ProofInvalid /\ epoch_of now - 12 < e /\ spent d (spent_key e id) \/ err = RelayFull
  | Ok d' =>
    (epoch_of now - 12 < e -> ~ spent d (spent_key e id))
    /\ (forall e' s, epoch_range e' -> Get (spent_bucket d') (epoch_key e' s)
          = if bool_decide (epoch_key e' s = spent_key e id) then Some [1]
            else if epoch_of now - 12 <? e' then Get (spent_bucket d) (epoch_key e' s) else None)
    /\ (forall e' s, epoch_range e' -> Get (quota_bucket d') (epoch_key e' s)
          = if epoch_of now - 12 <? e' then Get (quota_bucket d) (epoch_key e' s) else None)
    /\ len (Keys (spent_bucket d')) <= 100000
    /\ bucket_wf (spent_bucket d') /\ bucket_wf (quota_bucket d')
  end.
Proof.
  intros Hws Hwq He. unfold spend_tx, spent. change (spent_key e id) with (epoch_key e id).
  destruct (clean_bucket (epoch_of now - 12) _ Hws) as (sp & Hsp & _ & Gsp).
  destruct (clean_bucket (epoch_of now - 12) _ Hwq) as (qu & Hqu & _ & Gqu). specialize (Gsp CE). specialize (Gqu CE).
  rewrite Hsp, Hqu. cbn [result_bind]. pose proof (Gsp e id He) as Ge.
  destruct (Get sp (epoch_key e id)) as [v|] eqn:Eg.
  { left. destruct (_ <? e) eqn:El; breflect; [|done]. by rewrite <- Ge. }
  destruct (KeyN (spent_bucket d) sp >=? 100000) eqn:Ek; [by right|]. breflect. cbn.
  split_and!; [|intros e' s He'|done| | |exact (clean_wf _ _ _ _ Hwq Hqu)].
  - intros Hlt. rewrite (proj2 (Z.ltb_lt _ _) Hlt) in Ge. congruence.
  - destruct (bool_decide_reflect (epoch_key e' s = epoch_key e id)) as [->|]; [apply get_put|].
    rewrite get_put_ne by done. by apply Gsp.
  - pose proof (keys_len_put (epoch_key e id) [1] sp).
    assert (len (Keys sp) <= len (Keys (spent_bucket d))).
    { apply keys_len_le. intros k [v Hv]. exists v. by eapply clean_prefix_sub. }
    destruct (keyN_count (spent_bucket d) sp); lia.
  - apply put_wf; [done|]. exact (clean_wf _ _ _ _ Hws Hsp).
Qed.
End Retention.

Lemma empty_bucket_wf : bucket_wf (b_new : bucket).
Proof. intros k Hk. apply keys_get in Hk as [v Hk]. by rewrite get_new in Hk. Qed.

Lemma spend_tx_correct_witness :
  exists d', spend_tx (at_second 5) (spent_key sample_hour [65]) (empty_db : ticket_db) = Ok d'
    /\ len (Keys (spent_bucket d')) <= 100000.
Proof.
  pose proof (spend_tx_correct _ (at_second 5) sample_hour [65] (empty_db : ticket_db)
    empty_bucket_wf empty_bucket_wf ltac:(unfold epoch_range, sample_hour; lia)) as Hs.
  assert (is_ok (spend_tx (at_second 5) (spent_key sample_hour [65]) (empty_db : ticket_db)) = true) as Hok
    by (vm_compute; reflexivity).
  destruct (spend_tx (at_second 5) (spent_key sample_hour [65]) (empty_db : ticket_db)) as [d'|e]; [|discriminate].
  exists d'. split; [reflexivity|]. apply Hs.
Defined.

(** ** What an accepted ticket is *)

Lemma HasPrefix_app s p : HasPrefix s p = true -> exists r, s = p ++ r.
Proof.
  revert s. induction p as [|y p IH]; intros s; [by exists s|]. destruct s as [|x s]; cbn; [done|].
  intros H. apply andb_prop in H as [H1 H2]. breflect. subst. apply IH in H2 as [r ->]. by exists r.
Qed.

Lemma ticket_id_inv `{Hs : Hashes} {C : Crypto} now d key v id : ticket_id now d key v = Some id ->
  exists sig nonce, base64_DecodeString (tk_Message v) = Some (ticketDomain ++ KeyID d ++ nonce)
    /\ base64_DecodeString (tk_Signature v) = Some sig /\ len nonce = 32 /\ len sig = 256
    /\ blindrsa_Verify key (ticketDomain ++ KeyID d ++ nonce) sig = true
    /\ id = hex_EncodeToString (sha256 (ticketDomain ++ KeyID d ++ nonce))
    /\ KeyID d = tk_KeyID v /\ UnixMilli now < ExpiresAt d.
Proof.
  unfold ticket_id. destruct (_ || _) eqn:E1; [done|]. apply orb_false_iff in E1 as [E1 E1'].
  apply negb_false_iff, bool_decide_eq_true in E1. breflect.
  destruct (base64_DecodeString (tk_Message v)) as [msg|]; [|done].
  destruct (base64_DecodeString (tk_Signature v)) as [sig|]; [|done].
  destruct (_ || _) eqn:E2; [done|]. apply orb_false_iff in E2 as [E2 E2'']. apply orb_false_iff in E2 as [E2 E2'].
  breflect. apply HasPrefix_app in E2' as [nonce ->]. rewrite <- app_assoc, !len_app in *.
  destruct (blindrsa_Verify key _ sig) eqn:Ev; [|done]. cbn. intros [= <-].
  exists sig, nonce. split_and!; try done. lia.
Qed.

(** The key [descriptor] returns is the one in memory for the hour, and otherwise the
one stored for the hour under this policy. *)
Lemma find_key_ok `{B : Bucket} {BO : BucketOk B} {C : Crypto} policy env n t e t' k : find_key policy env n t e = (t', Ok k) ->
  keys t' !! e = Some k
  /\ (keys t !! e = Some k \/ keys t !! e = None /\ exists der, Get (keys_bucket (db t')) (key_name policy e) = Some der
        /\ (ParsePKCS1PrivateKey der = Some k \/ der = MarshalPKCS1PrivateKey k)).
Proof.
  unfold find_key. destruct (keys t !! e) as [k0|] eqn:Ek; [intros [= <- <-]; by auto|]. cbv zeta.
  destruct (d_view env); [done|]. destruct (len _ >? 0) eqn:El.
  - destruct (ParsePKCS1PrivateKey _) as [k0|] eqn:Ep; [|done]. intros [= <- <-]. cbn. rewrite lookup_insert_eq. split; [done|]. right. split; [done|].
    destruct (Get _ _) as [der|]; [|done]. eauto.
  - destruct (e =? n); [|done]. destruct (d_generated env) as [k0|]; [|done]. destruct (Update _ _ _) as [d [err|]] eqn:Eu; [done|].
    apply Update_ok in Eu. injection Eu as <-. intros [= <- <-]. cbn. rewrite lookup_insert_eq, get_put. split; [done|]. right. split; [done|]. eexists. split; [done|]. by right.
Qed.
Lemma descriptor_key `{B : Bucket} {BO : BucketOk B} {Hs : Hashes} {C : Crypto} policy env t e t' d k : descriptor policy env t e = (t', Ok (d, k)) ->
  keys t' !! e = Some k
  /\ (keys t !! e = Some k \/ keys t !! e = None /\ exists der, Get (keys_bucket (db t')) (key_name policy e) = Some der
        /\ (ParsePKCS1PrivateKey der = Some k \/ der = MarshalPKCS1PrivateKey k)).
Proof.
  unfold descriptor. destruct (_ || _) eqn:Ew; [done|]. apply orb_false_iff in Ew as [_ Ew]. breflect. destruct (Update _ _ _) as [d0 [err|]]; [done|].
  destruct (find_key _ _ _ _ _) as [t1 [key|]] eqn:Ef; [|done]. intros [= <- <- <-]. apply find_key_ok in Ef as [E1 E2]. cbn in *. split; [|done].
  apply map_lookup_filter_Some. split; [done|]. cbn. lia.
Qed.

(** C10: What [redeem] accepts, and for how long.  An accepted ticket is for an
hour among the last twelve.  There is a key which is the relay's for that hour: the
one it holds afterwards, which is the one it held before or, if it held none, the one
in the database under this policy and hour.  The message in the ticket is the domain,
the identifier of that key, policy, relay and hour, which the ticket names, and 32
bytes, and the key verifies the ticket's signature on it.  The identifier returned is
the digest of the message, and the ticket is recorded as spent under it.  The
authorization ends no later than a millisecond after the ticket's expiry, twelve hours
from the beginning of its hour, provided the clock does not step back inside the call. *)
Theorem redeem_sound `{B : Bucket} {BO : BucketOk B} `{Hs : Hashes} {C : Crypto} policy env t raw t' id until :
  redeem policy env t raw = (t', Ok (id, until)) ->
  exists v key sig nonce, strictJSON ticket_type raw = Some v /\
    let tk := as_ticket v in
    let e := tk_Epoch tk in
    let keyId := ticketKeyID (MarshalPKCS1PublicKey key) (revision policy) (pin policy) e in
    let msg := ticketDomain ++ keyId ++ nonce in
    e <= epoch_of (d_now (r_desc env)) < e + 12
    /\ keys t' !! e = Some key
    /\ (keys t !! e = Some key \/ keys t !! e = None /\ exists der, Get (keys_bucket (db t')) (key_name policy e) = Some der
          /\ (ParsePKCS1PrivateKey der = Some key \/ der = MarshalPKCS1PrivateKey key))
    /\ tk_KeyID tk = keyId /\ base64_DecodeString (tk_Message tk) = Some msg /\ len nonce = 32
    /\ base64_DecodeString (tk_Signature tk) = Some sig /\ len sig = 256 /\ blindrsa_Verify key msg sig = true
    /\ id = hex_EncodeToString (sha256 msg) /\ Get (spent_bucket (db t')) (spent_key e id) = Some [1]
    /\ UnixMilli (r_check env) < (e + 12) * 3600000
    /\ (r_end1 env <= r_end2 env -> until < (e + 12) * 3600 * Second + 1000000).
Proof.
  intros H. pose proof H as Hk. apply redeem_inv in H as (v & t1 & d & key & Hv & _ & Hd & Hi & Hsp & ->).
  assert (keys t' = keys t1) as Ekeys.
  { unfold redeem in Hk. split_if_in Hk; [done|]. rewrite Hv in Hk. cbv zeta in Hk. rewrite Hd, Hi in Hk. destruct (Update _ _ _) as [d' [|]]; [done|]. by injection Hk as <-. }
  assert (keys_bucket (db t') = keys_bucket (db t1) /\ Get (spent_bucket (db t')) (spent_key (tk_Epoch (as_ticket v)) id) = Some [1]) as [Ekb Hm].
  { apply spend_tx_inv in Hsp as (sp & qu & _ & _ & _ & _ & ->). cbn. by rewrite get_put. }
  pose proof (descriptor_key _ _ _ _ _ _ _ Hd) as [K1 K2]. apply descriptor_records in Hd as [_ Hd].
  destruct (Hd _ eq_refl) as (Hw & (k & [= -> ->]) & _).
  assert (ExpiresAt (make_descriptor policy (tk_Epoch (as_ticket v)) k) = (tk_Epoch (as_ticket v) + 12) * 3600000) as Hx
    by (unfold make_descriptor, ticketLifetime; cbn [ExpiresAt]; lia).
  apply ticket_id_inv in Hi as (sig & nonce & Hmsg & Hsig & Hn & Hsl & Hver & Hid & Hkid & Hexp).
  exists v, k, sig, nonce. cbv zeta. rewrite Ekeys, Ekb. split_and!; try done; [lia..|].
  intros Hle. rewrite Hx. unfold UnixMilli, Second in *. dlia.
Qed.

Lemma redeem_sound_witness :
  exists t1 id until, redeem sample_policy (sample_redeem (at_second 10)) sample_authority first_text
    = (t1, Ok (id, until)) /\ keys t1 !! ticket_epoch first_text = Some 42 /\ until < (ticket_epoch first_text + 12) * 3600 * Second + 1000000.
Proof.
  assert (match redeem sample_policy (sample_redeem (at_second 10)) sample_authority first_text with
          | (t1, Ok _) => bool_decide (keys t1 !! ticket_epoch first_text = Some 42) | _ => false end = true) as Hok by (vm_compute; reflexivity).
  destruct (redeem sample_policy (sample_redeem (at_second 10)) sample_authority first_text)
    as [t1 [[id until]|e]] eqn:E; [|discriminate].
  apply bool_decide_eq_true in Hok.
  exists t1, id, until. split; [reflexivity|]. split; [exact Hok|].
  destruct (redeem_sound _ _ _ _ _ _ _ E) as (v & key & sig & nonce & Ev & R). cbv zeta in R. unfold ticket_epoch. rewrite Ev. apply R. cbn. lia.
Defined.
