(* ===== verification/TicketQuota.v ===== *)
(** * Issuing is bounded and bound

What [handle] promises: signatures are only produced for a proved, current member
who answers a live challenge once; an account gets at most 24 tickets per hour;
at most 256 challenges are outstanding; and the two documents that are hashed and
signed determine what they are about. *)

From stdpp Require Import base gmap list numbers sorting.
From Stdlib Require Import ZArith Lia String.
From S2P Require Import Prelude.
From S2P Require Import GoStrings.
From S2P Require Import Json.
From S2P Require Import Base58.
From S2P Require Import AccessConfig.
From S2P Require Import Membership.
From S2P Require Import Bolt.
From S2P Require Import Tickets.
From S2P Require Import Issue.
From S2P Require Import Samples.
From S2P Require Import TicketSpend.

Local Open Scope Z_scope.

(** ** Quota *)

Section QuotaBound.
  Context {B : Bucket} {BO : BucketOk B} {Hs : Hashes} {C : Crypto}.

(** The tickets granted under [key] by successful quota transactions, while an
hour-[e] record is kept. *)
Fixpoint granted (e : Z) (key : gostring) (l : schedule) (d : ticket_db) : Z :=
  match l with
  | [] => 0
  | (now, x, commit) :: l =>
    let '(d', err) := Update commit (run_tx now x) d in
    match x, err with
    | TQuota k n, None =>
      (if bool_decide (k = key) && (epoch_of now - 12 <? e) then n else 0) + granted e key l d'
    | _, _ => granted e key l d'
    end
  end.

(** Requests ask for a positive number of tickets. *)
Definition positive_requests (l : schedule) : Prop :=
  Forall (fun s => match snd (fst s) with TQuota _ n => 0 <= n | _ => True end) l.

Lemma granted_late e key l d : Forall (fun t => e <= t - 12) (times l) -> granted e key l d = 0.
Proof.
  revert d. induction l as [|[[now x] c] l IH]; intros d Ht; [done|]. cbn in Ht |- *.
  inversion Ht; subst. destruct (Update c (run_tx now x) d) as [d' err].
  destruct x; try (by apply IH). destruct err; [by apply IH|].
  rewrite (proj2 (Z.ltb_ge _ _)) by lia. rewrite andb_false_r, IH by done. done.
Qed.

Lemma quota_tx_inv key n d d' : quota_tx key n d = Ok d' ->
  quota_count (quota_bucket d) key + n <= 24
  /\ quota_bucket d' = Put key (FormatInt (quota_count (quota_bucket d) key + n)) (quota_bucket d)
  /\ spent_bucket d' = spent_bucket d.
Proof.
  unfold quota_tx. split_if; [done|]. cbv zeta. destruct (_ >? 24) eqn:E; [done|]. breflect. by intros [= <-].
Qed.

(** While the hour's records are kept, only the quota transaction for the key
changes its count, by what it grants. *)
Lemma run_tx_quota now x d d' e s : epoch_range e -> epoch_of now - 12 < e ->
  run_tx now x d = Ok d' ->
  match x with
  | TQuota k n => if bool_decide (k = epoch_key e s) then True
                  else Get (quota_bucket d') (epoch_key e s) = Get (quota_bucket d) (epoch_key e s)
  | _ => Get (quota_bucket d') (epoch_key e s) = Get (quota_bucket d) (epoch_key e s)
  end.
Proof.
  intros He Hc. destruct x as [|name k|key|key n]; cbn.
  - intros H. apply (advance_keeps _ _ _ e s He Hc H).
  - by intros [= <-].
  - intros H. apply spend_tx_inv in H as (sp & qu & _ & Hqu & _ & _ & ->). cbn. by eapply clean_prefix_keeps.
  - intros H. apply quota_tx_inv in H as (_ & -> & _). case_bool_decide; [done|]. by apply get_put_ne.
Qed.

Lemma granted_bound e s l d : epoch_range e -> StronglySorted Z.le (times l) -> positive_requests l ->
  let key := epoch_key e s in
  0 <= quota_count (quota_bucket d) key <= 24 ->
  granted e key l d + quota_count (quota_bucket d) key <= 24.
Proof.
  intros He Ht Hp key. revert d Ht Hp. induction l as [|[[now x] c] l IH]; intros d Ht Hp Hq; [cbn; lia|].
  inversion Ht as [|?? Ht' Hmin]; subst. inversion Hp as [|?? Hn Hp']; subst. cbn in Hmin, Hn.
  destruct (decide (epoch_of now - 12 < e)) as [Hc|Hc]; cycle 1.
  { rewrite granted_late; [lia|]. constructor; [cbn; lia|]. eapply List.Forall_impl; [|exact Hmin]. cbn. lia. }
  cbn [granted]. destruct (Update c (run_tx now x) d) as [d' [err|]] eqn:Eu.
  { apply Update_err in Eu as ->. destruct x; by apply IH. }
  apply Update_ok in Eu. pose proof (run_tx_quota _ _ _ _ e s He Hc Eu) as Hg. fold key in Hg.
  assert (forall d', Get (quota_bucket d') key = Get (quota_bucket d) key ->
    granted e key l d' + quota_count (quota_bucket d) key <= 24) as Hsame.
  { intros d1 Hd1. assert (quota_count (quota_bucket d1) key = quota_count (quota_bucket d) key) as E
      by (unfold quota_count; by rewrite Hd1). rewrite <- E. apply IH; [done..|]. by rewrite E. }
  destruct x as [| | |k n]; try (by apply Hsame). rewrite (proj2 (Z.ltb_lt _ _) Hc), andb_true_r.
  destruct (bool_decide_reflect (k = key)) as [->|]; [|by apply Hsame].
  cbn in Eu. apply quota_tx_inv in Eu as (Hle & Hb & _).
  assert (quota_count (quota_bucket d') key = quota_count (quota_bucket d) key + n) as E.
  { unfold quota_count at 1. rewrite Hb, get_put. cbn [default]. apply ParseInt64_value_FormatInt. lia. }
  specialize (IH d' Ht' Hp'). rewrite E in IH. lia.
Qed.

(** The issuing quota.  Over any interleaving of the transactions of
concurrent requests, with a clock that does not go back and commits that may
fail, an account is granted at most 24 tickets of one hour as long as the hour's
records are kept, that is as long as its tickets are valid. *)
Theorem quota_bound e address (l : schedule) (d : ticket_db) :
  epoch_range e -> StronglySorted Z.le (times l) -> positive_requests l ->
  Get (quota_bucket d) (quota_key e address) = None ->
  granted e (quota_key e address) l d <= 24.
Proof.
  intros He Ht Hp Hg. change (quota_key e address) with (epoch_key e (hex_EncodeToString (sha256 address))) in *.
  set (s := hex_EncodeToString (sha256 address)) in *.
  assert (quota_count (quota_bucket d) (epoch_key e s) = 0) as E by (unfold quota_count; rewrite Hg; done).
  pose proof (granted_bound e s l d He Ht Hp ltac:(rewrite E; lia)) as H. rewrite E in H. lia.
Qed.
End QuotaBound.

Definition quota_schedule : schedule :=
  map (fun i => (at_second i, TQuota (quota_key sample_hour [81]) 3, None)) (seqZ 0 12).
Lemma quota_bound_witness :
  granted sample_hour (quota_key sample_hour [81]) quota_schedule empty_db = 24
  /\ granted sample_hour (quota_key sample_hour [81]) quota_schedule empty_db <= 24.
Proof.
  split; [vm_compute; reflexivity|]. apply (quota_bound sample_hour [81] quota_schedule empty_db).
  - unfold epoch_range, sample_hour. lia.
  - repeat constructor; vm_compute; discriminate.
  - apply List.Forall_forall. intros x Hx. apply in_map_iff in Hx as (i & <- & _). cbn. lia.
  - apply get_new.
Defined.

(** ** Challenges *)

Section Challenges.
  Context {B : Bucket} {Hs : Hashes} {C : Crypto}.

Lemma find_key_challenges policy env n t epoch t' r :
  find_key policy env n t epoch = (t', r) -> challenges t' = challenges t.
Proof.
  unfold find_key. destruct (keys t !! epoch); [by intros [= <- <-]|]. cbv zeta.
  destruct (d_view env); [by intros [= <- <-]|].
  destruct (len _ >? 0); [destruct (ParsePKCS1PrivateKey _); by intros [= <- <-]|].
  destruct (epoch =? n); [|by intros [= <- <-]].
  destruct (d_generated env); [|by intros [= <- <-]].
  destruct (Update _ _ _) as [d [|]]; by intros [= <- <-].
Qed.

Lemma descriptor_challenges policy env t epoch t' r :
  descriptor policy env t epoch = (t', r) -> challenges t' = challenges t.
Proof.
  unfold descriptor. split_if; [by intros [= <- <-]|].
  destruct (Update _ _ _) as [d [|]]; [by intros [= <- <-]|].
  destruct (find_key _ _ _ _ _) as [t1 [|]] eqn:E; apply find_key_challenges in E; intros [= <- <-]; exact E.
Qed.

Lemma find_key_quota policy env n t epoch t' r :
  find_key policy env n t epoch = (t', r) -> quota_bucket (db t') = quota_bucket (db t).
Proof.
  unfold find_key. destruct (keys t !! epoch); [by intros [= <- <-]|]. cbv zeta.
  destruct (d_view env); [by intros [= <- <-]|].
  destruct (len _ >? 0); [destruct (ParsePKCS1PrivateKey _); by intros [= <- <-]|].
  destruct (epoch =? n); [|by intros [= <- <-]].
  destruct (d_generated env) as [k|]; [|by intros [= <- <-]].
  destruct (Update _ _ _) as [d [err|]] eqn:Eu.
  - apply Update_err in Eu as ->. by intros [= <- <-].
  - apply Update_ok in Eu. injection Eu as <-. by intros [= <- <-].
Qed.

(** [descriptor] keeps the counts of the hour it is asked for. *)
Lemma descriptor_quota {BO : BucketOk B} policy env t e t' dk s : epoch_range e ->
  descriptor policy env t e = (t', Ok dk) ->
  quota_count (quota_bucket (db t')) (epoch_key e s) = quota_count (quota_bucket (db t)) (epoch_key e s).
Proof.
  intros He. unfold descriptor. destruct (_ || _) eqn:Ew; [done|]. apply orb_false_iff in Ew as [_ Ew]. breflect.
  destruct (Update _ _ _) as [d [err|]] eqn:Eu; [done|]. apply Update_ok in Eu.
  destruct (find_key _ _ _ _ _) as [t1 [key|]] eqn:Ef; [|done]. apply find_key_quota in Ef. intros [= <- _].
  unfold quota_count. cbn in *. rewrite Ef. by rewrite (proj2 (advance_keeps _ _ _ e s He Ew Eu)).
Qed.

Lemma ParseInt64_value_int64 n : - 2 ^ 63 <= n < 2 ^ 63 -> ParseInt64_value (FormatInt n) = n.
Proof.
  intros Hn. destruct (decide (0 <= n)) as [|Hneg]; [apply ParseInt64_value_FormatInt; lia|].
  unfold ParseInt64_value, FormatInt. rewrite (proj2 (Z.ltb_lt n 0)) by lia. rewrite parse_FormatUint by lia. cbn. lia.
Qed.

(** What [quota_tx] records is what it read, and the request. *)
Lemma quota_tx_count {BO : BucketOk B} key n d d' : 0 <= n -> quota_tx key n d = Ok d' ->
  quota_count (quota_bucket d') key = quota_count (quota_bucket d) key + n
  /\ quota_count (quota_bucket d) key + n <= 24.
Proof.
  intros Hn H. apply quota_tx_inv in H as (Hle & -> & _). split; [|done].
  unfold quota_count at 1. rewrite get_put. cbn [default]. apply ParseInt64_value_int64.
  assert (- 2 ^ 63 <= quota_count (quota_bucket d) key); [|lia].
  unfold quota_count, ParseInt64_value. cbv zeta.
  match goal with |- context [match ?v with None => 0 | Some _ => _ end] => destruct v end; lia.
Qed.

Lemma issue_signatures_challenges policy env t d blinded address t' rp :
  issue_signatures policy env t d blinded address = (t', rp) -> challenges t' = challenges t.
Proof.
  unfold issue_signatures. destruct (mem_err _); [by intros [= <- <-]|]. do 2 (split_if; [by intros [= <- <-]|]).
  destruct (Update _ _ _) as [d1 [err|]]; [by intros [= <- <-]|].
  destruct (descriptor _ _ _ _) as [t1 r] eqn:Ed. apply descriptor_challenges in Ed.
  destruct r as [[dd key]|]; [destruct (sign_all key blinded)|]; by intros [= <- <-].
Qed.

(** The successful path after the proof: the membership, the count and the key. *)
Lemma issue_signatures_ok {BO : BucketOk B} policy env t d blinded address t' out key0 : epoch_range (Epoch d) ->
  keys t !! Epoch d = Some key0 ->
  issue_signatures policy env t d blinded address = (t', SignaturesReply out) ->
  let r := issue_membership env d address in
  let key := quota_key (Epoch d) address in
  positive r /\ ExpiresAt d <= UnixMilli (checked r + ticketLifetime * Second)
  /\ quota_count (quota_bucket (db t')) key = quota_count (quota_bucket (db t)) key + len blinded
  /\ quota_count (quota_bucket (db t')) key <= 24
  /\ keys t' !! Epoch d = Some key0 /\ sign_all key0 blinded = Some out.
Proof.
  intros He Hk0. unfold issue_signatures, positive. cbv zeta. destruct (mem_err (issue_membership env d address)); [done|].
  destruct (member (issue_membership env d address)); [|done]. cbn [negb].
  destruct (_ >? _) eqn:E; [done|]. breflect.
  destruct (Update _ _ _) as [d1 [err|]] eqn:Eu; [done|]. apply Update_ok in Eu.
  apply quota_tx_count in Eu as [Ec Ele]; [|apply len_nonneg].
  destruct (descriptor _ _ _ _) as [t1 [[dd key]|]] eqn:Ed; [|done].
  apply descriptor_key in Ed as Hkey. destruct Hkey as [K1 [K2|[K2 _]]]; cbn in K2; [|congruence].
  change (quota_key (Epoch d) address) with (epoch_key (Epoch d) (hex_EncodeToString (sha256 address))) in *.
  eapply descriptor_quota in Ed; [|exact He]. cbn in Ed. rewrite Hk0 in K2. injection K2 as <-.
  destruct (sign_all key0 blinded) as [o|]; [|done]. intros [= <- <-]. rewrite Ed, Ec. done.
Qed.

Lemma challenge_matches_inv policy now c d binding p : challenge_matches policy now c d binding p = true ->
  exists ch, c = Some ch /\ now <= ch_Expires ch /\ ch_Epoch ch = Epoch d /\ ch_Binding ch = binding
    /\ pf_Binding p = binding /\ pf_Type p = issue_type /\ pf_RelayPin p = pin policy
    /\ pf_Policy p = revision policy /\ pf_ExpiresAt p = UnixMilli (ch_Expires ch).
Proof.
  unfold challenge_matches. destruct c as [ch|]; [|done]. rewrite negb_true_iff, !orb_false_iff, !negb_false_iff.
  rewrite !bool_decide_eq_true, !Z.eqb_eq, Z.gtb_ltb, Z.ltb_ge.
  intros (((((((H1 & H2) & H3) & H4) & H5) & H6) & H7) & H8). exists ch. split_and!; congruence || lia.
Qed.

Lemma sign_all_length key blinded out : sign_all key blinded = Some out -> List.length out = List.length blinded.
Proof.
  revert out. induction blinded as [|b bs IH]; intros out; cbn; [by intros [= <-]|].
  intros H. apply bind_Some in H as (s & _ & H). apply bind_Some in H as (rest & Hr & [= <-]).
  cbn. f_equal. by apply IH.
Qed.

(** C7: Who gets signatures, and what they are.  If a request of a plausible hour is
answered with signatures, then it was a POST to /issue in groups mode; it carried 1 to
3 blinded messages, this hour's descriptor and a proof; the proof's nonce was an
outstanding, unexpired challenge bound to exactly these messages, and is no longer
outstanding; the proof is signed by the key its address belongs to; that address was
confirmed a member no earlier than the beginning of the ticket's hour.  The count the
database holds for that address and hour has grown by the number of signatures, and
is at most 24.  The signatures are those of the relay's key of the hour, the one the
descriptor describes, on the messages in their order. *)
Theorem issue_sound {BO : BucketOk B} policy env t rq t' out : epoch_range (epoch_of (h_now env)) ->
  handle policy env t rq = (t', SignaturesReply out) ->
  exists raw v p ch d key,
    let input := as_input v in
    let r := issue_membership env d (pf_AuthorAddress p) in
    let account := quota_key (Epoch d) (pf_AuthorAddress p) in
    rq_Method rq = str "POST" /\ rq_Path rq = str "/issue" /\ rq_Body rq = Some raw
    /\ strictJSON input_type raw = Some v /\ in_Proof input = Some p /\ in_Descriptor input = Some d
    /\ d = make_descriptor policy (epoch_of (h_now env)) key
    /\ policy_Mode policy = groups /\ 1 <= len (in_Blinded input) <= 3 /\ len out = len (in_Blinded input)
    /\ challenges t !! pf_Nonce p = Some ch /\ challenges t' !! pf_Nonce p = None
    /\ h_issue_now env <= ch_Expires ch /\ ch_Binding ch = handle_binding d (in_Blinded input)
    /\ proof_signed p = true
    /\ positive r /\ Epoch d * 3600 * 1000 <= UnixMilli (checked r)
    /\ quota_count (quota_bucket (db t')) account = quota_count (quota_bucket (db t)) account + len out
    /\ quota_count (quota_bucket (db t')) account <= 24
    /\ keys t' !! Epoch d = Some key /\ sign_all key (in_Blinded input) = Some out.
Proof.
  intros He H. unfold handle in H. split_if_in H; [done|].
  destruct (bool_decide_reflect (rq_Method rq = str "POST")) as [Hm|]; [|done]. cbn [negb] in H.
  destruct (rq_Body rq) as [raw|]; [|done]. split_if_in H; [done|].
  destruct (strictJSON input_type raw) as [v|] eqn:Ev; [|done]. cbv zeta in H.
  destruct (descriptor policy (h_desc env) t _) as [t1 [[d key]|]] eqn:Ed; [|done].
  split_if_in H; [done|]. destruct (bool_decide_reflect (policy_Mode policy = groups)) as [Hg|]; [|done]. cbn [negb] in H.
  destruct (_ || _) eqn:Eb in H; [done|]. apply orb_false_iff in Eb as [Eb Eb3]. apply orb_false_iff in Eb as [Eb1 Eb2].
  apply negb_false_iff, bool_decide_eq_true in Eb1. breflect.
  split_if_in H; [done|]. split_if_in H; [unfold handle_challenge in H; destruct (h_nonce env); [|done]; by split_if_in H|].
  destruct (in_Proof (as_input v)) as [p|] eqn:Ep; [|done].
  destruct (bool_decide_reflect (rq_Path rq = str "/issue")) as [Hpath|]; [|done]. cbn [negb] in H.
  unfold handle_issue in H. destruct (challenge_matches _ _ _ _ _ _) eqn:Ec; [|done].
  apply challenge_matches_inv in Ec as (ch & Hch & Hexp & _ & Hbind & _).
  destruct (proof_signed p) eqn:Es; [|done]. cbn [negb] in H.
  pose proof (issue_signatures_challenges _ _ _ _ _ _ _ _ H) as Hct.
  pose proof (descriptor_challenges _ _ _ _ _ _ Ed) as Hc1. pose proof (proj1 (descriptor_key _ _ _ _ _ _ _ Ed)) as Hkey.
  pose proof (fun s => descriptor_quota _ _ _ _ _ _ s He Ed) as Hq1.
  apply descriptor_records in Ed as [_ Ed]. destruct (Ed _ eq_refl) as (_ & (k' & [= -> ->]) & _).
  apply (issue_signatures_ok _ _ _ _ _ _ _ _ k') in H as (Hpos & Hx & Hq & Hle & Hk & Hsig); [|done..].
  pose proof (sign_all_length _ _ _ Hsig) as Hl. apply (f_equal Z.of_nat) in Hl. cbn [Epoch make_descriptor db set_challenges] in *.
  exists raw, v, p, ch, (make_descriptor policy (epoch_of (h_now env)) k'), k'.
  cbv zeta. split_and!; try done; try lia.
  - by rewrite <- Hc1.
  - rewrite Hct. cbn. apply lookup_delete_eq.
  - clear -Hx. unfold make_descriptor, ticketLifetime, UnixMilli, Second in *. cbn [ExpiresAt Epoch] in *. dlia.
  - cbn [Epoch make_descriptor]. rewrite Hq. f_equal; [apply Hq1|unfold len; lia].
Qed.
End Challenges.

(** *** A complete exchange *)

Definition sample_descriptor : ticketDescriptor := make_descriptor sample_policy sample_hour 42.
Definition sample_blinded : list gostring := [base64_EncodeToString (replicate 256 3)].
Definition descriptor_json (d : ticketDescriptor) : gostring :=
  marshal_object [(str "epoch", FormatInt (Epoch d)); (str "expiresAt", FormatInt (ExpiresAt d));
    (str "publicKey", marshal_string (PublicKey d)); (str "keyId", marshal_string (KeyID d));
    (str "policy", marshal_string (Policy d)); (str "relayPin", marshal_string (RelayPin d))].
Definition proof_json (p : relayProof) : gostring :=
  marshal_object [(str "type", marshal_string (pf_Type p)); (str "relayPin", marshal_string (pf_RelayPin p));
    (str "policy", marshal_string (pf_Policy p)); (str "binding", marshal_string (pf_Binding p));
    (str "nonce", marshal_string (pf_Nonce p)); (str "expiresAt", FormatInt (pf_ExpiresAt p));
    (str "authorAddress", marshal_string (pf_AuthorAddress p));
    (str "authorPublicKey", marshal_string (pf_AuthorPublicKey p));
    (str "signature", marshal_string (pf_Signature p))].
Definition sample_body (proof : option relayProof) : gostring :=
  marshal_object ([(str "descriptor", descriptor_json sample_descriptor);
                   (str "blinded", marshal_list marshal_string sample_blinded)]
                  ++ match proof with Some p => [(str "proof", proof_json p)] | None => [] end).

Definition author_key : list Z := replicate 32 9.
Definition sample_binding : gostring := handle_binding sample_descriptor sample_blinded.
Definition sample_nonce : list Z := replicate 32 5.
Definition sample_proof : relayProof :=
  {| pf_Type := issue_type; pf_RelayPin := pin sample_policy; pf_Policy := revision sample_policy;
     pf_Binding := sample_binding; pf_Nonce := hex_EncodeToString sample_nonce;
     pf_ExpiresAt := UnixMilli (at_second 20 + 60 * Second);
     pf_AuthorAddress := addressForKey author_key; pf_AuthorPublicKey := encodeBase58 author_key;
     pf_Signature := encodeBase58 (replicate 64 9) |}.

Definition sample_handle (now : Z) : handle_env :=
  {| h_slots_used := 0; h_now := now; h_desc := sample_desc now; h_nonce := Some sample_nonce;
     h_challenge_now := now; h_prune_now _ := now; h_prune_end := now; h_issue_now := now;
     h_membership _ := answer true now; h_recheck _ := answer true now; h_commit := None; h_desc2 := sample_desc now |}.

Definition post (path : string) (body : gostring) : request :=
  {| rq_Method := str "POST"; rq_Path := str path; rq_Body := Some body |}.

Definition after_challenge : ticketAuthority * reply :=
  handle sample_policy (sample_handle (at_second 20)) sample_authority (post "/challenge" (sample_body None)).
Definition issue_state : ticketAuthority := fst after_challenge.
Definition issue_request : request := post "/issue" (sample_body (Some sample_proof)).

Lemma issue_sound_witness :
  exists t' out, handle sample_policy (sample_handle (at_second 25)) issue_state issue_request = (t', SignaturesReply out)
    /\ exists p d, challenges t' !! pf_Nonce p = None /\ proof_signed p = true
         /\ quota_count (quota_bucket (db t')) (quota_key (Epoch d) (pf_AuthorAddress p)) <= 24.
Proof.
  assert (match snd (handle sample_policy (sample_handle (at_second 25)) issue_state issue_request) with
          | SignaturesReply _ => true | _ => false end = true) as Hok by (vm_compute; reflexivity).
  destruct (handle sample_policy (sample_handle (at_second 25)) issue_state issue_request) as [t' rp] eqn:E.
  destruct rp as [| | |out]; [discriminate Hok..|].
  exists t', out. split; [reflexivity|].
  assert (epoch_range (epoch_of (h_now (sample_handle (at_second 25))))) as He
    by (vm_compute; split; [discriminate|reflexivity]).
  destruct (issue_sound _ _ _ _ _ _ He E)
    as (raw & v & p & ch & d & key & _ & _ & _ & _ & _ & _ & _ & _ & _ & _ & _ & Hn & _ & _ & Hs & _ & _ & _ & Hle & _).
  exists p, d. split; [exact Hn|]. split; [exact Hs|exact Hle].
Defined.

Section Bounded.
  Context {B : Bucket} {Hs : Hashes} {C : Crypto}.

(** At most 256 challenges are outstanding: every request, whatever it is and
whatever its outcome, keeps the bound. *)
Theorem challenges_bounded policy env t rq t' rp :
  handle policy env t rq = (t', rp) ->
  Z.of_nat (size (challenges t)) <= 256 -> Z.of_nat (size (challenges t')) <= 256.
Proof.
  intros H Hb. unfold handle in H. do 2 (split_if_in H; [by injection H as <- <-|]).
  destruct (rq_Body rq) as [raw|]; [|by injection H as <- <-]. split_if_in H; [by injection H as <- <-|].
  destruct (strictJSON input_type raw) as [v|]; [|by injection H as <- <-]. cbv zeta in H.
  destruct (descriptor policy (h_desc env) t _) as [t1 r] eqn:Ed. apply descriptor_challenges in Ed.
  rewrite <- Ed in Hb. destruct r as [[d key]|]; [|by injection H as <- <-].
  do 4 (split_if_in H; [by injection H as <- <-|]). split_if_in H.
  - unfold handle_challenge in H. destruct (h_nonce env) as [nonce|]; [|by injection H as <- <-]. cbv zeta in H.
    pose proof (map_subseteq_size _ _ (map_filter_subseteq
      (fun kc => h_prune_now env (fst kc) <= ch_Expires (snd kc)) (challenges t1))) as Hf.
    destruct (_ >=? 256) eqn:E; injection H as <- <-; cbn; breflect; [lia|].
    rewrite map_size_insert. destruct (_ !! _); cbn; lia.
  - destruct (in_Proof (as_input v)) as [p|]; [|by injection H as <- <-]. split_if_in H; [by injection H as <- <-|].
    assert (Z.of_nat (size (delete (pf_Nonce p) (challenges t1))) <= 256) as Hd.
    { pose proof (map_subseteq_size _ _ (delete_subseteq (challenges t1) (pf_Nonce p))). lia. }
    unfold handle_issue in H. do 2 (split_if_in H; [by injection H as <- <-|]).
    apply issue_signatures_challenges in H as ->. done.
Qed.
End Bounded.

Lemma challenges_bounded_witness :
  Z.of_nat (size (challenges (fst after_challenge))) <= 256.
Proof.
  apply (challenges_bounded sample_policy (sample_handle (at_second 20)) sample_authority
    (post "/challenge" (sample_body None)) (fst after_challenge) (snd after_challenge)).
  - unfold after_challenge. by destruct (handle _ _ _ _).
  - by vm_compute.
Defined.

(** ** The documents *)

Lemma Join_strings_ends l1 l2 r1 r2 : Forall is_ascii l1 -> Forall is_ascii l2 ->
  Join (map marshal_string l1) (str ",") ++ str "]" ++ r1 = Join (map marshal_string l2) (str ",") ++ str "]" ++ r2 ->
  l1 = l2 /\ r1 = r2.
Proof.
  intros H1. revert l2. induction H1 as [|x l1 Hx _ IH]; intros l2 H2 E.
  - destruct H2 as [|y l2 Hy H2]; [by injection E|]. exfalso. destruct l2; discriminate E.
  - destruct H2 as [|y l2 Hy H2]; [exfalso; destruct l1; discriminate E|].
    destruct l1 as [|x' l1], l2 as [|y' l2]; cbn [map Join] in E; rewrite <- ?app_assoc in E;
      apply marshal_string_inj in E as [-> E]; try done.
    + by injection E as ->.
    + injection E as E. destruct (IH (y' :: l2) H2 E) as [-> ->]. done.
Qed.

(** The binding in a challenge commits to the key and the blinded messages it
was requested for: equal binding documents have equal contents. *)
Theorem binding_document_inj key1 key2 blinded1 blinded2 :
  is_ascii key1 -> is_ascii key2 -> Forall is_ascii blinded1 -> Forall is_ascii blinded2 ->
  binding_document key1 blinded1 = binding_document key2 blinded2 -> key1 = key2 /\ blinded1 = blinded2.
Proof.
  intros K1 K2 B1 B2 E. unfold binding_document, marshal_object, marshal_list in E. cbn [map Join fst snd] in E.
  rewrite <- !app_assoc in E. do 3 apply app_inv_head in E.
  apply marshal_string_inj in E as [-> E]; [|done..]. split; [done|].
  do 4 apply app_inv_head in E. by apply Join_strings_ends in E as [-> _].
Qed.

Lemma binding_document_inj_witness : [str "QQ=="] = [str "QQ=="] /\ is_ascii (str "k").
Proof.
  assert (is_ascii (str "k")) as Hk by (repeat constructor; by vm_compute).
  assert (Forall is_ascii [str "QQ=="]) as Hq by (repeat constructor; by vm_compute).
  split; [|exact Hk].
  exact (proj2 (binding_document_inj (str "k") (str "k") [str "QQ=="] [str "QQ=="] Hk Hk Hq Hq eq_refl)).
Defined.

(** The strings of a proof that the signed message carries. *)
Definition proof_ascii (p : relayProof) : Prop :=
  is_ascii (pf_Type p) /\ is_ascii (pf_RelayPin p) /\ is_ascii (pf_Policy p) /\ is_ascii (pf_Binding p)
  /\ is_ascii (pf_Nonce p) /\ is_ascii (pf_AuthorAddress p) /\ is_ascii (pf_AuthorPublicKey p) /\ 0 <= pf_ExpiresAt p.

Definition without_signature (p : relayProof) : relayProof :=
  {| pf_Type := pf_Type p; pf_RelayPin := pf_RelayPin p; pf_Policy := pf_Policy p; pf_Binding := pf_Binding p;
     pf_Nonce := pf_Nonce p; pf_ExpiresAt := pf_ExpiresAt p; pf_AuthorAddress := pf_AuthorAddress p;
     pf_AuthorPublicKey := pf_AuthorPublicKey p; pf_Signature := [] |}.

(** The signed message is unambiguous: a signature on it covers every field
of the proof, so it cannot be moved to another relay, policy, challenge, account
or deadline. *)
Theorem signed_message_inj p1 p2 :
  proof_ascii p1 -> proof_ascii p2 -> signed_message p1 = signed_message p2 ->
  without_signature p1 = without_signature p2.
Proof.
  intros (A1 & A2 & A3 & A4 & A5 & A6 & A7 & A8) (B1 & B2 & B3 & B4 & B5 & B6 & B7 & B8) E.
  unfold signed_message, marshal_object in E. cbn [map Join fst snd] in E. rewrite <- !app_assoc in E.
  do 3 apply app_inv_head in E. apply marshal_string_inj in E as [E1 E]; [|done..].
  do 3 apply app_inv_head in E. apply marshal_string_inj in E as [E2 E]; [|done..].
  do 3 apply app_inv_head in E. apply marshal_string_inj in E as [E3 E]; [|done..].
  do 3 apply app_inv_head in E. apply FormatInt_ends in E as [E4 E]; [|done..].
  do 2 apply app_inv_head in E. apply marshal_string_inj in E as [E5 E]; [|done..].
  do 3 apply app_inv_head in E. apply marshal_string_inj in E as [E6 E]; [|done..].
  do 3 apply app_inv_head in E. apply marshal_string_inj in E as [E7 E]; [|done..].
  do 3 apply app_inv_head in E. apply marshal_string_inj in E as [E8 E]; [|done..].
  unfold without_signature. congruence.
Qed.

Lemma signed_message_inj_witness : without_signature sample_proof = without_signature sample_proof
  /\ proof_ascii sample_proof.
Proof.
  assert (proof_ascii sample_proof) as Hp.
  { assert (forall s, forallb (fun c => (0 <=? c) && (c <? 128)) s = true -> is_ascii s) as Ha.
    { intros s Hs. apply List.Forall_forall. intros c Hc. rewrite forallb_forall in Hs. specialize (Hs c Hc).
      breflect. lia. }
    split_and!; try (apply Ha; vm_compute; reflexivity). by vm_compute. }
  split; [|exact Hp]. exact (signed_message_inj sample_proof sample_proof Hp Hp eq_refl).
Defined.
