(* ===== verification/TicketTypes.v ===== *)
(** * The shape of the ticket database

What each bucket of [tickets.db] holds, and that every call of the ticket
authority keeps it so: the errors that report a malformed database cannot occur.
A call is first reduced to the transactions it commits. *)

From stdpp Require Import base gmap list numbers relations.
From Stdlib Require Import ZArith Lia String.
From S2P Require Import Prelude.
From S2P Require Import GoStrings.
From S2P Require Import Json.
From S2P Require Import Base58.
From S2P Require Import AccessConfig.
From S2P Require Import Membership.
From S2P Require Import Bolt.
From S2P Require Import Tickets.
From S2P Require Import Issue.
From S2P Require Import Samples.
From S2P Require Import TicketSpend.

Local Open Scope Z_scope.

(** A clock that is at least half a day after 1970: hours of valid tickets are not
negative. *)
Definition modern (now : Z) : Prop := 12 * 3600 * Second <= now < 2 ^ 63.

Lemma modern_epoch now : modern now -> 12 <= epoch_of now < 10 ^ 12.
Proof.
  intros [H1 H2]. unfold epoch_of, Unix, Second in *. rewrite Z.quot_div_nonneg by (try apply Z.div_pos; lia).
  split; [apply Z.div_le_lower_bound; [lia|]; apply Z.div_le_lower_bound; lia|].
  apply Z.div_lt_upper_bound; [lia|]. apply Z.div_lt_upper_bound; [lia|]. change (2 ^ 63) with 9223372036854775808 in H2. lia.
Qed.

Definition no_colon (s : gostring) : Prop := Forall (fun c => c <> 58) s.

(** Names in the keys bucket: a policy revision and an hour. *)
Definition key_entry (k : gostring) : Prop :=
  exists rev e, no_colon rev /\ 0 <= e < 2 ^ 63 /\ k = rev ++ str ":" ++ FormatInt e.

Section Types.
  Context {B : Bucket} {BO : BucketOk B} {Hs : Hashes} {C : Crypto} {CO : CryptoOk C}.

Record db_ok (d : ticket_db) : Prop := {
  ok_keys : forall k v, Get (keys_bucket d) k = Some v -> key_entry k /\ 0 < len v /\ is_Some (ParsePKCS1PrivateKey v);
  ok_spent : forall k v, Get (spent_bucket d) k = Some v -> key_wf k /\ v = [1];
  ok_quota : forall k v, Get (quota_bucket d) k = Some v -> key_wf k /\ exists n, v = FormatInt n /\ 0 <= n <= 24;
  ok_meta : forall k v, Get (meta_bucket d) k = Some v -> k = latestEpoch_key /\ exists n, v = FormatInt n /\ 0 <= n < 10 ^ 12;
}.

(** The transactions requests can form, and the errors each may end with. *)
Definition tx_ok (x : tx) : Prop :=
  match x with
  | TAdvance => True
  | TPutKey name _ => key_entry name
  | TSpend key => key_wf key
  | TQuota key n => key_wf key /\ 0 <= n
  end.
Definition tx_error (x : tx) (e : ticket_error) : Prop :=
  match x with
  | TAdvance => e = ClockBackwards
  | TPutKey _ _ => False
  | TSpend _ => e = ProofInvalid \/ e = RelayFull
  | TQuota _ _ => e = Capacity \/ e = Quota
  end.

(** ** Transactions *)

(** The clean-up of [descriptor] ends well if the hour of every key can be read. *)
Lemma clean_epochs_ok index cutoff ks b :
  Forall (fun k => exists part ep, nth_error (Split k 58) index = Some part /\ ParseInt64 part = Some ep) ks ->
  exists b', clean_epochs index cutoff ks b = Ok b' /\ forall k v, Get b' k = Some v -> Get b k = Some v.
Proof.
  intros Hk. revert b. induction Hk as [|k ks (part & ep & H1 & H2) _ IH]; intros b; [by exists b|]. cbn [clean_epochs].
  rewrite H1, H2. destruct (IH (if ep <=? cutoff then Delete k b else b)) as (b' & Hb & Hg). exists b'. split; [done|].
  intros k' v Hv. apply Hg in Hv. destruct (ep <=? cutoff); [|done].
  destruct (decide (k = k')) as [->|]; [by rewrite get_delete in Hv|by rewrite get_delete_ne in Hv].
Qed.

Lemma key_entry_part k : key_entry k -> exists part ep, nth_error (Split k 58) 1 = Some part /\ ParseInt64 part = Some ep.
Proof.
  intros (rev & e & Hr & He & ->). change (str ":" ++ FormatInt e) with (58 :: FormatInt e). rewrite Split_head by done.
  exists (FormatInt e), e. split; [|apply ParseInt64_FormatInt; lia].
  assert (Split (FormatInt e) 58 = [FormatInt e]) as ->; [|done].
  unfold FormatInt. rewrite (proj2 (Z.ltb_ge e 0)) by lia. pose proof (FormatUint_digits e ltac:(lia)) as Hd.
  induction Hd as [|c s Hc _ IH]; [done|]. cbn. unfold is_digit in Hc. rewrite (proj2 (Z.eqb_neq c 58)) by (breflect; lia).
  by rewrite IH.
Qed.

Lemma key_wf_part k : key_wf k -> exists part ep, nth_error (Split k 58) 0 = Some part /\ ParseInt64 part = Some ep.
Proof. intros (e & s & He & ->). exists (pad12 e), e. split; [by apply epoch_key_part|by apply ParseInt64_pad12]. Qed.

Lemma all_keys p (b : bucket) (P : gostring -> Prop) : (forall k v, Get b k = Some v -> P k) -> Forall P (Visited p b).
Proof. intros H. apply Forall_forall. intros k Hk. apply visited_keys, keys_get in Hk as [v Hv]. by eapply H. Qed.

Lemma advance_typed n d : db_ok d -> 0 <= n < 10 ^ 12 ->
  match advance_tx n d with Ok d' => db_ok d' | Err e => e = ClockBackwards end.
Proof.
  intros [Hk Hsp Hq Hm] Hn. unfold advance_tx. destruct (n <? latestEpoch d); [done|]. destruct (n >? latestEpoch d); [|done].
  destruct (clean_epochs_ok 1 (n - 12) (Visited (epoch_expired 1 (n - 12)) (keys_bucket d)) (keys_bucket d)) as (ks & -> & Gk).
  { eapply List.Forall_impl; [|apply (all_keys _ _ key_entry); naive_solver]. apply key_entry_part. }
  destruct (clean_epochs_ok 0 (n - 12) (Visited (epoch_expired 0 (n - 12)) (quota_bucket d)) (quota_bucket d)) as (qs & Eq & Gq).
  { eapply List.Forall_impl; [|apply (all_keys _ _ key_wf); naive_solver]. apply key_wf_part. }
  destruct (clean_epochs_ok 0 (n - 12) (Visited (epoch_expired 0 (n - 12)) (spent_bucket d)) (spent_bucket d)) as (ss & Es & Gs).
  { eapply List.Forall_impl; [|apply (all_keys _ _ key_wf); naive_solver]. apply key_wf_part. }
  cbn [result_bind]. rewrite Eq. cbn [result_bind]. rewrite Es. cbn [result_bind]. constructor; cbn; eauto.
  intros k v. destruct (decide (latestEpoch_key = k)) as [<-|].
  - rewrite get_put. intros [= <-]. eauto.
  - rewrite get_put_ne by done. eauto.
Qed.

Lemma quota_count_typed d k : db_ok d -> 0 <= quota_count (quota_bucket d) k <= 24.
Proof.
  intros Hd. unfold quota_count. destruct (Get (quota_bucket d) k) as [v|] eqn:E; cbn [default]; [|done].
  destruct (ok_quota _ Hd k v E) as (_ & n & -> & Hn). cbn. rewrite ParseInt64_value_FormatInt; lia.
Qed.

Lemma spend_typed now key d : db_ok d -> key_wf key ->
  match spend_tx now key d with Ok d' => db_ok d' | Err e => e = ProofInvalid \/ e = RelayFull end.
Proof.
  intros [Hk Hsp Hq Hm] Hkey. unfold spend_tx.
  destruct (clean_bucket (epoch_of now - 12) (spent_bucket d)) as (sp & Esp & _).
  { intros k [v Hv]%keys_get. by apply (Hsp k v). }
  destruct (clean_bucket (epoch_of now - 12) (quota_bucket d)) as (qu & Equ & _).
  { intros k [v Hv]%keys_get. by apply (Hq k v). }
  rewrite Esp, Equ. cbn [result_bind]. destruct (Get sp key); [by left|]. destruct (_ >=? 100000); [by right|].
  constructor; cbn; [done| |intros k v Hv; by apply (Hq k v), (clean_prefix_sub _ _ _ _ _ _ Equ)|done].
  intros k v. destruct (decide (key = k)) as [<-|].
  - rewrite get_put. by intros [= <-].
  - rewrite get_put_ne by done. intros Hv. by apply (Hsp k v), (clean_prefix_sub _ _ _ _ _ _ Esp).
Qed.

(** A well-formed transaction on a well-formed database ends with one of its own
errors, or with a well-formed database. *)
Lemma run_tx_typed now x d : db_ok d -> tx_ok x -> modern now ->
  match run_tx now x d with Ok d' => db_ok d' | Err e => tx_error x e end.
Proof.
  intros Hd Hx Hn. destruct x as [|name k|key|key n]; cbn in *.
  - apply advance_typed; [done|]. pose proof (modern_epoch _ Hn). lia.
  - destruct Hd as [Hk Hsp Hq Hm]. constructor; cbn; try done. intros k' v. destruct (decide (name = k')) as [<-|].
    + rewrite get_put. intros [= <-]. split; [done|]. split; [|rewrite parse_private; eauto].
      pose proof (private_nonempty k). pose proof (len_nonneg (MarshalPKCS1PrivateKey k)). destruct (MarshalPKCS1PrivateKey k); [done|]. rewrite len_cons in *. pose proof (len_nonneg l). lia.
    + rewrite get_put_ne by done. eauto.
  - by apply spend_typed.
  - unfold quota_tx. destruct (_ && _); [by left|]. destruct (_ >? 24) eqn:E; [by right|]. breflect.
    destruct Hx as [Hw Hn0]. pose proof (quota_count_typed d key Hd). destruct Hd as [Hk Hsp Hq Hm].
    constructor; cbn; try done. intros k v. destruct (decide (key = k)) as [<-|].
    + rewrite get_put. intros [= <-]. split; [done|]. eexists. split; [done|]. lia.
    + rewrite get_put_ne by done. eauto.
Qed.

(** ** Calls *)

(** One committed transaction. *)
Definition db_step (d d' : ticket_db) : Prop := exists now x, modern now /\ tx_ok x /\ run_tx now x d = Ok d'.

Lemma db_steps_ok d d' : rtc db_step d d' -> db_ok d -> db_ok d'.
Proof.
  induction 1 as [|d1 d2 d3 (now & x & Hn & Hx & Hr) _ IH]; [done|]. intros Hd. apply IH.
  pose proof (run_tx_typed now x d1 Hd Hx Hn) as Ht. by rewrite Hr in Ht.
Qed.

Context (policy : policy_id) (Hrev : no_colon (revision policy)).

Lemma update_steps now x commit d d' err : modern now -> tx_ok x -> Update commit (run_tx now x) d = (d', err) -> rtc db_step d d'.
Proof.
  intros Hn Hx Hu. destruct err as [e|]; [apply Update_err in Hu as ->; reflexivity|]. apply Update_ok in Hu.
  apply rtc_once. by exists now, x.
Qed.

Lemma find_key_steps env t epoch t' r : modern (d_now env) ->
  find_key policy env (epoch_of (d_now env)) t epoch = (t', r) -> rtc db_step (db t) (db t').
Proof.
  intros Hn. unfold find_key. destruct (keys t !! epoch); [by intros [= <- <-]|]. cbv zeta.
  destruct (d_view env); [by intros [= <- <-]|].
  destruct (len _ >? 0); [destruct (ParsePKCS1PrivateKey _); by intros [= <- <-]|].
  destruct (epoch =? _) eqn:E; [|by intros [= <- <-]]. breflect. subst epoch.
  destruct (d_generated env) as [k|]; [|by intros [= <- <-]].
  destruct (Update _ _ _) as [d err] eqn:Eu.
  assert (rtc db_step (db t) d) as Hst.
  { eapply (update_steps (d_now env) (TPutKey (key_name policy _) k)); [done| |exact Eu].
    exists (revision policy). eexists. split; [done|]. split; [|reflexivity]. pose proof (modern_epoch _ Hn). lia. }
  destruct err; by intros [= <- <-].
Qed.

Lemma descriptor_steps env t epoch t' r : modern (d_now env) -> descriptor policy env t epoch = (t', r) ->
  rtc db_step (db t) (db t') /\ (is_ok r = true -> epoch_range epoch).
Proof.
  intros Hn. pose proof (modern_epoch _ Hn) as He. unfold descriptor.
  destruct (_ || _) eqn:Ew; [by intros [= <- <-]|]. apply orb_false_iff in Ew as [Ew1 Ew2].
  destruct (Update _ _ _) as [d err] eqn:Eu. assert (rtc db_step (db t) d) as Hst by (by eapply (update_steps (d_now env) TAdvance)).
  destruct err; [by intros [= <- <-]|]. destruct (find_key _ _ _ _ _) as [t1 rk] eqn:Ef.
  apply find_key_steps in Ef; [|done]. cbn in Ef. assert (epoch_range epoch) by (unfold epoch_range; breflect; lia).
  destruct rk; intros [= <- <-]; cbn; (split; [by transitivity d|done]).
Qed.

Lemma issue_steps env t d blinded address t' rp : modern (d_now (h_desc2 env)) -> epoch_range (Epoch d) ->
  issue_signatures policy env t d blinded address = (t', rp) -> rtc db_step (db t) (db t').
Proof.
  intros Hn He. unfold issue_signatures. destruct (mem_err _); [by intros [= <- <-]|].
  do 2 (split_if; [by intros [= <- <-]|]). destruct (Update _ _ _) as [d1 err] eqn:Eu.
  assert (rtc db_step (db t) d1) as Hst.
  { eapply (update_steps (d_now (h_desc2 env)) (TQuota (quota_key (Epoch d) address) (len blinded))); [done| |exact Eu].
    split; [by eexists _, _|]. apply len_nonneg. }
  destruct err; [by intros [= <- <-]|]. destruct (descriptor _ _ _ _) as [t1 r] eqn:Ed.
  apply descriptor_steps in Ed as [Ed _]; [|done]. cbn in Ed. intros H.
  destruct r as [[? key]|]; [destruct (sign_all key blinded)|]; injection H as <- <-; by transitivity d1.
Qed.

Lemma handle_steps env t rq t' rp : modern (d_now (h_desc env)) -> modern (d_now (h_desc2 env)) ->
  handle policy env t rq = (t', rp) -> rtc db_step (db t) (db t').
Proof.
  intros Hp1 Hp2 H. unfold handle in H. do 2 (split_if_in H; [by injection H as <- <-|]).
  destruct (rq_Body rq) as [raw|]; [|by injection H as <- <-]. split_if_in H; [by injection H as <- <-|].
  destruct (strictJSON input_type raw) as [v|]; [|by injection H as <- <-]. cbv zeta in H.
  destruct (descriptor policy (h_desc env) t _) as [t1 r] eqn:Ed. pose proof Ed as Ed'.
  apply descriptor_steps in Ed as [Ed He]; [|done]. apply descriptor_records in Ed' as [_ Ed'].
  destruct r as [[d key]|]; [|by injection H as <- <-]. specialize (He eq_refl).
  destruct (Ed' _ eq_refl) as (_ & (k & [= Hde _]) & _).
  do 4 (split_if_in H; [by injection H as <- <-|]). split_if_in H.
  - unfold handle_challenge in H. destruct (h_nonce env); [|by injection H as <- <-]. cbv zeta in H.
    split_if_in H; by injection H as <- <-.
  - destruct (in_Proof (as_input v)) as [p|]; [|by injection H as <- <-]. split_if_in H; [by injection H as <- <-|].
    unfold handle_issue in H. do 2 (split_if_in H; [by injection H as <- <-|]).
    apply issue_steps in H; [|done|by rewrite Hde]. by transitivity (db t1).
Qed.

Lemma redeem_steps env t raw t' r : modern (d_now (r_desc env)) -> modern (r_clean env) ->
  redeem policy env t raw = (t', r) -> rtc db_step (db t) (db t').
Proof.
  intros Hp Hc H. unfold redeem in H. split_if_in H; [by injection H as <- <-|].
  destruct (strictJSON ticket_type raw) as [v|]; [|by injection H as <- <-]. cbv zeta in H.
  destruct (descriptor _ _ _ _) as [t1 r1] eqn:Ed. apply descriptor_steps in Ed as [Ed He]; [|done].
  destruct r1 as [[d key]|]; [|by injection H as <- <-].
  destruct (ticket_id _ _ _ _) as [id'|]; [|by injection H as <- <-].
  destruct (Update _ _ _) as [d' err] eqn:Eu. assert (rtc db_step (db t1) d') as Hst.
  { eapply (update_steps (r_clean env) (TSpend _)); [done| |exact Eu]. eexists _, _. split; [by apply He|reflexivity]. }
  destruct err; injection H as <- <-; by transitivity (db t1).
Qed.
End Types.

(** ** Reachable databases *)

Section Reachable.
  Context {B : Bucket} {BO : BucketOk B} {Hs : Hashes} {C : Crypto} {CO : CryptoOk C}.

(** The calls of an authority, and a restart that keeps its database, under any
policies; clocks may do anything within the era. *)
Inductive authority_call : ticketAuthority -> ticketAuthority -> Prop :=
| call_redeem policy env t raw t' r :
    no_colon (revision policy) -> modern (d_now (r_desc env)) -> modern (r_clean env) ->
    redeem policy env t raw = (t', r) -> authority_call t t'
| call_handle policy env t rq t' rp :
    no_colon (revision policy) -> modern (d_now (h_desc env)) -> modern (d_now (h_desc2 env)) ->
    handle policy env t rq = (t', rp) -> authority_call t t'
| call_restart policy env t epoch t' r :
    no_colon (revision policy) -> modern (d_now env) ->
    descriptor policy env {| db := db t; challenges := ∅; keys := ∅ |} epoch = (t', r) -> authority_call t t'.

Lemma empty_db_ok : db_ok empty_db.
Proof. constructor; cbn; intros k v; by rewrite get_new. Qed.

Lemma authority_call_ok t t' : authority_call t t' -> db_ok (db t) -> db_ok (db t').
Proof.
  intros [policy env ? raw ? r Hr H1 H2 H|policy env ? rq ? rp Hr H1 H2 H|policy env ? epoch ? r Hr H1 H] Hd;
    (eapply db_steps_ok; [|exact Hd]).
  - by eapply redeem_steps.
  - by eapply handle_steps.
  - by apply descriptor_steps in H as [H _].
Qed.

(** The outcomes of storage are errors of storage. *)
Definition storage_only (env : desc_env) : Prop :=
  forall e, d_commit env = Some e \/ d_view env = Some e \/ d_commit_key env = Some e -> e = Storage.

Lemma descriptor_errors policy env t epoch t' e : db_ok (db t) -> modern (d_now env) -> storage_only env ->
  descriptor policy env t epoch = (t', Err e) ->
  e = ProofInvalid \/ e = ClockBackwards \/ e = Storage \/ e = NoRandomness.
Proof.
  intros Hd Hn Hst. unfold descriptor. destruct (_ || _); [intros [= _ <-]; auto|].
  pose proof (modern_epoch _ Hn) as He. pose proof (advance_typed (epoch_of (d_now env)) _ Hd ltac:(lia)) as Ha.
  unfold Update at 1. destruct (advance_tx _ _) as [d|er]; [|intros [= _ <-]; auto].
  destruct (d_commit env) as [e0|] eqn:Ec; [intros [= _ <-]; rewrite (Hst e0) by auto; auto|].
  destruct (find_key _ _ _ _ _) as [t1 [key|ek]] eqn:Ef; [done|]. intros [= _ <-]. revert Ef.
  unfold find_key. destruct (keys _ !! epoch); [done|]. cbv zeta.
  destruct (d_view env) as [e1|] eqn:Ev; [intros [= _ <-]; rewrite (Hst e1) by auto; auto|].
  destruct (len _ >? 0) eqn:El.
  { destruct (Get (keys_bucket _) _) as [v|] eqn:Eg; [|done]. cbn in Eg. destruct (ok_keys _ Ha _ _ Eg) as (_ & _ & [k Hk]). cbn. by rewrite Hk. }
  destruct (epoch =? _); [|intros [= _ <-]; auto]. destruct (d_generated env) as [k|]; [|intros [= _ <-]; auto].
  unfold Update, put_key_tx. destruct (d_commit_key env) as [e2|] eqn:Ek; [|done].
  intros [= _ <-]. rewrite (Hst e2) by auto. auto.
Qed.

(** C26: The database keeps its shape.  Whatever calls arrive, under whatever
policies and clocks, with whatever storage failures and restarts in between: the
keys bucket maps a policy revision and an hour to a private key that can be parsed;
the spent and quota buckets have keys that start with a twelve-digit hour, and hold a mark and a
decimal count of at most 24; and the meta bucket holds only the latest hour.  So
the errors the code has for a malformed database (a key without an hour, an hour
that is not a number, a private key that cannot be parsed) are never reported:
[descriptor] fails only for an hour out of range, a clock that went back, storage or
missing randomness, and spending and counting only with their own refusals. *)
Theorem tickets_well_typed t :
  rtc authority_call {| db := empty_db; challenges := ∅; keys := ∅ |} t ->
  db_ok (db t)
  /\ (forall policy env epoch t' e, modern (d_now env) -> storage_only env ->
       descriptor policy env t epoch = (t', Err e) ->
       e = ProofInvalid \/ e = ClockBackwards \/ e = Storage \/ e = NoRandomness)
  /\ (forall now x, tx_ok x -> modern now ->
       match run_tx now x (db t) with Ok d' => db_ok d' | Err e => tx_error x e end).
Proof.
  intros Hr. assert (db_ok (db t)) as Hd.
  { revert Hr. refine (rtc_ind_r (fun t => db_ok (db t)) _ _ _ t); [apply empty_db_ok|]. intros ? ? _ Hc Hd. by eapply authority_call_ok. }
  split_and!; [done| |].
  - intros. by eapply descriptor_errors.
  - intros. by apply run_tx_typed.
Qed.
End Reachable.

Lemma tickets_well_typed_witness :
  exists t r, redeem sample_policy (sample_redeem (at_second 10)) sample_authority (ticket_text sample_hour 9) = (t, r)
    /\ is_ok r = true /\ db_ok (db t).
Proof.
  assert (is_ok (snd (redeem sample_policy (sample_redeem (at_second 10)) sample_authority (ticket_text sample_hour 9))) = true)
    as Hok by (vm_compute; reflexivity).
  destruct (redeem sample_policy (sample_redeem (at_second 10)) sample_authority (ticket_text sample_hour 9)) as [t r] eqn:E.
  exists t, r. split; [reflexivity|]. split; [exact Hok|].
  apply (tickets_well_typed t). apply rtc_once.
  refine (call_redeem sample_policy (sample_redeem (at_second 10)) sample_authority (ticket_text sample_hour 9) t r _ _ _ E).
  - repeat constructor; discriminate.
  - vm_compute. split; [discriminate|reflexivity].
  - vm_compute. split; [discriminate|reflexivity].
Defined.
