(* ===== verification/Threads.v ===== *)
(** * Goroutines over a shared state

The calls of a Go server run concurrently.  A goroutine is a sequence of atomic
actions on the shared state, each chosen by the results of the ones before (a
resumption); an action that is not enabled, such as taking a held mutex, is tried
again later.  A pool runs any number of calls, interleaved in any order.  The
second half is a small program logic for such code: an invariant of the shared
state and of the history of events, the part of the state that the mutex guards
and that its holder alone changes, and a clock that does not go back. *)

From stdpp Require Import base list numbers relations.
From Stdlib Require Import ZArith Lia.
From S2P Require Import Prelude.

Local Open Scope Z_scope.

(** ** Weighted counts *)

Fixpoint total {A} (w : A -> Z) (l : list A) : Z :=
  match l with
  | [] => 0
  | x :: l => w x + total w l
  end.

Lemma total_app {A} (w : A -> Z) l k : total w (l ++ k) = total w l + total w k.
Proof. induction l as [|x l IH]; [done|]. cbn in *. lia. Qed.

Lemma total_cons {A} (w : A -> Z) x l : total w (x :: l) = w x + total w l.
Proof. done. Qed.

Lemma total_perm {A} (w : A -> Z) l k : l ≡ₚ k -> total w l = total w k.
Proof. induction 1; cbn in *; lia. Qed.

Lemma total_concat {A B} (w : A -> Z) (f : B -> list A) l :
  total w (mjoin (f <$> l)) = total (fun x => total w (f x)) l.
Proof. induction l as [|x l IH]; [done|]. rewrite fmap_cons. cbn [mjoin list_join]. rewrite total_app. cbn. by rewrite <- IH. Qed.

Lemma total_le {A} (v w : A -> Z) l : Forall (fun x => v x <= w x) l -> total v l <= total w l.
Proof. induction 1; cbn in *; lia. Qed.

Lemma total_nonneg {A} (w : A -> Z) l : Forall (fun y => 0 <= w y) l -> 0 <= total w l.
Proof. induction 1; cbn; lia. Qed.

Lemma total_elem {A} (w : A -> Z) x l : Forall (fun y => 0 <= w y) l -> x ∈ l -> w x <= total w l.
Proof.
  intros Hw Hx. apply list_elem_of_split in Hx as (l1 & l2 & ->). rewrite total_app, total_cons.
  apply Forall_app in Hw as [H1 H2]. apply Forall_cons in H2 as [_ H2].
  pose proof (total_nonneg w l1 H1). pose proof (total_nonneg w l2 H2). lia.
Qed.

(** ** Goroutines *)

Section Threads.
  Context {St Ev : Type}.

(** [f s = None]: the action has to wait.  Otherwise it gives the new state, the
events it adds to the history, and a value the rest of the goroutine starts from. *)
Inductive thread (R : Type) :=
| Ret (r : R)
| Act {A : Type} (f : St -> option (St * list Ev * A)) (k : A -> thread R).
#[global] Arguments Ret {R} r.
#[global] Arguments Act {R A} f k.

#[export] Instance thread_ret : MRet thread := @Ret.
#[export] Instance thread_bind : MBind thread := fun R R' g =>
  fix go (m : thread R) : thread R' :=
    match m with
    | Ret r => g r
    | Act f k => Act f (fun a => go (k a))
    end.

Definition act {A} (f : St -> option (St * list Ev * A)) : thread A := Act f Ret.

(** Run alone, to the end. *)
Fixpoint solo {R} (m : thread R) (s : St) : option (St * R) :=
  match m with
  | Ret r => Some (s, r)
  | Act f k => match f s with
               | None => None
               | Some (s', _, a) => solo (k a) s'
               end
  end.

Lemma solo_bind {R R'} (m : thread R) (g : R -> thread R') s :
  solo (m ≫= g) s = match solo m s with Some (s', r) => solo (g r) s' | None => None end.
Proof.
  revert s. induction m as [r|A f k IH]; intros s; [done|]. cbn.
  destruct (f s) as [[[s' evs] a]|]; [apply IH|done].
Qed.

(** ** Pools *)

Context {Call Out : Type} (code : Call -> thread Out).

(** A call in progress: what is left of it, and its part of the history. *)
Record running := {
  call : Call;
  rest : thread Out;
  own : list Ev;
}.

Record pool := {
  shared : St;
  history : list Ev;
  calls : list running;
}.

Inductive pool_step : pool -> pool -> Prop :=
| pool_arrive p c :
    pool_step p {| shared := shared p; history := history p;
                   calls := calls p ++ [{| call := c; rest := code c; own := [] |}] |}
| pool_run s h l1 c A f k o l2 s' evs (a : A) :
    f s = Some (s', evs, a) ->
    pool_step {| shared := s; history := h; calls := l1 ++ {| call := c; rest := Act f k; own := o |} :: l2 |}
              {| shared := s'; history := h ++ evs;
                 calls := l1 ++ {| call := c; rest := k a; own := o ++ evs |} :: l2 |}.

(** An executable scheduler: a call arrives, or the [i]th call runs its next
action, if it can. *)
Definition run_at (i : nat) (p : pool) : pool :=
  match calls p !! i with
  | Some {| call := c; rest := Act f k; own := o |} =>
    match f (shared p) with
    | Some (s', evs, a) =>
      {| shared := s'; history := history p ++ evs;
         calls := <[i := {| call := c; rest := k a; own := o ++ evs |}]> (calls p) |}
    | None => p
    end
  | _ => p
  end.
Definition run_choice (ch : Call + nat) (p : pool) : pool :=
  match ch with
  | inl c => {| shared := shared p; history := history p;
                calls := calls p ++ [{| call := c; rest := code c; own := [] |}] |}
  | inr i => run_at i p
  end.
Definition run (chs : list (Call + nat)) (p : pool) : pool := fold_left (fun p ch => run_choice ch p) chs p.

Lemma run_choice_steps ch p : rtc pool_step p (run_choice ch p).
Proof.
  destruct ch as [c|i]; cbn; [apply rtc_once; constructor|]. unfold run_at.
  destruct (calls p !! i) as [[c [|A f k] o]|] eqn:Ei; [reflexivity| |reflexivity].
  destruct (f (shared p)) as [[[s' evs] a]|] eqn:Ef; [|reflexivity]. apply rtc_once.
  destruct p as [s h cs]. cbn in *. rewrite <- (take_drop_middle cs i _ Ei) at 1.
  rewrite insert_take_drop by (by eapply lookup_lt_Some). by constructor.
Qed.

Lemma run_steps chs p : rtc pool_step p (run chs p).
Proof.
  revert p. induction chs as [|ch chs IH]; intros p; [reflexivity|]. cbn.
  transitivity (run_choice ch p); [apply run_choice_steps|apply IH].
Qed.

(** What the finished calls returned. *)
Definition answer_of (r : running) : option Out :=
  match rest r with
  | Ret o => Some o
  | Act _ _ => None
  end.

(** ** The logic *)

Context {G : Type} (mutex : St -> bool) (guarded : St -> G) (clock : St -> Z).
Context (Inv : St -> list Ev -> Prop).

(** What holding the mutex means: [Some g] for the holder, who knows the guarded
part of the state. *)
Definition lock_step (held : option G) (s : St) (held' : option G) (s' : St) : Prop :=
  match held, held' with
  | None, None => mutex s' = mutex s /\ guarded s' = guarded s
  | None, Some g => mutex s = false /\ mutex s' = true /\ g = guarded s'
  | Some _, Some g => mutex s' = true /\ g = guarded s'
  | Some _, None => mutex s' = false
  end.

(** From here on the goroutine keeps the invariant and [J], a property of its own
events, and ends with [Q]; [since] is a time the clock has reached. *)
Fixpoint wp {R} (J : list Ev -> Prop) (m : thread R) (o : list Ev) (held : option G) (since : Z)
  (Q : list Ev -> option G -> Z -> R -> Prop) : Prop :=
  match m with
  | Ret r => Q o held since r
  | Act f k =>
    forall s h, Inv s h -> since <= clock s -> (forall g, held = Some g -> mutex s = true /\ guarded s = g) ->
    forall s' evs a, f s = Some (s', evs, a) ->
      Inv s' (h ++ evs) /\ clock s <= clock s' /\ J (o ++ evs)
      /\ exists held', lock_step held s held' s' /\ wp J (k a) (o ++ evs) held' (clock s') Q
  end.

Lemma wp_bind {R R'} J (m : thread R) (g : R -> thread R') o held since Q :
  wp J m o held since (fun o' held' since' r => wp J (g r) o' held' since' Q) -> wp J (m ≫= g) o held since Q.
Proof.
  revert o held since. induction m as [r|A f k IH]; intros o held since; [done|]. cbn.
  intros H s h Hi Hc Hh s' evs a Hf. destruct (H s h Hi Hc Hh s' evs a Hf) as (H1 & H2 & H3 & held' & H4 & H5).
  split_and!; try done. exists held'. split; [done|]. by apply IH.
Qed.

Lemma wp_mono {R} J (m : thread R) o held since Q Q' :
  (forall o' held' since' r, since <= since' -> Q o' held' since' r -> Q' o' held' since' r) ->
  wp J m o held since Q -> wp J m o held since Q'.
Proof.
  revert o held since. induction m as [r|A f k IH]; intros o held since HQ; cbn; [apply HQ; lia|].
  intros H s h Hi Hc Hh s' evs a Hf. destruct (H s h Hi Hc Hh s' evs a Hf) as (H1 & H2 & H3 & held' & H4 & H5).
  split_and!; try done. exists held'. split; [done|]. eapply IH; [|done]. intros. apply HQ; [lia|done].
Qed.

(** *** A pool of verified calls *)

Context (J : Call -> list Ev -> Prop) (Post : Call -> list Ev -> Out -> Prop).
Context (J_nil : forall c, J c []).
Context (code_ok : forall c since, wp (J c) (code c) [] None since (fun o held _ r => held = None /\ Post c o r)).

Definition running_ok (now : Z) (r : running) (held : option G) : Prop :=
  J (call r) (own r)
  /\ exists since, since <= now
     /\ wp (J (call r)) (rest r) (own r) held since (fun o held _ out => held = None /\ Post (call r) o out).

(** The invariant holds, every call is on course, at most one call holds the
mutex and knows what it guards, and the history is made of the calls' parts. *)
Definition pool_ok (p : pool) : Prop :=
  Inv (shared p) (history p)
  /\ history p ≡ₚ mjoin (own <$> calls p)
  /\ exists helds, Forall2 (running_ok (clock (shared p))) (calls p) helds
     /\ omap id helds = if mutex (shared p) then [guarded (shared p)] else [].

Lemma running_ok_later now now' r held : now <= now' -> running_ok now r held -> running_ok now' r held.
Proof. intros Hn (Hj & since & Hs & Hw). split; [done|]. exists since. split; [lia|done]. Qed.

Lemma holder_alone (l1 l2 : list G) g (b : bool) g' : l1 ++ g :: l2 = (if b then [g'] else []) ->
  b = true /\ g' = g /\ l1 = [] /\ l2 = [].
Proof. destruct b; [|by destruct l1]. intros H. by apply app_eq_unit in H as [[-> H]|[-> H]]; simplify_eq. Qed.

Lemma pool_step_ok p p' : pool_step p p' -> pool_ok p -> pool_ok p'.
Proof.
  intros [p0 c|s h l1 c A f k o l2 s' evs a Hf] (Hi & Hp & helds & Hr & Hl); unfold pool_ok; cbn [shared history calls] in *.
  - split; [done|]. split; [by rewrite fmap_app, join_app, app_nil_r|].
    exists (helds ++ [None]). split; [|by rewrite omap_app, Hl; cbn; rewrite app_nil_r].
    apply Forall2_app; [done|]. constructor; [|done]. split; [apply J_nil|]. cbn.
    exists (clock (shared p0)). split; [lia|apply code_ok].
  - apply Forall2_app_inv_l in Hr as (hs1 & hs & Hr1 & Hr2 & ->).
    apply Forall2_cons_inv_l in Hr2 as (held & hs2 & (Hj & since & Hs & Hw) & Hr2 & ->). cbn in Hw.
    rewrite omap_app in Hl. cbn in Hl.
    destruct (Hw s h Hi Hs) with (2 := Hf) as (Hi' & Hc & Hj' & held' & Hls & Hw').
    { intros g ->. cbn in Hl. by apply holder_alone in Hl as (? & -> & _). }
    split; [done|]. split.
    { rewrite Hp, !fmap_app, !fmap_cons, !join_app. cbn [mjoin list_join own]. rewrite <- !app_assoc. do 2 apply Permutation_app_head.
      apply Permutation_app_comm. }
    exists (hs1 ++ held' :: hs2). split.
    { apply Forall2_app; [|constructor].
      - eapply Forall2_impl; [done|]. intros. by eapply running_ok_later.
      - split; [done|]. exists (clock s'). split; [cbn; lia|done].
      - eapply Forall2_impl; [done|]. intros. by eapply running_ok_later. }
    rewrite omap_app. cbn. unfold lock_step in Hls. destruct held as [g|], held' as [g'|]; cbn in *.
    + destruct Hls as [-> ->]. by apply holder_alone in Hl as (_ & _ & -> & ->).
    + rewrite Hls. by apply holder_alone in Hl as (_ & _ & -> & ->).
    + destruct Hls as (Hm & -> & ->). rewrite Hm in Hl. by apply app_nil in Hl as [-> ->].
    + destruct Hls as [-> ->]. done.
Qed.

(** Every pool that grows from a good state with no calls is good. *)
Lemma pool_reachable s p : Inv s [] -> mutex s = false ->
  rtc pool_step {| shared := s; history := []; calls := [] |} p -> pool_ok p.
Proof.
  intros Hi Hm. refine (rtc_ind_r pool_ok _ _ _ p).
  - split; [done|]. split; [done|]. exists []. split; [constructor|]. cbn. by rewrite Hm.
  - intros. by eapply pool_step_ok.
Qed.

(** A finished call has its postcondition. *)
Lemma answer_ok p r out : pool_ok p -> r ∈ calls p -> answer_of r = Some out -> Post (call r) (own r) out.
Proof.
  intros (_ & _ & helds & Hr & _) Hin Ha. apply list_elem_of_lookup in Hin as [i Hi].
  destruct (Forall2_lookup_l _ _ _ _ _ Hr Hi) as (held & _ & _ & since & _ & Hw).
  unfold answer_of in Ha. destruct (rest r); [|done]. injection Ha as <-. apply Hw.
Qed.

(** What every call contributes to a count is bounded by the history. *)
Lemma pool_count p (v : running -> Z) (w : Ev -> Z) : pool_ok p ->
  (forall r, r ∈ calls p -> v r <= total w (own r)) -> total v (calls p) <= total w (history p).
Proof.
  intros (_ & Hp & _) Hv. rewrite (total_perm w _ _ Hp), total_concat. apply total_le, Forall_forall. done.
Qed.

(** When every call has returned, the mutex is free. *)
Lemma quiescent_unlocked p : pool_ok p -> Forall (fun r => is_Some (answer_of r)) (calls p) -> mutex (shared p) = false.
Proof.
  intros (_ & _ & helds & Hr & Hl) Hd. destruct (mutex (shared p)); [|done]. exfalso.
  assert (omap id helds = []) as E; [|by rewrite E in Hl]. clear Hl.
  induction Hr as [|r held rs hs (_ & since & _ & Hw) _ IH]; [done|]. inversion Hd as [|?? Ha Hd']; subst.
  unfold answer_of in Ha. destruct (rest r); [|by destruct Ha]. destruct Hw as [-> _]. by apply IH.
Qed.

End Threads.
