(* ===== verification/Lookups.v ===== *)
(** * Parallel group lookups

[checkGroups] and [checkGroup] of [internal/relay/access.go] as they run: a
goroutine per allowed group, at most four of them working for one call
([parallel]), at most sixteen requests to Cores for all calls ([p.slots]), a
buffered channel of results, and a context that ends with the six seconds or when
the call returns.  The calls of any number of users interleave in any order. *)

From stdpp Require Import base gmap list numbers relations.
From Stdlib Require Import ZArith Lia String.
From S2P Require Import Prelude.
From S2P Require Import GoStrings.
From S2P Require Import Json.
From S2P Require Import AccessConfig.
From S2P Require Import Membership.
From S2P Require Import Threads.

Local Open Scope Z_scope.

(** ** State *)

(** Where the goroutine of a group is. *)
Inductive worker :=
| Starting                                              (** before the select on [parallel] *)
| Choosing                                              (** before the endpoints are chosen *)
| Trying (bases : list gostring)                        (** before the select on [p.slots] *)
| Asking (base : gostring) (rest : list gostring) (started : Z)  (** the request is under way *)
| Blaming (base : gostring) (rest : list gostring)      (** before [coreFailed] *)
| Sending (r : membershipResult)                        (** before the result is sent *)
| Leaving                                               (** before the deferred receive from [parallel] *)
| Giving_up                                             (** the context ended before [parallel] was entered *)
| Gone.

(** The loop over the results. *)
Inductive collector :=
| Collecting (unresolved : option mem_error) (left : nat)
| Returned (r : membershipResult).

(** One call of [checkGroups]; [received] is what its loop has read so far. *)
Record lookup := {
  lk_address : gostring;
  ctx_done : bool;
  parallel : Z;
  results : list membershipResult;
  workers : list worker;
  collecting : collector;
  received : list membershipResult;
}.

Record lookups := {
  core : core_state;
  running_lookups : list lookup;
}.

(** ** A worker *)

(** What one action meets: the clock, the outcome of the request, and which of two
ready cases a select takes. *)
Record input := {
  i_now : Z;
  i_exchange : exchange;
  i_ctx_first : bool;
}.

(** [select]: [Some true] takes the context's case, [Some false] the other one. *)
Definition select (ready ctx ctx_first : bool) : option bool :=
  if ready && ctx then Some ctx_first else if ctx then Some true else if ready then Some false else None.

Section Worker.
  Context (configured : list gostring).

(** The next action of a worker of a call for [address], if it is not blocked;
[cap] is the capacity of the results' channel. *)
Definition worker_next (inp : input) (address : gostring) (ctx : bool) (cap : Z)
  (c : core_state) (par : Z) (rs : list membershipResult) (w : worker)
  : option (core_state * Z * list membershipResult * worker) :=
  match w with
  | Starting =>
    match select (par <? 4) ctx (i_ctx_first inp) with
    | None => None
    | Some true => Some (c, par, rs, Giving_up)
    | Some false => Some (c, par + 1, rs, Choosing)
    end
  | Choosing => Some (c, par, rs, Trying (choose_bases c (i_now inp) configured))
  | Trying [] => Some (c, par, rs, Sending (failed VerificationUnavailable))
  | Trying (base :: rest) =>
    match select (slots c <? 16) ctx (i_ctx_first inp) with
    | None => None
    | Some true => Some (c, par, rs, Sending (failed ContextDone))
    | Some false => Some (take_slot c, par, rs, Asking base rest (i_now inp))
    end
  | Asking base rest started =>
    match i_exchange inp with
    | NoRequest => Some (give_slot c, par, rs, Blaming base rest)
    | NoResponse _ => (* [ctx.Err()] is that of the call *)
      Some (give_slot c, par, rs, if ctx then Trying rest else Blaming base rest)
    | Response status body =>
      Some (give_slot c, par, rs,
            match read_rows address status body with
            | None => Blaming base rest
            | Some m => Sending (answer m started)
            end)
    end
  | Blaming base rest => Some (coreFailed c (i_now inp) base, par, rs, Trying rest)
  | Sending r => if len rs <? cap then Some (c, par, rs ++ [r], Leaving) else None
  | Leaving => Some (c, par - 1, rs, Gone)
  | Giving_up => if len rs <? cap then Some (c, par, rs ++ [failed ContextDone], Gone) else None
  | Gone => None
  end.

(** ** The collecting loop *)

Definition collect_next (now : Z) (l : lookup) : option lookup :=
  let returns r rs rcv :=
    Some {| lk_address := lk_address l; ctx_done := true; parallel := parallel l; results := rs;
            workers := workers l; collecting := Returned r; received := rcv |} in
  match collecting l with
  | Returned _ => None
  | Collecting unresolved O =>
    returns {| member := false; checked := now; mem_err := unresolved |} (results l) (received l)
  | Collecting unresolved (S n) =>
    match results l with
    | [] => None
    | r :: rs =>
      let continues u :=
        Some {| lk_address := lk_address l; ctx_done := ctx_done l; parallel := parallel l; results := rs;
                workers := workers l; collecting := Collecting u n; received := received l ++ [r] |} in
      match mem_err r with
      | Some e => continues (Some e)
      | None => if member r then returns r rs (received l ++ [r]) else continues unresolved
      end
    end
  end.

(** ** Steps *)

Definition new_lookup (address : gostring) (groups : nat) : lookup :=
  {| lk_address := address; ctx_done := false; parallel := 0; results := []; workers := replicate groups Starting;
     collecting := Collecting None groups; received := [] |}.

Definition expire_ctx (l : lookup) : lookup :=
  {| lk_address := lk_address l; ctx_done := true; parallel := parallel l; results := results l;
     workers := workers l; collecting := collecting l; received := received l |}.

(** A step of the program: of a worker or of a collecting loop. *)
Inductive lookup_step : core_state -> lookup -> core_state -> lookup -> Prop :=
| step_worker inp c l w1 w w2 c' par rs w' :
    workers l = w1 ++ w :: w2 ->
    worker_next inp (lk_address l) (ctx_done l) (len (workers l)) c (parallel l) (results l) w = Some (c', par, rs, w') ->
    lookup_step c l c'
      {| lk_address := lk_address l; ctx_done := ctx_done l; parallel := par; results := rs;
         workers := w1 ++ w' :: w2; collecting := collecting l; received := received l |}
| step_collect now c l l' : collect_next now l = Some l' -> lookup_step c l c l'.

Inductive program_step : lookups -> lookups -> Prop :=
| program_lookup c c' l1 l l' l2 : lookup_step c l c' l' ->
    program_step {| core := c; running_lookups := l1 ++ l :: l2 |} {| core := c'; running_lookups := l1 ++ l' :: l2 |}.

(** What the users and the clock do: a new call, and the end of a context. *)
Inductive world_step : lookups -> lookups -> Prop :=
| world_call s address groups :
    world_step s {| core := core s; running_lookups := running_lookups s ++ [new_lookup address groups] |}
| world_deadline c l1 l l2 : ctx_done l = false ->
    world_step {| core := c; running_lookups := l1 ++ l :: l2 |} {| core := c; running_lookups := l1 ++ expire_ctx l :: l2 |}.

Definition any_step (s s' : lookups) : Prop := program_step s s' \/ world_step s s'.

Definition no_lookups : lookups := {| core := {| coreFailures := ∅; slots := 0 |}; running_lookups := [] |}.

(** ** The invariant *)

Definition unsent (w : worker) : Z := match w with Leaving | Gone => 0 | _ => 1 end.
Definition in_parallel (w : worker) : Z := match w with Starting | Giving_up | Gone => 0 | _ => 1 end.
Definition at_core (w : worker) : Z := match w with Asking _ _ _ => 1 | _ => 0 end.

(** An error-free result repeats a proper answer of a Core about the address. *)
Definition backed (address : gostring) (r : membershipResult) : Prop :=
  mem_err r = None -> exists status body, read_rows address status body = Some (member r).

Record lookup_ok (l : lookup) : Prop := {
  ok_count : len (results l) + len (received l) + total unsent (workers l) = len (workers l);
  ok_parallel : parallel l = total in_parallel (workers l) /\ parallel l <= 4;
  ok_backed : Forall (backed (lk_address l)) (results l ++ received l)
              /\ Forall (fun w => match w with Sending r => backed (lk_address l) r | _ => True end) (workers l);
  ok_collect : match collecting l with
               | Collecting u n => len (received l) + Z.of_nat n = len (workers l)
                   /\ forall now rs, collect now None (received l ++ rs) = collect now u rs
               | Returned r => ctx_done l = true /\ (exists now, r = checkGroups now (received l))
                   /\ (positive r \/ len (received l) = len (workers l))
               end;
}.

Definition asking (l : lookup) : Z := total at_core (workers l).
Record lookups_ok (s : lookups) : Prop := {
  ok_lookups : Forall lookup_ok (running_lookups s);
  ok_slots : slots (core s) = total asking (running_lookups s) /\ slots (core s) <= 16;
}.

Lemma total_middle {A} (w : A -> Z) l1 x l2 : total w (l1 ++ x :: l2) = total w l1 + w x + total w l2.
Proof. rewrite total_app. cbn. lia. Qed.

(** What one action of a worker does to each count. *)
Lemma worker_next_counts inp address ctx cap c par rs w c' par' rs' w' : par <= 4 -> slots c <= 16 ->
  worker_next inp address ctx cap c par rs w = Some (c', par', rs', w') ->
  len rs' + unsent w' = len rs + unsent w /\ par' - in_parallel w' = par - in_parallel w /\ par' <= 4
  /\ slots c' - at_core w' = slots c - at_core w /\ slots c' <= 16
  /\ (Forall (backed address) rs -> match w with Sending r => backed address r | _ => True end ->
      Forall (backed address) rs' /\ match w' with Sending r => backed address r | _ => True end).
Proof.
  intros Hp Hs. destruct w as [| |[|base rest]|base rest started|base rest|r| | |]; cbn.
  - unfold select. destruct (par <? 4) eqn:Ep, ctx; cbn; breflect; try destruct (i_ctx_first inp); intros [= <- <- <- <-]; cbn;
      split_and!; (lia || done).
  - intros [= <- <- <- <-]. cbn. split_and!; (lia || done).
  - intros [= <- <- <- <-]. cbn. split_and!; (lia || done).
  - unfold select. destruct (slots c <? 16) eqn:Ep, ctx; cbn; breflect; try destruct (i_ctx_first inp); intros [= <- <- <- <-]; cbn;
      split_and!; (lia || done).
  - destruct (i_exchange inp) as [|d|status body]; [|destruct ctx|destruct (read_rows address status body) eqn:Er];
      intros [= <- <- <- <-]; cbn; split_and!; try lia; try done.
    intros H _. split; [done|]. intros _. cbn. eauto.
  - intros [= <- <- <- <-]. cbn. split_and!; (lia || done).
  - destruct (len rs <? cap); intros [= <- <- <- <-]. cbn. rewrite len_app. change (len [r]) with 1. split_and!; try lia.
    intros H1 H2. split; [|done]. apply Forall_app. auto.
  - intros [= <- <- <- <-]. cbn. split_and!; (lia || done).
  - destruct (len rs <? cap); intros [= <- <- <- <-]. cbn. rewrite len_app. change (len [_]) with 1. split_and!; try lia.
    intros H1 H2. split; [|done]. apply Forall_app. split; [done|]. by constructor.
  - done.
Qed.

Lemma lookup_step_ok c l c' l' : lookup_step c l c' l' -> lookup_ok l -> slots c <= 16 ->
  lookup_ok l' /\ slots c' <= 16 /\ slots c' - asking l' = slots c - asking l.
Proof.
  intros [inp c0 l0 w1 w w2 c1 par rs w' Hw Hn|now c0 l0 l1 Hn] [H1 [H2 H2'] [H3 H3'] H4] Hs.
  - apply worker_next_counts in Hn as (N1 & N2 & N3 & N4 & N5 & N6); [|done..].
    rewrite Hw in *. rewrite !total_middle in *. unfold asking. rewrite Hw, !total_middle. cbn [workers].
    apply Forall_app in H3' as [F1 F2]. apply Forall_cons in F2 as [F2 F3]. apply Forall_app in H3 as [G1 G2].
    destruct (N6 G1 F2) as [G1' F2']. split; [|split; [done|rewrite total_middle; lia]].
    assert (len (w1 ++ w' :: w2) = len (w1 ++ w :: w2)) as El by (rewrite !len_app, !len_cons; lia).
    constructor; cbn [results received workers parallel lk_address collecting ctx_done].
    + rewrite total_middle, El. lia.
    + rewrite total_middle. lia.
    + split; apply Forall_app; [done|]. split; [done|]. by constructor.
    + by rewrite El.
  - unfold collect_next in Hn. destruct (collecting l0) as [u [|n]|r0] eqn:Ec; [| |done].
    + injection Hn as <-. split; [|done]. destruct H4 as [H4 H5]. constructor; cbn; try done. split; [done|].
      split; [|right; lia]. exists now. unfold checkGroups. specialize (H5 now []). by rewrite app_nil_r in H5.
    + destruct (results l0) as [|r rs] eqn:Er; [done|]. destruct H4 as [H4 H5].
      inversion H3 as [|?? B1 B2]; subst.
      assert (len rs + len (received l0 ++ [r]) + total unsent (workers l0) = len (workers l0)) as Hc
        by (rewrite len_cons in H1; rewrite len_app; change (len [r]) with 1; lia).
      assert (Forall (backed (lk_address l0)) (rs ++ received l0 ++ [r])) as Hb.
      { apply Forall_app in B2 as [B2 B3]. apply Forall_app. split; [done|]. apply Forall_app. split; [done|by repeat constructor]. }
      assert (forall u', (forall now' rs', collect now' u (r :: rs') = collect now' u' rs') ->
        len (received l0 ++ [r]) + Z.of_nat n = len (workers l0)
        /\ forall now' rs', collect now' None ((received l0 ++ [r]) ++ rs') = collect now' u' rs') as Hu.
      { intros u' Hu. split; [rewrite len_app; change (len [r]) with 1; lia|]. intros. rewrite <- app_assoc, H5. apply Hu. }
      destruct (mem_err r) as [e|] eqn:Ee.
      * injection Hn as <-. split; [|done]. constructor; try done. apply Hu. intros. cbn. by rewrite Ee.
      * destruct (member r) eqn:Em; injection Hn as <-; (split; [|done]); constructor; try done.
        { split; [done|]. split; [|by left]. exists now. unfold checkGroups. cbn [received]. rewrite H5. cbn. by rewrite Ee, Em. }
        apply Hu. intros. cbn. by rewrite Ee, Em.
Qed.

Lemma asking_new address groups : asking (new_lookup address groups) = 0.
Proof. unfold asking, new_lookup. cbn. induction groups as [|n IH]; cbn; [done|lia]. Qed.

Lemma new_lookup_ok address groups : lookup_ok (new_lookup address groups).
Proof.
  assert (forall (w : worker -> Z) k, w Starting = k -> total w (replicate groups Starting) = k * Z.of_nat groups) as Ht.
  { intros w k <-. induction groups as [|n IH]; cbn; [lia|]. rewrite IH. lia. }
  unfold new_lookup. constructor; cbn.
  - rewrite (Ht _ 1) by done. unfold len. rewrite length_replicate. cbn. lia.
  - rewrite (Ht _ 0) by done. lia.
  - split; [constructor|]. by apply Forall_replicate.
  - unfold len. rewrite length_replicate. cbn. split; [lia|done].
Qed.

Lemma any_step_ok s s' : any_step s s' -> lookups_ok s -> lookups_ok s'.
Proof.
  intros [[c c' l1 l l' l2 Hst]|[s0 address groups|c l1 l l2 Hctx]] [H1 [H2 H3]]; cbn in *.
  - apply Forall_app in H1 as [F1 F2]. apply Forall_cons in F2 as [F2 F3]. rewrite total_middle in H2.
    destruct (lookup_step_ok _ _ _ _ Hst F2 H3) as (Hok & Hs & Ha). constructor; cbn.
    + apply Forall_app. split; [done|]. by constructor.
    + rewrite total_middle. lia.
  - constructor; cbn.
    + apply Forall_app. split; [done|]. constructor; [apply new_lookup_ok|constructor].
    + rewrite total_app. cbn [total]. rewrite asking_new. lia.
  - apply Forall_app in H1 as [F1 F2]. apply Forall_cons in F2 as [F2 F3]. constructor; cbn.
    + apply Forall_app. split; [done|]. constructor; [|done]. destruct F2 as [G1 G2 G3 G4]. constructor; try done.
      cbn. destruct (collecting l); [done|]. by destruct G4.
    + rewrite !total_middle in *. done.
Qed.

Lemma reachable_lookups_ok s : rtc any_step no_lookups s -> lookups_ok s.
Proof.
  refine (rtc_ind_r lookups_ok no_lookups _ _ s); [by constructor; cbn|]. intros ? ? _ Hs. by apply any_step_ok.
Qed.

(** ** Progress *)

Definition idle_input : input := {| i_now := 0; i_exchange := NoRequest; i_ctx_first := true |}.

(** A worker moves, or waits for a place in [parallel] or in [p.slots]. *)
Lemma worker_moves l w c : lookup_ok l -> w ∈ workers l -> w <> Gone ->
  is_Some (worker_next idle_input (lk_address l) (ctx_done l) (len (workers l)) c (parallel l) (results l) w)
  \/ w = Starting /\ 4 <= parallel l \/ (exists base rest, w = Trying (base :: rest)) /\ 16 <= slots c.
Proof.
  intros [H1 _ _ _] Hin Hne.
  assert (unsent w = 1 -> len (results l) <? len (workers l) = true) as Hroom.
  { intros Hu. apply Z.ltb_lt. pose proof (total_elem unsent w (workers l)) as He. rewrite Hu in He.
    pose proof (len_nonneg (received l)). specialize (He ltac:(apply Forall_forall; by intros [] _) Hin). lia. }
  destruct w as [| |[|base rest]|base rest started|base rest|r| | |]; cbn [worker_next]; try done; try (left; eexists; reflexivity).
  - unfold select. destruct (parallel l <? 4) eqn:E, (ctx_done l); cbn; try (left; eexists; done). breflect. right. left. split; [done|lia].
  - unfold select. destruct (slots c <? 16) eqn:E, (ctx_done l); cbn; try (left; eexists; done). breflect. right. right. split; [eauto|lia].
  - left. rewrite Hroom by done. by eexists.
  - left. rewrite Hroom by done. by eexists.
Qed.

Lemma total_pos_elem {A} (w : A -> Z) l : 0 < total w l -> exists x, x ∈ l /\ 0 < w x.
Proof.
  induction l as [|x l IH]; cbn; [lia|]. intros H. destruct (decide (0 < w x)) as [Hx|Hx]; [exists x; split; [by left|done]|].
  destruct IH as (y & Hy & Hw); [lia|]. exists y. split; [by right|done].
Qed.

#[local] Instance gone_dec w : Decision (w = Gone).
Proof. destruct w; (by left) || (by right). Defined.

Definition lookup_done (l : lookup) : Prop :=
  (exists r, collecting l = Returned r) /\ Forall (fun w => w = Gone) (workers l).

#[local] Instance lookup_done_dec l : Decision (lookup_done l).
Proof.
  unfold lookup_done. destruct (collecting l) as [u n|r]; [by right; intros [[r [=]] _]|].
  destruct (decide (Forall (fun w => w = Gone) (workers l))); [left|right]; naive_solver.
Defined.

(** A worker that asks a Core can always go on. *)
Lemma asking_moves s : lookups_ok s -> 0 < slots (core s) -> exists s', program_step s s'.
Proof.
  destruct s as [c ls]. intros [H1 [H2 _]] Hp. cbn in *. rewrite H2 in Hp.
  apply total_pos_elem in Hp as (l & Hl & Hw). apply total_pos_elem in Hw as (w & Hw & Ha).
  apply list_elem_of_split in Hl as (l1 & l2 & ->). apply list_elem_of_split in Hw as (w1 & w2 & Ew).
  destruct w as [| | |base rest started| | | | |]; cbn in Ha; try lia.
  eexists. apply program_lookup. eapply (step_worker idle_input); [exact Ew|reflexivity].
Qed.

Lemma lookup_moves c l : lookup_ok l -> ~ lookup_done l -> slots c < 16 -> exists c' l', lookup_step c l c' l'.
Proof.
  intros Hok Hnd Hs.
  assert (forall w, w ∈ workers l -> w <> Gone -> w <> Starting \/ parallel l < 4 -> exists c' l', lookup_step c l c' l') as Hmove.
  { intros w Hw Hne Hst. destruct (worker_moves l w c Hok Hw Hne) as [[[[[c' par] rs] w'] Hn]|[[-> ?]|[_ ?]]]; [|destruct Hst; [done|lia]|lia].
    apply list_elem_of_split in Hw as (w1 & w2 & Ew). eexists _, _. by eapply step_worker. }
  destruct (decide (Forall (fun w => w = Gone) (workers l))) as [Hg|Hg].
  - destruct Hok as [H1 _ _ H4]. destruct (collecting l) as [u n|r] eqn:Ec; [|by destruct Hnd; split; [eauto|]].
    assert (total unsent (workers l) = 0) as Hu by (clear -Hg; induction Hg as [|w ws -> _ IH]; cbn in *; lia).
    assert (exists l', collect_next 0 l = Some l') as [l' Hl]; [|exists c, l'; by econstructor].
    unfold collect_next. rewrite Ec. destruct n as [|n]; [by eexists|]. destruct (results l) as [|r rs] eqn:Er.
    + destruct H4 as [H4 _]. change (len (@nil membershipResult)) with 0 in H1. lia.
    + destruct (mem_err r); [by eexists|]. destruct (member r); by eexists.
  - apply not_Forall_Exists in Hg; [|apply _]. apply Exists_exists in Hg as (w & Hw & Hne).
    destruct (decide (parallel l < 4)) as [Hp|Hp]; [by apply (Hmove w); auto|].
    destruct Hok as [_ [H2 _] _ _]. destruct (total_pos_elem in_parallel (workers l)) as (v & Hv & Hin); [lia|].
    apply (Hmove v); [done|by destruct v|left; by destruct v].
Qed.

Lemma lookups_move s : lookups_ok s -> ~ Forall lookup_done (running_lookups s) -> exists s', program_step s s'.
Proof.
  intros Hok Hnd. destruct (decide (slots (core s) < 16)) as [Hs|Hs]; [|apply asking_moves; [done|lia]].
  destruct s as [c ls]. destruct Hok as [H1 _]. cbn in *.
  apply not_Forall_Exists in Hnd; [|apply _]. apply Exists_exists in Hnd as (l & Hl & Hn).
  rewrite Forall_forall in H1. destruct (lookup_moves c l (H1 l Hl) Hn Hs) as (c' & l' & Hst).
  apply list_elem_of_split in Hl as (l1 & l2 & ->). eexists. by apply program_lookup.
Qed.

(** ** Termination *)

(** What a worker and a loop still have to do. *)
Definition work (w : worker) : Z :=
  match w with
  | Starting => 3 * len configured + 5
  | Choosing => 3 * len configured + 4
  | Trying bases => 3 * len bases + 3
  | Asking _ rest _ => 3 * len rest + 5
  | Blaming _ rest => 3 * len rest + 4
  | Sending _ => 2
  | Leaving | Giving_up => 1
  | Gone => 0
  end.
Definition loop_work (l : lookup) : Z := match collecting l with Collecting _ n => Z.of_nat n + 1 | Returned _ => 0 end.
Definition lookup_work (l : lookup) : Z := total work (workers l) + loop_work l.
Definition work_left (s : lookups) : Z := total lookup_work (running_lookups s).

Lemma len_choose_bases c now : len (choose_bases c now configured) <= len configured.
Proof.
  unfold choose_bases. pose proof (List.filter_length_le (healthy c now) configured) as H.
  destruct (List.filter _ _); unfold len in *; lia.
Qed.

Lemma worker_next_work inp address ctx cap c par rs w c' par' rs' w' :
  worker_next inp address ctx cap c par rs w = Some (c', par', rs', w') -> work w' < work w.
Proof.
  pose proof (len_nonneg configured). pose proof (len_choose_bases c (i_now inp)).
  destruct w as [| |[|base rest]|base rest started|base rest|r| | |]; cbn -[len Z.mul].
  - destruct (select _ _ _) as [[]|]; intros [= <- <- <- <-]; cbn -[len Z.mul]; lia.
  - intros [= <- <- <- <-]; cbn -[len Z.mul]. lia.
  - intros [= <- <- <- <-]; cbn -[len Z.mul]. change (len (@nil gostring)) with 0. lia.
  - rewrite len_cons. pose proof (len_nonneg rest). destruct (select _ _ _) as [[]|]; intros [= <- <- <- <-]; cbn -[len Z.mul]; lia.
  - pose proof (len_nonneg rest). destruct (i_exchange inp) as [|d|status body]; [|destruct ctx|destruct (read_rows address status body)];
      intros [= <- <- <- <-]; cbn -[len Z.mul]; lia.
  - intros [= <- <- <- <-]; cbn -[len Z.mul]. lia.
  - destruct (len rs <? cap); intros [= <- <- <- <-]; cbn. lia.
  - intros [= <- <- <- <-]; cbn. lia.
  - destruct (len rs <? cap); intros [= <- <- <- <-]; cbn. lia.
  - done.
Qed.

Lemma lookup_step_work c l c' l' : lookup_step c l c' l' -> lookup_work l' < lookup_work l.
Proof.
  intros [inp c0 l0 w1 w w2 c1 par rs w' Hw Hn|now c0 l0 l1 Hn]; unfold lookup_work, loop_work.
  - apply worker_next_work in Hn. cbn [workers collecting]. rewrite Hw, !total_middle. lia.
  - unfold collect_next in Hn. destruct (collecting l0) as [u [|n]|r0] eqn:Ec; [|destruct (results l0) as [|r rs]; [done|]|done].
    + injection Hn as <-. cbn. lia.
    + destruct (mem_err r); [|destruct (member r)]; injection Hn as <-; cbn [workers collecting]; lia.
Qed.

Lemma program_step_work s s' : program_step s s' -> work_left s' < work_left s.
Proof. intros [c c' l1 l l' l2 Hst]. unfold work_left. cbn. rewrite !total_middle. apply lookup_step_work in Hst. lia. Qed.

Lemma work_left_nonneg s : 0 <= work_left s.
Proof.
  apply total_nonneg, Forall_forall. intros l _. unfold lookup_work, loop_work.
  assert (0 <= total work (workers l)); [|destruct (collecting l); lia].
  apply total_nonneg, Forall_forall. intros w _. pose proof (len_nonneg configured).
  destruct w as [| |bases|base rest started|base rest| | | |]; cbn -[len Z.mul];
    try (pose proof (len_nonneg bases)); try (pose proof (len_nonneg rest)); lia.
Qed.

Lemma steps_bounded n s s' : nsteps program_step n s s' -> Z.of_nat n <= work_left s.
Proof.
  induction 1 as [s|n s1 s2 s3 Hst _ IH]; [apply work_left_nonneg|]. apply program_step_work in Hst. lia.
Qed.

Lemma total_zero {A} (w : A -> Z) l : Forall (fun x => w x = 0) l -> total w l = 0.
Proof. induction 1; cbn; lia. Qed.

(** C17: Parallel lookups.  Any number of users, any interleaving of the goroutines
of their group lookups with each other, with failing Cores and with ending
contexts: at most sixteen requests to Cores are under way in all and at most four
lookups work for one call; what a call returns is the verdict over the results it
received, and without an error it repeats a proper answer of a Core about that very
address.  A send of a result never blocks, and the program is never stuck: as long
as a call or one of its goroutines has not finished some step is possible, the
number of steps that can follow without new calls is bounded by the work that is
left, and when all is done every place is free again, so no goroutine leaks. *)
Theorem lookups_complete s : rtc any_step no_lookups s ->
  (0 <= slots (core s) <= 16 /\ Forall (fun l => 0 <= parallel l <= 4) (running_lookups s))
  /\ (forall l r, l ∈ running_lookups s -> collecting l = Returned r ->
       ctx_done l = true /\ (exists now, r = checkGroups now (received l)) /\ Forall (backed (lk_address l)) (received l)
       /\ (positive r /\ r ∈ received l \/ len (received l) = len (workers l)))
  /\ (forall n s', nsteps program_step n s s' -> Z.of_nat n <= work_left s)
  /\ (Forall lookup_done (running_lookups s) \/ exists s', program_step s s')
  /\ (Forall lookup_done (running_lookups s) ->
       slots (core s) = 0 /\ Forall (fun l => parallel l = 0 /\ len (results l) + len (received l) = len (workers l)) (running_lookups s)).
Proof.
  intros Hr. pose proof (reachable_lookups_ok s Hr) as Hok. pose proof Hok as [H1 [H2 H3]]. rewrite Forall_forall in H1.
  split_and!.
  - rewrite H2. apply total_nonneg, Forall_forall. intros l _. apply total_nonneg, Forall_forall. by intros [] _.
  - done.
  - apply Forall_forall. intros l Hl. destruct (ok_parallel l (H1 l Hl)) as [-> H5]. split; [|done].
    apply total_nonneg, Forall_forall. by intros [] _.
  - intros l r Hl Hc. destruct (H1 l Hl) as [_ _ [Hb _] H4]. rewrite Hc in H4. destruct H4 as (H4 & [now Hnow] & H5).
    apply Forall_app in Hb as [_ Hb]. split_and!; [done|by exists now|done|].
    destruct H5 as [Hp|]; [left|by right]. split; [done|]. rewrite Hnow in Hp |- *. unfold checkGroups in *.
    destruct (collect_spec now None (received l)) as [(r' & Hin & _ & ->)|(_ & Hm & _)]; [done|]. destruct Hp. congruence.
  - intros n s'. apply steps_bounded.
  - destruct (decide (Forall lookup_done (running_lookups s))) as [|Hnd]; [by left|right]. by apply lookups_move.
  - intros Hd. rewrite Forall_forall in Hd. split.
    + rewrite H2. apply total_zero, Forall_forall. intros l Hl. apply total_zero. destruct (Hd l Hl) as [_ Hg].
      eapply List.Forall_impl; [|exact Hg]. by intros w ->.
    + apply Forall_forall. intros l Hl. destruct (Hd l Hl) as [_ Hg]. destruct (H1 l Hl) as [C1 [C2 _] _ _].
      rewrite (total_zero unsent) in C1 by (eapply List.Forall_impl; [|exact Hg]; by intros w ->).
      rewrite C2. split; [|lia]. apply total_zero. eapply List.Forall_impl; [|exact Hg]. by intros w ->.
Qed.

End Worker.

(** ** A complete lookup *)

Definition sample_input : input :=
  {| i_now := 7; i_exchange := Response 200 (Some (qstr "[{'address':'Qx','isMember':true}]")); i_ctx_first := false |}.
Definition sample_bases : list gostring := [str "https://core"].

(** The only lookup in one of its states. *)
Definition lookup_state (c : core_state) (par : Z) (rs : list membershipResult) (w : worker) (col : collector)
  (ctx : bool) (rcv : list membershipResult) : lookups :=
  {| core := c;
     running_lookups := [{| lk_address := str "Qx"; ctx_done := ctx; parallel := par; results := rs; workers := [w];
                            collecting := col; received := rcv |}] |}.

Lemma sample_worker c par rs w col ctx rcv c' par' rs' w' s :
  worker_next sample_bases sample_input (str "Qx") ctx 1 c par rs w = Some (c', par', rs', w') ->
  rtc (any_step sample_bases) (lookup_state c' par' rs' w' col ctx rcv) s ->
  rtc (any_step sample_bases) (lookup_state c par rs w col ctx rcv) s.
Proof.
  intros Hn Hr. eapply rtc_l; [|exact Hr]. left.
  refine (program_lookup sample_bases c c' [] _ _ [] _).
  exact (step_worker sample_bases sample_input c
    {| lk_address := str "Qx"; ctx_done := ctx; parallel := par; results := rs; workers := [w];
       collecting := col; received := rcv |} [] w [] c' par' rs' w' eq_refl Hn).
Qed.

Definition idle_core : core_state := {| coreFailures := ∅; slots := 0 |}.
Definition sample_answer : membershipResult := answer true 7.
Definition sample_done : lookups := lookup_state idle_core 0 [] Gone (Returned sample_answer) true [sample_answer].

Lemma lookups_complete_witness :
  exists l, running_lookups sample_done = [l] /\ lookup_done l /\ slots (core sample_done) = 0
    /\ exists now, sample_answer = checkGroups now (received l).
Proof.
  assert (rtc (any_step sample_bases) no_lookups sample_done) as Hr.
  { eapply rtc_l; [right; apply (world_call no_lookups (str "Qx") 1)|].
    change (rtc (any_step sample_bases) (lookup_state idle_core 0 [] Starting (Collecting None 1) false []) sample_done).
    do 5 (eapply sample_worker; [vm_compute; reflexivity|]).
    eapply rtc_l; [left; refine (program_lookup _ _ _ [] _ _ [] (step_collect _ 9 _ _ _ _)); reflexivity|].
    eapply (sample_worker _ _ []); [vm_compute; reflexivity|]. apply rtc_refl. }
  destruct (lookups_complete sample_bases sample_done Hr) as (_ & H2 & _ & _ & H5).
  eexists. split; [reflexivity|]. split; [split; [by eexists|by repeat constructor]|]. split.
  - apply H5. repeat constructor; by eexists.
  - apply (H2 _ sample_answer); [by left|reflexivity].
Defined.
