(* ===== verification/TicketThreads.v ===== *)
(** * Concurrent requests to the ticket authority

[ticketAuthority.descriptor], [handle] and [redeem] of
[internal/relay/tickets.go] as goroutines: taking and releasing [t.mu] and a place
in [t.slots], clock readings and database transactions are atomic actions, and any
number of calls interleave.  Run alone, a goroutine does what the function of
[Tickets] or [Issue] does. *)

From stdpp Require Import base gmap list numbers relations.
From Stdlib Require Import ZArith Lia String.
From S2P Require Import Prelude.
From S2P Require Import GoStrings.
From S2P Require Import Json.
From S2P Require Import Base58.
From S2P Require Import AccessConfig.
From S2P Require Import Membership.
From S2P Require Import Bolt.
From S2P Require Import Tickets.
From S2P Require Import Issue.
From S2P Require Import Samples.
From S2P Require Import Threads.

Local Open Scope Z_scope.

Section Authority.
  Context {B : Bucket} {Hs : Hashes} {C : Crypto}.
  Context (policy : policy_id).

(** ** The shared state *)

(** What the history records. *)
Inductive event :=
| Acquired
| Released
| KeyUsed (epoch : Z) (k : rsa_key)       (** [descriptor] returned this key *)
| Handed (nonce : gostring)               (** a challenge was stored *)
| Taken (nonce : gostring)                (** a challenge was found and removed *)
| Granted (at_ : Z) (key : gostring) (n : Z)
| Marked (at_ : Z) (key : gostring).

(** The authority with its mutex and its slots; [now] is the latest clock reading. *)
Record system := {
  authority : ticketAuthority;
  mu : bool;
  slots : Z;
  now : Z;
}.

Definition set_authority (s : system) (t : ticketAuthority) : system :=
  {| authority := t; mu := mu s; slots := slots s; now := now s |}.
Definition set_mu (s : system) (b : bool) : system :=
  {| authority := authority s; mu := b; slots := slots s; now := now s |}.
Definition set_slots (s : system) (n : Z) : system :=
  {| authority := authority s; mu := mu s; slots := n; now := now s |}.
Definition set_now (s : system) (z : Z) : system :=
  {| authority := authority s; mu := mu s; slots := slots s; now := z |}.

Abbreviation goroutine := (@thread system event).

(** ** Actions *)

(** [t.mu.Lock()] waits for the mutex. *)
Definition lock : goroutine unit :=
  act (fun s => if mu s then None else Some (set_mu s true, [], tt)).
Definition unlock : goroutine unit := act (fun s => Some (set_mu s false, [], tt)).

(** [time.Now()] gives [z]: no earlier than any reading before. *)
Definition reads (z : Z) (s : system) : bool := (now s <=? z) && (z <? 2 ^ 63).
Definition time_now (z : Z) : goroutine unit :=
  act (fun s => if reads z s then Some (set_now s z, [], tt) else None).

(** The non-blocking send of [select] on [t.slots], and the deferred receive. *)
Definition try_acquire : goroutine bool :=
  act (fun s => if slots s >=? 8 then Some (s, [], false) else Some (set_slots s (slots s + 1), [Acquired], true)).
Definition release_slot : goroutine unit := act (fun s => Some (set_slots s (slots s - 1), [Released], tt)).

(** A read-write transaction, alone on the database; [evs] is what its success
means to the history. *)
Definition transaction (commit : option ticket_error) (f : ticket_db -> result ticket_error ticket_db)
  (evs : Z -> list event) (s : system) : system * list event * option ticket_error :=
  match Update commit f (db (authority s)) with
  | (d, None) => (set_authority s (set_db (authority s) d), evs (now s), None)
  | (d, Some e) => (set_authority s (set_db (authority s) d), [], Some e)
  end.
Definition db_Update commit f evs : goroutine (option ticket_error) := act (fun s => Some (transaction commit f evs s)).
(** A transaction that reads the clock. *)
Definition db_Update_at (z : Z) commit f evs : goroutine (option ticket_error) :=
  act (fun s => if reads z s then Some (transaction commit f evs (set_now s z)) else None).

(** A look at the authority, and a change of it, under the mutex. *)
Definition look {A} (f : ticketAuthority -> A) : goroutine A := act (fun s => Some (s, [], f (authority s))).
Definition change (f : ticketAuthority -> ticketAuthority * list event) : goroutine unit :=
  act (fun s => let '(t, evs) := f (authority s) in Some (set_authority s t, evs, tt)).

(** ** descriptor *)

(** A key that is not in memory: read it from the database, or make it. *)
Definition load_key (env : desc_env) (nowEpoch epoch : Z) : goroutine (result ticket_error rsa_key) :=
  let name := key_name policy epoch in
  match d_view env with
  | Some e => mret (Err e)
  | None =>
    raw ← look (fun t => default [] (Get (keys_bucket (db t)) name));
    if len raw >? 0 then
      mret (match ParsePKCS1PrivateKey raw with Some k => Ok k | None => Err BadKey end)
    else if epoch =? nowEpoch then
      match d_generated env with
      | None => mret (Err NoRandomness)
      | Some k =>
        err ← db_Update (d_commit_key env) (put_key_tx name k) (fun _ => []);
        mret (match err with None => Ok k | Some e => Err e end)
      end
    else mret (Err ProofInvalid)
  end.

Definition forget (nowEpoch epoch : Z) (k : rsa_key) : goroutine unit :=
  change (fun t => (set_keys t (filter (fun kv => nowEpoch - 12 < fst kv) (keys t)), [KeyUsed epoch k])).

Definition go_descriptor (env : desc_env) (epoch : Z)
  : goroutine (result ticket_error (ticketDescriptor * rsa_key)) :=
  lock;; time_now (d_now env);;
  let nowEpoch := epoch_of (d_now env) in
  if (epoch >? nowEpoch) || (epoch <=? nowEpoch - 12) then unlock;; mret (Err ProofInvalid)
  else
    err ← db_Update (d_commit env) (advance_tx nowEpoch) (fun _ => []);
    match err with
    | Some e => unlock;; mret (Err e)
    | None =>
      cached ← look (fun t => keys t !! epoch);
      key ← match cached with
            | Some k => mret (Ok k)
            | None =>
              r ← load_key env nowEpoch epoch;
              match r with
              | Err e => mret (Err e)
              | Ok k => change (fun t => (set_keys t (<[epoch := k]> (keys t)), []));; mret (Ok k)
              end
            end;
      match key with
      | Err e => unlock;; mret (Err e)
      | Ok k => forget nowEpoch epoch k;; unlock;; mret (Ok (make_descriptor policy epoch k, k))
      end
    end.

(** ** handle *)

(** Under the mutex: drop the expired challenges and store the new one if there
is room. *)
Definition store_challenge (prune_now : gostring -> Z) (n : gostring) (c : issueChallenge) : goroutine bool :=
  act (fun s =>
    let t := authority s in
    let live := filter (fun kc => prune_now (fst kc) <= ch_Expires (snd kc)) (challenges t) in
    if Z.of_nat (size live) >=? 256 then Some (set_authority s (set_challenges t live), [], false)
    else Some (set_authority s (set_challenges t (<[n := c]> live)), [Handed n], true)).

Definition go_challenge (env : handle_env) (d : ticketDescriptor) (binding : gostring) : goroutine reply :=
  match h_nonce env with
  | None => mret auth_unavailable
  | Some nonce =>
    let n := hex_EncodeToString nonce in
    time_now (h_challenge_now env);;
    let expires := h_challenge_now env + 60 * Second in
    lock;; time_now (h_prune_end env);;
    ok ← store_challenge (h_prune_now env) n {| ch_Binding := binding; ch_Epoch := Epoch d; ch_Expires := expires |};
    unlock;;
    mret (if ok : bool then ChallengeReply binding n (UnixMilli expires) else rate_limited)
  end.

(** Under the mutex: the challenge of the nonce, which is no longer stored. *)
Definition take_challenge (n : gostring) : goroutine (option issueChallenge) :=
  act (fun s =>
    let t := authority s in
    let c := challenges t !! n in
    Some (set_authority s (set_challenges t (delete n (challenges t))),
          match c with Some _ => [Taken n] | None => [] end, c)).

Definition go_signatures (env : handle_env) (d : ticketDescriptor) (blinded : list gostring) (address : gostring)
  : goroutine reply :=
  let r := issue_membership env d address in
  match mem_err r with
  | Some _ => mret (Refused 503 (str "RELAY_MEMBERSHIP_UNAVAILABLE"))
  | None =>
    if negb (member r) then mret (Refused 403 (str "RELAY_ACCESS_DENIED"))
    else if ExpiresAt d >? UnixMilli (checked r + ticketLifetime * Second) then mret auth_unavailable
    else
      let key := quota_key (Epoch d) address in
      err ← db_Update (h_commit env) (quota_tx key (len blinded)) (fun z => [Granted z key (len blinded)]);
      match err with
      | Some _ => mret rate_limited
      | None =>
        r ← go_descriptor (h_desc2 env) (Epoch d);
        mret (match r with
              | Err _ => auth_unavailable
              | Ok (_, private) =>
                match sign_all private blinded with
                | None => proof_invalid 403
                | Some out => SignaturesReply out
                end
              end)
      end
  end.

Definition go_issue (env : handle_env) (d : ticketDescriptor) (blinded : list gostring) (binding : gostring)
  (p : relayProof) : goroutine reply :=
  lock;; c ← take_challenge (pf_Nonce p); unlock;;
  time_now (h_issue_now env);;
  if negb (challenge_matches policy (h_issue_now env) c d binding p) then mret (proof_invalid 403)
  else if negb (proof_signed p) then mret (proof_invalid 403)
  else go_signatures env d blinded (pf_AuthorAddress p).

Definition go_request (env : handle_env) (r : request) : goroutine reply :=
  if negb (bool_decide (rq_Method r = str "POST")) then mret (proof_invalid 405)
  else match rq_Body r with
  | None => mret (proof_invalid 400)
  | Some raw =>
    if len raw >? 8192 then mret (proof_invalid 400)
    else match strictJSON input_type raw with
    | None => mret (proof_invalid 400)
    | Some v =>
      let input := as_input v in
      time_now (h_now env);;
      desc ← go_descriptor (h_desc env) (epoch_of (h_now env));
      match desc with
      | Err _ => mret auth_unavailable
      | Ok (d, _) =>
        if bool_decide (rq_Path r = str "/catalog") then mret (CatalogReply d)
        else if negb (bool_decide (policy_Mode policy = groups)) then mret (Refused 403 (str "RELAY_ACCESS_DENIED"))
        else if negb (bool_decide (in_Descriptor input = Some d))
                || (len (in_Blinded input) <? 1) || (len (in_Blinded input) >? 3) then mret (proof_invalid 403)
        else if negb (forallb blinded_ok (in_Blinded input)) then mret (proof_invalid 403)
        else
          let binding := handle_binding d (in_Blinded input) in
          if bool_decide (rq_Path r = str "/challenge") then go_challenge env d binding
          else match in_Proof input with
          | Some p =>
            if negb (bool_decide (rq_Path r = str "/issue")) then mret (proof_invalid 403)
            else go_issue env d (in_Blinded input) binding p
          | None => mret (proof_invalid 403)
          end
      end
    end
  end.

Definition go_handle (env : handle_env) (r : request) : goroutine reply :=
  got ← try_acquire;
  if negb got then mret rate_limited
  else rp ← go_request env r; release_slot;; mret rp.

(** ** redeem *)

Definition go_redeem (env : redeem_env) (raw : gostring) : goroutine (result ticket_error (gostring * Z)) :=
  if len raw >? 2048 then mret (Err ProofInvalid)
  else match strictJSON ticket_type raw with
  | None => mret (Err ProofInvalid)
  | Some v =>
    let v := as_ticket v in
    desc ← go_descriptor (r_desc env) (tk_Epoch v);
    match desc with
    | Err _ => mret (Err ProofInvalid)
    | Ok (d, key) =>
      time_now (r_check env);;
      match ticket_id (r_check env) d key v with
      | None => mret (Err ProofInvalid)
      | Some id =>
        let k := spent_key (tk_Epoch v) id in
        err ← db_Update_at (r_clean env) (r_commit env) (spend_tx (r_clean env) k) (fun z => [Marked z k]);
        match err with
        | Some _ => mret (Err ProofInvalid)
        | None =>
          time_now (r_end1 env);; time_now (r_end2 env);;
          mret (Ok (id, r_end1 env + (ExpiresAt d - UnixMilli (r_end2 env)) * 1000000))
        end
      end
    end
  end.

(** ** Calls *)

Inductive ticket_call :=
| CallHandle (env : handle_env) (rq : request)
| CallRedeem (env : redeem_env) (raw : gostring).
Inductive outcome :=
| Replied (r : reply)
| Redeemed (r : result ticket_error (gostring * Z)).

Definition go_call (c : ticket_call) : goroutine outcome :=
  match c with
  | CallHandle env rq => r ← go_handle env rq; mret (Replied r)
  | CallRedeem env raw => r ← go_redeem env raw; mret (Redeemed r)
  end.

Definition resting (t : ticketAuthority) (z : Z) : system := {| authority := t; mu := false; slots := 0; now := z |}.

End Authority.

(** ** Alone, a goroutine is the function *)

Section Solo.
  Context {B : Bucket} {Hs : Hashes} {C : Crypto}.
  Context (policy : policy_id).

(** The clock readings of a call, in the order it makes them. *)
Definition era (z : Z) : Prop := z < 2 ^ 63.
Definition handle_times (z : Z) (env : handle_env) : Prop :=
  z <= h_now env <= d_now (h_desc env)
  /\ d_now (h_desc env) <= h_challenge_now env <= h_prune_end env
  /\ d_now (h_desc env) <= h_issue_now env <= d_now (h_desc2 env)
  /\ era (h_prune_end env) /\ era (d_now (h_desc2 env)).
Definition redeem_times (z : Z) (env : redeem_env) : Prop :=
  z <= d_now (r_desc env) <= r_check env /\ r_check env <= r_clean env <= r_end1 env
  /\ r_end1 env <= r_end2 env /\ era (r_end2 env).

(** The end of a call made alone: the mutex is free and the slots are as before. *)
Definition ends {A} (s : system) (t : ticketAuthority) (r : A) (o : option (system * A)) : Prop :=
  exists z, o = Some ({| authority := t; mu := false; slots := slots s; now := z |}, r).

Lemma reads_ok z s : now s <= z -> era z -> reads z s = true.
Proof. unfold reads, era. intros. apply andb_true_iff. lia. Qed.

Lemma solo_descriptor env epoch s t r : mu s = false -> now s <= d_now env -> era (d_now env) ->
  descriptor policy env (authority s) epoch = (t, r) ->
  solo (go_descriptor policy env epoch) s
  = Some ({| authority := t; mu := false; slots := slots s; now := d_now env |}, r).
Proof.
  intros Hm Hn He. unfold go_descriptor, descriptor. destruct s as [a m sl nw]. cbn in Hm, Hn. subst m.
  cbn. rewrite reads_ok by done. cbn.
  destruct (_ || _); [by intros [= <- <-]|]. cbn. unfold transaction. cbn.
  destruct (Update _ _ _) as [d [e|]]; cbn; [by intros [= <- <-]|]. unfold find_key. cbn.
  destruct (keys a !! epoch) as [k|]; cbn; [by intros [= <- <-]|].
  unfold load_key. destruct (d_view env); cbn; [by intros [= <- <-]|].
  destruct (len _ >? 0); cbn; [destruct (ParsePKCS1PrivateKey _); by intros [= <- <-]|].
  destruct (epoch =? _); cbn; [|by intros [= <- <-]].
  destruct (d_generated env) as [k|]; cbn; [|by intros [= <- <-]]. unfold transaction. cbn.
  destruct (d_commit_key env); cbn; by intros [= <- <-].
Qed.

(** Steps of a solo run. *)
Lemma solo_time z s : now s <= z -> era z -> solo (time_now z) s = Some (set_now s z, tt).
Proof. intros. cbn. by rewrite reads_ok. Qed.

Lemma solo_challenge env d binding s t rp : mu s = false ->
  now s <= h_challenge_now env <= h_prune_end env -> era (h_prune_end env) ->
  handle_challenge env (authority s) d binding = (t, rp) -> ends s t rp (solo (go_challenge env d binding) s).
Proof.
  intros Hm Hn He. unfold go_challenge, handle_challenge, ends. destruct s as [a m sl nw]. cbn in Hm, Hn. subst m.
  assert (era (h_challenge_now env)) by (unfold era in *; lia).
  destruct (h_nonce env); [|intros [= <- <-]; by eexists]. cbv zeta. cbn.
  rewrite reads_ok by (cbn; lia || done). cbn. rewrite reads_ok by (cbn; lia || done). cbn.
  destruct (_ >=? 256); intros [= <- <-]; by eexists.
Qed.

Lemma solo_update commit f evs s : solo (db_Update commit f evs) s
  = let '(d, err) := Update commit f (db (authority s)) in Some (set_authority s (set_db (authority s) d), err).
Proof. cbn. unfold transaction. by destruct (Update _ _ _) as [d [|]]. Qed.

Lemma solo_signatures env d blinded address s t rp : mu s = false ->
  now s <= d_now (h_desc2 env) -> era (d_now (h_desc2 env)) ->
  issue_signatures policy env (authority s) d blinded address = (t, rp) ->
  ends s t rp (solo (go_signatures policy env d blinded address) s).
Proof.
  intros Hm Hn He. unfold issue_signatures, go_signatures, ends. destruct s as [a m sl nw]. cbn in Hm, Hn. subst m.
  destruct (mem_err _); [intros [= <- <-]; by eexists|].
  destruct (member _); cbn [negb]; [|intros [= <- <-]; by eexists].
  destruct (_ >? _); [intros [= <- <-]; by eexists|]. cbv zeta. rewrite solo_bind, solo_update. cbn [authority].
  destruct (Update _ _ _) as [d1 [e|]]; [intros [= <- <-]; by eexists|].
  destruct (descriptor _ _ _ _) as [t1 r1] eqn:Ed. intros Hr. rewrite solo_bind.
  erewrite solo_descriptor; [|done|cbn; lia|done|exact Ed]. cbn.
  destruct r1 as [[? key]|]; [destruct (sign_all key blinded)|]; injection Hr as <- <-; by eexists.
Qed.

Lemma solo_issue env d blinded binding p s t rp : mu s = false ->
  now s <= h_issue_now env <= d_now (h_desc2 env) -> era (d_now (h_desc2 env)) ->
  handle_issue policy env (authority s) d blinded binding p = (t, rp) ->
  ends s t rp (solo (go_issue policy env d blinded binding p) s).
Proof.
  intros Hm Hn He. unfold go_issue, handle_issue, ends. destruct s as [a m sl nw]. cbn in Hm, Hn. subst m.
  assert (era (h_issue_now env)) by (unfold era in *; lia).
  cbn. rewrite reads_ok by (cbn; lia || done).
  destruct (challenge_matches _ _ _ _ _ _); [|intros [= <- <-]; by eexists].
  destruct (proof_signed p); [|intros [= <- <-]; by eexists]. cbn [negb]. intros Hi.
  by eapply (solo_signatures _ _ _ _ {| authority := _; mu := false; slots := sl; now := h_issue_now env |}); [|cbn; lia| |].
Qed.

Lemma solo_request env rq s t rp : mu s = false -> handle_times (now s) env -> h_slots_used env >=? 8 = false ->
  handle policy env (authority s) rq = (t, rp) -> ends s t rp (solo (go_request policy env rq) s).
Proof.
  intros Hm (Hn1 & Hn2 & Hn3 & He1 & He2) Hsl. unfold handle, go_request. rewrite Hsl.
  destruct s as [a m sl nw]. cbn in Hm, Hn1. subst m.
  destruct (negb _); [intros [= <- <-]; by eexists|]. destruct (rq_Body rq) as [raw|]; [|intros [= <- <-]; by eexists].
  destruct (_ >? 8192); [intros [= <- <-]; by eexists|]. destruct (strictJSON _ _) as [v|]; [|intros [= <- <-]; by eexists].
  cbv zeta. rewrite solo_bind, solo_time by (cbn; unfold era in *; lia).
  destruct (descriptor _ _ _ _) as [t1 r1] eqn:Ed. rewrite solo_bind.
  erewrite solo_descriptor; [|done|cbn; lia|unfold era in *; lia|exact Ed].
  set (s1 := {| authority := t1 |}). assert (forall t (rp : reply) o, ends s1 t rp o -> ends {| authority := a; mu := false; slots := sl; now := nw |} t rp o) as Hs1 by done.
  destruct r1 as [[d key]|]; [|intros [= <- <-]; by eexists].
  do 4 (split_if; [intros [= <- <-]; by eexists|]). intros H. apply Hs1. split_if.
  - apply solo_challenge; [done|cbn; lia|done|exact H].
  - destruct (in_Proof _) as [p|]; [|injection H as <- <-; by eexists].
    split_if; [injection H as <- <-; by eexists|]. apply solo_issue; [done|cbn; lia|done|exact H].
Qed.

Lemma solo_handle env rq s t rp : mu s = false -> slots s = h_slots_used env -> handle_times (now s) env ->
  handle policy env (authority s) rq = (t, rp) -> ends s t rp (solo (go_handle policy env rq) s).
Proof.
  intros Hm Hsl Hn H. unfold go_handle. rewrite solo_bind. cbn [solo try_acquire act].
  destruct (slots s >=? 8) eqn:E; rewrite Hsl in E.
  { unfold handle in H. rewrite E in H. injection H as <- <-. exists (now s). by destruct s as [a m sl nw]; cbn in *; subst. }
  cbn [negb]. rewrite solo_bind. destruct (solo_request env rq (set_slots s (slots s + 1)) t rp Hm Hn E H) as [z Hz].
  rewrite Hz. cbn. exists z. unfold set_slots. cbn. do 3 f_equal; lia.
Qed.

Lemma solo_redeem env raw s t r : mu s = false -> redeem_times (now s) env ->
  redeem policy env (authority s) raw = (t, r) -> ends s t r (solo (go_redeem policy env raw) s).
Proof.
  intros Hm (Hn1 & Hn2 & Hn3 & He). unfold redeem, go_redeem. destruct s as [a m sl nw]. cbn in Hm, Hn1. subst m.
  destruct (_ >? 2048); [intros [= <- <-]; by eexists|]. destruct (strictJSON _ _) as [v|]; [|intros [= <- <-]; by eexists].
  cbv zeta. destruct (descriptor _ _ _ _) as [t1 r1] eqn:Ed. rewrite solo_bind.
  erewrite solo_descriptor; [|done|cbn; lia|unfold era in *; lia|exact Ed].
  destruct r1 as [[d key]|]; [|intros [= <- <-]; by eexists].
  rewrite solo_bind, solo_time by (cbn; unfold era in *; lia).
  destruct (ticket_id _ _ _ _) as [id|]; [|intros [= <- <-]; by eexists].
  cbn. rewrite reads_ok by (cbn; unfold era in *; lia). unfold transaction. cbn [authority set_now].
  destruct (Update _ _ _) as [d' [e|]]; cbn; [intros [= <- <-]; by eexists|].
  rewrite reads_ok by (cbn; unfold era in *; lia). cbn. rewrite reads_ok by (cbn; unfold era in *; lia).
  intros [= <- <-]. by eexists.
Qed.

(** C12: The goroutines refine the functions.  A call of [handle] or [redeem] that
runs alone, with the mutex free and clock readings in the order the code makes
them, never waits, gives back the mutex and its slot, and leaves the authority and
its answer exactly as the functions [handle] and [redeem] define them. *)
Theorem solo_refines s : mu s = false ->
  (forall env rq, slots s = h_slots_used env -> handle_times (now s) env ->
     let '(t, rp) := handle policy env (authority s) rq in ends s t rp (solo (go_handle policy env rq) s))
  /\ forall env raw, redeem_times (now s) env ->
     let '(t, r) := redeem policy env (authority s) raw in ends s t r (solo (go_redeem policy env raw) s).
Proof.
  intros Hm. split.
  - intros env rq Hsl Ht. destruct (handle _ _ _ _) as [t rp] eqn:E. by apply solo_handle.
  - intros env raw Ht. destruct (redeem _ _ _ _) as [t r] eqn:E. by apply solo_redeem.
Qed.

End Solo.

Lemma solo_refines_witness :
  exists z t r, redeem sample_policy (sample_redeem (at_second 10)) sample_authority (ticket_text sample_hour 9) = (t, r)
    /\ is_ok r = true
    /\ solo (go_redeem sample_policy (sample_redeem (at_second 10)) (ticket_text sample_hour 9)) (resting sample_authority 0)
       = Some ({| authority := t; mu := false; slots := 0; now := z |}, r).
Proof.
  assert (is_ok (snd (redeem sample_policy (sample_redeem (at_second 10)) sample_authority (ticket_text sample_hour 9))) = true)
    as Hok by (vm_compute; reflexivity).
  pose proof (proj2 (solo_refines sample_policy (resting sample_authority 0) eq_refl)
    (sample_redeem (at_second 10)) (ticket_text sample_hour 9)) as H.
  destruct (redeem sample_policy (sample_redeem (at_second 10)) _ (ticket_text sample_hour 9)) as [t r] eqn:E.
  destruct H as [z Hz]; [vm_compute; repeat split; discriminate|].
  exists z, t, r. split; [reflexivity|]. split; [exact Hok|exact Hz].
Defined.
