(* ===== verification/TicketRaces.v ===== *)
(** * What concurrent requests cannot do

The promises of the ticket authority for any number of calls of [handle] and
[redeem] in any interleaving: a ticket admits at most one session, an account gets
at most 24 tickets of an hour, a challenge is answered at most once, at most eight
requests are handled and 256 challenges stored at a time, all answers about one
hour name the same key, and the mutex and the slots are given back. *)

From stdpp Require Import base gmap list numbers relations.
From Stdlib Require Import ZArith Lia String.
From S2P Require Import Prelude.
From S2P Require Import GoStrings.
From S2P Require Import Json.
From S2P Require Import Base58.
From S2P Require Import AccessConfig.
From S2P Require Import Membership.
From S2P Require Import Bolt.
From S2P Require Import Tickets.
From S2P Require Import Issue.
From S2P Require Import Samples.
From S2P Require Import TicketSpend.
From S2P Require Import TicketQuota.
From S2P Require Import TicketTypes.
From S2P Require Import Threads.
From S2P Require Import TicketThreads.

Local Open Scope Z_scope.

Lemma epoch_of_mono x y : x <= y -> epoch_of x <= epoch_of y.
Proof. intros. unfold epoch_of, Unix, Second. apply Z.quot_le_mono; [lia|]. apply Z.div_le_mono; lia. Qed.

Section Invariant.
  Context {B : Bucket} {BO : BucketOk B} {Hs : Hashes} {C : Crypto}.
  Context (policy : policy_id) (d0 : ticket_db).

(** ** Counting events *)

Definition one (P : bool) : Z := if P then 1 else 0.

Definition w_slot (ev : event) : Z :=
  match ev with Acquired => 1 | Released => -1 | _ => 0 end.
Definition w_handed (n : gostring) (ev : event) : Z :=
  match ev with Handed n' => one (bool_decide (n' = n)) | _ => 0 end.
Definition w_taken (n : gostring) (ev : event) : Z :=
  match ev with Taken n' => one (bool_decide (n' = n)) | _ => 0 end.
(** Tickets granted, and tickets marked, while those of hour [e] are valid. *)
Definition w_granted (e : Z) (key : gostring) (ev : event) : Z :=
  match ev with
  | Granted z k n => if bool_decide (k = key) && (epoch_of z - 12 <? e) then n else 0
  | _ => 0
  end.
Definition w_marked (e : Z) (key : gostring) (ev : event) : Z :=
  match ev with
  | Marked z k => one (bool_decide (k = key) && (epoch_of z - 12 <? e))
  | _ => 0
  end.

(** ** The invariant *)

Definition hour (s : system) : Z := epoch_of (now s).
Definition the_db (s : system) : ticket_db := db (authority s).
Definition count0 (key : gostring) : Z := quota_count (quota_bucket d0) key.

Record ticket_inv (s : system) (h : list event) : Prop := {
  inv_clock : 0 <= now s < 2 ^ 63;
  inv_slots : slots s = total w_slot h /\ slots s <= 8;
  inv_room : Z.of_nat (size (challenges (authority s))) <= 256;
  inv_nonce n : total (w_taken n) h + one (bool_decide (is_Some (challenges (authority s) !! n)))
                <= total (w_handed n) h;
  inv_keys e k : KeyUsed e k ∈ h -> latestEpoch (the_db s) - 12 < e -> keys (authority s) !! e = Some k;
  inv_agree e k k' : KeyUsed e k ∈ h -> KeyUsed e k' ∈ h -> k = k';
  inv_quota e a : epoch_range e -> let key := epoch_key e a in let g := total (w_granted e key) h in
    0 <= count0 key + g <= 24 /\ (hour s - 12 < e -> quota_count (quota_bucket (the_db s)) key = count0 key + g);
  inv_spent e a : epoch_range e -> let key := epoch_key e a in
    total (w_marked e key) h = 0 \/ total (w_marked e key) h = 1 /\ (hour s - 12 < e -> spent (the_db s) key);
}.

Definition guarded (s : system) : gmap Z rsa_key * Z := (keys (authority s), latestEpoch (the_db s)).

Abbreviation WP J := (wp mu guarded now ticket_inv J).

(** ** Changes that keep the invariant *)

Lemma inv_set_mu s h b : ticket_inv s h -> ticket_inv (set_mu s b) h.
Proof. by intros []. Qed.

Lemma inv_set_now s h z : reads z s = true -> ticket_inv s h -> ticket_inv (set_now s z) h.
Proof.
  intros Hz []. unfold reads in Hz. apply andb_true_iff in Hz as [Hz1 Hz2]. breflect.
  assert (hour s <= hour (set_now s z)) as Hh by (apply epoch_of_mono; cbn; lia).
  constructor; try done; cbn [now set_now]; [lia| |].
  - intros e a He. destruct (inv_quota0 e a He) as [H1 H2]. split; [done|]. intros. apply H2. lia.
  - intros e a He. destruct (inv_spent0 e a He) as [H1|[H1 H2]]; [by left|right]. split; [done|]. intros. apply H2. lia.
Qed.

(** The state after a transaction. *)
Definition new_db (s : system) (d : ticket_db) : system := set_authority s (set_db (authority s) d).

Lemma inv_advance s h n d : n <= hour s -> 0 <= n -> advance_tx n (the_db s) = Ok d ->
  ticket_inv s h -> ticket_inv (new_db s d) h /\ latestEpoch d = n.
Proof.
  intros Hn Hn0 Ha []. pose proof (epoch_of_range (now s) inv_clock0) as Hr. unfold hour in *.
  destruct (advance_latest n (the_db s) d ltac:(lia) Ha) as [Hl Hl']. split; [|done].
  constructor; try done; cbn.
  - intros e k Hk Hlt. apply (inv_keys0 e k Hk). change (the_db (new_db s d)) with d in Hlt. lia.
  - intros e a He. destruct (inv_quota0 e a He) as [H1 H2]. split; [done|]. intros Hlive. unfold hour in *. cbn in Hlive.
    rewrite <- H2 by done. unfold quota_count. change (the_db (new_db s d)) with d.
    by rewrite (proj2 (advance_keeps n _ _ e a He ltac:(lia) Ha)).
  - intros e a He. destruct (inv_spent0 e a He) as [H1|[H1 H2]]; [by left|right]. split; [done|]. intros Hlive.
    unfold hour in *. cbn in Hlive. specialize (H2 Hlive). unfold spent in *. change (the_db (new_db s d)) with d.
    by rewrite (proj1 (advance_keeps n _ _ e a He ltac:(lia) Ha)).
Qed.

Lemma inv_put_key s h name k d : put_key_tx name k (the_db s) = Ok d -> ticket_inv s h -> ticket_inv (new_db s d) h.
Proof. intros [= <-] []. constructor; done. Qed.

Lemma inv_grant s h key n d : 0 <= n -> quota_tx key n (the_db s) = Ok d -> ticket_inv s h ->
  ticket_inv (new_db s d) (h ++ [Granted (now s) key n]) /\ latestEpoch d = latestEpoch (the_db s).
Proof.
  intros Hn Hq []. pose proof Hq as Hq'. unfold quota_tx in Hq'. do 2 (split_if_in Hq'; [done|]).
  injection Hq' as Hd. apply quota_tx_inv in Hq as (Hle & Hb & Hsp). split; [|by rewrite <- Hd].
  constructor; try done; try (setoid_rewrite total_app; cbn; setoid_rewrite Z.add_0_r; done).
  - intros e k Hk. apply elem_of_app in Hk as [Hk|Hk%list_elem_of_singleton]; [|done].
    intros Hlt. apply (inv_keys0 e k Hk). unfold the_db, new_db in *. cbn in Hlt. by rewrite <- Hd in Hlt.
  - intros e k k'. rewrite !elem_of_app, !list_elem_of_singleton. intros [|] [|]; try done. eauto.
  - intros e a He. cbv zeta. rewrite total_app. cbn [total w_granted]. destruct (inv_quota0 e a He) as [H1 H2].
    change (hour (new_db s d)) with (hour s). change (the_db (new_db s d)) with d. unfold quota_count at 1. rewrite Hb.
    fold (hour s). destruct (bool_decide_reflect (key = epoch_key e a)) as [->|Hne]; cbn [andb].
    + destruct (hour s - 12 <? e) eqn:El; breflect; [|split; [lia|intros; lia]].
      rewrite get_put. cbn [default id]. rewrite ParseInt64_value_FormatInt by (rewrite H2 by done; lia).
      rewrite H2 in * by done. lia.
    + rewrite get_put_ne by done. split; [lia|]. intros Hl. fold (quota_count (quota_bucket (the_db s)) (epoch_key e a)).
      rewrite H2 by done. lia.
  - intros e a He. cbv zeta. rewrite total_app. cbn [total w_marked]. rewrite Z.add_0_r.
    destruct (inv_spent0 e a He) as [H1|[H1 H2]]; [left; lia|right]. split; [lia|]. intros Hl. specialize (H2 Hl).
    unfold spent in *. change (the_db (new_db s d)) with d. by rewrite Hsp.
Qed.

Lemma inv_mark s h key d : spend_tx (now s) key (the_db s) = Ok d -> ticket_inv s h ->
  ticket_inv (new_db s d) (h ++ [Marked (now s) key]) /\ latestEpoch d = latestEpoch (the_db s).
Proof.
  intros Hq []. apply spend_tx_inv in Hq as (sp & qu & Hsp & Hqu & Hg & _ & ->). split; [|done].
  constructor; try done; try (setoid_rewrite total_app; cbn; setoid_rewrite Z.add_0_r; done).
  - intros e k Hk. apply elem_of_app in Hk as [Hk|Hk%list_elem_of_singleton]; [|done]. by apply inv_keys0.
  - intros e k k'. rewrite !elem_of_app, !list_elem_of_singleton. intros [|] [|]; try done. eauto.
  - intros e a He. cbv zeta. rewrite total_app. cbn [total w_granted]. rewrite Z.add_0_r.
    destruct (inv_quota0 e a He) as [H1 H2]. split; [done|]. intros Hl. rewrite <- H2 by done. unfold quota_count. cbn.
    by rewrite (clean_prefix_keeps _ _ _ _ e a He Hl Hqu).
  - intros e a He. cbv zeta. rewrite total_app. cbn [total w_marked]. change (hour (new_db s _)) with (hour s).
    fold (hour s). pose proof (fun Hl => clean_prefix_keeps _ _ _ _ e a He Hl Hsp) as Hk. fold (hour s) in Hk.
    unfold spent, new_db, the_db in *. cbn [authority set_authority db set_db spent_bucket].
    destruct (bool_decide_reflect (key = epoch_key e a)) as [->|Hne]; cbn [andb].
    + destruct (hour s - 12 <? e) eqn:El; breflect; cbn [one]; [|destruct (inv_spent0 e a He) as [|[]]; [left; lia|right; split; [lia|intros; lia]]].
      right. rewrite get_put. split; [|done]. destruct (inv_spent0 e a He) as [->|[_ H2]]; [done|]. by destruct (H2 El); rewrite <- Hk.
    + cbn [one]. rewrite get_put_ne by done. destruct (inv_spent0 e a He) as [|[H1 H2]]; [left; lia|right].
      split; [lia|]. intros Hl. rewrite Hk by done. by apply H2.
Qed.

(** The events of one kind are not seen by the counts of another. *)
Lemma inv_keys_change s h ks evs :
  (forall e k, KeyUsed e k ∈ h ++ evs -> latestEpoch (the_db s) - 12 < e -> ks !! e = Some k) ->
  (forall e k k', KeyUsed e k ∈ h ++ evs -> KeyUsed e k' ∈ h ++ evs -> k = k') ->
  (forall ev, ev ∈ evs -> exists e k, ev = KeyUsed e k) ->
  ticket_inv s h -> ticket_inv (set_authority s (set_keys (authority s) ks)) (h ++ evs).
Proof.
  intros Hk Ha Hev [].
  assert (forall w, (forall e k, w (KeyUsed e k) = 0) -> total w (h ++ evs) = total w h) as Hw.
  { intros w Hw. rewrite total_app. enough (total w evs = 0) by lia. clear -Hw Hev. induction evs as [|ev evs IH]; [done|].
    cbn. rewrite IH by (intros; apply Hev; by right). destruct (Hev ev) as (e & k & ->); [by left|]. by rewrite Hw. }
  constructor; try done; cbn [authority set_authority].
  - by rewrite (Hw w_slot).
  - intros n. by rewrite (Hw (w_taken n)), (Hw (w_handed n)).
  - intros e a. cbv zeta. rewrite (Hw (w_granted _ _)) by done. apply inv_quota0.
  - intros e a. cbv zeta. rewrite (Hw (w_marked _ _)) by done. apply inv_spent0.
Qed.

Lemma inv_challenges s h cs evs :
  Z.of_nat (size cs) <= 256 ->
  (forall n, total (w_taken n) evs + one (bool_decide (is_Some (cs !! n)))
             <= total (w_handed n) evs + one (bool_decide (is_Some (challenges (authority s) !! n)))) ->
  (forall ev, ev ∈ evs -> exists n, ev = Handed n \/ ev = Taken n) ->
  ticket_inv s h -> ticket_inv (set_authority s (set_challenges (authority s) cs)) (h ++ evs).
Proof.
  intros Hsz Hn Hev [].
  assert (forall w, (forall n, w (Handed n) = 0 /\ w (Taken n) = 0) -> total w (h ++ evs) = total w h) as Hw.
  { intros w Hw. rewrite total_app. enough (total w evs = 0) by lia. clear -Hw Hev. induction evs as [|ev evs IH]; [done|].
    cbn. rewrite IH by (intros; apply Hev; by right). destruct (Hev ev) as (n & Hn); [by left|].
    destruct (Hw n). destruct Hn; subst ev; lia. }
  assert (forall e k, KeyUsed e k ∈ h ++ evs -> KeyUsed e k ∈ h) as Hk.
  { intros e k Hin. apply elem_of_app in Hin as [|Hin]; [done|]. destruct (Hev _ Hin) as (n & [|]); done. }
  constructor; try done; cbn [authority set_authority].
  - by rewrite (Hw w_slot).
  - intros n. rewrite !total_app. specialize (Hn n). specialize (inv_nonce0 n). cbn [challenges set_challenges]. lia.
  - intros e k Hin. by apply inv_keys0, Hk.
  - intros e k k' H1 H2. by apply (inv_agree0 e); apply Hk.
  - intros e a. cbv zeta. rewrite (Hw (w_granted _ _)) by done. apply inv_quota0.
  - intros e a. cbv zeta. rewrite (Hw (w_marked _ _)) by done. apply inv_spent0.
Qed.

Lemma inv_slot s h n ev : ev = Acquired \/ ev = Released -> n = slots s + w_slot ev -> n <= 8 ->
  ticket_inv s h -> ticket_inv (set_slots s n) (h ++ [ev]).
Proof.
  intros Hev -> Hn [].
  assert (forall e k, KeyUsed e k ∈ h ++ [ev] -> KeyUsed e k ∈ h) as Hk.
  { intros e k Hin. apply elem_of_app in Hin as [|Hin%list_elem_of_singleton]; [done|]. by destruct Hev; subst. }
  constructor; try done; cbn [authority set_slots slots].
  - rewrite total_app. cbn. lia.
  - intros m. rewrite !total_app. cbn. specialize (inv_nonce0 m). destruct Hev; subst ev; cbn; lia.
  - intros e k Hin. by apply inv_keys0, Hk.
  - intros e k k' H1 H2. by apply (inv_agree0 e); apply Hk.
  - intros e a. cbv zeta. rewrite total_app. cbn. replace (w_granted _ _ ev + 0) with 0 by (by destruct Hev; subst ev).
    rewrite Z.add_0_r. apply inv_quota0.
  - intros e a. cbv zeta. rewrite total_app. cbn. replace (w_marked _ _ ev + 0) with 0 by (by destruct Hev; subst ev).
    rewrite Z.add_0_r. apply inv_spent0.
Qed.

(** ** Rules for the actions *)

Section Rules.
  Context (J : list event -> Prop).

(** An action that adds nothing to the history keeps the goroutine's own events. *)
Ltac start_action :=
  cbn; intros s h Hi Hsince Hheld s' evs a Hf.

Lemma wp_lock o since Q : J o -> (forall g z, since <= z -> Q o (Some g) z tt) -> WP J lock o None since Q.
Proof.
  intros Hj HQ. start_action. destruct (mu s) eqn:Em; [done|]. injection Hf as <- <- <-. rewrite !app_nil_r.
  split; [by apply inv_set_mu|]. split; [cbn; lia|]. split; [done|]. exists (Some (guarded s)). split; [done|]. by apply HQ.
Qed.

Lemma wp_unlock g o since Q : J o -> (forall z, since <= z -> Q o None z tt) -> WP J unlock o (Some g) since Q.
Proof.
  intros Hj HQ. start_action. injection Hf as <- <- <-. rewrite !app_nil_r.
  split; [by apply inv_set_mu|]. split; [cbn; lia|]. split; [done|]. exists None. split; [done|]. by apply HQ.
Qed.

(** Outside of what the mutex guards, an action keeps the lock as it is. *)
Lemma same_lock held s s' : mu s' = mu s -> guarded s' = guarded s ->
  (forall g, held = Some g -> mu s = true /\ guarded s = g) -> lock_step mu guarded held s held s'.
Proof. intros Hm Hg Hh. destruct held as [g|]; cbn; [|done]. destruct (Hh g eq_refl) as [? <-]. by rewrite Hm, Hg. Qed.

Lemma wp_time z held o since Q : J o -> (since <= z -> 0 <= z < 2 ^ 63 -> Q o held z tt) ->
  WP J (time_now z) o held since Q.
Proof.
  intros Hj HQ. start_action. destruct (reads z s) eqn:Ez; [|done]. injection Hf as <- <- <-. rewrite !app_nil_r.
  pose proof (inv_set_now s h z Ez Hi) as Hi'. unfold reads in Ez. apply andb_true_iff in Ez as [Ez1 Ez2]. breflect.
  split; [done|]. split; [cbn; lia|]. split; [done|]. exists held. split; [by apply same_lock|].
  apply HQ; [lia|]. apply (inv_clock _ _ Hi').
Qed.

Lemma wp_look {A} (f : ticketAuthority -> A) held o since Q : J o ->
  (forall t z, since <= z -> (forall g, held = Some g -> keys t = fst g) -> Q o held z (f t)) ->
  WP J (look f) o held since Q.
Proof.
  intros Hj HQ. start_action. injection Hf as <- <- <-. rewrite !app_nil_r.
  split; [done|]. split; [lia|]. split; [done|]. exists held. split; [by apply same_lock|].
  apply HQ; [done|]. intros g ->. by destruct (Hheld g eq_refl) as [_ <-].
Qed.

Lemma wp_advance commit n ks l o since Q : J o -> 0 <= n <= epoch_of since ->
  (forall z, since <= z -> Q o (Some (ks, n)) z None) ->
  (forall z e, since <= z -> Q o (Some (ks, l)) z (Some e)) ->
  WP J (db_Update commit (advance_tx n) (fun _ => [])) o (Some (ks, l)) since Q.
Proof.
  intros Hj Hn HQ HE. start_action. unfold transaction in Hf. destruct (Hheld _ eq_refl) as [Hm Hg].
  pose proof (epoch_of_mono _ _ Hsince). destruct (Update _ _ _) as [d [e|]] eqn:Eu; injection Hf as <- <- <-; rewrite !app_nil_r.
  - apply Update_err in Eu as ->. destruct s as [t m sl nw]. destruct t. split; [done|]. split; [cbn; lia|]. split; [done|].
    exists (Some (ks, l)). split; [by split|]. by apply HE.
  - apply Update_ok in Eu. destruct (inv_advance s h n d ltac:(unfold hour; lia) ltac:(lia) Eu Hi) as [Hi' Hl].
    split; [done|]. split; [cbn; lia|]. split; [done|]. exists (Some (ks, n)). split; [|by apply HQ].
    split; [done|]. unfold guarded in *. injection Hg as <- _. cbn. by rewrite <- Hl.
Qed.

Lemma wp_put_key commit name k held o since Q : J o ->
  (forall z err, since <= z -> Q o held z err) ->
  WP J (db_Update commit (put_key_tx name k) (fun _ => [])) o held since Q.
Proof.
  intros Hj HQ. start_action. unfold transaction in Hf.
  destruct (Update _ _ _) as [d [e|]] eqn:Eu; injection Hf as <- <- <-; rewrite !app_nil_r.
  - apply Update_err in Eu as ->. destruct s as [t m sl nw]. destruct t. split; [done|]. split; [cbn; lia|]. split; [done|].
    exists held. split; [by apply same_lock|]. by apply HQ.
  - apply Update_ok in Eu. split; [by eapply inv_put_key|]. split; [cbn; lia|]. split; [done|].
    exists held. split; [|by apply HQ]. apply same_lock; [done| |done]. by injection Eu as <-.
Qed.

(** A key that was missing is remembered. *)
Lemma wp_remember epoch k ks l o since Q : J o -> ks !! epoch = None ->
  (forall z, since <= z -> Q o (Some (<[epoch := k]> ks, l)) z tt) ->
  WP J (change (fun t => (set_keys t (<[epoch := k]> (keys t)), []))) o (Some (ks, l)) since Q.
Proof.
  intros Hj Hks HQ. start_action. injection Hf as <- <- <-. rewrite !app_nil_r. destruct (Hheld _ eq_refl) as [Hm Hg].
  unfold guarded in Hg. injection Hg as Hk Hl. split.
  { rewrite <- (app_nil_r h). apply inv_keys_change; [| |by intros ? ?%not_elem_of_nil|done]; rewrite app_nil_r.
    - intros e k' Hin Hlt. pose proof (inv_keys _ _ Hi e k' Hin Hlt) as He. rewrite lookup_insert_ne; [done|].
      intros <-. by rewrite Hk, Hks in He.
    - apply (inv_agree _ _ Hi). }
  split; [cbn; lia|]. split; [done|]. eexists. split; [|by apply HQ]. split; [done|]. unfold guarded. cbn. by rewrite Hk, <- Hl.
Qed.

(** Old keys are dropped, and the key of the hour is used. *)
Lemma wp_forget n epoch k ks o since Q : J (o ++ [KeyUsed epoch k]) -> ks !! epoch = Some k -> n - 12 < epoch ->
  (forall g z, since <= z -> Q (o ++ [KeyUsed epoch k]) (Some g) z tt) ->
  WP J (forget n epoch k) o (Some (ks, n)) since Q.
Proof.
  intros Hj Hks Hn HQ. start_action. injection Hf as <- <- <-. destruct (Hheld _ eq_refl) as [Hm Hg].
  unfold guarded in Hg. injection Hg as Hk Hl. split.
  { apply inv_keys_change; [| |intros ev ->%list_elem_of_singleton; eauto|done].
    - intros e k' Hin Hlt. rewrite Hl in Hlt. apply map_lookup_filter_Some. split; [|done].
      apply elem_of_app in Hin as [Hin|[= -> ->]%list_elem_of_singleton]; [|by rewrite Hk].
      apply (inv_keys _ _ Hi); [done|by rewrite Hl].
    - assert (forall k', KeyUsed epoch k' ∈ h -> k' = k) as Hsame.
      { intros k' Hin. pose proof (inv_keys _ _ Hi _ _ Hin) as He. rewrite Hl, Hk, Hks in He. specialize (He Hn). congruence. }
      intros e k1 k2 [H1|[= -> ->]%list_elem_of_singleton]%elem_of_app [H2|H2%list_elem_of_singleton]%elem_of_app.
      + by apply (inv_agree _ _ Hi e).
      + injection H2 as -> ->. by apply Hsame.
      + symmetry. by apply Hsame.
      + by injection H2 as ->. }
  split; [cbn; lia|]. split; [done|]. eexists. split; [|by apply HQ]. by split.
Qed.

Lemma wp_grant commit key n o since Q : J o -> 0 <= n -> (forall z, since <= z -> J (o ++ [Granted z key n])) ->
  (forall z, since <= z -> Q (o ++ [Granted z key n]) None z None) ->
  (forall z e, since <= z -> Q o None z (Some e)) ->
  WP J (db_Update commit (quota_tx key n) (fun z => [Granted z key n])) o None since Q.
Proof.
  intros Hj Hn Hj' HQ HE. start_action. unfold transaction in Hf.
  destruct (Update _ _ _) as [d [e|]] eqn:Eu; injection Hf as <- <- <-.
  - rewrite !app_nil_r. apply Update_err in Eu as ->. destruct s as [t m sl nw]. destruct t.
    split; [done|]. split; [cbn; lia|]. split; [done|]. exists None. split; [done|]. by apply HE.
  - apply Update_ok in Eu. destruct (inv_grant s h key n d Hn Eu Hi) as [Hi' Hl].
    split; [done|]. split; [cbn; lia|]. split; [by apply Hj'|]. exists None. split; [|by apply HQ].
    split; [done|]. unfold guarded, the_db. cbn. by rewrite Hl.
Qed.

Lemma wp_mark at_ commit key o since Q : J o -> J (o ++ [Marked at_ key]) ->
  (since <= at_ -> Q (o ++ [Marked at_ key]) None at_ None) ->
  (forall e, since <= at_ -> Q o None at_ (Some e)) ->
  WP J (db_Update_at at_ commit (spend_tx at_ key) (fun z => [Marked z key])) o None since Q.
Proof.
  intros Hj Hj' HQ HE. start_action. destruct (reads at_ s) eqn:Ez; [|done].
  pose proof (inv_set_now s h at_ Ez Hi) as Hi0. unfold reads in Ez. apply andb_true_iff in Ez as [Ez1 Ez2]. breflect.
  unfold transaction in Hf. cbn in Hf.
  destruct (Update _ _ _) as [d [e|]] eqn:Eu; injection Hf as <- <- <-.
  - rewrite !app_nil_r. apply Update_err in Eu as ->. destruct s as [t m sl nw]. destruct t.
    split; [done|]. split; [cbn in *; lia|]. split; [done|]. exists None. split; [done|]. apply HE. cbn in *; lia.
  - apply Update_ok in Eu. destruct (inv_mark (set_now s at_) h key d Eu Hi0) as [Hi' Hl].
    split; [done|]. split; [cbn; lia|]. split; [done|]. exists None. split; [|apply HQ; lia].
    split; [done|]. unfold guarded, the_db. cbn. by rewrite Hl.
Qed.

Lemma wp_store prune n c g o since Q : J o -> J (o ++ [Handed n]) ->
  (forall z, since <= z -> Q (o ++ [Handed n]) (Some g) z true) ->
  (forall z, since <= z -> Q o (Some g) z false) ->
  WP J (store_challenge prune n c) o (Some g) since Q.
Proof.
  intros Hj Hj' HT HF. start_action. destruct (Hheld _ eq_refl) as [Hm Hg].
  set (live := filter _ _) in Hf. pose proof (inv_room _ _ Hi) as Hr.
  assert (size live <= size (challenges (authority s)))%nat by apply map_subseteq_size, map_filter_subseteq.
  assert (forall m, one (bool_decide (is_Some (live !! m))) <= one (bool_decide (is_Some (challenges (authority s) !! m)))) as Hl.
  { intros m. case_bool_decide as H1; case_bool_decide as H2; cbn; try done. destruct H1 as [x [H1 _]%map_lookup_filter_Some].
    by destruct H2. }
  destruct (Z.of_nat (size live) >=? 256) eqn:E; injection Hf as <- <- <-; breflect.
  - split; [|split; [cbn; lia|]; rewrite app_nil_r; split; [done|]; exists (Some g); split; [by split|by apply HF]].
    apply inv_challenges; [lia| |by intros ? ?%not_elem_of_nil|done]. intros m. cbn [total]. specialize (Hl m). lia.
  - split; [|split; [cbn; lia|]; split; [done|]; exists (Some g); split; [by split|by apply HT]].
    apply inv_challenges; [rewrite map_size_insert; destruct (live !! n); cbn; lia| | |done].
    + intros m. cbn [total w_taken w_handed]. specialize (Hl m). destruct (bool_decide_reflect (n = m)) as [->|Hne]; cbn [one].
      * rewrite lookup_insert_eq, (bool_decide_true (is_Some (Some c))) by done. clear Hl. unfold one. by case_bool_decide.
      * rewrite lookup_insert_ne by done. lia.
    + intros ev ->%list_elem_of_singleton. eauto.
Qed.

Lemma wp_take n g o since Q : J o -> J (o ++ [Taken n]) ->
  (forall z c, since <= z -> Q (o ++ [Taken n]) (Some g) z (Some c)) ->
  (forall z, since <= z -> Q o (Some g) z None) ->
  WP J (take_challenge n) o (Some g) since Q.
Proof.
  intros Hj Hj' HT HF. start_action. destruct (Hheld _ eq_refl) as [Hm Hg]. injection Hf as <- <- <-.
  assert (forall evs, (forall m, total (w_handed m) evs = 0) ->
    (forall m, total (w_taken m) evs = one (bool_decide (n = m) && bool_decide (is_Some (challenges (authority s) !! n)))) ->
    (forall ev, ev ∈ evs -> exists m, ev = Handed m \/ ev = Taken m) ->
    ticket_inv (set_authority s (set_challenges (authority s) (delete n (challenges (authority s))))) (h ++ evs)) as Hinv.
  { intros evs H1 H2 H3. apply inv_challenges; [| |done..].
    - pose proof (inv_room _ _ Hi). pose proof (map_subseteq_size _ _ (delete_subseteq (challenges (authority s)) n)). lia.
    - intros m. rewrite H1, H2. destruct (bool_decide_reflect (n = m)) as [->|]; cbn [andb].
      + rewrite lookup_delete_eq. cbn. lia.
      + rewrite lookup_delete_ne by done. cbn. lia. }
  destruct (challenges (authority s) !! n) as [c|] eqn:Ec.
  - split; [|split; [cbn; lia|]; split; [done|]; exists (Some g); split; [by split|by apply HT]].
    apply Hinv; [done| |intros ev ->%list_elem_of_singleton; eauto].
    intros m. cbn. destruct (bool_decide (n = m)); done.
  - split; [|split; [cbn; lia|]; rewrite app_nil_r; split; [done|]; exists (Some g); split; [by split|by apply HF]].
    apply Hinv; [done| |by intros ? ?%not_elem_of_nil]. intros m. cbn. by rewrite andb_false_r.
Qed.

Lemma wp_try_acquire o since Q : J o -> J (o ++ [Acquired]) ->
  (forall z, since <= z -> Q (o ++ [Acquired]) None z true) -> (forall z, since <= z -> Q o None z false) ->
  WP J try_acquire o None since Q.
Proof.
  intros Hj Hj' HT HF. start_action. destruct (slots s >=? 8) eqn:E; injection Hf as <- <- <-; breflect.
  - rewrite !app_nil_r. split; [done|]. split; [lia|]. split; [done|]. exists None. split; [done|by apply HF].
  - split; [apply inv_slot; [by left|done|lia|done]|]. split; [cbn; lia|]. split; [done|].
    exists None. split; [done|by apply HT].
Qed.

Lemma wp_release o since Q : J (o ++ [Released]) -> (forall z, since <= z -> Q (o ++ [Released]) None z tt) ->
  WP J release_slot o None since Q.
Proof.
  intros Hj HQ. start_action. injection Hf as <- <- <-.
  split; [apply inv_slot; [by right|cbn; lia| |done]; pose proof (inv_slots _ _ Hi); lia|].
  split; [cbn; lia|]. split; [done|]. exists None. split; [done|by apply HQ].
Qed.

(** ** descriptor *)

(** The events that [J] does not restrict. *)
Definition plain (ev : event) : Prop :=
  match ev with
  | KeyUsed _ _ | Taken _ | Marked _ _ => True
  | Granted _ _ n => 0 <= n
  | _ => False
  end.
Context (J_plain : forall o ev, plain ev -> J o -> J (o ++ [ev])).

Lemma wp_load_key env n epoch g o since Q : J o ->
  (forall z r, since <= z -> Q o (Some g) z r) -> WP J (load_key policy env n epoch) o (Some g) since Q.
Proof.
  intros Hj HQ. unfold load_key. destruct (d_view env); [by apply HQ|]. cbv zeta.
  apply wp_bind, wp_look; [done|]. intros t z Hz _. destruct (_ >? 0); [by apply HQ|].
  destruct (epoch =? n); [|by apply HQ]. destruct (d_generated env); [|by apply HQ].
  apply wp_bind, wp_put_key; [done|]. intros z' err Hz'. apply HQ. lia.
Qed.

Lemma wp_descriptor env epoch o since Q : J o ->
  (forall z err, since <= z -> Q o None z (Err err)) ->
  (forall z k, since <= d_now env <= z -> epoch <= epoch_of (d_now env) < epoch + 12 ->
     Q (o ++ [KeyUsed epoch k]) None z (Ok (make_descriptor policy epoch k, k))) ->
  WP J (go_descriptor policy env epoch) o None since Q.
Proof.
  intros Hj HE HQ. unfold go_descriptor. apply wp_bind, wp_lock; [done|]. intros [ks l] z1 Hz1.
  apply wp_bind, wp_time; [done|]. intros Hz2 Hera. cbv zeta.
  assert (forall g z e, since <= z -> WP J (unlock;; mret (Err e)) o (Some g) z Q) as Hfail.
  { intros g z e Hz. apply wp_bind, wp_unlock; [done|]. intros. apply HE. lia. }
  destruct (_ || _) eqn:Ew; [apply Hfail; lia|]. apply orb_false_iff in Ew as [Ew1 Ew2]. breflect.
  pose proof (epoch_of_range _ Hera) as Her.
  apply wp_bind, wp_advance; [done|lia| |intros; apply Hfail; lia]. intros z3 Hz3.
  apply wp_bind, wp_look; [done|]. intros t z4 Hz4 Hk. rewrite (Hk _ eq_refl). cbn [fst]. clear t Hk.
  assert (forall ks' z k, ks' !! epoch = Some k -> d_now env <= z ->
    WP J (forget (epoch_of (d_now env)) epoch k;; unlock;; mret (Ok (make_descriptor policy epoch k, k)))
       o (Some (ks', epoch_of (d_now env))) z Q) as Hok.
  { intros ks' z k Hks Hz. apply wp_bind, wp_forget; [by apply J_plain|done|lia|]. intros g z5 Hz5.
    apply wp_bind, wp_unlock; [by apply J_plain|]. intros. apply HQ; lia. }
  destruct (ks !! epoch) as [k|] eqn:Ek; [by apply Hok; [|lia]|].
  apply wp_bind, wp_bind, wp_load_key; [done|]. intros z5 [k|e] Hz5; [|by apply Hfail; lia].
  apply wp_bind, wp_remember; [done..|]. intros z6 Hz6. apply Hok; [by rewrite lookup_insert_eq|lia].
Qed.

End Rules.
End Invariant.

(** ** Calls *)

Section Calls.
  Context {B : Bucket} {BO : BucketOk B} {Hs : Hashes} {C : Crypto}.
  Context (policy : policy_id) (d0 : ticket_db).
  Abbreviation WP J := (wp mu guarded now (ticket_inv d0) J).

(** One if the call asks for a challenge and draws this nonce. *)
Definition drew (n : gostring) (c : ticket_call) : Z :=
  match c with
  | CallHandle env rq =>
    match h_nonce env with
    | Some bs => one (bool_decide (rq_Path rq = str "/challenge") && bool_decide (hex_EncodeToString bs = n))
    | None => 0
    end
  | CallRedeem _ _ => 0
  end.

Definition counts_up (ev : event) : Prop := match ev with Granted _ _ n => 0 <= n | _ => True end.

(** What a call's own events always satisfy. *)
Definition own_ok (c : ticket_call) (o : list event) : Prop :=
  (forall n, total (w_handed n) o <= drew n c) /\ 0 <= total w_slot o <= 1 /\ Forall counts_up o.

(** The descriptor and the proof in a request's body. *)
Definition request_of (rq : request) : option (ticketDescriptor * relayProof) :=
  raw ← rq_Body rq; v ← strictJSON input_type raw;
  d ← in_Descriptor (as_input v); p ← in_Proof (as_input v); Some (d, p).

(** What an answer says about the events of its call. *)
Definition reply_ok (rq : request) (o : list event) (rp : reply) : Prop :=
  match rp with
  | CatalogReply d => exists k, KeyUsed (Epoch d) k ∈ o /\ d = make_descriptor policy (Epoch d) k
  | SignaturesReply out =>
    exists d p z, request_of rq = Some (d, p) /\ Taken (pf_Nonce p) ∈ o
      /\ Granted z (quota_key (Epoch d) (pf_AuthorAddress p)) (len out) ∈ o /\ epoch_of z - 12 < Epoch d
  | _ => True
  end.
Definition redeem_ok (env : redeem_env) (raw : gostring) (o : list event) (r : result ticket_error (gostring * Z)) : Prop :=
  match r with
  | Ok (id, until) =>
    exists v z, strictJSON ticket_type raw = Some v
      /\ let e := tk_Epoch (as_ticket v) in
         Marked z (spent_key e id) ∈ o /\ (r_end1 env < until -> epoch_of z - 12 < e)
  | Err _ => True
  end.
Definition call_post (c : ticket_call) (o : list event) (out : outcome) : Prop :=
  total w_slot o = 0
  /\ match c, out with
     | CallHandle _ rq, Replied rp => reply_ok rq o rp
     | CallRedeem env raw, Redeemed r => redeem_ok env raw o r
     | _, _ => False
     end.

Lemma plain_counts ev : plain ev -> (forall n, w_handed n ev = 0) /\ w_slot ev = 0 /\ counts_up ev.
Proof. by destruct ev. Qed.

Lemma own_ok_plain c o ev : plain ev -> own_ok c o -> own_ok c (o ++ [ev]).
Proof.
  intros (H1 & H2 & H3)%plain_counts (H4 & H5 & H6). split_and!.
  - intros n. rewrite total_app. cbn [total]. rewrite H1. specialize (H4 n). lia.
  - rewrite total_app. cbn [total]. lia.
  - rewrite total_app. cbn [total]. lia.
  - apply Forall_app. split; [done|]. by constructor.
Qed.

(** Inside [handle], before a challenge is stored. *)
Definition in_handle (c : ticket_call) (o : list event) : Prop :=
  own_ok c o /\ total w_slot o = 1 /\ forall n, total (w_handed n) o = 0.

Lemma in_handle_plain c o ev : plain ev -> in_handle c o -> in_handle c (o ++ [ev]).
Proof.
  intros Hp (H1 & H2 & H3). split; [by apply own_ok_plain|]. apply plain_counts in Hp as (H4 & H5 & _).
  split; [|intros n]; rewrite total_app; cbn [total]; [rewrite H5, H2; done|by rewrite H4, H3].
Qed.

(** The postcondition of the part of [handle] that holds a slot. *)
Definition handled (c : ticket_call) (rq : request) (o : list event) (held : option (gmap Z rsa_key * Z)) (_ : Z) (rp : reply) : Prop :=
  held = None /\ own_ok c o /\ total w_slot o = 1 /\ reply_ok rq o rp.

Lemma refused c rq o z rp : in_handle c o -> match rp with CatalogReply _ | SignaturesReply _ => False | _ => True end ->
  handled c rq o None z rp.
Proof. intros (H1 & H2 & _) Hr. split_and!; try done; try apply H1. by destruct rp. Qed.

Lemma wp_challenge env rq o since d binding : in_handle (CallHandle env rq) o -> rq_Path rq = str "/challenge" ->
  WP (own_ok (CallHandle env rq)) (go_challenge env d binding) o None since (handled (CallHandle env rq) rq).
Proof.
  intros Hin Hpath. pose proof Hin as (Hj & Hsl & Hh). unfold go_challenge. destruct (h_nonce env) as [nonce|] eqn:En; [|by apply refused].
  cbv zeta. apply wp_bind, wp_time; [done|]. intros _ _. apply wp_bind, wp_lock; [done|]. intros g z _.
  apply wp_bind, wp_time; [done|]. intros _ _.
  assert (own_ok (CallHandle env rq) (o ++ [Handed (hex_EncodeToString nonce)])) as Hj'.
  { split_and!; [intros n; rewrite total_app, Hh; cbn [total w_handed drew]; rewrite En, (bool_decide_true _ Hpath); cbn [andb]; lia|rewrite total_app; cbn; lia..|].
    apply Forall_app. split; [apply Hj|by repeat constructor]. }
  apply wp_bind, wp_store; [done..| |].
  - intros z1 _. apply wp_bind, wp_unlock; [done|]. intros z2 _. split_and!; try done; try apply Hj'.
    rewrite total_app. cbn. lia.
  - intros z1 _. apply wp_bind, wp_unlock; [done|]. intros z2 _. by apply refused.
Qed.

Lemma wp_signatures env rq o since d p blinded : in_handle (CallHandle env rq) o ->
  request_of rq = Some (d, p) -> Taken (pf_Nonce p) ∈ o ->
  WP (own_ok (CallHandle env rq)) (go_signatures policy env d blinded (pf_AuthorAddress p)) o None since (handled (CallHandle env rq) rq).
Proof.
  intros Hin Hrq Hn. unfold go_signatures. destruct (mem_err _); [by apply refused|].
  destruct (negb _); [by apply refused|]. destruct (_ >? _); [by apply refused|]. cbv zeta.
  assert (forall z key, in_handle (CallHandle env rq) (o ++ [Granted z key (len blinded)])) as Hg
    by (intros; apply in_handle_plain; [apply len_nonneg|done]).
  apply wp_bind, wp_grant; [apply Hin|apply len_nonneg|intros; apply Hg| |intros; by apply refused].
  intros z1 _. apply wp_bind, wp_descriptor; [apply own_ok_plain|apply Hg|intros; by apply refused|].
  intros z2 k [Hz2 _] Hw. destruct (sign_all k blinded) as [out|] eqn:Es; [|apply refused; [by apply in_handle_plain|done]].
  assert (in_handle (CallHandle env rq) ((o ++ [Granted z1 (quota_key (Epoch d) (pf_AuthorAddress p)) (len blinded)]) ++ [KeyUsed (Epoch d) k])) as (Hj & Hsl & _)
    by by apply in_handle_plain.
  split_and!; try done; try apply Hj. exists d, p, z1. split; [done|].
  split; [rewrite !elem_of_app; auto|]. split.
  - unfold len. rewrite (sign_all_length _ _ _ Es). rewrite !elem_of_app, !list_elem_of_singleton. auto.
  - pose proof (epoch_of_mono _ _ Hz2). lia.
Qed.

Lemma wp_request env rq o since : in_handle (CallHandle env rq) o ->
  WP (own_ok (CallHandle env rq)) (go_request policy env rq) o None since (handled (CallHandle env rq) rq).
Proof.
  intros Hin. unfold go_request. destruct (negb _); [by apply refused|].
  destruct (rq_Body rq) as [raw|] eqn:Er; [|by apply refused]. destruct (_ >? 8192); [by apply refused|].
  destruct (strictJSON input_type raw) as [v|] eqn:Ev; [|by apply refused]. cbv zeta.
  apply wp_bind, wp_time; [apply Hin|]. intros _ _.
  apply wp_bind, wp_descriptor; [apply own_ok_plain|apply Hin|intros; by apply refused|]. intros z k _ _.
  set (d := make_descriptor _ _ _). apply (in_handle_plain _ _ (KeyUsed (epoch_of (h_now env)) k) I) in Hin.
  set (o' := o ++ _) in *. destruct (bool_decide _).
  { destruct Hin as (Hj & Hsl & _). split_and!; try done; try apply Hj. exists k. split; [|done].
    unfold o'. rewrite elem_of_app, list_elem_of_singleton. by right. }
  destruct (negb _); [by apply refused|]. destruct (_ || _) eqn:Eb; [by apply refused|].
  apply orb_false_iff in Eb as [[Eb _]%orb_false_iff _]. apply negb_false_iff, bool_decide_eq_true in Eb.
  destruct (negb _); [by apply refused|]. destruct (bool_decide_reflect (rq_Path rq = str "/challenge")) as [Hpath|_]; [by apply wp_challenge|].
  destruct (in_Proof (as_input v)) as [p|] eqn:Ep; [|by apply refused]. destruct (negb _); [by apply refused|].
  unfold go_issue. apply wp_bind, wp_lock; [apply Hin|]. intros g z1 _.
  assert (in_handle (CallHandle env rq) (o' ++ [Taken (pf_Nonce p)])) as Ht by by apply in_handle_plain.
  apply wp_bind, wp_take; [apply Hin|apply Ht| |].
  - intros z2 c _. apply wp_bind, wp_unlock; [apply Ht|]. intros z3 _. apply wp_bind, wp_time; [apply Ht|]. intros _ _.
    destruct (negb _); [by apply refused|]. destruct (negb _); [by apply refused|].
    apply wp_signatures; [done| |rewrite elem_of_app, list_elem_of_singleton; by right].
    unfold request_of, mbind, option_bind. by rewrite Er, Ev, Eb, Ep.
  - intros z2 _. apply wp_bind, wp_unlock; [apply Hin|]. intros z3 _. apply wp_bind, wp_time; [apply Hin|]. intros _ _.
    by apply refused.
Qed.

Lemma wp_handle env rq since : WP (own_ok (CallHandle env rq)) (go_handle policy env rq) [] None since
  (fun o held _ rp => held = None /\ total w_slot o = 0 /\ reply_ok rq o rp).
Proof.
  assert (forall n, 0 <= drew n (CallHandle env rq)) as Hd
    by (intros n; cbn; destruct (h_nonce env); [unfold one; by destruct (_ && _)|done]).
  assert (in_handle (CallHandle env rq) [Acquired]) as Ha by (split; [|done]; split_and!; [apply Hd|done..|by repeat constructor]).
  unfold go_handle. apply wp_bind, wp_try_acquire; [split_and!; [apply Hd|done..|constructor]|apply Ha| |done].
  intros z _. cbn [negb]. apply wp_bind. eapply wp_mono; [|by apply wp_request].
  intros o held z' rp _ (-> & Hj & Hsl & Hr). apply wp_bind, wp_release.
  - destruct Hj as (H1 & H2 & H3). split_and!; [intros n; rewrite total_app; cbn [total w_handed]; specialize (H1 n); lia|rewrite total_app; cbn; lia..|].
    apply Forall_app. split; [done|by repeat constructor].
  - intros z'' _. split_and!; [done|rewrite total_app; cbn; lia|].
    destruct rp as [| | |out]; cbn in *; [done| |done|].
    + destruct Hr as (k & Hk & Hd'). exists k. rewrite elem_of_app. auto.
    + destruct Hr as (d & p & z1 & H1 & H2 & H3 & H4). exists d, p, z1. rewrite !elem_of_app. auto.
Qed.

Lemma wp_redeem env raw since : WP (own_ok (CallRedeem env raw)) (go_redeem policy env raw) [] None since
  (fun o held _ r => held = None /\ total w_slot o = 0 /\ redeem_ok env raw o r).
Proof.
  assert (own_ok (CallRedeem env raw) []) as Hj by (split_and!; [done..|constructor]).
  unfold go_redeem. destruct (_ >? 2048); [done|]. destruct (strictJSON ticket_type raw) as [v|] eqn:Ev; [|done]. cbv zeta.
  set (e := tk_Epoch (as_ticket v)).
  apply wp_bind, wp_descriptor; [apply own_ok_plain|done|done|]. intros z k _ _. cbn [app].
  set (o := [KeyUsed e k]). assert (own_ok (CallRedeem env raw) o) as Hj1 by (by apply (own_ok_plain _ [])).
  apply wp_bind, wp_time; [done|]. intros _ Hera. destruct (ticket_id _ _ _ _) as [id|]; [|done].
  assert (own_ok (CallRedeem env raw) (o ++ [Marked (r_clean env) (spent_key e id)])) as Hj2 by by apply own_ok_plain.
  apply wp_bind, wp_mark; [done..| |done]. intros Hz0. apply wp_bind, wp_time; [done|]. intros Hz1 _.
  apply wp_bind, wp_time; [done|]. intros Hz2 _. split_and!; [done..|]. exists v, (r_clean env). split; [done|].
  cbv zeta. fold e. split; [rewrite elem_of_app, list_elem_of_singleton; by right|].
  intros Hlive. unfold make_descriptor in Hlive. cbn [ExpiresAt] in Hlive.
  assert (UnixMilli (r_end2 env) < (e * 3600 + ticketLifetime) * 1000) as Hx by lia.
  unfold epoch_of, Unix, UnixMilli, ticketLifetime, Second in *. clear -Hz0 Hz1 Hz2 Hx Hera.
  assert (0 <= r_clean env / 1000000000 < (e + 12) * 3600) as Hs' by dlia.
  enough (Z.quot (r_clean env / 1000000000) 3600 < e + 12) by lia. dlia.
Qed.

Lemma call_ok c since : WP (own_ok c) (go_call policy c) [] None since (fun o held _ out => held = None /\ call_post c o out).
Proof.
  destruct c as [env rq|env raw]; apply wp_bind.
  - eapply wp_mono; [|apply wp_handle]. by intros o held z rp _ (-> & H1 & H2).
  - eapply wp_mono; [|apply wp_redeem]. by intros o held z rp _ (-> & H1 & H2).
Qed.

Lemma own_ok_nil c : own_ok c [].
Proof.
  split_and!; [|done..|constructor]. intros n. cbn. destruct c as [env rq|]; [|done]. cbn.
  destruct (h_nonce env); [unfold one; by destruct (_ && _)|done].
Qed.

End Calls.

(** ** Reachable pools *)

Section Promises.
  Context {B : Bucket} {BO : BucketOk B} {Hs : Hashes} {C : Crypto}.
  Context (policy : policy_id).

Abbreviation ticket_pool := (@pool system event ticket_call outcome).
Abbreviation ticket_running := (@running system event ticket_call outcome).

(** A process starts with a well-formed database and no challenges. *)
Definition starts (t : ticketAuthority) (z : Z) : Prop :=
  db_ok (db t) /\ challenges t = ∅ /\ plausible z.
Definition start_pool (t : ticketAuthority) (z : Z) : ticket_pool := {| shared := resting t z; history := []; calls := [] |}.

(** The calls that have come and gone, in any order and any interleaving. *)
Definition reachable (t : ticketAuthority) (z : Z) (p : ticket_pool) : Prop :=
  rtc (pool_step (go_call policy)) (start_pool t z) p.

(** The tickets a call gave to an account for an hour. *)
Definition issued (e : Z) (address : gostring) (r : ticket_running) : Z :=
  match call r, answer_of r with
  | CallHandle _ rq, Some (Replied (SignaturesReply out)) =>
    match request_of rq with
    | Some (d, p) => if (Epoch d =? e) && bool_decide (pf_AuthorAddress p = address) then len out else 0
    | None => 0
    end
  | _, _ => 0
  end.

(** One if a call accepted the ticket for a time that had not run out. *)
Definition admitted (e : Z) (id : gostring) (r : ticket_running) : Z :=
  match call r, answer_of r with
  | CallRedeem env raw, Some (Redeemed (Ok (id', until))) =>
    match strictJSON ticket_type raw with
    | Some v => one (bool_decide (id' = id) && (tk_Epoch (as_ticket v) =? e) && (r_end1 env <? until))
    | None => 0
    end
  | _, _ => 0
  end.

(** One if a call signed tickets for a proof with this nonce. *)
Definition signed (n : gostring) (r : ticket_running) : Z :=
  match call r, answer_of r with
  | CallHandle _ rq, Some (Replied (SignaturesReply _)) =>
    match request_of rq with
    | Some (_, p) => one (bool_decide (pf_Nonce p = n))
    | None => 0
    end
  | _, _ => 0
  end.

Lemma start_inv t z : starts t z -> ticket_inv (db t) (resting t z) [].
Proof.
  intros (Hd & Hc & Hz). constructor; try done.
  - cbn. by rewrite Hc.
  - intros n. cbn. rewrite Hc, lookup_empty. done.
  - by intros e k Hk%not_elem_of_nil.
  - by intros e k k' Hk%not_elem_of_nil.
  - intros e a He. cbv zeta. pose proof (quota_count_typed _ (epoch_key e a) Hd). unfold count0. cbn [total].
    split; [lia|intros _]. change (the_db (resting t z)) with (db t). lia.
  - intros e a He. by left.
Qed.

Abbreviation good t := (pool_ok mu guarded now (ticket_inv (db t)) own_ok (call_post policy)).

Lemma races_reachable t z p : starts t z -> reachable t z p -> good t p.
Proof.
  intros Hst Hr. exact (pool_reachable _ _ _ _ _ _ _ own_ok_nil (call_ok policy (db t)) _ p (start_inv t z Hst) eq_refl Hr).
Qed.

Lemma answered t p r out : good t p -> r ∈ calls p -> answer_of r = Some out -> call_post policy (call r) (own r) out.
Proof. apply answer_ok. Qed.

Lemma w_granted_nonneg e key o : Forall counts_up o -> Forall (fun ev => 0 <= w_granted e key ev) o.
Proof. apply List.Forall_impl. intros [] H; cbn in *; try done. by destruct (_ && _). Qed.

Lemma own_counts t p r : good t p -> r ∈ calls p -> own_ok (call r) (own r).
Proof.
  intros (_ & _ & helds & Hr & _) Hin. apply list_elem_of_lookup in Hin as [i Hi].
  destruct (Forall2_lookup_l _ _ _ _ _ Hr Hi) as (held & _ & Hj & _). done.
Qed.

(** C3: Single use under concurrency.  Any number of requests for tickets and of
redemptions run at once, interleaved action by action in any order, with commits
that may fail and a clock that does not go back.  Whatever they are, at most one
redemption accepts a given ticket (its hour and identifier) until a time that is
not past when it returns.  (A redemption whose hour runs out between its checks and
its transaction can accept a ticket again, but only until a time already past.) *)
Theorem concurrent_single_use t z p e id : starts t z -> reachable t z p -> epoch_range e ->
  total (admitted e id) (calls p) <= 1.
Proof.
  intros Hst Hr He. pose proof (races_reachable _ _ _ Hst Hr) as Hg.
  transitivity (total (w_marked e (epoch_key e id)) (history p)).
  - eapply pool_count; [exact Hg|]. intros r Hin. unfold admitted. pose proof (answered t p r) as Ha.
    assert (Forall (fun ev => 0 <= w_marked e (epoch_key e id) ev) (own r)) as Hnn
      by (apply Forall_forall; intros [] _; cbn; try done; unfold one; by destruct (_ && _)).
    pose proof (total_nonneg _ _ Hnn). destruct (call r) as [|env raw] eqn:Ec; [done|].
    destruct (answer_of r) as [[|[[id' until]|]]|] eqn:Eo; try done.
    specialize (Ha _ Hg Hin eq_refl). destruct Ha as [_ (v & z1 & Ev & Hm & Hlive)]. rewrite Ev.
    destruct (bool_decide_reflect (id' = id)) as [->|]; [|done]. destruct (_ =? e) eqn:E1; [|done]. breflect. subst e.
    destruct (r_end1 env <? until) eqn:E2; [|done]. breflect. specialize (Hlive E2).
    eapply Z.le_trans; [|by eapply total_elem]. cbn. rewrite bool_decide_true by done.
    by rewrite (proj2 (Z.ltb_lt _ _) Hlive).
  - destruct Hg as (Hi & _). destruct (inv_spent _ _ _ Hi e id He) as [->|[-> _]]; lia.
Qed.

(** The quota of an account. *)
Lemma quota_holds t z p e address : starts t z -> reachable t z p -> epoch_range e ->
  quota_count (quota_bucket (db t)) (quota_key e address) + total (issued e address) (calls p) <= 24.
Proof.
  intros Hst Hr He. pose proof (races_reachable _ _ _ Hst Hr) as Hg.
  set (key := quota_key e address). transitivity (count0 (db t) key + total (w_granted e key) (history p)).
  - apply Zplus_le_compat_l. eapply pool_count; [exact Hg|]. intros r Hin. unfold issued. pose proof (answered t p r) as Ha.
    pose proof (w_granted_nonneg e key _ (proj2 (proj2 (own_counts _ _ _ Hg Hin)))) as Hnn. pose proof (total_nonneg _ _ Hnn).
    destruct (call r) as [env rq|] eqn:Ec; [|done]. destruct (answer_of r) as [[[| | |out]|]|] eqn:Eo; try done.
    specialize (Ha _ Hg Hin eq_refl). destruct Ha as [_ (d & pf & z1 & Erq & _ & Hm & Hlive)]. rewrite Erq.
    destruct (Epoch d =? e) eqn:E1; [|done]. breflect. subst e. destruct (bool_decide_reflect (pf_AuthorAddress pf = address)) as [<-|]; [|done].
    eapply Z.le_trans; [|by eapply total_elem]. cbn -[len]. rewrite bool_decide_true by done.
    by rewrite (proj2 (Z.ltb_lt _ _) Hlive).
  - destruct Hg as (Hi & _). apply (inv_quota _ _ _ Hi e (hex_EncodeToString (sha256 address)) He).
Qed.

(** A challenge is answered once. *)
Lemma challenge_once t z p n : starts t z -> reachable t z p ->
  total (signed n) (calls p) <= total (fun r => drew n (call r)) (calls p).
Proof.
  intros Hst Hr. pose proof (races_reachable _ _ _ Hst Hr) as Hg.
  transitivity (total (w_taken n) (history p)); [|transitivity (total (w_handed n) (history p))].
  - eapply pool_count; [exact Hg|]. intros r Hin. unfold signed. pose proof (answered t p r) as Ha.
    assert (Forall (fun ev => 0 <= w_taken n ev) (own r)) as Hnn
      by (apply Forall_forall; intros [] _; cbn; try done; unfold one; by destruct (bool_decide _)).
    pose proof (total_nonneg _ _ Hnn). destruct (call r) as [env rq|] eqn:Ec; [|done].
    destruct (answer_of r) as [[[| | |out]|]|] eqn:Eo; try done.
    specialize (Ha _ Hg Hin eq_refl). destruct Ha as [_ (d & pf & z1 & Erq & Ht & _)]. rewrite Erq.
    by apply (total_elem _ _ _ Hnn Ht).
  - destruct Hg as (Hi & _). pose proof (inv_nonce _ _ _ Hi n). unfold one in *. destruct (bool_decide _); lia.
  - pose proof Hg as (_ & Hp & _). rewrite (total_perm _ _ _ Hp), total_concat. apply total_le, Forall_forall.
    intros r Hin. apply (own_counts _ _ _ Hg Hin).
Qed.

(** C11: Issuing under concurrency.  However many requests run at once and however
they are interleaved, the tickets an account has been given for an hour, in all the
answers so far and on top of what the database had recorded, are at most 24; and
the answers with signatures for a nonce are at most as many as the challenges that
were requested and drew it, so each challenge is answered with signatures at most
once. *)
Theorem concurrent_issuing t z p : starts t z -> reachable t z p ->
  (forall e address, epoch_range e ->
     quota_count (quota_bucket (db t)) (quota_key e address) + total (issued e address) (calls p) <= 24)
  /\ forall n, total (signed n) (calls p) <= total (fun r => drew n (call r)) (calls p).
Proof. intros Hst Hr. split; [intros; by eapply quota_holds|intros; by eapply challenge_once]. Qed.

(** The calls that hold a slot. *)
Definition in_slot (r : ticket_running) : Z := total w_slot (own r).

Lemma resources_held t z p : starts t z -> reachable t z p ->
  let s := shared p in
  Forall (fun r => 0 <= in_slot r <= 1) (calls p) /\ slots s = total in_slot (calls p) /\ 0 <= slots s <= 8
  /\ Z.of_nat (size (challenges (authority s))) <= 256
  /\ (Forall (fun r => is_Some (answer_of r)) (calls p) -> mu s = false /\ slots s = 0).
Proof.
  intros Hst Hr s. pose proof (races_reachable _ _ _ Hst Hr) as Hg. pose proof Hg as (Hi & Hp & _).
  assert (Forall (fun r => 0 <= in_slot r <= 1) (calls p)) as Hsl
    by (apply Forall_forall; intros r Hin; apply (own_counts _ _ _ Hg Hin)).
  assert (slots s = total in_slot (calls p)) as Hs'
    by (unfold s; rewrite (proj1 (inv_slots _ _ _ Hi)), (total_perm _ _ _ Hp), total_concat; done).
  split; [done|]. split; [done|]. split.
  { split; [|apply (inv_slots _ _ _ Hi)]. rewrite Hs'. apply total_nonneg. eapply List.Forall_impl; [|exact Hsl]. cbn. lia. }
  split; [apply (inv_room _ _ _ Hi)|]. intros Hd. split; [by eapply quiescent_unlocked|]. rewrite Hs'.
  enough (forall l, Forall (fun r => in_slot r = 0) l -> total in_slot l = 0) as Hz.
  { apply Hz, Forall_forall. intros r Hin. rewrite Forall_forall in Hd. destruct (Hd r Hin) as [out Ho].
    apply (answered _ _ _ _ Hg Hin Ho). }
  induction 1 as [|r l H0 _ IH]; cbn; lia.
Qed.

(** One key for an hour. *)
Lemma one_key t z p r1 r2 d1 d2 : starts t z -> reachable t z p ->
  r1 ∈ calls p -> r2 ∈ calls p ->
  answer_of r1 = Some (Replied (CatalogReply d1)) -> answer_of r2 = Some (Replied (CatalogReply d2)) ->
  Epoch d1 = Epoch d2 -> d1 = d2.
Proof.
  intros Hst Hr H1 H2 A1 A2 He. pose proof (races_reachable _ _ _ Hst Hr) as Hg.
  assert (forall r d, r ∈ calls p -> answer_of r = Some (Replied (CatalogReply d)) ->
    exists k, KeyUsed (Epoch d) k ∈ history p /\ d = make_descriptor policy (Epoch d) k) as Hk.
  { intros r d Hin Ha. pose proof (answered _ _ _ _ Hg Hin Ha) as [_ Hq]. destruct (call r); [|done].
    destruct Hq as (k & Hk & Hd). exists k. split; [|done]. destruct Hg as (_ & Hp & _). rewrite Hp.
    apply list_elem_of_join. eauto using list_elem_of_fmap_2. }
  destruct (Hk _ _ H1 A1) as (k1 & K1 & D1), (Hk _ _ H2 A2) as (k2 & K2 & D2). destruct Hg as (Hi & _).
  rewrite He in K1. pose proof (inv_agree _ _ _ Hi _ _ _ K1 K2) as <-. rewrite D1, D2. by rewrite He.
Qed.

(** The shared state under concurrency.  In every interleaving of any number
of calls: the slots taken are exactly those of the calls inside [handle], at most
eight; at most 256 challenges are stored; when all calls have returned the mutex is
free and every slot is back; and any two answers that describe the same hour are
equal, so two first requests of an hour never make two keys. *)
Theorem concurrent_state t z p : starts t z -> reachable t z p ->
  let s := shared p in
  Forall (fun r => 0 <= in_slot r <= 1) (calls p) /\ slots s = total in_slot (calls p) /\ 0 <= slots s <= 8
  /\ Z.of_nat (size (challenges (authority s))) <= 256
  /\ (Forall (fun r => is_Some (answer_of r)) (calls p) -> mu s = false /\ slots s = 0)
  /\ forall r1 r2 d1 d2, r1 ∈ calls p -> r2 ∈ calls p ->
     answer_of r1 = Some (Replied (CatalogReply d1)) -> answer_of r2 = Some (Replied (CatalogReply d2)) ->
     Epoch d1 = Epoch d2 -> d1 = d2.
Proof.
  intros Hst Hr s. destruct (resources_held t z p Hst Hr) as (H1 & H2 & H3 & H4 & H5).
  do 5 (split; [assumption|]). intros r1 r2 d1 d2. exact (one_key t z p r1 r2 d1 d2 Hst Hr).
Qed.

End Promises.

(** ** Samples *)

Abbreviation ticket_pool := (@pool system event ticket_call outcome).

Lemma sample_starts : starts sample_authority (at_second 0).
Proof. split; [apply empty_db_ok|]. split; [done|]. by vm_compute. Qed.

Definition sample_pool : ticket_pool := start_pool sample_authority (at_second 0).
Definition both (n : nat) : list (ticket_call + nat) := mjoin (replicate n [inr 0%nat; inr 1%nat]).

(** Two calls redeem one ticket, action by action in turn: one succeeds. *)
Definition redeem_race : list (ticket_call + nat) :=
  let c := CallRedeem (sample_redeem (at_second 10)) (ticket_text sample_hour 9) in
  inl c :: inl c :: both 25.
Definition redeem_raced : ticket_pool := run (go_call sample_policy) redeem_race sample_pool.
Definition ticket_hash (b : Z) : gostring :=
  let keyId := KeyID (make_descriptor sample_policy sample_hour 42) in
  hex_EncodeToString (sha256 (ticketDomain ++ keyId ++ replicate 32 b)).

Definition finished (p : ticket_pool) : Z := total (fun r => one (bool_decide (is_Some (answer_of r)))) (calls p).

Lemma concurrent_single_use_witness :
  finished redeem_raced = 2 /\ total (admitted sample_hour (ticket_hash 9)) (calls redeem_raced) = 1
  /\ total (admitted sample_hour (ticket_hash 9)) (calls redeem_raced) <= 1.
Proof.
  split; [vm_compute; reflexivity|]. split; [vm_compute; reflexivity|].
  apply (concurrent_single_use sample_policy sample_authority (at_second 0) redeem_raced sample_hour (ticket_hash 9)).
  - exact sample_starts.
  - apply run_steps.
  - vm_compute. split; [discriminate|reflexivity].
Defined.

(** The hour runs out between the checks of the second call and its transaction:
the ticket's record is gone and it is accepted again, until a time that is past. *)
Definition last_second (s : Z) : Z := at_second (12 * 3600 + s).
Definition late_redeem : redeem_env :=
  {| r_desc := sample_desc (last_second (-2)); r_check := last_second (-1); r_clean := last_second 1;
     r_commit := None; r_end1 := last_second 2; r_end2 := last_second 2 |}.
Definition lapsed : ticket_pool := run (go_call sample_policy)
  (inl (CallRedeem (sample_redeem (at_second 10)) (ticket_text sample_hour 9))
   :: inl (CallRedeem late_redeem (ticket_text sample_hour 9)) :: replicate 25 (inr 0%nat) ++ replicate 25 (inr 1%nat)) sample_pool.

Example lapsed_runs :
  total (fun r => match answer_of r with Some (Redeemed (Ok _)) => 1 | _ => 0 end) (calls lapsed) = 2
  /\ total (admitted sample_hour (ticket_hash 9)) (calls lapsed) = 1.
Proof. vm_compute. done. Qed.

(** A challenge, and two answers to it at once. *)
Definition no_nonce (env : handle_env) : handle_env :=
  {| h_slots_used := h_slots_used env; h_now := h_now env; h_desc := h_desc env; h_nonce := None;
     h_challenge_now := h_challenge_now env; h_prune_now := h_prune_now env; h_prune_end := h_prune_end env; h_issue_now := h_issue_now env;
     h_membership := h_membership env; h_recheck := h_recheck env; h_commit := h_commit env; h_desc2 := h_desc2 env |}.
Definition issue_race : list (ticket_call + nat) :=
  let env := sample_handle (at_second 20) in
  let issue := CallHandle (no_nonce env) issue_request in
  inl (CallHandle env (post "/challenge" (sample_body None))) :: replicate 20 (inr 0%nat)
  ++ inl issue :: inl issue :: mjoin (replicate 40 [inr 1%nat; inr 2%nat]).
Definition issue_raced : ticket_pool := run (go_call sample_policy) issue_race sample_pool.
Definition nonce_text : gostring := hex_EncodeToString sample_nonce.

Lemma issue_raced_reachable : reachable sample_policy sample_authority (at_second 0) issue_raced.
Proof. apply run_steps. Qed.

Lemma concurrent_issuing_witness :
  finished issue_raced = 3 /\ total (signed nonce_text) (calls issue_raced) = 1
  /\ total (issued sample_hour (addressForKey author_key)) (calls issue_raced) = 1
  /\ total (signed nonce_text) (calls issue_raced) <= total (fun r => drew nonce_text (call r)) (calls issue_raced)
  /\ quota_count (quota_bucket empty_db) (quota_key sample_hour (addressForKey author_key))
     + total (issued sample_hour (addressForKey author_key)) (calls issue_raced) <= 24.
Proof.
  split; [vm_compute; reflexivity|]. split; [vm_compute; reflexivity|]. split; [vm_compute; reflexivity|].
  destruct (concurrent_issuing sample_policy sample_authority (at_second 0) issue_raced sample_starts issue_raced_reachable) as [Hq Hn].
  split; [apply Hn|]. apply (Hq sample_hour (addressForKey author_key)). vm_compute. split; [discriminate|reflexivity].
Defined.

(** Two requests for the catalogue at the start of an hour. *)
Definition catalog_call (k : Z) : ticket_call :=
  CallHandle {| h_slots_used := 0; h_now := at_second 5;
      h_desc := {| d_now := at_second 5; d_commit := None; d_view := None; d_generated := Some k; d_commit_key := None |};
      h_nonce := None; h_challenge_now := 0; h_prune_now _ := 0; h_prune_end := 0; h_issue_now := 0; h_membership _ := answer true 0;
      h_recheck _ := answer true 0; h_commit := None; h_desc2 := sample_desc 0 |} (post "/catalog" (str "{}")).
Definition catalog_raced : ticket_pool :=
  run (go_call sample_policy) (inl (catalog_call 42) :: inl (catalog_call 43) :: both 25) sample_pool.
Definition catalog_answer (i : nat) (p : ticket_pool) : option ticketDescriptor :=
  r ← calls p !! i; match answer_of r with Some (Replied (CatalogReply d)) => Some d | _ => None end.

Lemma catalog_answer_inv i p d : catalog_answer i p = Some d ->
  exists r, r ∈ calls p /\ answer_of r = Some (Replied (CatalogReply d)).
Proof.
  unfold catalog_answer. intros H. apply bind_Some in H as (r & Hr & H). exists r. split; [by eapply list_elem_of_lookup_2|].
  by destruct (answer_of r) as [[[]|]|]; simplify_eq.
Qed.

Lemma concurrent_state_witness :
  exists d1 d2, catalog_answer 0 catalog_raced = Some d1 /\ catalog_answer 1 catalog_raced = Some d2 /\ d1 = d2.
Proof.
  assert (match catalog_answer 0 catalog_raced, catalog_answer 1 catalog_raced with
          | Some d1, Some d2 => Epoch d1 =? Epoch d2
          | _, _ => false
          end = true) as H by (vm_compute; reflexivity).
  destruct (catalog_answer 0 catalog_raced) as [d1|] eqn:E1; [|discriminate H].
  destruct (catalog_answer 1 catalog_raced) as [d2|] eqn:E2; [|discriminate H].
  exists d1, d2. split; [reflexivity|]. split; [reflexivity|].
  destruct (catalog_answer_inv _ _ _ E1) as (r1 & R1 & A1), (catalog_answer_inv _ _ _ E2) as (r2 & R2 & A2).
  destruct (concurrent_state sample_policy sample_authority (at_second 0) catalog_raced sample_starts (run_steps _ _ _))
    as (_ & _ & _ & _ & _ & Hk).
  exact (Hk r1 r2 d1 d2 R1 R2 A1 A2 (proj1 (Z.eqb_eq _ _) H)).
Defined.
