(* ===== verification/Authorize.v ===== *)
(** * Authorization of connections

[connectionContext], [connectionAuthorization.expire] and
[accessPolicy.authorize] of [internal/relay/access.go]: how many connections are
accepted, how a connection becomes authorized by redeeming a ticket, and the
timer that closes it when the authorization ends. *)

From stdpp Require Import base gmap list numbers.
From Stdlib Require Import ZArith Lia String.
From S2P Require Import Prelude.
From S2P Require Import GoStrings.
From S2P Require Import Netip.
From S2P Require Import Base58.
From S2P Require Import AccessConfig.
From S2P Require Import Membership.
From S2P Require Import Sessions.
From S2P Require Import Bolt.
From S2P Require Import Tickets.
From S2P Require Import Samples.
From S2P Require Import TicketSpend.

Local Open Scope Z_scope.

(** [sourceHost] of [internal/relay/server.go]. *)
Definition sourceHost (value : gostring) : gostring :=
  match SplitHostPort value with
  | Some (host, _) => if bool_decide (host = []) then value else host
  | None => value
  end.

(** ** Connection admission *)

Record conn_counts := {
  connectionCount : Z;
  connections : gmap gostring Z;
}.

Definition new_conn_counts : conn_counts := {| connectionCount := 0; connections := ∅ |}.

(** The locked region of [connectionContext]; [false] means the connection is
closed with code 0x515203. *)
Definition admit_connection (p : conn_counts) (source : gostring) : conn_counts * bool :=
  if (connectionCount p >=? 512) || (map_get (connections p) source >=? 32) then (p, false)
  else ({| connectionCount := connectionCount p + 1;
           connections := <[source := map_get (connections p) source + 1]> (connections p) |}, true).

(** The function run once when the connection's context ends. *)
Definition leave_connection (p : conn_counts) (source : gostring) : conn_counts :=
  let m := <[source := map_get (connections p) source - 1]> (connections p) in
  {| connectionCount := connectionCount p - 1;
     connections := if map_get m source =? 0 then delete source m else m |}.

(** ** The authorization of a connection *)

Record connectionAuthorization := {
  has_conn : bool;
  authorizedUntil : Z;
  address : gostring;
  timer : option (Z * Z);      (** deadline and generation of the last timer *)
  attempts : Z;
  timerGeneration : Z;
}.

(** Go's zero time, before every clock reading. *)
Definition zero_time : Z := - 62135596800 * Second.

Definition expired_code : Z := 0x515202.
Definition capacity_code : Z := 0x515203.

(** The authorization [connectionContext] attaches to an admitted connection. *)
Definition new_authorization (mode : gostring) (now : Z) : connectionAuthorization :=
  {| has_conn := true; authorizedUntil := zero_time; address := [];
     timer := if same mode groups then Some (now + 15 * Second, 1) else None;
     attempts := 0; timerGeneration := if same mode groups then 1 else 0 |}.

(** The check of [expire]. *)
Definition expire_due (a : connectionAuthorization) (generation : Z) : bool := timerGeneration a =? generation.

(** The request headers [authorize] reads. *)
Record auth_request := {
  hdr_Proof : gostring;
  hdr_Renew : gostring;
  hdr_Ticket : gostring;
}.

Inductive auth_reply :=
| Allowed (account : gostring) (expires : option Z)
| Rejected (status : Z) (code : gostring).

Section Authorize.
  Context {B : Bucket} {Hs : Hashes} {C : Crypto}.

(** Readings of one call: the clock at the freshness test, and what [redeem]
needs. *)
Record auth_env := {
  a_now : Z;
  a_redeem : redeem_env;
}.

(** Count the attempt; [None] means too many. *)
Definition count_attempt (a : connectionAuthorization) : connectionAuthorization * bool :=
  let a := {| has_conn := has_conn a; authorizedUntil := authorizedUntil a; address := address a;
              timer := timer a; attempts := attempts a + 1; timerGeneration := timerGeneration a |} in
  (a, attempts a >? 8).

(** After a ticket has been redeemed: a new generation, and a timer for it. *)
Definition renew (a : connectionAuthorization) (id : gostring) (until : Z) : connectionAuthorization :=
  let generation := timerGeneration a + 1 in
  {| has_conn := has_conn a; authorizedUntil := until; address := str "ticket:" ++ id;
     timer := if has_conn a then Some (until, generation) else timer a;
     attempts := 0; timerGeneration := generation |}.

Definition authorize (mode : gostring) (policy : policy_id) (env : auth_env)
  (a : option connectionAuthorization) (tickets : option ticketAuthority) (r : auth_request)
  : option connectionAuthorization * option ticketAuthority * auth_reply :=
  if same mode public then (a, tickets, Allowed [] None)
  else match a, tickets with
  | Some a0, Some t =>
    if negb (same (hdr_Proof r) []) then (a, tickets, Rejected 403 (str "RELAY_PROOF_INVALID"))
    else if (a_now env <? authorizedUntil a0) && negb (same (hdr_Renew r) (str "1")) then
      (a, tickets, Allowed (address a0) (Some (UnixMilli (authorizedUntil a0))))
    else if same (hdr_Ticket r) [] then (a, tickets, Rejected 401 (str "RELAY_AUTH_REQUIRED"))
    else
      let '(a1, too_many) := count_attempt a0 in
      if too_many then (Some a1, tickets, Rejected 429 (str "RELAY_AUTH_RATE_LIMITED"))
      else match redeem policy (a_redeem env) t (hdr_Ticket r) with
      | (t, Err _) => (Some a1, Some t, Rejected 403 (str "RELAY_PROOF_INVALID"))
      | (t, Ok (id, until)) =>
        let a2 := renew a1 id until in
        (Some a2, Some t, Allowed (address a2) (Some (UnixMilli until)))
      end
  | _, _ => (a, tickets, Rejected 503 (str "RELAY_AUTH_UNAVAILABLE"))
  end.

End Authorize.

(** ** Connection limits *)

Definition conn_represents (p : conn_counts) (live : list gostring) : Prop :=
  connectionCount p = len live /\ len live <= 512 /\ counted 32 (connections p) live.

Lemma admit_represents p live source : conn_represents p live ->
  match admit_connection p source with
  | (p', true) => conn_represents p' (source :: live)
  | (p', false) => p' = p /\ (len live = 512 \/ count source live = 32)
  end.
Proof.
  intros (H1 & H4 & Hc). unfold admit_connection. rewrite (counted_get _ _ _ Hc), H1.
  destruct (len live >=? 512) eqn:E1; breflect; [split; [done|left; lia]|]. cbn [orb].
  destruct (count source live >=? 32) eqn:E2; breflect.
  { split; [done|]. right. pose proof (counted_limit _ _ _ Hc source). lia. }
  unfold conn_represents. cbn. rewrite len_cons. split_and!; [lia..|].
  rewrite <- (counted_get _ _ _ Hc). by apply counted_add.
Qed.

(** Decrementing and then deleting a zero is deleting at one. *)
Lemma leave_map m source : 1 <= map_get m source ->
  (let m' := <[source := map_get m source - 1]> m in if map_get m' source =? 0 then delete source m' else m')
  = if map_get m source <=? 1 then delete source m else <[source := map_get m source - 1]> m.
Proof.
  intros H. cbv zeta. rewrite map_get_insert, bool_decide_true by done.
  destruct (Z.eqb_spec (map_get m source - 1) 0), (Z.leb_spec (map_get m source) 1); try lia; [|done].
  apply delete_insert_eq.
Qed.

Lemma leave_represents p live source : conn_represents p (source :: live) ->
  conn_represents (leave_connection p source) live.
Proof.
  intros (H1 & H4 & Hc). rewrite len_cons in *. unfold conn_represents. cbn [connectionCount leave_connection].
  split_and!; [lia..|]. unfold leave_connection. cbn [connections].
  pose proof (counted_get _ _ _ Hc source) as Hg. rewrite count_cons, bool_decide_true in Hg by done.
  pose proof (count_nonneg source live). rewrite leave_map by lia. by apply counted_sub.
Qed.

Inductive conn_step : conn_counts * list gostring -> conn_counts * list gostring -> Prop :=
| conn_admit p p' live source : admit_connection p source = (p', true) -> conn_step (p, live) (p', source :: live)
| conn_refuse p p' live source : admit_connection p source = (p', false) -> conn_step (p, live) (p', live)
| conn_leave p live live' source : live ≡ₚ source :: live' -> conn_step (p, live) (leave_connection p source, live').

#[export] Instance conn_represents_perm p : Proper (Permutation ==> iff) (conn_represents p).
Proof. intros l k H. unfold conn_represents. by rewrite (len_perm l k H), H. Qed.

(** C14: Connection limits.  Over any interleaving of new and ending connections
at most 512 are served at once and at most 32 per source address, the counters
are exact, and the per-source map holds exactly the sources with a connection. *)
Theorem connection_limits p live :
  rtc conn_step (new_conn_counts, []) (p, live) ->
  connectionCount p = len live /\ len live <= 512
  /\ (forall source, map_get (connections p) source = count source live /\ count source live <= 32)
  /\ (forall source, source ∈ dom (connections p) <-> source ∈ live).
Proof.
  intros Hr.
  assert (conn_represents p live) as (H1 & H4 & [H2 H3 H5]).
  { change p with (fst (p, live)). change live with (snd (p, live)) at 2.
    revert Hr. generalize (p, live). refine (rtc_ind_r _ _ _ _).
    - split; [done|]. split; [done|]. by apply counted_empty.
    - intros [p1 l1] [p2 l2] _ Hstep IH. cbn in *.
      inversion Hstep as [???? Ha|???? Ha|???? Hp]; subst.
      + pose proof (admit_represents p1 l1 source IH) as H. by rewrite Ha in H.
      + pose proof (admit_represents p1 l2 source IH) as H. rewrite Ha in H. by destruct H as [-> _].
      + apply leave_represents. by rewrite <- Hp. }
  split_and!; [done..|]. intros source. by rewrite elem_of_dom.
Qed.

Lemma connection_limits_witness :
  connectionCount (leave_connection (fst (admit_connection new_conn_counts [7])) [7]) = 0.
Proof.
  apply (connection_limits _ []).
  eapply rtc_l; [by apply (conn_admit _ (fst (admit_connection new_conn_counts [7])) [] [7])|].
  eapply rtc_l; [by apply (conn_leave _ [[7]] [] [7])|]. apply rtc_refl.
Defined.

(** ** What authorizes a request *)

Section Sound.
  Context {B : Bucket} {Hs : Hashes} {C : Crypto}.

(** C8: A request in groups mode is allowed only on a connection whose
authorization has not ended, or by a ticket redeemed in this very call (within
the eight attempts allowed); a request that carries an account proof is never
allowed; and in both cases the account is the anonymous ticket identifier of the
connection, its deadline the one the redemption gave. *)
Theorem authorize_sound policy env a tickets r a' tickets' account expires :
  authorize groups policy env a tickets r = (a', tickets', Allowed account expires) ->
  hdr_Proof r = []
  /\ exists a0 t, a = Some a0 /\ tickets = Some t
  /\ (a_now env < authorizedUntil a0 /\ hdr_Renew r <> str "1" /\ a' = a /\ tickets' = tickets
      /\ account = address a0 /\ expires = Some (UnixMilli (authorizedUntil a0))
      \/ exists id until t', redeem policy (a_redeem env) t (hdr_Ticket r) = (t', Ok (id, until))
         /\ attempts a0 < 8 /\ tickets' = Some t' /\ account = str "ticket:" ++ id
         /\ expires = Some (UnixMilli until)
         /\ exists a1, a' = Some a1 /\ address a1 = account /\ authorizedUntil a1 = until /\ attempts a1 = 0
            /\ timerGeneration a1 = timerGeneration a0 + 1
            /\ (has_conn a0 = true -> timer a1 = Some (until, timerGeneration a1))).
Proof.
  unfold authorize. change (same groups public) with false. cbv iota.
  destruct a as [a0|], tickets as [t|]; [|done..].
  destruct (same_spec (hdr_Proof r) []) as [Hp|]; [|done]. cbn [negb].
  intros H. split; [done|]. exists a0, t. split; [done|]. split; [done|].
  destruct (a_now env <? authorizedUntil a0) eqn:El; breflect.
  - destruct (same_spec (hdr_Renew r) (str "1")) as [Hr|Hr]; cbn [negb andb] in H; cycle 1.
    { injection H as <- <- <- <-. left. done. }
    destruct (same_spec (hdr_Ticket r) []); [done|]. cbv beta iota zeta delta [count_attempt] in H.
    cbn [attempts] in H. destruct (_ >? 8) eqn:E8 in H; [done|].
    destruct (redeem _ _ _ _) as [t' [[id until]|]] eqn:Er; [|done]. injection H as <- <- <- <-. breflect.
    right. exists id, until, t'. split_and!; try done; [lia|]. eexists. split; [reflexivity|]. cbn. split_and!; try done.
    by intros ->.
  - destruct (same_spec (hdr_Ticket r) []); [done|]. cbv beta iota zeta delta [count_attempt] in H.
    cbn [attempts andb] in H. destruct (_ >? 8) eqn:E8 in H; [done|].
    destruct (redeem _ _ _ _) as [t' [[id until]|]] eqn:Er; [|done]. injection H as <- <- <- <-. breflect.
    right. exists id, until, t'. split_and!; try done; [lia|]. eexists. split; [reflexivity|]. cbn. split_and!; try done.
    by intros ->.
Qed.
End Sound.

Definition sample_auth (now : Z) : auth_env := {| a_now := now; a_redeem := sample_redeem now |}.
Definition with_ticket (raw : gostring) : auth_request := {| hdr_Proof := []; hdr_Renew := []; hdr_Ticket := raw |}.
Definition fresh_connection : connectionAuthorization := new_authorization groups (at_second 8).

Lemma authorize_sound_witness :
  exists a' t' account expires,
    authorize groups sample_policy (sample_auth (at_second 10)) (Some fresh_connection) (Some sample_authority)
      (with_ticket first_text) = (a', t', Allowed account expires) /\ hdr_Proof (with_ticket first_text) = [].
Proof.
  assert (match snd (authorize groups sample_policy (sample_auth (at_second 10)) (Some fresh_connection)
    (Some sample_authority) (with_ticket first_text)) with Allowed _ _ => true | _ => false end = true) as Hok
    by (vm_compute; reflexivity).
  destruct (authorize groups sample_policy (sample_auth (at_second 10)) (Some fresh_connection)
    (Some sample_authority) (with_ticket first_text)) as [[a' t'] rp] eqn:E.
  destruct rp as [account expires|]; [|discriminate Hok].
  exists a', t', account, expires. split; [reflexivity|].
  exact (proj1 (authorize_sound _ _ _ _ _ _ _ _ _ E)).
Defined.

(** ** Guessing is limited *)

Section Attempts.
  Context {B : Bucket} {Hs : Hashes} {C : Crypto}.

(** A sequence of calls on one connection: how often [redeem] is called, and
whether some call is allowed. *)
Record auth_call := {
  ac_policy : policy_id;
  ac_env : auth_env;
  ac_request : auth_request;
}.

(** Whether a call reaches [redeem]. *)
Definition reaches_redeem (env : auth_env) (a : connectionAuthorization) (r : auth_request) : bool :=
  same (hdr_Proof r) [] && negb ((a_now env <? authorizedUntil a) && negb (same (hdr_Renew r) (str "1")))
  && negb (same (hdr_Ticket r) []) && negb (snd (count_attempt a)).

Fixpoint redemptions (calls : list auth_call) (a : connectionAuthorization) (t : ticketAuthority) : Z :=
  match calls with
  | [] => 0
  | c :: calls =>
    let n := if reaches_redeem (ac_env c) a (ac_request c) then 1 else 0 in
    match authorize groups (ac_policy c) (ac_env c) (Some a) (Some t) (ac_request c) with
    | (Some a', Some t', Rejected _ _) => n + redemptions calls a' t'
    | (_, _, Allowed _ _) => 0       (* a success ends the run of failures *)
    | _ => n
    end
  end.

Lemma authorize_failure policy env a t r a' t' status code :
  authorize groups policy env (Some a) (Some t) r = (Some a', Some t', Rejected status code) ->
  if reaches_redeem env a r then attempts a' = attempts a + 1 /\ attempts a < 8
  else attempts a <= attempts a'.
Proof.
  unfold authorize, reaches_redeem, count_attempt. change (same groups public) with false. cbv iota zeta. cbn [snd attempts].
  destruct (same (hdr_Proof r) []); cbn [negb andb]; [|intros [= <- <- <- <-]; lia].
  destruct (_ && _); cbn [negb andb]; [done|].
  destruct (same (hdr_Ticket r) []); cbn [negb andb]; [intros [= <- <- <- <-]; lia|].
  destruct (_ >? 8) eqn:E; cbn [negb]; [intros [= <- <- <- <-]; cbn; lia|]. breflect.
  destruct (redeem _ _ _ _) as [t1 [[id until]|]]; [done|]. intros [= <- <- <- <-]. cbn. lia.
Qed.

(** Ticket guessing is limited per connection.  Between successes a
connection triggers at most eight redemptions, however many requests it sends
and whatever they contain. *)
Theorem attempts_limited calls a t :
  0 <= attempts a -> redemptions calls a t <= Z.max 0 (8 - attempts a).
Proof.
  revert a t. induction calls as [|c calls IH]; intros a t Ha; cbn [redemptions]; [lia|].
  destruct (authorize _ _ _ _ _ _) as [[a' t'] rp] eqn:E.
  assert (reaches_redeem (ac_env c) a (ac_request c) = true -> attempts a < 8) as Hr.
  { unfold reaches_redeem, count_attempt. cbn [snd attempts]. intros H. apply andb_prop in H as [_ H].
    breflect. lia. }
  destruct a' as [a1|], t' as [t1|], rp as [acc ex|st code]; try lia;
    try (destruct (reaches_redeem _ _ _); [specialize (Hr eq_refl)|]; lia).
  apply authorize_failure in E. destruct (reaches_redeem _ _ _); [destruct E as [E1 E2]|];
    specialize (IH a1 t1 ltac:(lia)); lia.
Qed.
End Attempts.

Lemma attempts_limited_witness :
  redemptions (replicate 20 {| ac_policy := sample_policy; ac_env := sample_auth (at_second 10);
                               ac_request := with_ticket (str "{}") |}) fresh_connection sample_authority = 8
  /\ redemptions (replicate 20 {| ac_policy := sample_policy; ac_env := sample_auth (at_second 10);
                               ac_request := with_ticket (str "{}") |}) fresh_connection sample_authority <= 8.
Proof.
  split; [vm_compute; reflexivity|].
  apply (attempts_limited (replicate 20 {| ac_policy := sample_policy; ac_env := sample_auth (at_second 10);
    ac_request := with_ticket (str "{}") |}) fresh_connection sample_authority). by vm_compute.
Defined.

(** ** The expiry timer

Timers run in their own goroutines.  [armed] are the timers that have not run
yet; [timer.Stop] removes one only if it has not started, so a timer whose
deadline has passed may survive it.  [expire] reads the generation and closes the
connection in two steps. *)

Record lifetime := {
  la : connectionAuthorization;
  clock : Z;
  armed : list (Z * Z);
  (** the check of [expire] has passed: when, and the deadline current then *)
  closing : option (Z * Z);
  conn_closed : bool;
}.

(** The end of the current authorization (at first the 15 seconds of grace). *)
Definition deadline (a : connectionAuthorization) : Z := match timer a with Some (d, _) => d | None => zero_time end.

Definition lifetime_start (now : Z) : lifetime :=
  {| la := new_authorization groups now; clock := now; armed := [(now + 15 * Second, 1)];
     closing := None; conn_closed := false |}.

(** What is left after [Stop] on the last timer: it, unless it may have started. *)
Definition stops (l : lifetime) (armed' : list (Z * Z)) : Prop :=
  match timer (la l) with
  | Some tm => armed l ≡ₚ tm :: armed' \/ armed' = armed l /\ (fst tm <= clock l \/ tm ∉ armed l)
  | None => armed' = armed l
  end.

Inductive lifetime_step (l : lifetime) : lifetime -> Prop :=
| lt_tick now : clock l <= now ->
    lifetime_step l {| la := la l; clock := now; armed := armed l; closing := closing l; conn_closed := conn_closed l |}
| lt_fail : (* a refused attempt *)
    lifetime_step l {| la := fst (count_attempt (la l)); clock := clock l; armed := armed l;
                       closing := closing l; conn_closed := conn_closed l |}
| lt_renew id until armed' :
    stops l armed' ->
    let a := renew (fst (count_attempt (la l))) id until in
    lifetime_step l {| la := a; clock := clock l; armed := (until, timerGeneration a) :: armed';
                       closing := closing l; conn_closed := conn_closed l |}
| lt_fire d g rest :
    armed l ≡ₚ (d, g) :: rest -> d <= clock l ->
    lifetime_step l {| la := la l; clock := clock l; armed := rest;
                       closing := if expire_due (la l) g then Some (clock l, deadline (la l)) else closing l;
                       conn_closed := conn_closed l |}
| lt_close : closing l <> None ->
    lifetime_step l {| la := la l; clock := clock l; armed := armed l; closing := closing l; conn_closed := true |}.

Record lifetime_inv (l : lifetime) : Prop := {
  li_conn : has_conn (la l) = true;
  li_timer : timer (la l) = Some (deadline (la l), timerGeneration (la l));
  li_armed : Forall (fun t => snd t <= timerGeneration (la l)
                     /\ (snd t = timerGeneration (la l) -> fst t = deadline (la l))) (armed l);
  li_live : closing l <> None \/ (deadline (la l), timerGeneration (la l)) ∈ armed l;
  li_closing : match closing l with Some (t, d) => d <= t <= clock l | None => True end;
  li_closed : conn_closed l = true -> closing l <> None;
}.

Lemma stops_sub l armed' : stops l armed' -> forall t, t ∈ armed' -> t ∈ armed l.
Proof.
  unfold stops. destruct (timer (la l)) as [tm|]; [|by intros ->].
  intros [H|[-> _]] t Ht; [rewrite H; by right|done].
Qed.

Lemma lifetime_step_inv l l' : lifetime_step l l' -> lifetime_inv l -> lifetime_inv l'.
Proof.
  intros Hs [H1 H2 H3 H4 H5 H6]. destruct Hs as [now Hn| |id until armed' Hst a|d g rest Hp Hd|Hc]; try (by split).
  - split; cbn; try done. destruct (closing l) as [[t d]|]; [lia|done].
  - split; cbn; try done.
    + unfold a, renew. cbn. rewrite H1. done.
    + unfold a, renew. cbn. rewrite H1. cbn. constructor; [split; [cbn; lia|done]|].
      apply List.Forall_forall. intros [d g] Ht. apply list_elem_of_In, (stops_sub l armed' Hst), list_elem_of_In in Ht.
      rewrite List.Forall_forall in H3. destruct (H3 _ Ht) as [Hg _]. cbn in *. split; [lia|]. intros. lia.
    + right. unfold a, renew, deadline. cbn. rewrite H1. left.
  - assert (snd (d, g) <= timerGeneration (la l) /\ (snd (d, g) = timerGeneration (la l) -> fst (d, g) = deadline (la l))
            /\ Forall (fun t => snd t <= timerGeneration (la l)
                     /\ (snd t = timerGeneration (la l) -> fst t = deadline (la l))) rest) as (Hg1 & Hg2 & Hr).
    { rewrite Hp in H3. inversion H3 as [|?? [??] ?]; subst. done. }
    cbn in Hg1, Hg2. unfold expire_due.
    destruct (Z.eqb_spec (timerGeneration (la l)) g) as [Hg|Hg].
    + specialize (Hg2 (eq_sym Hg)). split; cbn; try done; [by left|lia].
    + split; cbn; try done. destruct H4 as [H4|H4]; [by left|right].
      rewrite Hp in H4. apply elem_of_cons in H4 as [H4|H4]; [|done]. simplify_eq.
Qed.

(** C9: The expiry timer is neither late nor stale.  In every reachable state of
an admitted connection in groups mode, with timers running at any moment after
their deadline and renewals in between: unless the connection is being closed,
the timer of the current authorization is pending with exactly its deadline, so
that the authorization's end is always enforced; and [expire] lets a connection
be closed only if, at its check, the deadline of the authorization current at
that moment had passed (a timer of an earlier authorization has no effect). *)
Theorem expiry_enforced now l :
  rtc lifetime_step (lifetime_start now) l ->
  (closing l = None -> (deadline (la l), timerGeneration (la l)) ∈ armed l /\ conn_closed l = false)
  /\ (forall t d, closing l = Some (t, d) -> d <= t)
  /\ (conn_closed l = true -> exists t d, closing l = Some (t, d) /\ d <= t <= clock l).
Proof.
  intros Hr. assert (lifetime_inv l) as [H1 H2 H3 H4 H5 H6].
  { revert Hr. refine (rtc_ind_r lifetime_inv _ _ _ l).
    - split; cbn; try done; [by repeat constructor|right; left].
    - intros ?? _ Hs Hi. by eapply lifetime_step_inv. }
  split_and!.
  - intros Hc. destruct H4 as [H4|H4]; [done|]. split; [done|].
    destruct (conn_closed l); [by destruct (H6 eq_refl)|done].
  - intros t d Hc. rewrite Hc in H5. lia.
  - intros Hcl. specialize (H6 Hcl). destruct (closing l) as [[t d]|]; [|done]. by exists t, d.
Qed.

Lemma expiry_enforced_witness :
  conn_closed {| la := new_authorization groups 0; clock := 15 * Second; armed := [];
                 closing := Some (15 * Second, 15 * Second); conn_closed := true |} = true
  /\ exists t d, Some (15 * Second, 15 * Second) = Some (t, d) /\ d <= t <= 15 * Second.
Proof.
  split; [reflexivity|].
  apply (expiry_enforced 0 {| la := new_authorization groups 0; clock := 15 * Second; armed := [];
                 closing := Some (15 * Second, 15 * Second); conn_closed := true |}); [|reflexivity].
  eapply rtc_l; [apply (lt_tick _ (15 * Second)); by vm_compute|].
  eapply rtc_l; [apply (lt_fire _ (15 * Second) 1 []); [done|by vm_compute]|].
  eapply rtc_l; [by apply lt_close|]. apply rtc_refl.
Defined.
