(* ===== verification/ProxyRequest.v ===== *)
(** * CONNECT-UDP requests

[ParseProxyRequest] of [third_party/masque-go/proxy_request.go] and [NewRequest]
of [request.go].  URI templates ([uritemplate]), structured fields ([httpsfv])
and URL parsing are third-party or opaque here and enter as parameters. *)

From stdpp Require Import base list numbers.
From Stdlib Require Import ZArith Lia String.
From S2P Require Import Prelude.
From S2P Require Import GoStrings.
From S2P Require Import Netip.
From S2P Require Import AccessConfig.

Local Open Scope Z_scope.

Definition requestProtocol : gostring := str "connect-udp".

(** The value of a structured field item, as far as the code looks. *)
Inductive sf_item := SFBool (b : bool) | SFOther.

(** What the parsers need of a template. *)
Class Template := {
  template_host : option gostring;             (** host of the parsed raw template *)
  template_match : gostring -> gostring * gostring;  (** target_host and target_port; empty if no match *)
  template_expand : gostring -> gostring -> option gostring;
}.

(** The request fields that are read; [hr_capsule] is absent or the decoded
[Capsule-Protocol] header ([None] when it does not parse). *)
Record http_request := {
  hr_Method : gostring;
  hr_Proto : gostring;
  hr_Host : gostring;
  hr_capsule : option (option sf_item);
  hr_URL : gostring;
}.

Record proxyRequest := {
  pr_Target : gostring;
  pr_Host : gostring;
}.

(** [strconv.Atoi]: a sign is allowed. *)
Definition Atoi (s : gostring) : option Z := ParseInt64 s.

(** An error carries the recommended HTTP status. *)
Definition ParseProxyRequest {T : Template} (r : http_request) : result Z proxyRequest :=
  match template_host with
  | None => Err 500
  | Some host =>
    if negb (same (hr_Method r) (str "CONNECT")) then Err 405
    else if negb (same (hr_Proto r) requestProtocol) then Err 501
    else if negb (same (hr_Host r) host) then Err 400
    else match hr_capsule r with
    | Some None => Err 400
    | Some (Some SFOther) => Err 400
    | Some (Some (SFBool false)) => Err 400
    | _ =>
      let '(targetHost, targetPortStr) := template_match (hr_URL r) in
      if same targetHost [] || same targetPortStr [] then Err 400
      else
        let targetHost := if contains_byte targetHost 58 then str "[" ++ targetHost ++ str "]" else targetHost in
        match Atoi targetPortStr with
        | None => Err 400
        | Some targetPort => Ok {| pr_Target := targetHost ++ str ":" ++ FormatInt targetPort; pr_Host := hr_Host r |}
        end
    end
  end.

(** The request a client makes for a target; the URL is the expanded template. *)
Definition NewRequest {T : Template} (host_of_url : gostring -> option gostring) (target : gostring)
  : option http_request :=
  '(host, port) ← SplitHostPort target;
  url ← template_expand host port;
  h ← host_of_url url;
  Some {| hr_Method := str "CONNECT"; hr_Proto := requestProtocol; hr_Host := h;
          hr_capsule := Some (Some (SFBool true)); hr_URL := url |}.
