(* ===== verification/Certificate.v ===== *)
(** * The relay's certificate

[loadOrCreateCertificate] and [createCertificate] of [internal/relay/server.go]
on the file tree of [Paths], with the parts of [time] and [crypto/x509] they
decide with: adding a year to a date, and [VerifyHostname].  Keys, signatures and
the encodings are the interface [X509], with the documented round trips as its
laws [X509Ok].  Times are nanoseconds since 1970. *)

From stdpp Require Import base gmap list numbers.
From Stdlib Require Import ZArith Lia String.
From S2P Require Import Prelude.
From S2P Require Import GoStrings.
From S2P Require Import Paths.
From S2P Require Import Netip.

Local Open Scope Z_scope.

(** ** Dates *)

Definition day : Z := 86400 * Second.

(** Years are counted from 1 March, so that a leap day ends its year: adding a
year keeps the day of the year, and 29 February becomes 1 March, as [time.Date]
normalises it. *)
Definition year_start (y : Z) : Z := 365 * y + y / 4 - y / 100 + y / 400.
Definition year_of (z : Z) : Z :=
  let doe := z mod 146097 in
  400 * (z / 146097) + (doe - doe / 1460 + doe / 36524 - doe / 146096) / 365.
(** Days since 1970 to days since 1 March of year 0. *)
Definition from_1970 : Z := 719468.

(** [t.AddDate(1, 0, 0)], for a location that is [zone] seconds ahead of UTC now
and [zone'] seconds at the result. *)
Definition AddDate_year (zone zone' t : Z) : Z :=
  let local := t + zone * Second in
  let d := local / day in
  let y := year_of (d + from_1970) in
  (d + (year_start (y + 1) - year_start y)) * day + local mod day - zone' * Second.

(** 29 February 2024, 28 February 2023 and 1 March 2023, at midnight. *)
Example add_year_samples :
  map (fun d => AddDate_year 0 0 (d * day) / day) [19782; 19416; 19417] = [20148; 19781; 19783].
Proof. vm_compute. reflexivity. Qed.

(** ** Host names *)

Definition toLowerCaseASCII (s : gostring) : gostring :=
  map (fun c => if (65 <=? c) && (c <=? 90) then c + 32 else c) s.
Definition TrimSuffix_dot (s : gostring) : gostring :=
  match rev s with 46 :: r => rev r | _ => s end.

(** [first]: at the start of a label, where no hyphen may stand. *)
Definition label_char (first : bool) (c : Z) : bool :=
  ((97 <=? c) && (c <=? 122)) || ((48 <=? c) && (c <=? 57)) || ((65 <=? c) && (c <=? 90))
  || ((c =? 45) && negb first) || (c =? 95) || (c =? 58).
Definition label_ok (part : gostring) : bool :=
  match part with
  | [] => false
  | c :: rest => label_char true c && forallb (label_char false) rest
  end.
Definition validHostname (host : gostring) (isPattern : bool) : bool :=
  let host := if isPattern then host else TrimSuffix_dot host in
  if same host [] || same host (str "*") then false
  else match Split host 46 with
  | [] => false
  | part :: rest => ((isPattern && same part (str "*")) || label_ok part) && forallb label_ok rest
  end.

Fixpoint match_parts (first : bool) (pattern host : list gostring) : bool :=
  match pattern, host with
  | [], [] => true
  | p :: pattern, h :: host => ((first && same p (str "*")) || same p h) && match_parts false pattern host
  | _, _ => false
  end.
Definition matchHostnames (pattern host : gostring) : bool :=
  let pattern := toLowerCaseASCII pattern in
  let host := toLowerCaseASCII (TrimSuffix_dot host) in
  if same pattern [] || same host [] then false else match_parts true (Split pattern 46) (Split host 46).
Definition matchExactly (a b : gostring) : bool :=
  if same a [] || same a (str ".") || same b [] || same b (str ".") then false
  else same (toLowerCaseASCII a) (toLowerCaseASCII b).

(** What a parsed certificate says. *)
Record x509_certificate := {
  x_NotBefore : Z;
  x_NotAfter : Z;
  x_DNSNames : list gostring;
  x_IPAddresses : list Addr;
}.

Definition strip_brackets (h : gostring) : gostring :=
  match h with
  | 91 :: r => match rev r with
               | 93 :: (_ :: _) as m => rev (tail m)
               | _ => h
               end
  | _ => h
  end.

(** [Certificate.VerifyHostname] *)
Definition VerifyHostname (c : x509_certificate) (h : gostring) : bool :=
  match ParseIP (strip_brackets h) with
  | Some ip => existsb (fun a => bool_decide (Unmap a = ip)) (x_IPAddresses c)
  | None =>
    let candidate := toLowerCaseASCII h in
    let valid := validHostname candidate false in
    existsb (fun m => if valid && validHostname m true then matchHostnames m candidate else matchExactly m candidate)
            (x_DNSNames c)
  end.

(** ** Keys and certificates *)

Record cert_template := {
  SerialNumber : Z;
  CommonName : gostring;
  DNSNames : list gostring;
  NotBefore : Z;
  NotAfter : Z;
  KeyUsage : Z;
  ExtKeyUsage : list Z;
}.
Definition KeyUsageDigitalSignature : Z := 1.
Definition ExtKeyUsageServerAuth : Z := 1.

Class X509 := {
  ecdsa_key : Type;
  MarshalPKCS8PrivateKey : ecdsa_key -> option (list Z);
  (** A self-signed certificate, with the random bytes its signature uses. *)
  CreateCertificate : cert_template -> ecdsa_key -> list Z -> option (list Z);
  ParseCertificate : list Z -> option x509_certificate;
  pem_EncodeToMemory : gostring -> list Z -> list Z;
  (** [tls.X509KeyPair] of two PEM texts: the DER certificates, leaf first. *)
  X509KeyPair : list Z -> list Z -> option (list (list Z));
}.

(** A host name that is not an IP address: labels of letters, digits, hyphens and
underscores, no wildcard and no final dot. *)
Definition hostname_ok (name : gostring) : bool :=
  validHostname name true && negb (HasPrefix name (str "*")) && same (TrimSuffix_dot name) name
  && match ParseIP (strip_brackets name) with None => true | Some _ => false end.

Definition seconds_only (t : Z) : Z := t / Second * Second.
Definition type_certificate : gostring := str "CERTIFICATE".
Definition type_key : gostring := str "PRIVATE KEY".

(** A certificate made from a template of host names parses back, with its dates
in whole seconds, and makes a pair with its key. *)
Class X509Ok (X : X509) : Prop := {
  parse_created t k r der : CreateCertificate t k r = Some der -> forallb hostname_ok (DNSNames t) = true ->
    ParseCertificate der = Some {| x_NotBefore := seconds_only (NotBefore t); x_NotAfter := seconds_only (NotAfter t);
                                   x_DNSNames := DNSNames t; x_IPAddresses := [] |};
  pair_created t k r der kd : CreateCertificate t k r = Some der -> MarshalPKCS8PrivateKey k = Some kd ->
    forallb hostname_ok (DNSNames t) = true ->
    X509KeyPair (pem_EncodeToMemory type_certificate der) (pem_EncodeToMemory type_key kd) = Some [der];
}.

Definition octal (u g o : Z) : Z := 64 * u + 8 * g + o.

Inductive cert_error :=
| NoPaths
| NoLeaf
| LoadFailed
| NoKey
| NoSignature
| NoEncoding
| NoDirectory
| NotWritten
| NoPair.

(** [strings.Contains] *)
Fixpoint Contains (s substr : gostring) : bool :=
  HasPrefix s substr || match s with [] => false | _ :: s => Contains s substr end.

Section Certificates.
  Context {X : X509}.

(** What the environment contributes: the system calls, the two clock readings,
the time zone, and the random choices. *)
Record cert_env := {
  ce_os : os_env;
  ce_check : Z;
  ce_now : Z;
  ce_zone : Z;
  ce_zone' : Z;
  ce_key : option ecdsa_key;
  ce_rand : list Z;
  ce_load_text : gostring;     (** the text of the error if the pair cannot be loaded *)
}.

Inductive load_result := Loaded (chain : list (list Z)) | NoSuchFile | LoadError.

(** [tls.LoadX509KeyPair] *)
Definition LoadX509KeyPair (env : os_env) (certFile keyFile : gostring) (w : files) : load_result :=
  match ReadFile env certFile w with
  | Err NotExist => NoSuchFile
  | Err ReadError => LoadError
  | Ok certPEM =>
    match ReadFile env keyFile w with
    | Err NotExist => NoSuchFile
    | Err ReadError => LoadError
    | Ok keyPEM => match X509KeyPair certPEM keyPEM with Some chain => Loaded chain | None => LoadError end
    end
  end.

Definition relay_template (env : cert_env) (serverName : gostring) : cert_template :=
  {| SerialNumber := ce_now env; CommonName := serverName; DNSNames := [serverName];
     NotBefore := ce_now env - 60 * Second; NotAfter := AddDate_year (ce_zone env) (ce_zone' env) (ce_now env);
     KeyUsage := KeyUsageDigitalSignature; ExtKeyUsage := [ExtKeyUsageServerAuth] |}.

(** The chain to present, and the DER of its leaf. *)
Definition createCertificate (env : cert_env) (certPath keyPath serverName : gostring) (w : files)
  : files * result cert_error (list (list Z) * list Z) :=
  match ce_key env with
  | None => (w, Err NoKey)
  | Some key =>
    match CreateCertificate (relay_template env serverName) key (ce_rand env) with
    | None => (w, Err NoSignature)
    | Some der =>
      match MarshalPKCS8PrivateKey key with
      | None => (w, Err NoEncoding)
      | Some keyDER =>
        match MkdirAll (ce_os env) (Dir certPath) (octal 7 0 0) w with
        | (w, false) => (w, Err NoDirectory)
        | (w, true) =>
          match MkdirAll (ce_os env) (Dir keyPath) (octal 7 0 0) w with
          | (w, false) => (w, Err NoDirectory)
          | (w, true) =>
            let certPEM := pem_EncodeToMemory type_certificate der in
            let keyPEM := pem_EncodeToMemory type_key keyDER in
            match WriteFile (ce_os env) certPath certPEM (octal 6 0 0) w with
            | (w, false) => (w, Err NotWritten)
            | (w, true) =>
              match WriteFile (ce_os env) keyPath keyPEM (octal 6 0 0) w with
              | (w, false) => (w, Err NotWritten)
              | (w, true) =>
                (w, match X509KeyPair certPEM keyPEM with Some chain => Ok (chain, der) | None => Err NoPair end)
              end
            end
          end
        end
      end
    end
  end.

Definition loadOrCreateCertificate (env : cert_env) (certPath keyPath serverName : gostring) (w : files)
  : files * result cert_error (list (list Z) * list Z) :=
  if same certPath [] || same keyPath [] then (w, Err NoPaths)
  else match LoadX509KeyPair (ce_os env) certPath keyPath w with
  | Loaded [] => (w, Err NoLeaf)
  | Loaded (leafDER :: rest) =>
    match ParseCertificate leafDER with
    | Some leaf =>
      if (ce_check env + 24 * 3600 * Second <? x_NotAfter leaf) && VerifyHostname leaf serverName
      then (w, Ok (leafDER :: rest, leafDER))
      else createCertificate env certPath keyPath serverName w
    | None => createCertificate env certPath keyPath serverName w
    end
  | NoSuchFile => createCertificate env certPath keyPath serverName w
  | LoadError =>
    if negb (Contains (ce_load_text env) (str "no such file")) then (w, Err LoadFailed)
    else createCertificate env certPath keyPath serverName w
  end.
End Certificates.

(** ** Dates: lemmas *)

Lemma year_length y : 365 <= year_start (y + 1) - year_start y <= 366.
Proof. unfold year_start. dlia. Qed.

(** [year_of] finds the year a day falls in. *)
Lemma year_of_spec z : year_start (year_of z) <= z < year_start (year_of z + 1).
Proof.
  assert (forall d, 0 <= d < 146097 ->
    let y := (d - d / 1460 + d / 36524 - d / 146096) / 365 in year_start y <= d < year_start (y + 1)) as Hera.
  { intros d Hd. cbv zeta. unfold year_start. dlia. }
  pose proof (Z.mod_pos_bound z 146097 ltac:(lia)) as Hm. specialize (Hera _ Hm). cbv zeta in Hera.
  unfold year_of. cbv zeta. set (y := (_ / 365)) in *. set (q := z / 146097).
  assert (forall x, year_start (400 * q + x) = 146097 * q + year_start x) as Hs by (intros x; unfold year_start; dlia).
  replace (400 * q + y + 1) with (400 * q + (y + 1)) by lia. rewrite !Hs.
  pose proof (Z.div_mod z 146097 ltac:(lia)). lia.
Qed.

Lemma AddDate_year_bounds zone zone' t : - 7200 <= zone' - zone <= 7200 ->
  t + 365 * day - 7200 * Second <= AddDate_year zone zone' t <= t + 366 * day + 7200 * Second.
Proof.
  intros Hz. unfold AddDate_year. cbv zeta. remember (t + zone * Second) as local eqn:Hl.
  remember (year_of _) as y. pose proof (year_length y) as Hy. pose proof (Z.div_mod local day ltac:(done)) as Hd.
  remember (local / day) as d. remember (local mod day) as r. unfold day, Second in *. lia.
Qed.

(** ** Host names: lemmas *)

Lemma lower_idem s : toLowerCaseASCII (toLowerCaseASCII s) = toLowerCaseASCII s.
Proof.
  unfold toLowerCaseASCII. rewrite map_map. apply map_ext. intros c.
  destruct ((65 <=? c) && (c <=? 90)) eqn:E; [|by rewrite E]. breflect.
  destruct ((65 <=? c + 32) && (c + 32 <=? 90)) eqn:E'; [|done]. breflect. lia.
Qed.

Lemma lower_nil s : toLowerCaseASCII s = [] -> s = [].
Proof. by destruct s. Qed.

Lemma TrimSuffix_lower s : TrimSuffix_dot s = s -> TrimSuffix_dot (toLowerCaseASCII s) = toLowerCaseASCII s.
Proof.
  unfold TrimSuffix_dot, toLowerCaseASCII. rewrite <- map_rev. intros H.
  destruct (rev s) as [|c r] eqn:Er; [done|]. cbn [map].
  destruct (decide (c = 46)) as [->|Hc].
  - exfalso. apply (f_equal (@List.length Z)) in H. rewrite length_rev in H.
    apply (f_equal (@List.length Z)) in Er. rewrite length_rev in Er. cbn in Er. lia.
  - destruct ((65 <=? c) && (c <=? 90)) eqn:E; breflect; repeat case_match; try done; lia.
Qed.

Lemma match_parts_refl first l : match_parts first l l = true.
Proof. revert first. induction l as [|x l IH]; intros first; [done|]. cbn. destruct (same_spec x x); [|done]. rewrite orb_true_r. apply IH. Qed.

(** A certificate for a host name is valid for that name. *)
Lemma VerifyHostname_self c name : hostname_ok name = true -> x_DNSNames c = [name] -> VerifyHostname c name = true.
Proof.
  intros Hn Hc. unfold hostname_ok in Hn. breflect. unfold VerifyHostname.
  destruct (ParseIP (strip_brackets name)); [done|]. rewrite Hc. cbv zeta. cbn [existsb]. rewrite orb_false_r.
  assert (name <> []) as Hne by (by intros ->).
  assert (TrimSuffix_dot name = name) as Ht by (by destruct (same_spec (TrimSuffix_dot name) name)).
  assert (toLowerCaseASCII name <> []) as Hne' by (intros E; by apply Hne, lower_nil).
  destruct (_ && _).
  - unfold matchHostnames. rewrite TrimSuffix_lower, lower_idem by done.
    destruct (same_spec (toLowerCaseASCII name) []); [done|]. cbn [orb]. apply match_parts_refl.
  - unfold matchExactly. rewrite lower_idem.
    assert (name <> str ".") as Hd by (intros ->; vm_compute in Ht; discriminate).
    assert (toLowerCaseASCII name <> str ".") as Hd'.
    { intros E. change (str ".") with [46] in *. destruct name as [|c1 [|c2 r]]; try done. cbn in E. injection E as E.
      destruct ((65 <=? c1) && (c1 <=? 90)) eqn:E1; breflect; [lia|]. subst c1. by apply Hd. }
    repeat match goal with |- context [same ?a ?b] => destruct (same_spec a b); try done end.
Qed.

(** A certificate without addresses is not valid for an IP address. *)
Lemma VerifyHostname_ip c name ip : ParseIP (strip_brackets name) = Some ip -> x_IPAddresses c = [] ->
  VerifyHostname c name = false.
Proof. intros H Hc. unfold VerifyHostname. by rewrite H, Hc. Qed.

(** ** The certificate over restarts *)

Section Lifecycle.
  Context {X : X509} (certPath keyPath serverName : gostring).

(** The paths the certificate code may change. *)
Definition cert_paths : list gostring :=
  Clean certPath :: Clean keyPath :: ancestors (Dir certPath) ++ ancestors (Dir keyPath).

(** Follow [createCertificate] to the end of the branch at hand. *)
Ltac create_steps H :=
  unfold createCertificate, MkdirAll in H; cbv zeta in H;
  destruct (ce_key _) as [key|] eqn:Ekey; [|first [discriminate H|by injection H as <- <-]];
  destruct (CreateCertificate _ _ _) as [der0|] eqn:Eder; [|first [discriminate H|by injection H as <- <-]];
  destruct (MarshalPKCS8PrivateKey key) as [kd|] eqn:Ekd; [|first [discriminate H|by injection H as <- <-]];
  destruct (mkdirs _ _ (ancestors (Dir certPath)) _) as [w1 ok1] eqn:E1;
  destruct ok1; cycle 1;
  [|destruct (mkdirs _ _ (ancestors (Dir keyPath)) _) as [w2 ok2] eqn:E2; destruct ok2; cycle 1;
    [|destruct (WriteFile _ certPath _ _ _) as [w3 ok3] eqn:E3; destruct ok3; cycle 1;
      [|destruct (WriteFile _ keyPath _ _ _) as [w4 ok4] eqn:E4; destruct ok4; cycle 1]]].

Lemma create_frame env w w' r : createCertificate env certPath keyPath serverName w = (w', r) ->
  agree_outside cert_paths w w'.
Proof.
  intros H. create_steps H; injection H as <- <-;
    try apply mkdirs_frame in E1 as [E1 _]; try apply mkdirs_frame in E2 as [E2 _];
    try apply WriteFile_frame in E3; try apply WriteFile_frame in E4; unfold cert_paths;
    repeat (eapply agree_trans; [eapply agree_mono; [eassumption|set_solver]|]);
    first [apply agree_refl|eapply agree_mono; [eassumption|set_solver]].
Qed.

Lemma create_ok env w w' chain der : Clean certPath <> Clean keyPath ->
  createCertificate env certPath keyPath serverName w = (w', Ok (chain, der)) ->
  exists key kd certMode keyMode,
    CreateCertificate (relay_template env serverName) key (ce_rand env) = Some der
    /\ MarshalPKCS8PrivateKey key = Some kd
    /\ w' !! Clean certPath = Some (Regular (pem_EncodeToMemory type_certificate der) certMode)
    /\ w' !! Clean keyPath = Some (Regular (pem_EncodeToMemory type_key kd) keyMode)
    /\ X509KeyPair (pem_EncodeToMemory type_certificate der) (pem_EncodeToMemory type_key kd) = Some chain
    /\ (w !! Clean keyPath = None -> Z.land keyMode (octal 0 7 7) = 0).
Proof.
  intros Hne H. create_steps H; try discriminate H. injection H as <- Hr.
  destruct (X509KeyPair _ _) as [ch|] eqn:Ep; [|done]. injection Hr as <- <-.
  pose proof (WriteFile_frame _ _ _ _ _ _ _ E4 (Clean certPath) ltac:(set_solver)) as Hc.
  pose proof (WriteFile_frame _ _ _ _ _ _ _ E3 (Clean keyPath) ltac:(set_solver)) as Hk.
  apply WriteFile_ok in E3 as (m1 & H3 & _). apply WriteFile_ok in E4 as (m2 & H4 & Hm).
  exists key, kd, m1, m2. split_and!; try done; [congruence|]. intros Hnone. rewrite Hk in Hm.
  destruct (w2 !! Clean keyPath) as [n|] eqn:En; [|subst m2; by apply ldiff_mode].
  destruct (mkdirs_new _ _ _ _ _ _ _ _ E2 En) as [En'|[mode ->]]; [|done].
  destruct (mkdirs_new _ _ _ _ _ _ _ _ E1 En') as [En''|[mode ->]]; [congruence|done].
Qed.

(** Trees with the same two files, and an environment that can read them. *)
Definition same_pair (w w' : files) : Prop :=
  w' !! Clean certPath = w !! Clean certPath /\ w' !! Clean keyPath = w !! Clean keyPath.
Definition readable (env : cert_env) : Prop :=
  read_fails (ce_os env) certPath = false /\ read_fails (ce_os env) keyPath = false.

Lemma load_again env env2 w w2 chain : same_pair w w2 -> readable env2 ->
  LoadX509KeyPair (ce_os env) certPath keyPath w = Loaded chain ->
  LoadX509KeyPair (ce_os env2) certPath keyPath w2 = Loaded chain.
Proof.
  intros [Hc Hk] [Rc Rk]. unfold LoadX509KeyPair, ReadFile. rewrite Hc, Hk, Rc, Rk.
  destruct (read_fails (ce_os env) certPath); [done|]. destruct (w !! Clean certPath) as [[cert m| | |]|]; try done.
  destruct (read_fails (ce_os env) keyPath); [done|]. by destruct (w !! Clean keyPath) as [[key m'| | |]|].
Qed.

Lemma load_ok env w leafDER rest leaf :
  certPath <> [] -> keyPath <> [] ->
  LoadX509KeyPair (ce_os env) certPath keyPath w = Loaded (leafDER :: rest) -> ParseCertificate leafDER = Some leaf ->
  VerifyHostname leaf serverName = true -> ce_check env + day < x_NotAfter leaf ->
  loadOrCreateCertificate env certPath keyPath serverName w = (w, Ok (leafDER :: rest, leafDER)).
Proof.
  intros Hc Hk Hl Hp Hv Ht. unfold loadOrCreateCertificate.
  destruct (same_spec certPath []), (same_spec keyPath []); try done. cbn [orb]. rewrite Hl, Hp, Hv.
  destruct (_ <? _) eqn:E; [done|]. breflect. unfold day in Ht. lia.
Qed.

(** A chain to present, and the leaf it starts with: for the server name, and the
one every later start finds until a day before it expires. *)
Definition keeps_identity (w' : files) (chain : list (list Z)) (der : list Z) : Prop :=
  exists leaf rest, chain = der :: rest /\ ParseCertificate der = Some leaf /\ VerifyHostname leaf serverName = true
    /\ forall env w, same_pair w' w -> readable env -> ce_check env + day < x_NotAfter leaf ->
       loadOrCreateCertificate env certPath keyPath serverName w = (w, Ok (chain, der)).

Context {XO : X509Ok X}.

Lemma created_identity env w w' chain der : Clean certPath <> Clean keyPath -> certPath <> [] -> keyPath <> [] ->
  hostname_ok serverName = true ->
  createCertificate env certPath keyPath serverName w = (w', Ok (chain, der)) ->
  keeps_identity w' chain der
  /\ exists leaf, ParseCertificate der = Some leaf /\ x_NotBefore leaf <= ce_now env
     /\ x_NotAfter leaf = seconds_only (AddDate_year (ce_zone env) (ce_zone' env) (ce_now env))
     /\ (w !! Clean keyPath = None -> exists data mode, w' !! Clean keyPath = Some (Regular data mode)
         /\ Z.land mode (octal 0 7 7) = 0).
Proof.
  intros Hne Hc Hk Hn H. destruct (create_ok _ _ _ _ _ Hne H) as (key & kd & m1 & m2 & H1 & H2 & H3 & H4 & H5 & H6).
  assert (forallb hostname_ok (DNSNames (relay_template env serverName)) = true) as Hn' by (cbn; by rewrite Hn).
  pose proof (parse_created _ _ _ _ H1 Hn') as Hp. rewrite (pair_created _ _ _ _ _ H1 H2 Hn') in H5. injection H5 as <-.
  split.
  - eexists _, []. split_and!; [done|exact Hp|by apply VerifyHostname_self|].
    intros env2 w2 [Ec Ek] [Rc Rk] Ht. eapply load_ok; try done; [|by apply VerifyHostname_self].
    unfold LoadX509KeyPair, ReadFile. by rewrite Rc, Rk, Ec, Ek, H3, H4, (pair_created _ _ _ _ _ H1 H2 Hn').
  - eexists. split_and!; [exact Hp| |done|].
    + cbn [x_NotBefore relay_template NotBefore]. unfold seconds_only, Second. dlia.
    + intros Hnone. eexists _, m2. split; [exact H4|auto].
Qed.

(** How a leaf came to be presented: loaded with more than a day left, or new. *)
Definition leaf_origin (env : cert_env) (w w' : files) (leaf : x509_certificate) : Prop :=
  w' = w /\ ce_check env + day < x_NotAfter leaf
  \/ x_NotBefore leaf <= ce_now env /\ ce_now env + 364 * day <= x_NotAfter leaf <= ce_now env + 367 * day
     /\ (w !! Clean keyPath = None -> exists data mode, w' !! Clean keyPath = Some (Regular data mode)
         /\ Z.land mode (octal 0 7 7) = 0).

Lemma created_origin env w w' chain der : Clean certPath <> Clean keyPath -> certPath <> [] -> keyPath <> [] ->
  hostname_ok serverName = true -> - 7200 <= ce_zone' env - ce_zone env <= 7200 ->
  createCertificate env certPath keyPath serverName w = (w', Ok (chain, der)) ->
  keeps_identity w' chain der /\ exists leaf, ParseCertificate der = Some leaf /\ leaf_origin env w w' leaf.
Proof.
  intros Hne Hc Hk Hn Hz Hcr. pose proof (AddDate_year_bounds _ _ (ce_now env) Hz) as Hb.
  destruct (created_identity _ _ _ _ _ Hne Hc Hk Hn Hcr) as (H1 & leaf & H2 & H3 & H4 & H5).
  split; [done|]. exists leaf. split; [done|]. right.
  split_and!; try done; rewrite H4; unfold seconds_only, day, Second in *; dlia.
Qed.

Lemma certificate_identity env w w' chain der :
  loadOrCreateCertificate env certPath keyPath serverName w = (w', Ok (chain, der)) ->
  Clean certPath <> Clean keyPath -> hostname_ok serverName = true -> - 7200 <= ce_zone' env - ce_zone env <= 7200 ->
  keeps_identity w' chain der /\ exists leaf, ParseCertificate der = Some leaf /\ leaf_origin env w w' leaf.
Proof.
  intros H Hne Hn Hz. unfold loadOrCreateCertificate in H.
  destruct (same_spec certPath []) as [|Hc]; [done|]. destruct (same_spec keyPath []) as [|Hk]; [done|]. cbn [orb] in H.
  destruct (LoadX509KeyPair _ _ _ w) as [[|leafDER rest]| |] eqn:El; [done| |by apply created_origin|split_if_in H; [done|by apply created_origin]].
  destruct (ParseCertificate leafDER) as [leaf|] eqn:Ep; [destruct (_ && _) eqn:Eu|]; try (by apply created_origin).
  injection H as <- <- <-. breflect. split.
  - exists leaf, rest. split_and!; try done. intros env2 w2 Hs Hr Ht. eapply load_ok; try done. by eapply load_again.
  - exists leaf. split; [done|]. left. unfold day. split; [done|lia].
Qed.

Lemma certificate_frame env w w' r : loadOrCreateCertificate env certPath keyPath serverName w = (w', r) ->
  agree_outside cert_paths w w'.
Proof.
  unfold loadOrCreateCertificate. intros H. destruct (_ || _); [by injection H as <- <-|].
  destruct (LoadX509KeyPair _ _ _ w) as [[|der rest]| |]; try (by injection H as <- <-); [|by eapply create_frame|split_if_in H; [by injection H as <- <-|by eapply create_frame]].
  destruct (ParseCertificate der); [|by eapply create_frame]. destruct (_ && _); [by injection H as <- <-|by eapply create_frame].
Qed.

(** C21: The relay keeps its identity.  For paths of two different files: whatever
happens, only the certificate and key files and the directories above them change, and
a pair that exists but cannot be loaded is not overwritten, unless the text of that
error contains the words the code looks for.  For a server name that is a DNS name (an
IP literal is none: see [ip_name_renews]), a start that succeeds presents a leaf for
that name, which every later start that can read the two files presents again, without
writing anything, until a day before it expires: the pin that clients hold stays valid.
The leaf was loaded with more than a day left, or is new: valid now, for a year; and
the key file is one that only its owner can read if there was no such file before (an
older file keeps its mode). *)
Theorem certificate_lifecycle env w w' r :
  loadOrCreateCertificate env certPath keyPath serverName w = (w', r) -> Clean certPath <> Clean keyPath ->
  agree_outside cert_paths w w'
  /\ (LoadX509KeyPair (ce_os env) certPath keyPath w = LoadError -> Contains (ce_load_text env) (str "no such file") = false ->
      w' = w /\ is_ok r = false)
  /\ (hostname_ok serverName = true -> - 7200 <= ce_zone' env - ce_zone env <= 7200 -> forall chain der, r = Ok (chain, der) ->
      keeps_identity w' chain der /\ exists leaf, ParseCertificate der = Some leaf /\ leaf_origin env w w' leaf).
Proof.
  intros H Hne. split_and!; [by eapply certificate_frame| |intros Hn Hz chain der ->; by apply certificate_identity].
  intros El Et. unfold loadOrCreateCertificate in H. rewrite El, Et in H.
  destruct (_ || _); by injection H as <- <-.
Qed.
End Lifecycle.

(** ** A concrete instance *)

(** Certificates as lists of their fields. *)
Definition sample_create (t : cert_template) (k : Z) (rand : list Z) : option (list Z) :=
  match DNSNames t with
  | [name] => Some (NotBefore t / Second :: NotAfter t / Second :: k :: name)
  | _ => None
  end.
#[local] Instance sample_x509 : X509 := {|
  ecdsa_key := Z;
  MarshalPKCS8PrivateKey k := Some [k];
  CreateCertificate := sample_create;
  ParseCertificate der :=
    match der with
    | before :: after :: _ :: name =>
      Some {| x_NotBefore := before * Second; x_NotAfter := after * Second; x_DNSNames := [name]; x_IPAddresses := [] |}
    | _ => None
    end;
  pem_EncodeToMemory typ der := typ ++ der;
  X509KeyPair cert key :=
    let der := drop (List.length type_certificate) cert in
    match der, drop (List.length type_key) key with
    | _ :: _ :: k :: _, [k'] => if k =? k' then Some [der] else None
    | _, _ => None
    end;
|}.
#[local] Instance sample_x509_ok : X509Ok sample_x509.
Proof.
  split.
  - intros t k r der H _. cbn in *. unfold sample_create in H. destruct (DNSNames t) as [|name [|]]; try done. injection H as <-. done.
  - intros t k r der kd H [= <-] _. cbn in *. unfold sample_create in H. destruct (DNSNames t) as [|name [|]]; try done. injection H as <-.
    cbn. by rewrite Z.eqb_refl.
Qed.

Definition sample_os : os_env :=
  {| umask := 18; mkdir_fails := fun _ => false; writes := fun _ => Written; read_fails := fun _ => false |}.
Definition sample_cert_env (now : Z) (key : Z) : cert_env :=
  {| ce_os := sample_os; ce_check := now; ce_now := now; ce_zone := 3600; ce_zone' := 3600; ce_key := Some key; ce_rand := []; ce_load_text := str "tls: failed to find any PEM data in certificate input" |}.
Definition cert_file : gostring := str "./data/relay-cert.pem".
Definition key_file : gostring := str "./data/relay-key.pem".
Definition relay_name : gostring := str "qortal-masque-relay".
Definition first_start : files * result cert_error (list (list Z) * list Z) :=
  loadOrCreateCertificate (sample_cert_env (20000 * day) 7) cert_file key_file relay_name ∅.

(** The same identity 300 days later, and a new one in the last day. *)
Example restart_samples :
  map (fun t => snd (loadOrCreateCertificate (sample_cert_env (t * day) 8) cert_file key_file relay_name (fst first_start)))
      [20300; 20364]
  = [snd first_start; snd (createCertificate (sample_cert_env (20364 * day) 8) cert_file key_file relay_name (fst first_start))].
Proof. vm_compute. reflexivity. Qed.

(** A renewal whose second write fails leaves a new certificate with the old key,
which does not load: every later start fails, and none repairs the pair. *)
Definition torn_renewal : files * result cert_error (list (list Z) * list Z) :=
  loadOrCreateCertificate
    {| ce_os := {| umask := 18; mkdir_fails := fun _ => false; read_fails := fun _ => false;
                   writes := fun p => if same p key_file then OpenFails else Written |};
       ce_check := 20364 * day; ce_now := 20364 * day; ce_zone := 0; ce_zone' := 0; ce_key := Some 8; ce_rand := []; ce_load_text := str "tls: failed to find any PEM data in certificate input" |}
    cert_file key_file relay_name (fst first_start).
Example torn_renewal_stays :
  snd torn_renewal = Err NotWritten
  /\ map (fun t => snd (loadOrCreateCertificate (sample_cert_env (t * day) 9) cert_file key_file relay_name (fst torn_renewal)))
         [20364; 20500; 21000] = [Err LoadFailed; Err LoadFailed; Err LoadFailed].
Proof. vm_compute. split; reflexivity. Qed.

(** A pair that exists, in a directory whose name has the words the code looks for in
the error, is overwritten although it could not be read. *)
Definition odd_cert : gostring := str "./no such file/relay-cert.pem".
Definition odd_key : gostring := str "./no such file/relay-key.pem".
Example unreadable_overwritten :
  let denied := str "open ./no such file/relay-cert.pem: permission denied" in
  let env now k deny text := {| ce_os := {| umask := 18; mkdir_fails := fun _ => false; writes := fun _ => Written; read_fails := fun _ => deny |};
    ce_check := now; ce_now := now; ce_zone := 0; ce_zone' := 0; ce_key := Some k; ce_rand := []; ce_load_text := text |} in
  let first := loadOrCreateCertificate (env (20000 * day) 7 false []) odd_cert odd_key relay_name ∅ in
  let second := loadOrCreateCertificate (env (20001 * day) 8 true denied) odd_cert odd_key relay_name (fst first) in
  is_ok (snd first) = true /\ is_ok (snd second) = true /\ bool_decide (fst second = fst first) = false.
Proof. vm_compute. split_and!; reflexivity. Qed.

(** With an IP address for a server name the certificate never matches, so every
start makes a new one. *)
Definition ip_name : gostring := str "9.9.9.9".
Example ip_name_renews :
  let start t k w := loadOrCreateCertificate (sample_cert_env (t * day) k) cert_file key_file ip_name w in
  let first := start 20000 7 ∅ in
  is_ok (snd first) = true
  /\ snd (start 20001 8 (fst first)) = snd (createCertificate (sample_cert_env (20001 * day) 8) cert_file key_file ip_name (fst first)).
Proof. vm_compute. split; reflexivity. Qed.

Lemma certificate_lifecycle_witness :
  exists chain der, snd first_start = Ok (chain, der)
    /\ keeps_identity cert_file key_file relay_name (fst first_start) chain der.
Proof.
  destruct (snd first_start) as [[chain der]|e] eqn:E; [|vm_compute in E; discriminate E].
  exists chain, der. split; [reflexivity|].
  assert (first_start = (fst first_start, Ok (chain, der))) as Hs by (rewrite <- E; apply surjective_pairing).
  destruct (certificate_lifecycle cert_file key_file relay_name (sample_cert_env (20000 * day) 7) ∅ (fst first_start) _ Hs)
    as (_ & _ & Hr); [vm_compute; discriminate|].
  assert (hostname_ok relay_name = true) as Hn by (vm_compute; reflexivity).
  assert (- 7200 <= 3600 - 3600 <= 7200) as Hz by lia.
  exact (proj1 (Hr Hn Hz chain der eq_refl)).
Defined.
