(* ===== verification/TicketService.v ===== *)
(** * Files and sockets of the ticket authority

The parts of [internal/relay/tickets.go] that touch the system:
[newTicketAuthority] with its directory and database, [serve] with the Unix
socket the announcer talks to, and [close].  [tickets.db] is behind the bbolt
interface of [Bolt]; its contents outlive the process. *)

From stdpp Require Import base gmap list numbers.
From Stdlib Require Import ZArith Lia String.
From S2P Require Import Prelude.
From S2P Require Import GoStrings.
From S2P Require Import Paths.
From S2P Require Import Base58.
From S2P Require Import Bolt.
From S2P Require Import Tickets.
From S2P Require Import Samples.
From S2P Require Import Certificate.

Local Open Scope Z_scope.

(** A [net.UnixListener]: the first [Close] removes the socket file. *)
Record listener := {
  l_path : gostring;
  l_file : bool;      (** a name in the file system, not in the abstract name space *)
  l_open : bool;
}.

Inductive serve_error := NotASocket | AlreadyRunning | RemoveFailed | ListenFailed | ChmodFailed.
Inductive open_error := StateDirectory | DatabaseLocked | Database (e : ticket_error).

(** Which system calls of [serve] fail, and whether a live listener answers the
100 ms dial. *)
Record serve_env := {
  se_umask : Z;
  se_lstat_fails : bool;
  se_answers : bool;
  se_remove_fails : bool;
  se_listen_fails : bool;
  se_chmod_fails : bool;
}.

Section Service.
  Context {B : Bucket} {Hs : Hashes} {C : Crypto}.
  Context (policy : policy_id).

Record ticket_world := {
  tw_files : files;
  tw_store : option ticket_db;       (** [tickets.db], if its buckets exist *)
  tw_db_open : bool;
  tw_listener : option listener;     (** [t.listener] *)
}.
Definition set_files (w : ticket_world) (f : files) : ticket_world :=
  {| tw_files := f; tw_store := tw_store w; tw_db_open := tw_db_open w; tw_listener := tw_listener w |}.
Definition set_store (w : ticket_world) (open : bool) (d : option ticket_db) : ticket_world :=
  {| tw_files := tw_files w; tw_store := d; tw_db_open := open; tw_listener := tw_listener w |}.
Definition set_listener (w : ticket_world) (l : option listener) : ticket_world :=
  {| tw_files := tw_files w; tw_store := tw_store w; tw_db_open := tw_db_open w; tw_listener := l |}.

(** ** newTicketAuthority *)

Record open_env := {
  oe_os : os_env;
  oe_open : bool;                        (** [bolt.Open] got the file and its lock *)
  oe_buckets : option ticket_error;      (** outcome of creating the buckets *)
  oe_now : Z;
  oe_desc : desc_env;
}.

Definition openTicketAuthority (env : open_env) (dir : gostring) (w : ticket_world)
  : ticket_world * result open_error ticketAuthority :=
  match MkdirAll (oe_os env) dir (octal 7 0 0) (tw_files w) with
  | (f, false) => (set_files w f, Err StateDirectory)
  | (f, true) =>
    let w := set_files w f in
    if negb (oe_open env) then (w, Err DatabaseLocked)
    else match oe_buckets env with
    | Some e => (set_store w false (tw_store w), Err (Database e))
    | None =>
      let t := {| db := default empty_db (tw_store w); challenges := ∅; keys := ∅ |} in
      match descriptor policy (oe_desc env) t (epoch_of (oe_now env)) with
      | (t, Err e) => (set_store w false (Some (db t)), Err (Database e))
      | (t, Ok _) => (set_store w true (Some (db t)), Ok t)
      end
    end
  end.

(** ** serve and close *)

Definition listener_Close (l : listener) (f : files) : files :=
  if l_open l && l_file l then delete (l_path l) f else f.
Definition close_listener (w : ticket_world) : ticket_world :=
  match tw_listener w with
  | None => w
  | Some l => set_listener (set_files w (listener_Close l (tw_files w)))
                           (Some {| l_path := l_path l; l_file := l_file l; l_open := false |})
  end.

(** [t.close]; the database keeps what was committed. *)
Definition ticket_close (t : ticketAuthority) (w : ticket_world) : ticket_world :=
  set_store (close_listener w) false (Some (db t)).

(** Clear the path for a new socket. *)
Definition clear_socket (env : serve_env) (path : gostring) (f : files) : result serve_error files :=
  if se_lstat_fails env then Ok f
  else match f !! path with
  | None => Ok f
  | Some (UnixSocket live _) =>
    if live && se_answers env then Err AlreadyRunning
    else if se_remove_fails env then Err RemoveFailed
    else Ok (delete path f)
  | Some _ => Err NotASocket
  end.

Definition serve (env : serve_env) (path : gostring) (w : ticket_world) : ticket_world * option serve_error :=
  match clear_socket env path (tw_files w) with
  | Err e => (w, Some e)
  | Ok f =>
    let w := set_files w f in
    let named := negb (HasPrefix path (str "@")) in
    if se_listen_fails env || (named && bool_decide (is_Some (f !! path))) then (w, Some ListenFailed)
    else
      let f := if named then <[path := UnixSocket true (Z.ldiff (octal 7 7 7) (se_umask env))]> f else f in
      let w := set_listener (set_files w f) (Some {| l_path := path; l_file := named; l_open := true |}) in
      if se_chmod_fails env || bool_decide (f !! path = None) then (close_listener w, Some ChmodFailed)
      else (set_files w (alter (fun n => match n with UnixSocket live _ => UnixSocket live (octal 6 0 0) | n => n end) path f), None)
  end.
End Service.

(** ** What serving guarantees *)

Section ServiceSpec.
  Context {B : Bucket} {Hs : Hashes} {C : Crypto}.

Definition is_socket (n : node) : bool := match n with UnixSocket _ _ => true | _ => false end.
(** No socket of this process: nothing is listening through [w]. *)
Definition not_listening (w : ticket_world) : Prop := forall l, tw_listener w = Some l -> l_open l = false.

Lemma clear_socket_spec env path f f' : clear_socket env path f = Ok f' ->
  f' = f \/ (exists live mode, f !! path = Some (UnixSocket live mode) /\ (live && se_answers env) = false) /\ f' = delete path f.
Proof.
  unfold clear_socket. intros H. destruct (se_lstat_fails env); [injection H as <-; by left|].
  destruct (f !! path) as [[| |live mode|]|]; try done; [|injection H as <-; by left].
  destruct (live && se_answers env) eqn:E; [done|]. destruct (se_remove_fails env); [done|]. injection H as <-. right. eauto.
Qed.

(** What becomes of the path: without an error a private socket that listens; on
an error what was there before, or nothing if it was a dead socket. *)
Lemma serve_path env path w w' e : HasPrefix path (str "@") = false -> serve env path w = (w', e) ->
  tw_store w' = tw_store w /\ tw_db_open w' = tw_db_open w /\ agree_outside [path] (tw_files w) (tw_files w')
  /\ match e with
     | None => tw_files w' !! path = Some (UnixSocket true (octal 6 0 0))
         /\ tw_listener w' = Some {| l_path := path; l_file := true; l_open := true |}
         /\ (tw_files w !! path = None
             \/ exists live mode, tw_files w !! path = Some (UnixSocket live mode) /\ (live && se_answers env) = false)
     | Some _ => (not_listening w -> not_listening w')
         /\ (tw_files w' = tw_files w \/ tw_files w' !! path = None)
     end
  /\ (tw_files w' = tw_files w \/ tw_files w !! path = None
      \/ exists live mode, tw_files w !! path = Some (UnixSocket live mode) /\ (live && se_answers env) = false).
Proof.
  intros Hp H. unfold serve in H. destruct (clear_socket env path (tw_files w)) as [f|er] eqn:Ec; cycle 1.
  { injection H as <- <-. split_and!; auto with relay. }
  assert (agree_outside [path] (tw_files w) f) as Hf.
  { apply clear_socket_spec in Ec as [->|[_ ->]]; [done|]. apply agree_delete. set_solver. }
  rewrite Hp in H. cbn [negb andb] in H. cbv zeta in H.
  assert (tw_files w !! path = None \/ f = tw_files w \/ f = delete path (tw_files w) /\
    exists live mode, tw_files w !! path = Some (UnixSocket live mode) /\ (live && se_answers env) = false) as Hcase.
  { apply clear_socket_spec in Ec as [->|[? ->]]; auto. }
  destruct (se_listen_fails env || bool_decide (is_Some (f !! path))) eqn:El.
  - injection H as <- <-. cbn. split_and!; try done; [|naive_solver].
    destruct Hcase as [Hn|[->|[-> _]]]; [|by left|right; apply lookup_delete_eq].
    right. apply clear_socket_spec in Ec as [->|[(? & ? & Hs' & _) _]]; congruence.
  - apply orb_false_iff in El as [_ El]. apply bool_decide_eq_false in El.
    assert (f !! path = None) as Hfn by (destruct (f !! path); [exfalso; eauto|done]).
    assert (forall n, agree_outside [path] (tw_files w) (<[path := n]> f)) as Hfi.
    { intros n. eapply agree_trans; [done|]. apply agree_insert. set_solver. }
    assert (tw_files w !! path = None \/
      exists live mode, tw_files w !! path = Some (UnixSocket live mode) /\ (live && se_answers env) = false) as Hcase'.
    { destruct Hcase as [|[<-|[_ ?]]]; auto. }
    destruct (se_chmod_fails env || _) eqn:Em.
    + injection H as <- <-. cbn. rewrite delete_insert_id by done. split_and!; try done; [|by right|naive_solver].
      intros _ l [= <-]. done.
    + injection H as <- <-. cbn. rewrite alter_insert_eq. split_and!; try done; [by rewrite lookup_insert_eq|naive_solver].
Qed.

(** C22: The private socket of the ticket authority.  [serve] changes nothing but
its own path.  Anything there that is not a socket, and a socket on which another
authority answers within the 100 milliseconds it is given, stays as it is and is
reported as an error.  (A socket that does not answer is taken for a stale one, also
if somebody listens on it: [unresponsive_socket_taken].)  When [serve] succeeds the
path is a listening socket that only the owner can open, a second authority that finds
it answering is refused, and [close] removes it and closes the database.  When it fails
nothing is left listening. *)
Theorem serve_safe env path w w' e t :
  HasPrefix path (str "@") = false -> not_listening w -> serve env path w = (w', e) ->
  agree_outside [path] (tw_files w) (tw_files w')
  /\ (forall n, tw_files w !! path = Some n -> is_socket n = false \/ (exists mode, n = UnixSocket true mode) /\ se_answers env = true ->
       tw_files w' = tw_files w /\ e <> None)
  /\ (e <> None -> not_listening w')
  /\ (e = None ->
      tw_files w' !! path = Some (UnixSocket true (octal 6 0 0))
      /\ (forall env2 w2, tw_files w2 = tw_files w' -> se_answers env2 = true ->
           tw_files (fst (serve env2 path w2)) = tw_files w2 /\ snd (serve env2 path w2) <> None)
      /\ let closed := ticket_close t w' in
         tw_files closed !! path = None /\ not_listening closed /\ tw_db_open closed = false).
Proof.
  intros Hp Hw H. destruct (serve_path env path w w' e Hp H) as (_ & _ & Hf & He & Hl).
  assert (forall env w w' e n, serve env path w = (w', e) -> tw_files w !! path = Some n ->
    is_socket n = false \/ (exists mode, n = UnixSocket true mode) /\ se_answers env = true ->
    tw_files w' = tw_files w /\ e <> None) as Hkeep.
  { clear - Hp. intros env w w' e n H Hn Hc. destruct (serve_path env path w w' e Hp H) as (_ & _ & _ & He & Hl).
    assert (~ (tw_files w !! path = None \/ exists live mode,
      tw_files w !! path = Some (UnixSocket live mode) /\ (live && se_answers env) = false)) as Hno.
    { rewrite Hn. intros [|(live & mode & [= ->] & Ha)]; [done|]. destruct Hc as [|[[mode' [= -> ->]] Hc]]; [done|]. by rewrite Hc in Ha. }
    split; [destruct Hl; [done|tauto]|]. intros ->. tauto. }
  split_and!; [done|eauto|destruct e; [|done]; intros _; by apply He|].
  intros ->. destruct He as (H1 & H2 & _). split_and!; [done| |].
  - intros env2 w2 Hw2 Ha. destruct (serve env2 path w2) as [w3 e3] eqn:E. cbn [fst snd].
    eapply Hkeep; [exact E|by rewrite Hw2|right; by eauto].
  - cbv zeta. unfold ticket_close, close_listener, not_listening. rewrite H2. cbn.
    split_and!; [apply lookup_delete_eq| |done]. by intros l [= <-].
Qed.

(** A socket on which somebody listens who does not answer in time is removed and
replaced, against the comment in the code. *)
Theorem unresponsive_socket_taken env path w mode : HasPrefix path (str "@") = false ->
  tw_files w !! path = Some (UnixSocket true mode) -> se_answers env = false ->
  se_lstat_fails env = false -> se_remove_fails env = false -> se_listen_fails env = false -> se_chmod_fails env = false ->
  exists w', serve env path w = (w', None) /\ tw_listener w' = Some {| l_path := path; l_file := true; l_open := true |}.
Proof.
  intros Hp Hn Ha H1 H2 H3 H4. unfold serve, clear_socket. rewrite H1, Hn, Ha, H2, H3, H4, Hp. cbn [andb negb orb].
  rewrite bool_decide_false by (rewrite lookup_delete_eq; by intros [? ?]). cbn [orb].
  rewrite bool_decide_false by (by rewrite lookup_insert_eq). by eexists.
Qed.
End ServiceSpec.

(** A stale socket of an earlier run is replaced. *)
Definition stale_world : @ticket_world map_bucket :=
  {| tw_files := {[ str "data/ticket-authority.sock" := UnixSocket false 0 ]}; tw_store := None; tw_db_open := true; tw_listener := None |}.
Definition calm_serve : serve_env :=
  {| se_umask := 18; se_lstat_fails := false; se_answers := true; se_remove_fails := false; se_listen_fails := false;
     se_chmod_fails := false |}.
Lemma serve_safe_witness :
  snd (serve calm_serve (str "data/ticket-authority.sock") stale_world) = None
  /\ tw_files (fst (serve calm_serve (str "data/ticket-authority.sock") stale_world)) !! str "data/ticket-authority.sock"
     = Some (UnixSocket true (octal 6 0 0)).
Proof.
  split; [vm_compute; reflexivity|].
  destruct (serve calm_serve (str "data/ticket-authority.sock") stale_world) as [w' e] eqn:E.
  assert (e = None) as -> by (apply (f_equal snd) in E; vm_compute in E; congruence).
  apply (serve_safe calm_serve (str "data/ticket-authority.sock") stale_world w' None
           {| db := empty_db; challenges := ∅; keys := ∅ |}); [reflexivity|intros l Hl; discriminate Hl|exact E|reflexivity].
Defined.
