(* ===== verification/Server.v ===== *)
(** * The relay server

The CONNECT-UDP handler that [Start] of [internal/relay/server.go] installs,
composed from the policy, accounting and ticket components, and the relay as the
sequence of the steps of its requests.  A handler is cut where it lets others run with
a session in hand: between [acquire] and the result of [net.DialUDP], and for the
lifetime of the tunnel.  [Start] and [Close] are in [Startup]. *)

From stdpp Require Import base gmap list numbers.
From Stdlib Require Import ZArith Lia String.
From S2P Require Import Prelude.
From S2P Require Import GoStrings.
From S2P Require Import Netip.
From S2P Require Import TargetPolicy.
From S2P Require Import Sessions.
From S2P Require Import Base58.
From S2P Require Import AccessConfig.
From S2P Require Import Membership.
From S2P Require Import Bolt.
From S2P Require Import Tickets.
From S2P Require Import Samples.
From S2P Require Import TicketSpend.
From S2P Require Import Authorize.
From S2P Require Import ProxyRequest.

Local Open Scope Z_scope.

(** ** State and requests *)

Record relay := {
  r_sessions : sessions;
  r_targets : target_config;
}.
Definition set_sessions (r : relay) (s : sessions) : relay := {| r_sessions := s; r_targets := r_targets r |}.

(** A request on /.well-known/masque/udp/. *)
Record connect_request := {
  cr_auth : auth_request;
  cr_Control : gostring;
  cr_http : http_request;
  cr_RemoteAddr : gostring;
}.

(** How a request ends, or the tunnel it opens. *)
Inductive connect_outcome :=
| Responded (status : Z)
| Tunnel (source : gostring) (target : AddrPort).

Section Handler.
  Context {B : Bucket} {Hs : Hashes} {C : Crypto} {T : Template}.

(** What the handler has when it either answered or holds a session. *)
Inductive admission :=
| Answered (status : Z)
| Admits (source : gostring) (target : AddrPort).

(** The handler up to [acquire]. *)
Definition connect_admit (mode : gostring) (policy : policy_id) (env : auth_env)
  (s : relay) (a : option connectionAuthorization) (tickets : option ticketAuthority) (rq : connect_request)
  : relay * option connectionAuthorization * option ticketAuthority * admission :=
  match authorize mode policy env a tickets (cr_auth rq) with
  | (a, tickets, Rejected status _) => (s, a, tickets, Answered status)
  | (a, tickets, Allowed account _) =>
    if same (cr_Control rq) (str "authorize") then (s, a, tickets, Answered 204)
    else match ParseProxyRequest (cr_http rq) with
    | Err _ => (s, a, tickets, Answered 400)
    | Ok proxyRequest =>
      match ParseAddrPort (pr_Target proxyRequest) with
      | None => (s, a, tickets, Answered 403)
      | Some target =>
        let target := AddrPortFrom (Unmap (ap_addr target)) (ap_port target) in
        if negb (targetAllowed (r_targets s) target) then (s, a, tickets, Answered 403)
        else
          let source := if negb (same account []) then str "account:" ++ account
                        else sourceHost (cr_RemoteAddr rq) in
          match acquire (r_sessions s) source with
          | (ss, false) => (set_sessions s ss, a, tickets, Answered 429)
          | (ss, true) => (set_sessions s ss, a, tickets, Admits source target)
          end
      end
    end
  end.

(** The deferred [release], when the dialling failed or the forwarding ended. *)
Definition connect_done (s : relay) (source : gostring) : relay :=
  set_sessions s (release (r_sessions s) source).

(** The rest, up to the point where it forwards datagrams; [dial] says whether
[net.DialUDP] succeeds for an address. *)
Definition connect_dial (dial : AddrPort -> bool) (s : relay) (source : gostring) (target : AddrPort) : relay * connect_outcome :=
  if negb (dial target) then (connect_done s source, Responded 502) else (s, Tunnel source target).

(** A handler that runs alone from one end to the other. *)
Definition connect_udp (mode : gostring) (policy : policy_id) (env : auth_env) (dial : AddrPort -> bool)
  (s : relay) (a : option connectionAuthorization) (tickets : option ticketAuthority) (rq : connect_request)
  : relay * option connectionAuthorization * option ticketAuthority * connect_outcome :=
  match connect_admit mode policy env s a tickets rq with
  | (s, a, tickets, Answered status) => (s, a, tickets, Responded status)
  | (s, a, tickets, Admits source target) =>
    let '(s, out) := connect_dial dial s source target in (s, a, tickets, out)
  end.

End Handler.

(** ** The running relay *)

(** The relay, the sessions whose socket is being opened, and the tunnels. *)
Record running := {
  ru_relay : relay;
  ru_dialling : list (gostring * AddrPort);
  ru_live : list (gostring * AddrPort);
}.
Definition ru_held (st : running) : list (gostring * AddrPort) := ru_dialling st ++ ru_live st.

Section Relay.
  Context {B : Bucket} {Hs : Hashes} {C : Crypto} {T : Template}.

(** Requests, their dialling, ends of tunnels and a close, in any order; each request
comes with its own connection state, ticket authority and clock. *)
Inductive relay_step : running -> running -> Prop :=
| relay_request mode policy env s dialling live a tickets rq s' a' tickets' adm :
    connect_admit mode policy env s a tickets rq = (s', a', tickets', adm) ->
    relay_step {| ru_relay := s; ru_dialling := dialling; ru_live := live |}
      {| ru_relay := s'; ru_live := live;
         ru_dialling := match adm with Admits source target => (source, target) :: dialling | Answered _ => dialling end |}
| relay_dialled dial s dialling dialling' live source target s' out :
    dialling ≡ₚ (source, target) :: dialling' -> connect_dial dial s source target = (s', out) ->
    relay_step {| ru_relay := s; ru_dialling := dialling; ru_live := live |}
      {| ru_relay := s'; ru_dialling := dialling';
         ru_live := match out with Tunnel source target => (source, target) :: live | Responded _ => live end |}
| relay_done s dialling live live' source target :
    live ≡ₚ (source, target) :: live' ->
    relay_step {| ru_relay := s; ru_dialling := dialling; ru_live := live |}
      {| ru_relay := connect_done s source; ru_dialling := dialling; ru_live := live' |}
| relay_close s dialling live :
    relay_step {| ru_relay := s; ru_dialling := dialling; ru_live := live |}
      {| ru_relay := set_sessions s (set_closed (r_sessions s)); ru_dialling := dialling; ru_live := live |}.

(** The sessions that are accounted for are those that are held, for permitted targets. *)
Definition accounts (cfg : target_config) (max : Z) (s : relay) (held : list (gostring * AddrPort)) : Prop :=
  represents (r_sessions s) (map fst held) /\ r_targets s = cfg /\ maxSessions (r_sessions s) = max
  /\ Forall (fun t => targetAllowed cfg (snd t) = true) held.
Definition relay_inv (cfg : target_config) (max : Z) (st : running) : Prop := accounts cfg max (ru_relay st) (ru_held st).

Lemma acquire_max s source : maxSessions (fst (acquire s source)) = maxSessions s.
Proof. unfold acquire. by split_if. Qed.

Lemma connect_admit_accounts cfg max mode policy env s held a tickets rq s' a' tickets' adm :
  connect_admit mode policy env s a tickets rq = (s', a', tickets', adm) -> accounts cfg max s held ->
  accounts cfg max s' (match adm with Admits source target => (source, target) :: held | Answered _ => held end).
Proof.
  intros H (Hr & Ht & Hm & Hf). unfold connect_admit in H.
  destruct (authorize _ _ _ _ _ _) as [[a1 t1] [account ex|st code]]; [|by injection H as <- <- <- <-].
  split_if_in H; [by injection H as <- <- <- <-|].
  destruct (ParseProxyRequest _) as [pr|]; [|by injection H as <- <- <- <-].
  destruct (ParseAddrPort _) as [tg|]; [|by injection H as <- <- <- <-]. cbv zeta in H.
  set (target := AddrPortFrom _ _) in H. set (source := if negb (same account []) then _ else _) in H.
  destruct (targetAllowed (r_targets s) target) eqn:Ea; cbn [negb] in H; [|by injection H as <- <- <- <-].
  pose proof (acquire_represents (r_sessions s) (map fst held) source Hr) as Hacq.
  pose proof (acquire_max (r_sessions s) source) as Hmax.
  destruct (acquire (r_sessions s) source) as [ss []]; cbn [fst] in Hmax; injection H as <- <- <- <-.
  - destruct Hacq as [Hacq _]. unfold accounts. cbn. split_and!; [done|done|congruence|].
    constructor; [cbn; by rewrite <- Ht|done].
  - destruct Hacq as [-> _]. by split_and!.
Qed.

Lemma connect_done_accounts cfg max s held source target held' :
  held ≡ₚ (source, target) :: held' -> accounts cfg max s held -> accounts cfg max (connect_done s source) held'.
Proof.
  intros Hp (Hr & Ht & Hm & Hf). unfold accounts. cbn. split_and!; [|done..|].
  - apply release_represents. change (source :: map fst held') with (map fst ((source, target) :: held')).
    by rewrite <- (fmap_Permutation fst _ _ Hp).
  - rewrite Hp in Hf. by inversion Hf.
Qed.

Lemma accounts_perm cfg max s held held' : held ≡ₚ held' -> accounts cfg max s held -> accounts cfg max s held'.
Proof.
  intros Hp (Hr & Ht & Hm & Hf). unfold accounts. rewrite <- (fmap_Permutation fst _ _ Hp). split_and!; try done. by rewrite <- Hp.
Qed.

Lemma relay_step_inv cfg max st st' : relay_step st st' -> relay_inv cfg max st -> relay_inv cfg max st'.
Proof.
  unfold relay_inv, ru_held. intros Hst Hi.
  destruct Hst as [mode policy env s dialling live a tickets rq s' a' tickets' adm H
    |dial s dialling dialling' live source target s' out Hp H|s dialling live live' source target Hp|s dialling live]; cbn [ru_relay ru_dialling ru_live] in *.
  - eapply connect_admit_accounts in H; [|exact Hi]. by destruct adm.
  - assert (dialling ++ live ≡ₚ (source, target) :: dialling' ++ live) as Hp' by (by rewrite Hp).
    unfold connect_dial in H. destruct (dial target); injection H as <- <-; cbn [negb].
    + eapply accounts_perm; [|exact Hi]. rewrite Hp'. apply Permutation_middle.
    + by eapply connect_done_accounts.
  - eapply connect_done_accounts; [|exact Hi]. rewrite Hp. symmetry. apply Permutation_middle.
  - destruct Hi as (Hr & Ht & Hm & Hf). by split_and!.
Qed.

(** C1: The relay as a whole.  Whatever requests arrive in whatever order, from
whatever connections, with their dialling and forwarding interleaved in any way, every
open tunnel (and every one whose socket is being opened) leads to a target the
configuration permits; the number of tunnels that are open or being opened is what
[ActiveSessions] reports and never exceeds the configured maximum; and no source (an
account, or an address in public mode) has more than eight of them. *)
Theorem relay_safe configured cfg st :
  rtc relay_step {| ru_relay := {| r_sessions := new_sessions configured; r_targets := cfg |}; ru_dialling := []; ru_live := [] |} st ->
  (forall source target, (source, target) ∈ ru_held st -> targetAllowed cfg target = true)
  /\ ActiveSessions (r_sessions (ru_relay st)) = len (ru_dialling st) + len (ru_live st)
  /\ len (ru_dialling st) + len (ru_live st) <= (if configured <=? 0 then 256 else configured)
  /\ forall source, count source (map fst (ru_held st)) <= 8.
Proof.
  intros Hr.
  assert (relay_inv cfg (if configured <=? 0 then 256 else configured) st) as ((H1 & H2 & H3) & Ht & Hm & Hf).
  { revert Hr. generalize st. refine (rtc_ind_r _ _ _ _).
    - split_and!; [apply new_sessions_represents|done|done|constructor].
    - intros ?? _ Hs' Hi. by eapply relay_step_inv. }
  assert (len (map fst (ru_held st)) = len (ru_dialling st) + len (ru_live st)) as Hl
    by (unfold len, ru_held; rewrite length_map, length_app; lia).
  split_and!.
  - intros source target Hin. rewrite List.Forall_forall in Hf. by apply (Hf (source, target)), list_elem_of_In.
  - unfold ActiveSessions. lia.
  - lia.
  - apply (counted_limit _ _ _ H3).
Qed.

(** C13: When a tunnel is opened.  A request gets a tunnel only if it was
authorized, it asks for no control operation, it is a valid CONNECT-UDP request,
and its target (with an IPv4-mapped address unmapped) is the endpoint that is
dialled and is permitted; and the tunnel is accounted to the redeemed ticket in
groups mode, and to the peer's host in public mode. *)
Theorem connect_sound mode policy env dial s a tickets rq s' a' tickets' source target :
  connect_udp mode policy env dial s a tickets rq = (s', a', tickets', Tunnel source target) ->
  exists account expires pr parsed,
    authorize mode policy env a tickets (cr_auth rq) = (a', tickets', Allowed account expires)
    /\ ParseProxyRequest (cr_http rq) = Ok pr /\ ParseAddrPort (pr_Target pr) = Some parsed
    /\ target = AddrPortFrom (Unmap (ap_addr parsed)) (ap_port parsed)
    /\ targetAllowed (r_targets s) target = true /\ dial target = true
    /\ acquire (r_sessions s) source = (r_sessions s', true)
    /\ source = (if same account [] then sourceHost (cr_RemoteAddr rq) else str "account:" ++ account)
    /\ (mode = public -> account = []).
Proof.
  intros H. unfold connect_udp, connect_admit, connect_dial in H.
  destruct (authorize _ _ _ _ _ _) as [[a1 t1] [account ex|st code]] eqn:Eau; [|done].
  split_if_in H; [done|]. destruct (ParseProxyRequest _) as [pr|] eqn:Ep; [|done].
  destruct (ParseAddrPort _) as [tg|] eqn:Et; [|done]. cbv zeta in H.
  destruct (targetAllowed _ _) eqn:Ea; [|done]. cbn [negb] in H.
  destruct (acquire _ _) as [ss []] eqn:Eq; [|done]. destruct (dial _) eqn:Ed; [|done]. cbn [negb] in H.
  injection H as <- <- <- <- <-. exists account, ex, pr, tg. split_and!; try done.
  - by destruct (same account []).
  - intros ->. unfold authorize in Eau. change (same public public) with true in Eau. by injection Eau.
Qed.
End Relay.

(** *** A concrete request *)

#[local] Instance sample_template : Template :=
  {| template_host := Some (str "relay:443");
     template_match url := let parts := Split url 47 in (nth 6 parts [], nth 7 parts []);
     template_expand host port :=
       Some (str "https://relay:443/.well-known/masque/udp/" ++ host ++ str "/" ++ port ++ str "/") |}.

Definition sample_connect (url : string) : connect_request :=
  {| cr_auth := with_ticket []; cr_Control := [];
     cr_http := {| hr_Method := str "CONNECT"; hr_Proto := requestProtocol; hr_Host := str "relay:443";
                   hr_capsule := Some (Some (SFBool true)); hr_URL := str url |};
     cr_RemoteAddr := str "198.51.100.7:5000" |}.

Definition sample_relay : relay :=
  {| r_sessions := new_sessions 1; r_targets := {| tc_allowedTargets := []; tc_AllowPrivateTargets := false |} |}.
Definition try_connect (s : relay) (url : string) :=
  connect_udp public sample_policy (sample_auth 0) (fun _ => true) s None None (sample_connect url).

Definition good_url : string := "https://relay:443/.well-known/masque/udp/9.9.9.9/53/".
Definition after_tunnel : relay := fst (fst (fst (try_connect sample_relay good_url))).
Definition nine : AddrPort := AddrPortFrom (A4 0x09090909) 53.

Lemma open_outcome : snd (try_connect sample_relay good_url) = Tunnel (str "198.51.100.7") nine.
Proof. vm_compute. reflexivity. Qed.
Lemma open_sample : exists a t, try_connect sample_relay good_url = (after_tunnel, a, t, Tunnel (str "198.51.100.7") nine).
Proof.
  pose proof open_outcome as Ho. unfold after_tunnel.
  destruct (try_connect sample_relay good_url) as [[[s a] t] o]. cbn [snd fst] in *. subst o. by exists a, t.
Qed.

(** The limit of one session, and a loopback target in an IPv4-mapped spelling. *)
Example refused_samples :
  snd (try_connect after_tunnel good_url) = Responded 429
  /\ snd (try_connect sample_relay "https://relay:443/.well-known/masque/udp/::ffff:127.0.0.1/53/") = Responded 403
  /\ snd (try_connect sample_relay "https://relay:443/.well-known/masque/udp/9.9.9.9/-53/") = Responded 403
  /\ snd (try_connect sample_relay "https://relay:443/.well-known/masque/udp/9.9.9.9/x/") = Responded 400.
Proof. vm_compute. auto. Qed.

(** The session while its socket is opened, and the tunnel. *)
Lemma relay_safe_witness : targetAllowed (r_targets sample_relay) nine = true.
Proof.
  destruct (connect_admit public sample_policy (sample_auth 0) sample_relay None None (sample_connect good_url)) as [[[s a] t] adm] eqn:E.
  assert (adm = Admits (str "198.51.100.7") nine) as ->.
  { assert (snd (connect_admit public sample_policy (sample_auth 0) sample_relay None None (sample_connect good_url))
      = Admits (str "198.51.100.7") nine) as Ha by (vm_compute; reflexivity). rewrite E in Ha. exact Ha. }
  apply (relay_safe 1 (r_targets sample_relay)
    {| ru_relay := s; ru_dialling := []; ru_live := [(str "198.51.100.7", nine)] |}) with (str "198.51.100.7").
  - eapply rtc_l; [exact (relay_request _ _ _ sample_relay [] [] _ _ _ _ _ _ _ E)|]. eapply rtc_l; [|apply rtc_refl].
    exact (relay_dialled (fun _ => true) s [(str "198.51.100.7", nine)] [] [] (str "198.51.100.7") nine s
      (Tunnel (str "198.51.100.7") nine) (Permutation_refl _) eq_refl).
  - left.
Defined.

Lemma connect_sound_witness :
  exists pr parsed, ParseProxyRequest (cr_http (sample_connect good_url)) = Ok pr
    /\ ParseAddrPort (pr_Target pr) = Some parsed.
Proof.
  destruct open_sample as (a & t & E).
  destruct (connect_sound _ _ _ _ _ _ _ _ _ _ _ _ _ E) as (account & ex & pr & parsed & _ & H1 & H2 & _).
  exists pr, parsed. exact (conj H1 H2).
Defined.
