(* ===== verification/Startup.v ===== *)
(** * Starting and closing the relay

[Start] and [Close] of [internal/relay/server.go] on the system they act on: the
certificate files ([Certificate]), the ticket database and its socket
([TicketService]), the UDP socket and the goroutines.  [Start] undoes what it
opened on every error, by the deferred call it registers. *)

From stdpp Require Import base gmap list numbers.
From Stdlib Require Import ZArith Lia String.
From S2P Require Import Prelude.
From S2P Require Import GoStrings.
From S2P Require Import Paths.
From S2P Require Import Netip.
From S2P Require Import Endpoints.
From S2P Require Import TargetPolicy.
From S2P Require Import Sessions.
From S2P Require Import Base58.
From S2P Require Import AccessConfig.
From S2P Require Import Bolt.
From S2P Require Import Tickets.
From S2P Require Import Samples.
From S2P Require Import Certificate.
From S2P Require Import TicketService.
From S2P Require Import Server.

Local Open Scope Z_scope.

(** ** Data *)

Record Config := {
  Access : AccessConfig;
  ListenAddress : gostring;
  PublicAddress : gostring;
  ServerName : gostring;
  CertificatePath : gostring;
  PrivateKeyPath : gostring;
  AllowedTargets : list AddrPort;
  AllowPrivateTargets : bool;
  AllowLocalAdvertise : bool;
  MaxSessions : Z;
}.

Record Metadata := {
  RelayAddress : gostring;
  RelayServerName : gostring;
  RelayCertSHA256 : gostring;
}.

(** What [Start] sets in the HTTP/3 server; durations in nanoseconds. *)
Record http3_config := {
  MaxHeaderBytes : Z;
  MinVersion : Z;
  Certificates : list (list (list Z));
  NextProtos : list gostring;
  quic_EnableDatagrams : bool;
  MaxIdleTimeout : Z;
  MaxIncomingStreams : Z;
  KeepAlivePeriod : Z;
  http3_EnableDatagrams : bool;
}.

Inductive start_error :=
| BadServerName
| BadListenAddress
| BadPublicAddress
| NotRoutable
| CertificateError (e : cert_error)
| AccessError (e : config_error)
| TicketError (e : open_error)
| ServeError (e : serve_error)
| AnnouncementTooLong
| ListenError
| TemplatePanic.           (** [uritemplate.MustNew] *)

(** ** The announcement *)

(** Bytes of a group ID in the announcement: seven bits each. *)
Fixpoint group_id_bytes (fuel : nat) (id : Z) : Z :=
  match fuel with
  | O => 0
  | S fuel => if id >=? 128 then 1 + group_id_bytes fuel (Z.shiftr id 7) else 0
  end.
(** An [int32] has at most five groups of seven bits. *)
Definition group_bytes (ids : list Z) : Z := fold_right (fun id n => 1 + group_id_bytes 5 id + n) 0 ids.

(** The size of the signed announcement payload. *)
Definition announcement_size (c : Config) (public : Addr) (tickets : bool) : Z :=
  let tail := if tickets then 160 else 96 in
  let header := if tickets then 3 else 4 in
  header + AsSlice_len public + 6 + 32 + len (ServerName c) + group_bytes (slice (AllowedGroupIDs (Access c))) + tail.

Definition literal_endpoint (s : gostring) : option AddrPort :=
  p ← ParseAddrPort s;
  if negb (Addr_IsValid (ap_addr p)) || (ap_port p =? 0) then None else Some p.

(** ** Start *)

Section Start.
  Context {B : Bucket} {H : Hashes} {C : Crypto} {X : X509}.
  Context (url_Parse : gostring -> option url) (template_ok : gostring -> bool).

(** The process and the machine as far as [Start] and [Close] change them. *)
Record world := {
  w_tickets : ticket_world;    (** the file tree, the ticket database and its socket *)
  w_udp : bool;                (** the UDP socket is bound *)
  w_serving : bool;            (** the HTTP/3 server is serving it *)
  w_metrics : bool;            (** [logReceivePressure] is running *)
}.
Definition w_files (w : world) : files := tw_files (w_tickets w).
Definition set_tickets (w : world) (t : ticket_world) : world :=
  {| w_tickets := t; w_udp := w_udp w; w_serving := w_serving w; w_metrics := w_metrics w |}.
Definition set_udp (w : world) (b : bool) : world :=
  {| w_tickets := w_tickets w; w_udp := b; w_serving := w_serving w; w_metrics := w_metrics w |}.
Definition set_serving (w : world) (b : bool) : world :=
  {| w_tickets := w_tickets w; w_udp := w_udp w; w_serving := b; w_metrics := w_metrics w |}.
Definition set_metrics (w : world) (b : bool) : world :=
  {| w_tickets := w_tickets w; w_udp := w_udp w; w_serving := w_serving w; w_metrics := b |}.

Record start_env := {
  s_cert : cert_env;
  s_open : open_env;
  s_serve : serve_env;
  s_listen : bool;             (** the UDP socket could be bound *)
}.

(** The server that was started. *)
Record server := {
  sv_relay : relay;
  sv_tickets : option ticketAuthority;
  sv_access : AccessConfig;
  sv_policy : policy_id;
  sv_listen : AddrPort;
  sv_template : gostring;
  sv_http : http3_config;
}.

Definition relay_http (chain : list (list Z)) : http3_config :=
  {| MaxHeaderBytes := 8192; MinVersion := 0x0304; Certificates := [chain]; NextProtos := [str "h3"];
     quic_EnableDatagrams := true; MaxIdleTimeout := 120 * Second; MaxIncomingStreams := 512;
     KeepAlivePeriod := 30 * Second; http3_EnableDatagrams := true |}.

Definition template_text (public : AddrPort) : gostring :=
  str "https://" ++ AddrPort_String public ++ str "/.well-known/masque/udp/{target_host}/{target_port}/".

(** From the announcement check to the return. *)
Definition start_serving (env : start_env) (c : Config) (listen public : AddrPort) (chain : list (list Z))
  (access : AccessConfig) (policy : policy_id) (tickets : option ticketAuthority) (w : world)
  : world * result start_error (server * Metadata) :=
  let has_tickets := match tickets with Some _ => true | None => false end in
  if announcement_size c (ap_addr public) has_tickets >? 316 then (w, Err AnnouncementTooLong)
  else if negb (s_listen env) then (w, Err ListenError)
  else
    let w := set_udp w true in
    let template := template_text public in
    if negb (template_ok template) then (w, Err TemplatePanic)
    else
      (set_metrics (set_serving w true) true,
       Ok ({| sv_relay := {| r_sessions := new_sessions (MaxSessions c);
                             r_targets := {| tc_allowedTargets := allowed_targets (AllowedTargets c);
                                             tc_AllowPrivateTargets := AllowPrivateTargets c |} |};
              sv_tickets := tickets; sv_access := access; sv_policy := policy; sv_listen := listen;
              sv_template := template; sv_http := relay_http chain |},
           {| RelayAddress := AddrPort_String public; RelayServerName := ServerName c; RelayCertSHA256 := pin policy |})).

(** The deferred function: close the authority unless the relay was started. *)
Definition unless_started {A} (t : ticketAuthority) (r : world * result start_error A) : world * result start_error A :=
  match r with
  | (w, Ok a) => (w, Ok a)
  | (w, Err e) => (set_tickets w (ticket_close t (w_tickets w)), Err e)
  end.

Definition socket_path (c : Config) : gostring := Join2 (Dir (PrivateKeyPath c)) (str "ticket-authority.sock").

Definition Start (env : start_env) (c : Config) (w : world) : world * result start_error (server * Metadata) :=
  if same (ServerName c) [] || (len (ServerName c) >? 128) then (w, Err BadServerName)
  else match literal_endpoint (ListenAddress c) with
  | None => (w, Err BadListenAddress)
  | Some listen =>
    match literal_endpoint (PublicAddress c) with
    | None => (w, Err BadPublicAddress)
    | Some public =>
      if negb (publiclyRoutable (ap_addr public)) && negb (AllowLocalAdvertise c && IsLoopback (ap_addr public))
      then (w, Err NotRoutable)
      else
        let '(f, certificate) :=
          loadOrCreateCertificate (s_cert env) (CertificatePath c) (PrivateKeyPath c) (ServerName c) (w_files w) in
        let w := set_tickets w (set_files (w_tickets w) f) in
        match certificate with
        | Err e => (w, Err (CertificateError e))
        | Ok (chain, leafDER) =>
          match newAccessPolicy url_Parse (Access c) with
          | Err e => (w, Err (AccessError e))
          | Ok (access, rev) =>
            let policy := {| revision := rev; pin := hex_EncodeToString (sha256 leafDER); policy_Mode := Mode access |} in
            if same (Mode access) groups then
              match openTicketAuthority policy (s_open env) (Dir (PrivateKeyPath c)) (w_tickets w) with
              | (tw, Err e) => (set_tickets w tw, Err (TicketError e))
              | (tw, Ok t) =>
                unless_started t
                  match serve (s_serve env) (socket_path c) tw with
                  | (tw, Some e) => (set_tickets w tw, Err (ServeError e))
                  | (tw, None) => start_serving env c listen public chain access policy (Some t) (set_tickets w tw)
                  end
              end
            else start_serving env c listen public chain access policy None w
          end
        end
    end
  end.

(** ** Close *)

Inductive resource := MetricsDone | ProxyFlows | HTTPServer | TicketStore | UDPSocket.

(** The resources [Close] releases, in order; optional ones only if present. *)
Definition Close (has_server has_tickets has_udp : bool) (s : sessions) : sessions * list resource :=
  if closed s then (s, [])
  else (set_closed s,
        MetricsDone :: ProxyFlows :: (if has_server then [HTTPServer] else [])
        ++ (if has_tickets then [TicketStore] else []) ++ (if has_udp then [UDPSocket] else [])).

(** What releasing each of them does; the flows are in [Shutdown]. *)
Definition release_resource (tickets : option ticketAuthority) (w : world) (r : resource) : world :=
  match r with
  | MetricsDone => set_metrics w false
  | ProxyFlows => w
  | HTTPServer => set_serving w false
  | TicketStore => match tickets with Some t => set_tickets w (ticket_close t (w_tickets w)) | None => w end
  | UDPSocket => set_udp w false
  end.
(** [s.Close()] of a started server; [tickets] is the authority as it is by then. *)
Definition Close_server (tickets : option ticketAuthority) (s : sessions) (w : world) : sessions * world :=
  let '(s, released) := Close true (match tickets with Some _ => true | None => false end) true s in
  (s, fold_left (release_resource tickets) released w).
End Start.

(** ** Announcement size *)

(** The announcement's length field for a group ID is its number of base-128
digits. *)
Lemma group_id_bytes_spec fuel id : 0 < id < 128 ^ (Z.of_nat fuel + 1) ->
  let k := group_id_bytes fuel id in 0 <= k /\ 128 ^ k <= id < 128 ^ (k + 1).
Proof.
  revert id. induction fuel as [|fuel IH]; intros id Hid; cbn [group_id_bytes].
  { change (Z.of_nat 0 + 1) with 1 in Hid. rewrite Z.pow_1_r in Hid. change (128 ^ 0) with 1. change (128 ^ (0 + 1)) with 128. lia. }
  destruct (id >=? 128) eqn:E; breflect; cycle 1.
  { change (128 ^ 0) with 1. change (128 ^ (0 + 1)) with 128. lia. }
  rewrite Z.shiftr_div_pow2 by lia. change (2 ^ 7) with 128.
  assert (0 < id / 128 < 128 ^ (Z.of_nat fuel + 1)) as Hq.
  { split; [apply Z.div_str_pos; lia|]. apply Z.div_lt_upper_bound; [lia|].
    rewrite <- Z.pow_succ_r by lia. replace (Z.succ (Z.of_nat fuel + 1)) with (Z.of_nat (S fuel) + 1) by lia. lia. }
  destruct (IH (id / 128) Hq) as (Hk & H1 & H2). set (k := group_id_bytes fuel (id / 128)) in *. cbv zeta.
  replace (1 + k + 1) with (Z.succ (k + 1)) by lia. replace (1 + k) with (Z.succ k) by lia.
  rewrite !Z.pow_succ_r by lia. split; [lia|]. pose proof (Z.div_mod id 128). dlia.
Qed.

(** The bound on the announcement in terms of the group IDs themselves. *)
Lemma group_bytes_exact ids : Forall (fun id => 0 < id < 2 ^ 31) ids ->
  exists ks, group_bytes ids = fold_right Z.add 0 ks
    /\ Forall2 (fun id k => 1 <= k /\ 128 ^ (k - 1) <= id < 128 ^ k) ids ks.
Proof.
  induction 1 as [|id ids Hid _ (ks & Hk & IH)]; [by exists []|].
  destruct (group_id_bytes_spec 5 id) as (H0 & H1).
  { change (128 ^ (Z.of_nat 5 + 1)) with 4398046511104. lia. }
  exists (1 + group_id_bytes 5 id :: ks). split; [cbn [group_bytes fold_right]; unfold group_bytes in Hk; lia|].
  constructor; [|done]. split; [lia|].
  replace (1 + group_id_bytes 5 id - 1) with (group_id_bytes 5 id) by lia.
  by replace (1 + group_id_bytes 5 id) with (group_id_bytes 5 id + 1) by lia.
Qed.

(** ** What a successful start did *)

Section StartSpec.
  Context {B : Bucket} {H : Hashes} {C : Crypto} {X : X509}.
  Context (url_Parse : gostring -> option url) (template_ok : gostring -> bool).

Lemma literal_endpoint_port s p : literal_endpoint s = Some p -> ap_port p <> 0.
Proof.
  intros Hl. unfold literal_endpoint in Hl. apply bind_Some in Hl as (q & _ & Hl).
  destruct (_ || _) eqn:E; [done|]. apply orb_false_iff in E as [_ E]. breflect. by injection Hl as <-.
Qed.

(** The certificate step of [Start]. *)
Definition start_certificate (env : start_env) (c : Config) (w : world) : files * result cert_error (list (list Z) * list Z) :=
  loadOrCreateCertificate (s_cert env) (CertificatePath c) (PrivateKeyPath c) (ServerName c) (w_files w).

(** The steps of a start up to the tickets, and what they found. *)
Record prepared (env : start_env) (c : Config) (w : world) (listen public : AddrPort) (f : files)
  (chain : list (list Z)) (access : AccessConfig) (policy : policy_id) : Prop := {
  pr_name : 1 <= len (ServerName c) <= 128;
  pr_listen : literal_endpoint (ListenAddress c) = Some listen;
  pr_public : literal_endpoint (PublicAddress c) = Some public;
  pr_routable : publiclyRoutable (ap_addr public) = true \/ AllowLocalAdvertise c = true /\ IsLoopback (ap_addr public) = true;
  pr_certificate : exists der, start_certificate env c w = (f, Ok (chain, der)) /\ pin policy = hex_EncodeToString (sha256 der);
  pr_access : newAccessPolicy url_Parse (Access c) = Ok (access, revision policy);
  pr_mode : policy_Mode policy = Mode access;
}.

(** [Start] in the three parts it has: preparation, tickets, serving. *)
Lemma Start_cases env c w :
  (exists e f, Start url_Parse template_ok env c w = (set_tickets w (set_files (w_tickets w) f), Err e)
     /\ (f = w_files w \/ f = fst (start_certificate env c w)))
  \/ exists listen public f chain access policy, prepared env c w listen public f chain access policy
     /\ let w1 := set_tickets w (set_files (w_tickets w) f) in
        Start url_Parse template_ok env c w =
        if same (Mode access) groups then
          match openTicketAuthority policy (s_open env) (Dir (PrivateKeyPath c)) (w_tickets w1) with
          | (tw, Err e) => (set_tickets w1 tw, Err (TicketError e))
          | (tw, Ok t) =>
            unless_started t
              match serve (s_serve env) (socket_path c) tw with
              | (tw, Some e) => (set_tickets w1 tw, Err (ServeError e))
              | (tw, None) => start_serving template_ok env c listen public chain access policy (Some t) (set_tickets w1 tw)
              end
          end
        else start_serving template_ok env c listen public chain access policy None w1.
Proof.
  assert (set_tickets w (set_files (w_tickets w) (w_files w)) = w) as Hid by (by destruct w as [[] ? ? ?]).
  assert (forall e, exists e' f, (w, Err e) = (set_tickets w (set_files (w_tickets w) f), Err e' : result start_error (server * Metadata))
    /\ (f = w_files w \/ f = fst (start_certificate env c w))) as Hearly by (intros e; exists e, (w_files w); rewrite Hid; auto).
  unfold Start. destruct (_ || _) eqn:En; [left; apply Hearly|]. apply orb_false_iff in En as [En1 En2]. breflect.
  destruct (literal_endpoint (ListenAddress c)) as [listen|] eqn:El; [|left; apply Hearly].
  destruct (literal_endpoint (PublicAddress c)) as [public|] eqn:Ep; [|left; apply Hearly].
  destruct (_ && _) eqn:Er; [left; apply Hearly|]. fold (start_certificate env c w).
  destruct (start_certificate env c w) as [f [[chain der]|e]] eqn:Ec; [|left; exists (CertificateError e), f; auto].
  destruct (newAccessPolicy url_Parse (Access c)) as [[access rev]|e] eqn:Ea; [|left; exists (AccessError e), f; auto].
  right. eexists listen, public, f, chain, access, _. split; [constructor|reflexivity]; try done.
  - destruct (same_spec (ServerName c) []) as [|Hn]; [done|]. destruct (ServerName c); [done|].
    rewrite len_cons in *. pose proof (len_nonneg l). lia.
  - destruct (publiclyRoutable (ap_addr public)); [by left|right]. apply andb_false_iff in Er as [|Er]; [done|].
    apply negb_false_iff, andb_prop in Er. done.
  - exists der. done.
Qed.
End StartSpec.

(** ** Nothing is left open *)

Section Leaks.
  Context {B : Bucket} {H : Hashes} {C : Crypto} {X : X509}.
  Context (url_Parse : gostring -> option url) (template_ok : gostring -> bool).

Definition tickets_closed (tw : ticket_world) : Prop := tw_db_open tw = false /\ not_listening tw.
(** Nothing of a relay is open or running. *)
Definition idle (w : world) : Prop :=
  tickets_closed (w_tickets w) /\ w_udp w = false /\ w_serving w = false /\ w_metrics w = false.

(** The paths a start may change. *)
Definition start_paths (c : Config) : list gostring :=
  socket_path c :: cert_paths (CertificatePath c) (PrivateKeyPath c).

Lemma open_spec policy env dir (w w' : ticket_world) r : openTicketAuthority policy env dir w = (w', r) ->
  agree_outside (ancestors dir) (tw_files w) (tw_files w') /\ tw_listener w' = tw_listener w
  /\ match r with
     | Err _ => tw_db_open w = false -> tw_db_open w' = false
     | Ok t => tw_db_open w' = true /\ tw_store w' = Some (db t)
     end.
Proof.
  unfold openTicketAuthority, MkdirAll. destruct (mkdirs _ _ _ _) as [f ok] eqn:Em. apply mkdirs_frame in Em as [Hf _].
  destruct ok; [|by intros [= <- <-]]. destruct (oe_open env); [|by intros [= <- <-]]. cbn [negb].
  destruct (oe_buckets env); [by intros [= <- <-]|]. cbv zeta.
  destruct (descriptor _ _ _ _) as [t [d|e]]; by intros [= <- <-].
Qed.

Lemma close_closed t (w : ticket_world) : tickets_closed (ticket_close t w).
Proof.
  split; [done|]. intros l. unfold ticket_close, close_listener. destruct (tw_listener w) eqn:E; cbn; [by intros [= <-]|congruence].
Qed.

Lemma close_files (t : ticketAuthority) (w : ticket_world) ps f path : path ∈ ps ->
  (forall l, tw_listener w = Some l -> l_open l = true -> l_path l = path) ->
  agree_outside ps f (tw_files w) -> agree_outside ps f (tw_files (ticket_close t w)).
Proof.
  intros Hp Hl Hf. eapply agree_trans; [exact Hf|]. unfold ticket_close, close_listener.
  destruct (tw_listener w) as [l|] eqn:E; [|done]. cbn. unfold listener_Close.
  destruct (l_open l) eqn:Eo; [|done]. rewrite (Hl l eq_refl Eo). destruct (_ && _); [by apply agree_delete|done].
Qed.

Lemma start_serving_spec env c listen public chain access policy tickets w w' r :
  start_serving template_ok env c listen public chain access policy tickets w = (w', r) ->
  w_tickets w' = w_tickets w
  /\ match r with
     | Err e => w_serving w' = w_serving w /\ w_metrics w' = w_metrics w /\ (e <> TemplatePanic -> w_udp w' = w_udp w)
     | Ok (sv, md) => w_udp w' = true /\ w_serving w' = true /\ w_metrics w' = true /\ sv_tickets sv = tickets
         /\ sv_access sv = access /\ sv_policy sv = policy /\ sv_listen sv = listen
         /\ (sv_http sv = relay_http chain /\ sv_template sv = template_text public)
         /\ announcement_size c (ap_addr public) (match tickets with Some _ => true | None => false end) <= 316
         /\ r_sessions (sv_relay sv) = new_sessions (MaxSessions c)
         /\ tc_allowedTargets (r_targets (sv_relay sv)) = allowed_targets (AllowedTargets c)
         /\ md = {| RelayAddress := AddrPort_String public; RelayServerName := ServerName c; RelayCertSHA256 := pin policy |}
     end.
Proof.
  unfold start_serving. intros Hs. destruct (_ >? 316) eqn:E; [by injection Hs as <- <-|]. breflect.
  destruct (s_listen env); [|by injection Hs as <- <-]. cbn [negb] in Hs. cbv zeta in Hs.
  destruct (template_ok _); [|by injection Hs as <- <-]. cbn [negb] in Hs. injection Hs as <- <-. by split_and!.
Qed.

(** [Start] only panics if the URI template library refuses the relay's template. *)
Lemma Start_no_panic env c w w' : (forall p, template_ok (template_text p) = true) ->
  Start url_Parse template_ok env c w <> (w', Err TemplatePanic).
Proof.
  intros Ht. assert (forall env c l p ch ac po tk w w',
    start_serving template_ok env c l p ch ac po tk w <> (w', Err TemplatePanic)) as Hno.
  { intros. unfold start_serving. destruct (_ >? 316); [done|]. destruct (s_listen _); [|done]. cbn [negb]. cbv zeta. by rewrite Ht. }
  unfold Start. destruct (_ || _); [done|]. destruct (literal_endpoint (ListenAddress c)); [|done].
  destruct (literal_endpoint (PublicAddress c)); [|done]. destruct (_ && _); [done|].
  destruct (loadOrCreateCertificate _ _ _ _ _) as [f [[chain der]|e]]; [|done].
  destruct (newAccessPolicy _ _) as [[access rev]|e]; [|done]. cbv zeta. destruct (same _ _); [|apply Hno].
  destruct (openTicketAuthority _ _ _ _) as [tw [t|e]]; [|done]. destruct (serve _ _ _) as [tw2 [e|]]; [done|].
  destruct (start_serving _ _ _ _ _ _ _ _ _ _) as [w1 [started|e]] eqn:E; [done|]. cbn. intros [= _ ->]. by eapply Hno.
Qed.

(** Closing a started server. *)
Lemma Close_server_idle tickets s w : closed s = false ->
  (tickets = None -> tickets_closed (w_tickets w)) -> idle (snd (Close_server tickets s w)).
Proof.
  intros Hc Ht. unfold Close_server, Close. rewrite Hc. destruct tickets as [t|]; cbn.
  - split_and!; try done. apply close_closed.
  - split_and!; try done; by apply Ht.
Qed.

(** The tickets of a started relay: open and private in groups mode, absent
otherwise. *)
Definition tickets_serving (c : Config) (sv : server) (w : world) : Prop :=
  match sv_tickets sv with
  | Some t => Mode (sv_access sv) = groups /\ tw_db_open (w_tickets w) = true /\ tw_store (w_tickets w) = Some (db t)
      /\ w_files w !! socket_path c = Some (UnixSocket true (octal 6 0 0))
      /\ tw_listener (w_tickets w) = Some {| l_path := socket_path c; l_file := true; l_open := true |}
  | None => Mode (sv_access sv) <> groups /\ tickets_closed (w_tickets w)
  end.

Lemma Start_tickets env c w listen public chain access policy w' r :
  HasPrefix (socket_path c) (str "@") = false -> idle w -> same (Mode access) groups = true ->
  match openTicketAuthority policy (s_open env) (Dir (PrivateKeyPath c)) (w_tickets w) with
  | (tw, Err e) => (set_tickets w tw, Err (TicketError e))
  | (tw, Ok t) =>
    unless_started t
      match serve (s_serve env) (socket_path c) tw with
      | (tw, Some e) => (set_tickets w tw, Err (ServeError e))
      | (tw, None) => start_serving template_ok env c listen public chain access policy (Some t) (set_tickets w tw)
      end
  end = (w', r) ->
  agree_outside (start_paths c) (w_files w) (w_files w')
  /\ match r with
     | Err e => tickets_closed (w_tickets w') /\ w_serving w' = false /\ w_metrics w' = false
         /\ (e <> TemplatePanic -> w_udp w' = false)
     | Ok (sv, _) => w_udp w' = true /\ w_serving w' = true /\ w_metrics w' = true /\ tickets_serving c sv w'
     end.
Proof.
  intros Hp ((Hdb & Hnl) & Hu & Hs & Hm) Hg Hr.
  destruct (openTicketAuthority _ _ _ _) as [tw ro] eqn:Eo. apply open_spec in Eo as (Hf1 & Hl1 & Ho).
  assert (agree_outside (start_paths c) (w_files w) (tw_files tw)) as Hf1'.
  { eapply agree_mono; [exact Hf1|]. unfold start_paths, cert_paths. set_solver. }
  destruct ro as [t|e]; cycle 1.
  { injection Hr as <- <-. split; [done|]. split; [split; [cbn; auto|intros l; cbn; rewrite Hl1; auto]|auto]. }
  destruct Ho as [Hdb1 Hst1].
  assert (not_listening tw) as Hnl1 by (intros l; rewrite Hl1; auto).
  destruct (serve _ _ tw) as [tw2 e2] eqn:Es. apply serve_path in Es as (Hst2 & Hdb2 & Hf2 & He2 & _); [|done].
  assert (agree_outside (start_paths c) (w_files w) (tw_files tw2)) as Hf2'.
  { eapply agree_trans; [exact Hf1'|]. eapply agree_mono; [exact Hf2|]. unfold start_paths. set_solver. }
  destruct e2 as [e2|].
  - destruct He2 as [He2 _]. injection Hr as <- <-. split_and!; try done; [|by apply close_closed].
    apply (close_files t tw2 _ _ (socket_path c)); [unfold start_paths; set_solver| |done].
    intros l Hl Ho. rewrite (He2 Hnl1 l Hl) in Ho. done.
  - destruct He2 as (Hsock & Hlis & _).
    destruct (start_serving _ _ _ _ _ _ _ _ _ _) as [w3 r3] eqn:E3. apply start_serving_spec in E3 as [Ht3 Hr3].
    cbn in Ht3. destruct r3 as [[sv md]|e3]; injection Hr as <- <-.
    + split; [unfold w_files at 2; by rewrite Ht3|]. destruct Hr3 as (? & ? & ? & Htk & Hac & _).
      split_and!; [done..|]. unfold tickets_serving. rewrite Htk, Hac. unfold w_files. rewrite Ht3. destruct (same_spec (Mode access) groups); [|done].
      split_and!; try done; congruence.
    + destruct Hr3 as (H1 & H2 & H3). split; [|split; [by apply close_closed|cbn; rewrite H1, H2; split; [done|split; [done|]]]].
      * unfold w_files at 2. cbn [w_tickets set_tickets]. rewrite Ht3.
        apply (close_files t tw2 _ _ (socket_path c)); [unfold start_paths; set_solver| |done].
        intros l. rewrite Hlis. by intros [= <-].
      * intros Hne. rewrite H3 by done. done.
Qed.

Lemma Close_server_files c sv w tickets s : closed s = false -> tickets_serving c sv w ->
  (is_Some tickets <-> is_Some (sv_tickets sv)) ->
  let w2 := snd (Close_server tickets s w) in
  idle w2 /\ agree_outside [socket_path c] (w_files w) (w_files w2)
  /\ (is_Some (sv_tickets sv) -> w_files w2 !! socket_path c = None).
Proof.
  intros Hc Ht Hi. cbv zeta. split; [|].
  - apply Close_server_idle; [done|]. intros ->. unfold tickets_serving in Ht. destruct (sv_tickets sv); [|tauto].
    destruct Hi as [_ Hi]. destruct Hi; [by eexists|done].
  - unfold Close_server, Close. rewrite Hc. unfold tickets_serving in Ht.
    destruct (sv_tickets sv) as [t0|], tickets as [t|]; cbn; try (by destruct Hi as [Hi1 Hi2];
      first [destruct Hi1; [by eexists|done]|destruct Hi2; [by eexists|done]]); [|split; [done|by intros []]].
    destruct Ht as (_ & _ & _ & _ & Hl). unfold w_files. cbn. unfold close_listener. rewrite Hl. cbn.
    split; [apply agree_delete; set_solver|]. intros _. apply lookup_delete_eq.
Qed.

(** What [Start] leaves. *)
Lemma Start_outcome env c w w' r :
  HasPrefix (socket_path c) (str "@") = false -> idle w -> Start url_Parse template_ok env c w = (w', r) ->
  agree_outside (start_paths c) (w_files w) (w_files w')
  /\ match r with
     | Err e => tickets_closed (w_tickets w') /\ w_serving w' = false /\ w_metrics w' = false
         /\ (e <> TemplatePanic -> w_udp w' = false)
     | Ok (sv, _) => w_udp w' = true /\ w_serving w' = true /\ w_metrics w' = true /\ tickets_serving c sv w'
     end.
Proof.
  intros Hp Hi Hs. destruct (Start_cases url_Parse template_ok env c w) as
    [(e & f & He & Hf)|(listen & public & f & chain & access & policy & Hpr & He)]; rewrite Hs in He.
  - injection He as -> ->. destruct Hi as ((Hd & Hl) & Hu & Hsv & Hm). split; [|by split_and!].
    destruct Hf as [->| ->]; [done|]. eapply agree_mono; [eapply certificate_frame, surjective_pairing|unfold start_paths; set_solver].
  - destruct (pr_certificate _ _ _ _ _ _ _ _ _ _ Hpr) as (der & Hc & _). apply certificate_frame in Hc.
    assert (agree_outside (start_paths c) (w_files w) f) as Hc'.
    { eapply agree_mono; [exact Hc|]. unfold start_paths. set_solver. }
    set (w1 := set_tickets w _) in He. assert (idle w1) as Hi1 by exact Hi.
    assert (agree_outside (start_paths c) (w_files w1) (w_files w')
      /\ match r with
         | Err e => tickets_closed (w_tickets w') /\ w_serving w' = false /\ w_metrics w' = false
             /\ (e <> TemplatePanic -> w_udp w' = false)
         | Ok (sv, _) => w_udp w' = true /\ w_serving w' = true /\ w_metrics w' = true /\ tickets_serving c sv w'
         end) as [Hf Hr].
    { destruct (same (Mode access) groups) eqn:Eg; symmetry in He; [by eapply Start_tickets|].
      apply start_serving_spec in He as [Ht Hr]. split; [unfold w_files at 2; by rewrite Ht|].
      destruct Hi1 as (Hcl & Hu & Hsv & Hm). destruct r as [[sv md]|e].
      - destruct Hr as (? & ? & ? & Htk & Hac & _). split_and!; try done. unfold tickets_serving. rewrite Htk, Hac, Ht.
        split; [|done]. by destruct (same_spec (Mode access) groups).
      - destruct Hr as (H1 & H2 & H3). rewrite Ht, H1, H2. split_and!; try done. intros Hne. by rewrite H3. }
    split; [eapply agree_trans; [exact Hc'|exact Hf]|exact Hr].
Qed.

(** C20: A start leaves nothing behind.  Starting an idle relay writes nothing but
its certificate files, their directories and its socket.  If it fails, whatever
the reason, the ticket database and its socket are closed again, no goroutine is
left, and the UDP socket is not bound (unless the process is going down with a
panic).  If it succeeds everything is running, with the private ticket socket in
groups mode and no tickets otherwise, and closing the server releases all of it
and removes the socket file, whatever the authority has stored meanwhile. *)
Theorem Start_no_leak env c w w' r :
  HasPrefix (socket_path c) (str "@") = false -> idle w -> Start url_Parse template_ok env c w = (w', r) ->
  agree_outside (start_paths c) (w_files w) (w_files w')
  /\ match r with
     | Err e => tickets_closed (w_tickets w') /\ w_serving w' = false /\ w_metrics w' = false
         /\ (e <> TemplatePanic -> w_udp w' = false)
     | Ok (sv, _) => w_udp w' = true /\ w_serving w' = true /\ w_metrics w' = true /\ tickets_serving c sv w'
         /\ forall s tickets, closed s = false -> (is_Some tickets <-> is_Some (sv_tickets sv)) ->
            let w2 := snd (Close_server tickets s w') in
            idle w2 /\ agree_outside [socket_path c] (w_files w') (w_files w2)
            /\ (is_Some (sv_tickets sv) -> w_files w2 !! socket_path c = None)
     end.
Proof.
  intros Hp Hi Hs. destruct (Start_outcome _ _ _ _ _ Hp Hi Hs) as [Hf Hr]. split; [done|]. destruct r as [[sv md]|e]; [|done].
  destruct Hr as (H1 & H2 & H3 & H4). split_and!; try done. intros s tickets Hcl Hti. by apply Close_server_files.
Qed.

(** A successful start, as its preparation and the server it set up; what existed
after the preparation is still there, the socket apart. *)
Lemma Start_ok env c w w' sv md : Start url_Parse template_ok env c w = (w', Ok (sv, md)) ->
  exists public f chain,
    prepared url_Parse env c w (sv_listen sv) public f chain (sv_access sv) (sv_policy sv)
    /\ (HasPrefix (socket_path c) (str "@") = false ->
        forall q n, f !! q = Some n -> q <> socket_path c -> w_files w' !! q = Some n)
    /\ (sv_http sv = relay_http chain /\ sv_template sv = template_text public)
    /\ announcement_size c (ap_addr public) (same (Mode (sv_access sv)) groups) <= 316
    /\ r_sessions (sv_relay sv) = new_sessions (MaxSessions c)
    /\ tc_allowedTargets (r_targets (sv_relay sv)) = allowed_targets (AllowedTargets c)
    /\ md = {| RelayAddress := AddrPort_String public; RelayServerName := ServerName c; RelayCertSHA256 := pin (sv_policy sv) |}.
Proof.
  intros Hs. destruct (Start_cases url_Parse template_ok env c w) as
    [(e & f & He & Hf)|(listen & public & f & chain & access & policy & Hpr & He)]; rewrite Hs in He; [done|]. cbv zeta in He.
  assert (exists tickets w0, (match tickets with Some _ => true | None => false end) = same (Mode access) groups
    /\ start_serving template_ok env c listen public chain access policy tickets w0 = (w', Ok (sv, md))
    /\ (HasPrefix (socket_path c) (str "@") = false ->
        forall q n, f !! q = Some n -> q <> socket_path c -> w_files w0 !! q = Some n)) as (tk & w0 & Htk & Hst & Hq).
  { destruct (same (Mode access) groups); [|by eexists None, _].
    destruct (openTicketAuthority _ _ _ _) as [tw [t|]] eqn:Eo; [|done]. destruct (serve _ _ _) as [tw2 [|]] eqn:Es; [done|].
    destruct (start_serving _ _ _ _ _ _ _ _ _ _) as [w1 [[]|]] eqn:E; [|done]. injection He as -> -> ->. eexists (Some t), _.
    split_and!; [done|exact E|]. intros Hp q n Hq Hne. apply serve_path in Es as (_ & _ & Hf2 & _); [|done].
    cbn. rewrite Hf2 by set_solver. revert Eo. unfold openTicketAuthority, MkdirAll.
    destruct (mkdirs _ _ _ _) as [f1 ok] eqn:Em. apply mkdirs_frame in Em as [_ Hk].
    destruct ok; [|done]. destruct (oe_open _); [|done]. cbn [negb]. destruct (oe_buckets _); [done|]. cbv zeta.
    destruct (descriptor _ _ _ _) as [t1 [d|e]]; [|done]. intros [= <- _]. cbn. by apply Hk. }
  apply start_serving_spec in Hst as [Ht (_ & _ & _ & _ & Hac & Hpo & Hli & [Hht Hte] & Han & Hse & Hta & Hmd)].
  exists public, f, chain. rewrite Hac, Hpo, Hli. rewrite Htk in Han. unfold w_files in *. rewrite Ht. split_and!; done.
Qed.

(** The address in the metadata reads back as the endpoint that was configured. *)
Lemma Start_announces env c w w' sv md : Start url_Parse template_ok env c w = (w', Ok (sv, md)) ->
  exists public, literal_endpoint (PublicAddress c) = Some public /\ RelayAddress md = AddrPort_String public
    /\ ParseAddrPort (RelayAddress md) = Some public.
Proof.
  intros Hs. destruct (Start_ok _ _ _ _ _ _ Hs) as (public & f & chain & Hpr & _ & _ & _ & _ & _ & ->). exists public.
  pose proof (pr_public _ _ _ _ _ _ _ _ _ _ Hpr) as Hp. split_and!; [done..|]. cbn [RelayAddress].
  unfold literal_endpoint in Hp. apply bind_Some in Hp as (q & Hq & Hp). destruct (_ || _); [done|]. injection Hp as ->.
  by eapply ParseAddrPort_again.
Qed.

(** C19: What [Start] guarantees of a configuration it accepts: a server name of 1
to 128 bytes; literal endpoints with a port, the advertised one publicly routable
(or loopback, if that was asked for explicitly); a valid access policy, for which
the revision is computed; an announcement of at most 316 bytes, counting each
group ID at its exact base-128 length; a positive session limit; permitted private
targets compared without IPv4-mapping; TLS 1.3 with the certificate whose hash is
announced; and metadata that says so. *)
Theorem Start_sound env c w w' sv md :
  Start url_Parse template_ok env c w = (w', Ok (sv, md)) ->
  exists public chain der f,
  1 <= len (ServerName c) <= 128
  /\ literal_endpoint (ListenAddress c) = Some (sv_listen sv) /\ ap_port (sv_listen sv) <> 0
  /\ literal_endpoint (PublicAddress c) = Some public /\ ap_port public <> 0
  /\ (publiclyRoutable (ap_addr public) = true \/ AllowLocalAdvertise c = true /\ IsLoopback (ap_addr public) = true)
  /\ config_ok url_Parse (default_mode (Access c))
  /\ revision (sv_policy sv) = hex_EncodeToString (sha256 (policy_document (sv_access sv)))
  /\ announcement_size c (ap_addr public) (same (Mode (sv_access sv)) groups) <= 316
  /\ 0 < maxSessions (r_sessions (sv_relay sv))
  /\ tc_allowedTargets (r_targets (sv_relay sv)) = allowed_targets (AllowedTargets c)
  /\ start_certificate env c w = (f, Ok (chain, der))
  /\ Certificates (sv_http sv) = [chain] /\ MinVersion (sv_http sv) = 0x0304
  /\ pin (sv_policy sv) = hex_EncodeToString (sha256 der)
  /\ md = {| RelayAddress := AddrPort_String public; RelayServerName := ServerName c; RelayCertSHA256 := pin (sv_policy sv) |}.
Proof.
  intros Hs. destruct (Start_ok _ _ _ _ _ _ Hs) as (public & f & chain & Hpr & _ & [Hht _] & Han & Hse & Hta & Hmd).
  destruct Hpr as [Hn Hl Hpu Hro (der & Hce & Hpin) Hacc _].
  unfold newAccessPolicy in Hacc. destruct (validate url_Parse (default_mode (Access c))) as [c' [e|]] eqn:Ev; [done|].
  injection Hacc as -> Hrev. symmetry in Hrev. apply validate_accepts in Ev as [Ev _].
  exists public, chain, der, f. rewrite Hht, Hse, Hta. split_and!; try done; try (by eapply literal_endpoint_port); [lia..|].
  cbn. destruct (MaxSessions c <=? 0) eqn:E; breflect; lia.
Qed.
End Leaks.

(** ** The same relay after a restart *)

Section Restart.
  Context {B : Bucket} {H : Hashes} {C : Crypto} {X : X509} {XO : X509Ok X}.
  Context (url_Parse : gostring -> option url) (template_ok : gostring -> bool).

(** The two files exist after a start. *)
Lemma pair_present env c w f r : Clean (CertificatePath c) <> Clean (PrivateKeyPath c) ->
  start_certificate env c w = (f, Ok r) ->
  is_Some (f !! Clean (CertificatePath c)) /\ is_Some (f !! Clean (PrivateKeyPath c)).
Proof.
  unfold start_certificate, loadOrCreateCertificate. intros Hne Hl. destruct r as [chain der].
  assert (createCertificate (s_cert env) (CertificatePath c) (PrivateKeyPath c) (ServerName c) (w_files w) = (f, Ok (chain, der)) ->
    is_Some (f !! Clean (CertificatePath c)) /\ is_Some (f !! Clean (PrivateKeyPath c))) as Hcr.
  { intros Hc. destruct (create_ok _ _ _ _ _ _ _ _ Hne Hc) as (? & ? & ? & ? & _ & _ & H3 & H4 & _). eauto. }
  destruct (_ || _); [done|]. destruct (LoadX509KeyPair _ _ _ _) as [[|d rest]| |] eqn:El; try done; [|auto|split_if_in Hl; [done|auto]].
  destruct (ParseCertificate d); [|auto]. destruct (_ && _); [|auto]. injection Hl as <- _ _.
  unfold LoadX509KeyPair, ReadFile in El. destruct (read_fails _ (CertificatePath c)); [done|].
  destruct (w_files w !! Clean (CertificatePath c)) as [[]|]; try done. destruct (read_fails _ (PrivateKeyPath c)); [done|].
  by destruct (w_files w !! Clean (PrivateKeyPath c)) as [[]|].
Qed.

(** A restart keeps the relay's identity.  If a relay was started and a later
start of the same configuration finds the two certificate files as they were,
more than a day before the certificate expires, then what it announces is the
same and so is the policy under which it issues and accepts tickets: pins held by
clients and tickets bought before the restart stay good. *)
Theorem restart_identity env c w w' sv md env2 w2 w3 sv2 md2 :
  Clean (CertificatePath c) <> Clean (PrivateKeyPath c) -> hostname_ok (ServerName c) = true ->
  socket_path c <> Clean (CertificatePath c) -> socket_path c <> Clean (PrivateKeyPath c) ->
  HasPrefix (socket_path c) (str "@") = false -> - 7200 <= ce_zone' (s_cert env) - ce_zone (s_cert env) <= 7200 ->
  Start url_Parse template_ok env c w = (w', Ok (sv, md)) ->
  same_pair (CertificatePath c) (PrivateKeyPath c) (w_files w') (w_files w2) ->
  readable (CertificatePath c) (PrivateKeyPath c) (s_cert env2) ->
  (forall der rest leaf, Certificates (sv_http sv) = [der :: rest] -> ParseCertificate der = Some leaf ->
    ce_check (s_cert env2) + day < x_NotAfter leaf) ->
  Start url_Parse template_ok env2 c w2 = (w3, Ok (sv2, md2)) ->
  md2 = md /\ sv_policy sv2 = sv_policy sv /\ sv_http sv2 = sv_http sv.
Proof.
  intros Hne Hn Hs1 Hs2 Hat Hz H1 [Hp1 Hp2] Hr Ht H2.
  destruct (Start_ok _ _ _ _ _ _ _ _ H1) as (public & f & chain & Hpr & Hkeep & [Hht _] & _ & _ & _ & Hmd).
  destruct (Start_ok _ _ _ _ _ _ _ _ H2) as (public2 & f2 & chain2 & Hpr2 & _ & [Hht2 _] & _ & _ & _ & Hmd2).
  destruct Hpr as [_ _ Hpu _ (der & Hce & Hpin) Hacc Hmo], Hpr2 as [_ _ Hpu2 _ (der2 & Hce2 & Hpin2) Hacc2 Hmo2].
  assert (public2 = public) as -> by congruence.
  destruct (certificate_identity _ _ _ _ _ _ _ _ Hce Hne Hn Hz) as [(leaf & rest & -> & Hleaf & _ & Hagain) _].
  destruct (pair_present _ _ _ _ _ Hne Hce) as [[n1 Hn1] [n2 Hn2]].
  rewrite (Hkeep Hat _ _ Hn1) in Hp1 by done. rewrite (Hkeep Hat _ _ Hn2) in Hp2 by done.
  unfold start_certificate in Hce2. rewrite Hagain in Hce2; [|by split; congruence|done|].
  - injection Hce2 as <- <- <-. rewrite Hht, Hht2.
    assert (sv_policy sv2 = sv_policy sv) as Hpol.
    { destruct (sv_policy sv), (sv_policy sv2). cbn in *. congruence. }
    split_and!; [|done|done]. rewrite Hmd, Hmd2, Hpol. done.
  - apply (Ht der rest leaf); [by rewrite Hht|done].
Qed.
End Restart.
(** ** Close *)

(** Any number of calls of [Close], in any order: what they release. *)
Fixpoint closes (n : nat) (server tickets udp : bool) (s : sessions) : sessions * list resource :=
  match n with
  | O => (s, [])
  | S n => let '(s1, r1) := Close server tickets udp s in
           let '(s2, r2) := closes n server tickets udp s1 in (s2, r1 ++ r2)
  end.

Lemma closes_closed n server tickets udp s : closed s = true -> closes n server tickets udp s = (s, []).
Proof. intros Hc. induction n as [|n IH]; [done|]. cbn. unfold Close. rewrite Hc. cbn. by rewrite IH. Qed.

(** [Close] may be called any number of times: every resource the server has
is released exactly once, in the same order, by the first call, and from then on
no session is admitted. *)
Theorem Close_once n server tickets udp s :
  closed s = false ->
  let '(s', released) := closes (S n) server tickets udp s in
  released = snd (Close server tickets udp s) /\ List.NoDup released
  /\ (forall r, In r released <-> match r with
                                  | HTTPServer => server = true
                                  | TicketStore => tickets = true
                                  | UDPSocket => udp = true
                                  | MetricsDone | ProxyFlows => True
                                  end)
  /\ closed s' = true /\ forall source, acquire s' source = (s', false).
Proof.
  intros Hc. cbn [closes]. unfold Close at 1 2. rewrite Hc. rewrite closes_closed by done. rewrite app_nil_r.
  split_and!; [done| | |done|].
  - destruct server, tickets, udp; repeat constructor; cbn; intuition discriminate.
  - intros r. destruct server, tickets, udp, r; cbn; intuition discriminate.
  - intros source. unfold acquire. done.
Qed.

Lemma Close_once_witness :
  snd (closes 3 true false true (new_sessions 4)) = snd (Close true false true (new_sessions 4)).
Proof.
  pose proof (Close_once 2 true false true (new_sessions 4) eq_refl) as Hc.
  destruct (closes 3 true false true (new_sessions 4)) as [s' released]. apply Hc.
Defined.

(** ** A concrete relay *)

#[local] Existing Instance sample_x509.
#[local] Existing Instance sample_x509_ok.

Definition sample_start : Config :=
  {| Access := {| Mode := groups; AllowedGroupIDs := Some [5; 300]; CoreURLBases := Some [str "core/"] |};
     ListenAddress := str "0.0.0.0:443"; PublicAddress := str "9.9.9.9:443"; ServerName := relay_name;
     CertificatePath := cert_file; PrivateKeyPath := key_file;
     AllowedTargets := []; AllowPrivateTargets := false; AllowLocalAdvertise := false; MaxSessions := 0 |}.
Definition fresh_world : world :=
  {| w_tickets := {| tw_files := ∅; tw_store := None; tw_db_open := false; tw_listener := None |};
     w_udp := false; w_serving := false; w_metrics := false |}.
Definition sample_start_env (now key : Z) : start_env :=
  {| s_cert := sample_cert_env now key;
     s_open := {| oe_os := sample_os; oe_open := true; oe_buckets := None; oe_now := now; oe_desc := sample_desc now |};
     s_serve := calm_serve; s_listen := true |}.
Definition run_sample (now key : Z) (w : world) : world * result start_error (server * Metadata) :=
  Start sample_url (fun _ => true) (sample_start_env now key) sample_start w.

Definition first_run := run_sample (20000 * day) 7 fresh_world.
(** The relay is closed and started again a month later. *)
Definition second_run :=
  run_sample (20030 * day) 8 (snd (Close_server (Some sample_authority) (new_sessions 4) (fst first_run))).

Lemma fresh_idle : idle fresh_world.
Proof. split; [split; [reflexivity|intros l Hl; discriminate Hl]|repeat split]. Qed.

Lemma runs_ok : is_ok (snd first_run) && is_ok (snd second_run) = true.
Proof. vm_compute. reflexivity. Qed.

Lemma run_result now key w : is_ok (snd (run_sample now key w)) = true ->
  exists w' sv md, run_sample now key w = (w', Ok (sv, md)).
Proof. destruct (run_sample now key w) as [w' [[sv md]|e]]; [|done]. eauto. Qed.

Lemma first_run_result : exists sv md, first_run = (fst first_run, Ok (sv, md)).
Proof.
  destruct (run_result (20000 * day) 7 fresh_world) as (w' & sv & md & E).
  { pose proof runs_ok as Hr. apply andb_true_iff in Hr as [Hr _]. exact Hr. }
  exists sv, md. unfold first_run. rewrite E. reflexivity.
Qed.

Lemma Start_sound_witness : exists sv md, first_run = (fst first_run, Ok (sv, md)) /\ 0 < maxSessions (r_sessions (sv_relay sv)).
Proof.
  destruct first_run_result as (sv & md & E). exists sv, md. split; [exact E|].
  destruct (Start_sound _ _ _ _ _ _ _ _ E) as (? & ? & ? & ? & _ & _ & _ & _ & _ & _ & _ & _ & _ & Hm & _). exact Hm.
Defined.

Lemma Start_no_leak_witness : w_files (fst first_run) !! socket_path sample_start = Some (UnixSocket true (octal 6 0 0)).
Proof.
  destruct first_run_result as (sv & md & E).
  destruct (Start_no_leak sample_url (fun _ => true) (sample_start_env (20000 * day) 7) sample_start fresh_world (fst first_run)
              (Ok (sv, md)) eq_refl fresh_idle E) as (_ & _ & _ & _ & Ht & _).
  unfold tickets_serving in Ht. destruct (sv_tickets sv) as [t|] eqn:Et; [apply Ht|].
  exfalso. assert (match snd first_run with Ok (sv, _) => bool_decide (is_Some (sv_tickets sv)) | Err _ => true end = true) as En
    by (vm_compute; reflexivity).
  rewrite E in En. cbn [snd] in En. rewrite Et in En. discriminate En.
Defined.

Lemma restart_identity_witness : exists w sv md, second_run = (w, Ok (sv, md)) /\ exists sv1, snd first_run = Ok (sv1, md).
Proof.
  destruct first_run_result as (sv1 & md1 & E1).
  destruct (run_result (20030 * day) 8 (snd (Close_server (Some sample_authority) (new_sessions 4) (fst first_run)))) as (w2 & sv2 & md2 & E2).
  { pose proof runs_ok as Hr. apply andb_true_iff in Hr as [_ Hr]. exact Hr. }
  exists w2, sv2, md2. split; [exact E2|]. exists sv1. rewrite E1. cbn [snd].
  enough (md2 = md1) as -> by reflexivity.
  refine (proj1 (restart_identity sample_url (fun _ => true) (sample_start_env (20000 * day) 7) sample_start fresh_world
    (fst first_run) sv1 md1 (sample_start_env (20030 * day) 8) _ w2 sv2 md2 _ _ _ _ _ _ E1 _ _ _ E2)).
  - vm_compute; discriminate.
  - vm_compute; reflexivity.
  - vm_compute; discriminate.
  - vm_compute; discriminate.
  - vm_compute; reflexivity.
  - vm_compute; split; discriminate.
  - split; vm_compute; reflexivity.
  - split; reflexivity.
  - intros der rest leaf Hc Hp.
    assert (match snd first_run with Ok (sv, _) => Certificates (sv_http sv) | Err _ => [] end = [der :: rest]) as Hc' by (rewrite E1; exact Hc).
    vm_compute in Hc'. injection Hc' as <- <-. vm_compute in Hp. injection Hp as <-. vm_compute. reflexivity.
Defined.
