(* ===== verification/Upnp.v ===== *)
(** * The UPnP port mapping

[internal/upnp/mapping.go]: choosing a gateway, checking the address it reports,
adding, refreshing and removing the mapping.  The gateway protocol
([huin/goupnp]) is a third-party package; a gateway is what its calls return. *)

From stdpp Require Import base list numbers.
From Stdlib Require Import ZArith Lia String.
From S2P Require Import Prelude.
From S2P Require Import GoStrings.
From S2P Require Import Netip.
From S2P Require Import Endpoints.
From S2P Require Import TargetPolicy.

Local Open Scope Z_scope.

(** ** The code *)

Definition defaultLeaseSeconds : Z := 7200.

(** The arguments of [AddPortMappingCtx]. *)
Record mapping_request := {
  mq_externalPort : Z;
  mq_protocol : gostring;
  mq_internalPort : Z;
  mq_internalClient : list Z;  (** bytes of the local address *)
  mq_enabled : bool;
  mq_description : gostring;
  mq_lease : Z;
}.

Record gatewayClient := {
  LocalAddr : list Z;
  GetExternalIPAddress : option gostring;
  AddPortMapping : mapping_request -> bool;
}.

Record Mapping := {
  m_client : gatewayClient;
  m_internalPort : Z;
  m_externalPort : Z;
  m_description : gostring;
  m_leaseSeconds : Z;
  m_publicIP : Addr;
}.

Definition isPublicInternetAddress (address : Addr) : bool :=
  if negb (Addr_IsValid address) || negb (IsGlobalUnicast address) || IsPrivate address
     || IsLoopback address || IsLinkLocalUnicast address then false
  else if Is4 address
          && (let '(o0, o1, _, _) := As4 address in (o0 =? 100) && (o1 >=? 64) && (o1 <=? 127)) then false
  else true.

(** [netip.AddrFromSlice] *)
Definition AddrFromSlice (b : list Z) : option Addr :=
  match List.length b with
  | 4%nat => Some (A4 (be_value b))
  | 16%nat => Some (A6 (be_value b) [])
  | _ => None
  end.

Definition add_request (m : Mapping) : mapping_request :=
  {| mq_externalPort := m_externalPort m; mq_protocol := str "UDP"; mq_internalPort := m_internalPort m;
     mq_internalClient := LocalAddr (m_client m); mq_enabled := true;
     mq_description := m_description m; mq_lease := m_leaseSeconds m |}.
Definition add (m : Mapping) : bool := AddPortMapping (m_client m) (add_request m).

(** [Mapping.Close]: what the gateway is asked to delete. *)
Record delete_request := { dq_remoteHost : gostring; dq_externalPort : Z; dq_protocol : gostring }.
Definition Mapping_Close (m : Mapping) : delete_request :=
  {| dq_remoteHost := []; dq_externalPort := m_externalPort m; dq_protocol := str "UDP" |}.

Inductive upnp_error := ZeroPort | Discovery | ReadExternal | NonPublic | NoLocal | MapFailed | NoGateway | NoUsable.

Definition openWithClient (client : gatewayClient) (port : Z) (description : gostring) : result upnp_error Mapping :=
  match GetExternalIPAddress client with
  | None => Err ReadExternal
  | Some external =>
    match ParseAddr (TrimSpace external) with
    | None => Err NonPublic
    | Some publicIP =>
      if negb (isPublicInternetAddress publicIP) then Err NonPublic
      else match AddrFromSlice (LocalAddr client) with
      | None => Err NoLocal
      | Some localIP =>
        if negb (Addr_IsValid localIP) || IsUnspecified localIP then Err NoLocal
        else
          let mapping := {| m_client := client; m_internalPort := port; m_externalPort := port;
                            m_description := description; m_leaseSeconds := defaultLeaseSeconds;
                            m_publicIP := Unmap publicIP |} in
          if negb (add mapping) then Err MapFailed else Ok mapping
      end
    end
  end.

(** The clients of the three services, in the order they are queried; an error
of a query is kept next to the clients it found. *)
Record discovery := {
  dc_clients : list gatewayClient;
  dc_errors : nat;   (** errors of single devices *)
  dc_fatal : bool;   (** the query itself failed *)
}.
Definition discoverClients (ip2 ip1 ppp1 : discovery) : discovery :=
  {| dc_clients := dc_clients ip2 ++ dc_clients ip1 ++ dc_clients ppp1;
     dc_errors := dc_errors ip2 + dc_errors ip1 + dc_errors ppp1;
     dc_fatal := dc_fatal ip2 || dc_fatal ip1 || dc_fatal ppp1 |}.

(** Try the clients in order; the number of failures so far only shows in the
error. *)
Fixpoint try_clients (clients : list gatewayClient) (failures : nat) (port : Z) (description : gostring)
  : result upnp_error Mapping :=
  match clients with
  | [] => match failures with O => Err NoGateway | _ => Err NoUsable end
  | client :: clients =>
    match openWithClient client port description with
    | Ok m => Ok m
    | Err _ => try_clients clients (S failures) port description
    end
  end.

Definition Open (d : discovery) (port : Z) (description : gostring) : result upnp_error Mapping :=
  if port =? 0 then Err ZeroPort
  else if dc_fatal d && bool_decide (List.length (dc_clients d) = O) then Err Discovery
  else try_clients (dc_clients d) (dc_errors d) port description.

Definition PublicAddress (m : Mapping) : AddrPort := AddrPortFrom (m_publicIP m) (m_externalPort m).

(** Seconds between refreshes. *)
Definition refresh_interval (m : Mapping) : Z :=
  let interval := m_leaseSeconds m / 2 in if interval <? 600 then 600 else interval.

(** What [Maintain] waits for: the context, or a tick whose refresh the gateway
accepts or not. *)
Inductive maintain_event := ContextEnds | Tick (accepted : bool).
Fixpoint Maintain (events : list maintain_event) : option bool :=
  match events with
  | [] => None                       (* still running *)
  | ContextEnds :: _ => Some true    (* nil *)
  | Tick true :: events => Maintain events
  | Tick false :: _ => Some false    (* an error *)
  end.

(** ** The reported address *)

(** The predicates look through IPv4-mapping. *)
Lemma predicates_unmap a :
  IsPrivate (Unmap a) = IsPrivate a /\ IsLoopback (Unmap a) = IsLoopback a
  /\ IsLinkLocalUnicast (Unmap a) = IsLinkLocalUnicast a /\ IsMulticast (Unmap a) = IsMulticast a
  /\ IsGlobalUnicast (Unmap a) = IsGlobalUnicast a.
Proof.
  unfold IsPrivate, IsLoopback, IsLinkLocalUnicast, IsMulticast, IsGlobalUnicast. by rewrite Unmap_idem.
Qed.

(** An unmapped, specified unicast address other than the broadcast one. *)
Lemma global_unicast_unmapped u : Unmap u = u -> Addr_IsValid u = true -> IsUnspecified u = false ->
  IsLoopback u = false -> IsMulticast u = false -> IsLinkLocalUnicast u = false -> u <> A4 0xffffffff ->
  IsGlobalUnicast u = true.
Proof.
  intros Hu Hv Hs Hl Hm Hll Hb. unfold IsGlobalUnicast. rewrite Hu.
  unfold IsUnspecified in Hs. apply orb_false_iff in Hs as [Hs1 Hs2].
  apply bool_decide_eq_false in Hs1, Hs2.
  destruct u as [|v|v z]; [done| |].
  - rewrite Hl, Hm, Hll, (proj2 (Z.eqb_neq v 0)), (proj2 (Z.eqb_neq v 0xffffffff)) by congruence. done.
  - rewrite Hl, Hm, Hll, bool_decide_false by done. done.
Qed.

Definition shared_nat (a : Addr) : bool := let '(o0, o1, _, _) := As4 a in (o0 =? 100) && (o1 >=? 64) && (o1 <=? 127).

Lemma refused_octets_split a : refused_octets a = false -> shared_nat a = false /\ a <> A4 0xffffffff.
Proof.
  unfold refused_octets, shared_nat. destruct (As4 a) as [[[o0 o1] o2] o3] eqn:E. intros H.
  repeat (apply orb_false_iff in H as [H ?]). split; [done|]. intros ->. injection E as <- <- <- <-.
  breflect. vm_compute in H5. done.
Qed.

(** An address the relay may advertise is one the UPnP code accepts: every
publicly routable address in the sense of [Start] is a public Internet address
here. *)
Theorem public_routable_accepted a : publiclyRoutable a = true -> isPublicInternetAddress a = true.
Proof.
  intros H. unfold publiclyRoutable in H. destruct (_ || _) eqn:E1; [done|].
  do 5 (apply orb_false_iff in E1 as [E1 ?]). apply negb_false_iff in E1.
  destruct (predicates_unmap a) as (P1 & P2 & P3 & P4 & P5). rewrite P1, P2, P3, P4 in *.
  destruct (Is4 (Unmap a) && refused_octets (Unmap a)) eqn:E2; [done|].
  assert (Unmap a <> A4 0xffffffff) as Hb.
  { intros Hu. rewrite Hu in E2. vm_compute in E2. done. }
  assert (IsGlobalUnicast a = true) as Hg.
  { rewrite <- P5. apply global_unicast_unmapped; [apply Unmap_idem|done|done|congruence..|done]. }
  assert (Addr_IsValid a = true) as Hv by (destruct a; done).
  unfold isPublicInternetAddress. rewrite Hv, Hg, H0, H1, H3. cbn [negb orb].
  destruct a as [|v|v z]; [done| |done]. cbn [Unmap Is4 andb] in E2 |- *.
  destruct (refused_octets_split (A4 v) E2) as [Hn _]. unfold shared_nat in Hn. by rewrite Hn.
Qed.

Lemma public_routable_accepted_witness : isPublicInternetAddress (A4 0x09090909) = true.
Proof. apply (public_routable_accepted (A4 0x09090909)). vm_compute. reflexivity. Defined.

(** The CGNAT test of [isPublicInternetAddress] does not see through
IPv4-mapping: a gateway that reports ::ffff:100.64.0.1 is accepted, and the
mapping then carries the carrier-grade NAT address 100.64.0.1, which is never
publicly routable. *)
Theorem mapped_cgnat_accepted client port description :
  GetExternalIPAddress client = Some (str "::ffff:100.64.0.1") ->
  AddrFromSlice (LocalAddr client) = Some (A4 (ip4 192 168 1 2)) ->
  (forall q, AddPortMapping client q = true) ->
  exists m, openWithClient client port description = Ok m
    /\ m_publicIP m = A4 (ip4 100 64 0 1) /\ publiclyRoutable (m_publicIP m) = false.
Proof.
  intros He Hl Ha. unfold openWithClient. rewrite He.
  change (ParseAddr (TrimSpace (str "::ffff:100.64.0.1"))) with (ParseAddr (str "::ffff:100.64.0.1")).
  assert (ParseAddr (str "::ffff:100.64.0.1") = Some (A6 0xffff64400001 [])) as -> by (vm_compute; reflexivity).
  assert (isPublicInternetAddress (A6 0xffff64400001 []) = true) as -> by (vm_compute; reflexivity).
  rewrite Hl. cbn [negb]. unfold add. cbn [m_client]. rewrite Ha.
  eexists. split; [reflexivity|]. split; [vm_compute; reflexivity|]. vm_compute. reflexivity.
Qed.

Definition sample_gateway : gatewayClient :=
  {| LocalAddr := [192; 168; 1; 2]; GetExternalIPAddress := Some (str "::ffff:100.64.0.1");
     AddPortMapping := fun _ => true |}.
Lemma mapped_cgnat_accepted_witness :
  exists m, openWithClient sample_gateway 443 [] = Ok m /\ publiclyRoutable (m_publicIP m) = false.
Proof.
  destruct (mapped_cgnat_accepted sample_gateway 443 [] eq_refl eq_refl (fun _ => eq_refl)) as (m & H1 & _ & H2).
  exists m. exact (conj H1 H2).
Defined.

Lemma try_clients_ok clients n port description m : try_clients clients n port description = Ok m ->
  exists pre client post, clients = pre ++ client :: post /\ openWithClient client port description = Ok m
    /\ Forall (fun c => is_ok (openWithClient c port description) = false) pre.
Proof.
  revert n. induction clients as [|c cs IH]; intros n; cbn; [by destruct n|].
  destruct (openWithClient c port description) as [m'|e] eqn:E.
  - intros [= <-]. exists [], c, cs. done.
  - intros H. destruct (IH _ H) as (pre & client & post & -> & Ho & Hp).
    exists (c :: pre), client, post. split; [done|]. split; [done|]. constructor; [by rewrite E|done].
Qed.

(** The text of a mapping's endpoint reads back as that endpoint. *)
Lemma Open_endpoint d port description m : Open d port description = Ok m -> 0 <= port < 65536 ->
  ParseAddrPort (AddrPort_String (PublicAddress m)) = Some (PublicAddress m).
Proof.
  unfold Open. destruct (port =? 0); [done|]. destruct (_ && _); [done|]. intros H Hp.
  apply try_clients_ok in H as (pre & client & post & _ & Ho & _). unfold openWithClient in Ho.
  destruct (GetExternalIPAddress client) as [ext|]; [|done]. destruct (ParseAddr (TrimSpace ext)) as [ip|] eqn:Ei; [|done].
  destruct (isPublicInternetAddress ip); [|done]. destruct (AddrFromSlice _); [|done]. cbn [negb] in Ho. destruct (_ || _); [done|].
  cbv zeta in Ho. destruct (add _); [|done]. injection Ho as <-. apply ParseAddr_wf in Ei as [Hw Hv].
  apply ParseAddrPort_String; [by apply Unmap_wf| |exact Hp]. cbn. destruct ip as [| |v z]; try done. unfold Unmap. by destruct (Is4In6 _).
Qed.

(** What the relay needs of a gateway, apart from the code: an external address that
is public, an address on its side that the router can forward to, and the mapping of
the UDP port for two hours. *)
Definition public_address (a : Addr) : Prop :=
  Addr_IsValid a = true /\ IsGlobalUnicast a = true /\ IsPrivate a = false /\ IsLoopback a = false
  /\ IsLinkLocalUnicast a = false /\ (Is4 a = true -> shared_nat a = false).
Definition wanted (local : list Z) (port : Z) (description : gostring) : mapping_request :=
  {| mq_externalPort := port; mq_protocol := str "UDP"; mq_internalPort := port; mq_internalClient := local;
     mq_enabled := true; mq_description := description; mq_lease := 7200 |}.
Definition usable (c : gatewayClient) (port : Z) (description : gostring) (ip : Addr) : Prop :=
  (exists ext, GetExternalIPAddress c = Some ext /\ ParseAddr (TrimSpace ext) = Some ip) /\ public_address ip
  /\ (exists local, AddrFromSlice (LocalAddr c) = Some local /\ IsUnspecified local = false)
  /\ AddPortMapping c (wanted (LocalAddr c) port description) = true.

Lemma isPublicInternetAddress_spec a : isPublicInternetAddress a = true <-> public_address a.
Proof.
  unfold isPublicInternetAddress, public_address, shared_nat.
  destruct (Addr_IsValid a), (IsGlobalUnicast a), (IsPrivate a), (IsLoopback a), (IsLinkLocalUnicast a); cbn [negb orb];
    try (split; [done|by intros (? & ? & ? & ? & ? & _)]).
  destruct (Is4 a); cbn [andb]; [|split; [done|done]]. destruct (As4 a) as [[[o0 o1] o2] o3].
  destruct (_ && _); [|by split; [intros _; split_and!|]]. split; [done|]. intros (_ & _ & _ & _ & _ & H). by specialize (H eq_refl).
Qed.

Lemma AddrFromSlice_valid b a : AddrFromSlice b = Some a -> Addr_IsValid a = true.
Proof. unfold AddrFromSlice. repeat case_match; by intros [= <-]. Qed.

(** [openWithClient] succeeds exactly on a usable gateway. *)
Lemma openWithClient_usable c port description m : openWithClient c port description = Ok m <->
  exists ip, usable c port description ip
    /\ m = {| m_client := c; m_internalPort := port; m_externalPort := port; m_description := description;
              m_leaseSeconds := 7200; m_publicIP := Unmap ip |}.
Proof.
  unfold openWithClient, usable. split.
  - destruct (GetExternalIPAddress c) as [ext|]; [|done]. destruct (ParseAddr (TrimSpace ext)) as [ip|] eqn:Ei; [|done].
    destruct (isPublicInternetAddress ip) eqn:Ep; [|done]. cbn [negb]. destruct (AddrFromSlice (LocalAddr c)) as [loc|]; [|done].
    destruct (_ || _) eqn:El; [done|]. apply orb_false_iff in El as [_ El]. destruct (add _) eqn:Ea; [|done]. cbn [negb]. intros [= <-].
    exists ip. split; [|done]. split_and!; [by eauto|by apply isPublicInternetAddress_spec|by eauto|exact Ea].
  - intros (ip & ((ext & -> & ->) & Hp & (loc & El & Hu) & Ha) & ->). rewrite El.
    apply isPublicInternetAddress_spec in Hp as ->. rewrite (AddrFromSlice_valid _ _ El), Hu. cbn [negb orb].
    change (add _) with (AddPortMapping c (wanted (LocalAddr c) port description)). by rewrite Ha.
Qed.


Definition good_gateway : gatewayClient :=
  {| LocalAddr := [192; 168; 1; 2]; GetExternalIPAddress := Some (str " 9.9.9.9"); AddPortMapping := fun _ => true |}.
(** One that grants nothing. *)
Definition bad_gateway : gatewayClient :=
  {| LocalAddr := [192; 168; 1; 1]; GetExternalIPAddress := Some (str "8.8.8.8"); AddPortMapping := fun _ => false |}.
Definition good_mapping : Mapping :=
  {| m_client := good_gateway; m_internalPort := 443; m_externalPort := 443; m_description := [];
     m_leaseSeconds := 7200; m_publicIP := A4 0x09090909 |}.
