(* ===== verification/Main.v ===== *)
(** * The relay program

[cmd/qortal-masque-relay/main.go]: command-line targets, start-up in order, what
the program waits for, and what it cleans up on each way out.  Operating-system
calls are inputs; [main] yields the actions it performs and how the process ends: by
itself, by a signal that came before the program asked for signals, or in
[server.Close]. *)

From stdpp Require Import base gmap sets list numbers.
From Stdlib Require Import ZArith Lia String.
From S2P Require Import Prelude.
From S2P Require Import GoStrings.
From S2P Require Import Json.
From S2P Require Import Netip.
From S2P Require Import Endpoints.
From S2P Require Import AccessConfig.
From S2P Require Import TargetPolicy.
From S2P Require Import Base58.
From S2P Require Import Paths.
From S2P Require Import Bolt.
From S2P Require Import Tickets.
From S2P Require Import Samples.
From S2P Require Import Certificate.
From S2P Require Import TicketService.
From S2P Require Import Startup.
From S2P Require Import Upnp.

Local Open Scope Z_scope.

(** ** Target list flag *)

(** [targetList.Set], called once per occurrence of the flag. *)
Definition targetList_Set (values : list gostring) (value : gostring) : list gostring :=
  values ++ List.filter (fun t => negb (same t [])) (map TrimSpace (Split value 44)).
Definition targetList_String (values : list gostring) : gostring := Join values (str ",").

(** The exceptions, parsed; [None] stops the program. *)
Fixpoint parse_targets (values : list gostring) : option (list AddrPort) :=
  match values with
  | [] => Some []
  | v :: values =>
    t ← literal_endpoint v; ts ← parse_targets values; Some (t :: ts)
  end.

(** ** Start-up and shutdown *)

Record flags := {
  f_access : option (option gostring);    (** the access file, if given, and its contents if readable *)
  f_listen : gostring;
  f_public : gostring;
  f_upnp : bool;
  f_server_name : gostring;
  f_state_dir : gostring;
  f_max_sessions : Z;
  f_allow_private : bool;
  f_targets : list gostring;
  f_rns_config : gostring;
  f_discovery_script : gostring;
  f_python : gostring;
  f_no_discovery : bool;
  f_allow_local : bool;
}.

(** What ends the run. *)
Inductive stop_event :=
| SignalReceived
| MappingEnded (lost : bool)     (** [Maintain] returned, with an error or not *)
| AnnouncerStopped.

(** How [server.Close] ends, called as such or by [server.Shutdown]. *)
Inductive close_outcome := Closes | ClosePanics | CloseHangs.

(** How the process ends. *)
Inductive ending := Exits (status : Z) | KilledBySignal | Panics | Hangs.

Section Main.
  Context {B : Bucket} {H : Hashes} {C : Crypto} {X : X509}.
  Context (url_Parse : gostring -> option url) (template_ok : gostring -> bool).

Record main_env := {
  e_executable : option gostring;      (** [os.Executable] *)
  e_stat : gostring -> bool;           (** [os.Stat] succeeds *)
  e_gateways : discovery;
  e_start : start_env;
  e_world : world;
  e_announcer_starts : bool;
  e_stop : stop_event;
  e_close : close_outcome;
  e_signal : option nat;               (** a first signal comes after that many actions *)
}.

Inductive action :=
| MappingOpened (m : Mapping)
| ServerStarted (config : Config)
| MetadataPrinted (line : gostring)
| AnnouncerStarted (python : gostring) (args : list gostring)
| SignalsCaught                          (** [signal.Notify] *)
| MaintenanceStopped
| AnnouncerInterrupted
| ServerClosed                           (** [server.Close] *)
| ServerShutdown                         (** [server.Shutdown], given five seconds *)
| MappingClosed (request : delete_request).

(** [resolveDiscoveryScript]; [None] stops the program. *)
Definition resolveDiscoveryScript (env : main_env) (value : gostring) : option gostring :=
  let script := str "masque_relay_discovery.py" in
  let local := str "scripts/masque_relay_discovery.py" in
  let fallback := if e_stat env local then Some local else None in
  if negb (same value []) then Some value
  else match e_executable env with
  | Some executable => let candidate := Join2 (Dir executable) script in
                       if e_stat env candidate then Some candidate else fallback
  | None => fallback
  end.

(** The arguments that depend on the access policy. *)
Definition access_args (access : AccessConfig) (socket : gostring) : list gostring :=
  let groupJSON := match slice (AllowedGroupIDs access) with
                   | [] => str "[]"
                   | ids => marshal_list FormatInt ids
                   end in
  [str "--access-mode"; Mode access; str "--allowed-group-ids"; groupJSON]
  ++ (if same (Mode access) groups then [str "--ticket-socket"; socket] else []).

(** The announcer's whole command line; [relayAddress] is the endpoint whose text
[Start] returned in its metadata. *)
Definition announcer_args (f : flags) (access : AccessConfig) (script : gostring) (relayAddress : AddrPort)
  (metadata : Metadata) : list gostring :=
  [script; str "--rns-config"; f_rns_config f;
   str "--identity"; Join2 (f_state_dir f) (str "discovery.identity");
   str "--host"; Addr_String (ap_addr relayAddress);
   str "--port"; FormatUint (ap_port relayAddress);
   str "--server-name"; RelayServerName metadata;
   str "--cert-sha256"; RelayCertSHA256 metadata]
  ++ access_args access (Join2 (f_state_dir f) (str "ticket-authority.sock"))
  ++ (if f_allow_local f then [str "--allow-local"] else []).

(** [closePortMapping] *)
Definition closePortMapping (m : option Mapping) : list action :=
  match m with None => [] | Some m => [MappingClosed (Mapping_Close m)] end.

(** [fatal]: after these actions, exit with status 1. *)
Definition fatal (l : list action) : list action * ending := (l, Exits 1).
Definition before (l : list action) (r : list action * ending) : list action * ending := (l ++ fst r, snd r).

(** [server.Close], and [server.Shutdown], which waits for it five seconds; a panic
ends the process. *)
Definition after_close (env : main_env) (rest : list action * ending) : list action * ending :=
  match e_close env with
  | Closes => before [ServerClosed] rest
  | ClosePanics => ([], Panics)
  | CloseHangs => ([], Hangs)
  end.
Definition after_shutdown (env : main_env) (rest : list action * ending) : list action * ending :=
  match e_close env with
  | ClosePanics => ([], Panics)
  | _ => before [ServerShutdown] rest
  end.

(** After the server has started: the announcer, the wait, and the way out. *)
Definition run_server (f : flags) (env : main_env) (m : option Mapping) (args : list gostring) : list action * ending :=
  let quit_early := after_close env (fatal (closePortMapping m)) in
  let finish (announcer : bool) :=
    before (MaintenanceStopped :: (if announcer then [AnnouncerInterrupted] else []))
      (after_shutdown env (closePortMapping m, Exits 0)) in
  if f_no_discovery f then before [SignalsCaught] (finish false)
  else if negb (e_announcer_starts env) then quit_early
  else
    before [AnnouncerStarted (f_python f) args; SignalsCaught]
      (match e_stop env with
       | AnnouncerStopped => quit_early
       | _ => finish true
       end).

Definition make_config (f : flags) (access : AccessConfig) (public : gostring) (allowed : list AddrPort) : Config :=
  {| Access := access; ListenAddress := f_listen f; Startup.PublicAddress := public; ServerName := f_server_name f;
     CertificatePath := Join2 (f_state_dir f) (str "relay-cert.pem");
     PrivateKeyPath := Join2 (f_state_dir f) (str "relay-key.pem");
     AllowedTargets := allowed; AllowPrivateTargets := f_allow_private f;
     AllowLocalAdvertise := f_allow_local f; MaxSessions := f_max_sessions f |}.

(** The line [json.Marshal] makes of the metadata. *)
Definition metadata_json (md : Metadata) : gostring :=
  marshal_object [(str "relayAddress", marshal_string (RelayAddress md));
                  (str "relayServerName", marshal_string (RelayServerName md));
                  (str "relayCertSha256", marshal_string (RelayCertSHA256 md))].

(** Start the relay on [public]; undo the mapping if that fails.  The announcer's
arguments are made of the address in the metadata, which has to parse again
([netip.MustParseAddrPort] panics otherwise). *)
Definition start_relay (f : flags) (env : main_env) (access : AccessConfig) (allowed : list AddrPort)
  (script : gostring) (m : option Mapping) (public : gostring) : list action * ending :=
  let config := make_config f access public allowed in
  match Start url_Parse template_ok (e_start env) config (e_world env) with
  | (_, Ok (_, metadata)) =>
    let started := [ServerStarted config; MetadataPrinted (metadata_json metadata)] in
    match (if f_no_discovery f then Some []
           else (fun relayAddress => announcer_args f access script relayAddress metadata)
                <$> ParseAddrPort (RelayAddress metadata)) with
    | Some args => before started (run_server f env m args)
    | None => (started, Panics)
    end
  | (_, Err TemplatePanic) => ([], Panics)
  | (_, Err _) => fatal (closePortMapping m)
  end.

(** The program, if no signal comes before it asks for signals. *)
Definition main_body (f : flags) (env : main_env) : list action * ending :=
  match (match f_access f with
         | None => Some {| Mode := public; AllowedGroupIDs := None; CoreURLBases := None |}
         | Some raw => match LoadAccessConfig url_Parse raw with Ok a => Some a | Err _ => None end
         end) with
  | None => fatal []
  | Some access =>
    match literal_endpoint (f_listen f), parse_targets (f_targets f) with
    | Some listen, Some allowed =>
      if negb (f_no_discovery f) && same (f_rns_config f) [] then fatal []
      else match (if f_no_discovery f then Some [] else resolveDiscoveryScript env (f_discovery_script f)) with
      | None => fatal []
      | Some script =>
        if same (f_public f) [] then
          if negb (f_upnp f) then fatal []
          else match Open (e_gateways env) (ap_port listen) (str "Qortal MASQUE Relay") with
          | Err _ => fatal []
          | Ok m =>
            let endpoint := Upnp.PublicAddress m in
            before [MappingOpened m] (start_relay f env access allowed script (Some m) (AddrPort_String endpoint))
          end
        else start_relay f env access allowed script None (f_public f)
      end
    | _, _ => fatal []
    end
  end.

(** A signal ends the process where it is, unless the program asked for signals. *)
Definition is_notify (a : action) : bool := match a with SignalsCaught => true | _ => false end.
Definition signalled (signal : option nat) (r : list action * ending) : list action * ending :=
  match signal with
  | Some k =>
    if existsb is_notify (take k (fst r)) || bool_decide (List.length (fst r) <= k)%nat then r
    else (take k (fst r), KilledBySignal)
  | None => r
  end.

Definition main (f : flags) (env : main_env) : list action * ending := signalled (e_signal env) (main_body f env).
End Main.

(** ** Clean-up *)

Definition is_open (a : action) : bool := match a with MappingOpened _ => true | _ => false end.
Definition is_close (a : action) : bool := match a with MappingClosed _ => true | _ => false end.
Definition is_started (a : action) : bool := match a with ServerStarted _ => true | _ => false end.
Definition is_stopped (a : action) : bool := match a with ServerClosed | ServerShutdown => true | _ => false end.
Definition occurrences (p : action -> bool) (l : list action) : nat := List.length (List.filter p l).

(** Opened and closed in balance, and the mapping last. *)
Definition cleaned (l : list action) : Prop :=
  occurrences is_close l = occurrences is_open l /\ occurrences is_stopped l = occurrences is_started l
  /\ (occurrences is_open l <= 1)%nat /\ (occurrences is_started l <= 1)%nat
  /\ (occurrences is_open l = 1%nat -> exists m l',
        l = MappingOpened m :: l' ++ [MappingClosed (Mapping_Close m)]
        /\ dq_externalPort (Mapping_Close m) = mq_externalPort (add_request m)
        /\ dq_protocol (Mapping_Close m) = mq_protocol (add_request m)).

(** The program stopped before it did anything. *)
Ltac nothing_done := unfold fatal, cleaned, occurrences; cbn; split_and!; done || lia.

Section MainSpec.
  Context {B : Bucket} {H : Hashes} {C : Crypto} {X : X509}.
  Context (url_Parse : gostring -> option url) (template_ok : gostring -> bool).

(** The part of a run that starts [started] servers and stops [stopped], behind a
mapping [m]: what is closed if it ends by itself, and why it does not otherwise. *)
Definition closing (env : main_env) (m : option Mapping) (started stopped : nat) (r : list action * ending) : Prop :=
  let '(l, e) := r in
  match e with
  | Exits status =>
    occurrences is_open l = 0%nat /\ occurrences is_started l = started /\ occurrences is_stopped l = stopped
    /\ (exists l', l = l' ++ closePortMapping m /\ occurrences is_close l' = 0%nat) /\ (status = 0 -> stopped = 1%nat)
  | KilledBySignal => False
  | Panics => e_close env = ClosePanics
  | Hangs => e_close env = CloseHangs
  end.

Lemma run_server_closing f env m args : closing env m 0 1 (run_server f env m args).
Proof.
  unfold run_server, before, after_close, after_shutdown, fatal, closing.
  destruct (f_no_discovery f), (e_announcer_starts env), (e_stop env), (e_close env), m; cbn; try done;
    (split_and!; try done);
    match goal with
    | |- exists l', ?l = l' ++ [?x] /\ _ => let t := eval cbn in (removelast l) in exists t; by split
    | |- exists l', ?l = l' ++ [] /\ _ => exists l; by rewrite app_nil_r
    end.
Qed.

Lemma closing_before env m n k a b r : closing env m n k r ->
  closing env m (S n) k (before [ServerStarted a; MetadataPrinted b] r).
Proof.
  destruct r as [l e]. unfold closing, before. cbn [fst snd]. destruct e; try done.
  intros (H1 & H2 & H3 & (l' & -> & H4) & H5). unfold occurrences in *. cbn. split_and!; try done; [by f_equal|].
  by eexists (_ :: _ :: l').
Qed.

Context (Htemplate : forall p, template_ok (template_text p) = true).

Lemma start_relay_closing f env access allowed script m pub :
  exists n, (n <= 1)%nat /\ closing env m n n (start_relay url_Parse template_ok f env access allowed script m pub).
Proof.
  unfold start_relay.
  pose proof (fun w' => Start_no_panic url_Parse template_ok (e_start env) (make_config f access pub allowed) (e_world env) w' Htemplate) as Hno.
  pose proof (fun w' sv md => Start_announces url_Parse template_ok (e_start env) (make_config f access pub allowed) (e_world env) w' sv md) as Han.
  destruct (Start _ _ _ _ _) as [w [[sv md]|e]].
  - destruct (Han w sv md eq_refl) as (ra & _ & _ & ->). cbn [fmap option_fmap option_map].
    assert (exists args, (if f_no_discovery f then Some [] else Some (announcer_args f access script ra md)) = Some args)
      as [args ->] by (destruct (f_no_discovery f); eauto).
    exists 1%nat. split; [done|]. apply closing_before, run_server_closing.
  - exists 0%nat. split; [lia|]. destruct e; try (by destruct (Hno w)); unfold closing, fatal, closePortMapping; destruct m; cbn; split_and!; try done; by exists [].
Qed.

(** A run of the program behind [MappingOpened], or without. *)
Lemma closing_ends env m n r : closing env m n n r -> (n <= 1)%nat ->
  let '(l, e) := before (match m with Some mp => [MappingOpened mp] | None => [] end) r in
  match e with
  | Exits status => cleaned l /\ (status = 0 -> occurrences is_started l = 1%nat)
  | KilledBySignal => False
  | Panics => e_close env = ClosePanics
  | Hangs => e_close env = CloseHangs
  end.
Proof.
  destruct r as [l []]; cbn; try done. intros (H1 & H2 & H3 & (l' & -> & H4) & H5) Hn.
  unfold cleaned, occurrences in *. rewrite !List.filter_app, !length_app in *.
  destruct m as [mp|]; cbn in *; (split; [|lia]); (split; [lia|]); (split; [lia|]); (split; [lia|]); (split; [lia|]); [|lia].
  intros _. by exists mp, l'.
Qed.

Lemma main_body_ends f env :
  let '(l, e) := main_body url_Parse template_ok f env in
  match e with
  | Exits status => cleaned l /\ (status = 0 -> occurrences is_started l = 1%nat)
  | KilledBySignal => False
  | Panics => e_close env = ClosePanics
  | Hangs => e_close env = CloseHangs
  end.
Proof.
  unfold main_body.
  destruct (match f_access f with None => _ | Some _ => _ end) as [access|]; [|nothing_done].
  destruct (literal_endpoint (f_listen f)) as [listen|]; [|nothing_done].
  destruct (parse_targets (f_targets f)) as [allowed|]; [|nothing_done].
  split_if; [nothing_done|].
  destruct (if f_no_discovery f then _ else _) as [script|]; [|nothing_done]. split_if.
  - split_if; [nothing_done|]. destruct (Open _ _ _) as [m|e]; [|nothing_done]. cbv zeta.
    destruct (start_relay_closing f env access allowed script (Some m) (AddrPort_String (Upnp.PublicAddress m))) as (n & Hn & Hc).
    exact (closing_ends env (Some m) n _ Hc Hn).
  - destruct (start_relay_closing f env access allowed script None (f_public f)) as (n & Hn & Hc).
    pose proof (closing_ends env None n _ Hc Hn) as Ht. unfold before in Ht. cbn [app] in Ht. by destruct (start_relay _ _ _ _ _ _ _ _ _).
Qed.

End MainSpec.

(** ** What the announcer is told *)

Section Announcer.
  Context {B : Bucket} {H : Hashes} {C : Crypto} {X : X509}.
  Context (url_Parse : gostring -> option url) (template_ok : gostring -> bool).

(** The socket the authority serves and the one the announcer is given are spelled
in two places: next to the private key, and in the state directory. *)
Lemma announcer_socket f access pub allowed :
  socket_path (make_config f access pub allowed) = Join2 (f_state_dir f) (str "ticket-authority.sock").
Proof. apply Join2_Dir; (split_and!; [done..|]); repeat constructor; done. Qed.

(** Texts are not looked into below. *)
#[local] Opaque metadata_json announcer_args make_config Mapping_Close.

Lemma run_server_announcer f env m args python args' :
  AnnouncerStarted python args' ∈ fst (run_server f env m args) -> python = f_python f /\ args' = args.
Proof.
  unfold run_server, after_close, after_shutdown, fatal, before, closePortMapping. intros Hin.
  destruct (f_no_discovery f), (e_announcer_starts env), (e_stop env), (e_close env), m; cbn in Hin; set_solver.
Qed.

Lemma start_relay_announcer f env access allowed script m pub python args :
  AnnouncerStarted python args ∈ fst (start_relay url_Parse template_ok f env access allowed script m pub) ->
  exists w' sv md relayAddress,
    Start url_Parse template_ok (e_start env) (make_config f access pub allowed) (e_world env) = (w', Ok (sv, md))
    /\ literal_endpoint pub = Some relayAddress /\ python = f_python f
    /\ args = announcer_args f access script relayAddress md.
Proof.
  unfold start_relay, fatal, closePortMapping. intros Hin.
  pose proof (fun w' sv md => Start_announces url_Parse template_ok (e_start env) (make_config f access pub allowed) (e_world env) w' sv md) as Han.
  destruct (Start _ _ _ _ _) as [w' [[sv md]|e]].
  - destruct (Han w' sv md eq_refl) as (ra & Hra & _ & Hpa). rewrite Hpa in Hin. cbn [fmap option_fmap option_map] in Hin.
    unfold before in Hin. destruct (f_no_discovery f) eqn:Ed.
    + unfold run_server, after_shutdown, before, closePortMapping in Hin. rewrite Ed in Hin. destruct (e_close env), m; cbn in Hin; set_solver.
    + destruct (run_server _ _ _ _) as [rest status] eqn:E. cbn in Hin.
      assert (AnnouncerStarted python args ∈ fst (run_server f env m (announcer_args f access script ra md))) as Hr.
      { rewrite E. set_solver. }
      apply run_server_announcer in Hr as [-> ->]. by exists w', sv, md, ra.
  - destruct e, m; cbn in Hin; set_solver.
Qed.

Lemma start_relay_no_mapping f env access allowed script m pub mp :
  MappingOpened mp ∉ fst (start_relay url_Parse template_ok f env access allowed script m pub).
Proof.
  assert (forall args, MappingOpened mp ∉ fst (run_server f env m args)) as Hr.
  { intros args. unfold run_server, after_close, after_shutdown, fatal, before, closePortMapping.
    destruct (f_no_discovery f), (e_announcer_starts env), (e_stop env), (e_close env), m; cbn; set_solver. }
  unfold start_relay, fatal, before, closePortMapping. destruct (Start _ _ _ _ _) as [w' [[sv md]|e]].
  - case_match; [|set_solver]. pose proof (Hr l) as Hl. destruct (run_server _ _ _ _). cbn in *. set_solver.
  - destruct e, m; cbn; set_solver.
Qed.

(** A signal only cuts the actions off. *)
Lemma signalled_sub signal r (x : action) : x ∈ fst (signalled signal r) -> x ∈ fst r.
Proof.
  unfold signalled. destruct signal as [k|]; [|done]. split_if; [done|]. cbn. rewrite <- (take_drop k (fst r)) at 2. set_solver.
Qed.

(** Which start an announcer belongs to, and on which endpoint. *)
Lemma main_announcer f env python args : AnnouncerStarted python args ∈ fst (main_body url_Parse template_ok f env) ->
  exists access allowed script m pub,
    AnnouncerStarted python args ∈ fst (start_relay url_Parse template_ok f env access allowed script m pub)
    /\ forall mp, MappingOpened mp ∈ fst (main_body url_Parse template_ok f env) -> literal_endpoint pub = Some (Upnp.PublicAddress mp)
       \/ literal_endpoint pub = None.
Proof.
  unfold main_body, fatal, before. intros Hin. destruct (match f_access f with None => _ | Some _ => _ end) as [access|]; [|set_solver].
  destruct (literal_endpoint (f_listen f)) as [listen|] eqn:El; [|set_solver].
  destruct (parse_targets (f_targets f)) as [allowed|]; [|set_solver]. split_if; [set_solver|].
  destruct (if f_no_discovery f then _ else _) as [script|]; [|set_solver]. split_if; cycle 1.
  { exists access, allowed, script, None, (f_public f). split; [exact Hin|]. intros mp Hm. by apply start_relay_no_mapping in Hm. }
  split_if; [set_solver|]. destruct (Open _ _ _) as [m|e] eqn:Eo; [|set_solver]. cbv zeta in *.
  exists access, allowed, script, (Some m), (AddrPort_String (Upnp.PublicAddress m)).
  pose proof (start_relay_no_mapping f env access allowed script (Some m) (AddrPort_String (Upnp.PublicAddress m))) as Hno.
  destruct (start_relay _ _ _ _ _ _ _ _ _) as [l st]. cbn [fst] in *. split; [set_solver|]. intros mp Hm.
  assert (mp = m) as -> by (apply elem_of_cons in Hm as [[= ->]|Hm]; [done|by destruct (Hno mp)]).
  unfold literal_endpoint in El. apply bind_Some in El as (q & Hq & El). destruct (_ || _); [done|]. injection El as <-.
  apply ParseAddrPort_wf in Hq as (_ & _ & Hp). unfold literal_endpoint. rewrite (Open_endpoint _ _ _ _ Eo Hp).
  cbn [mbind option_bind]. destruct (_ || _); [by right|by left].
Qed.

#[local] Transparent metadata_json announcer_args make_config Mapping_Close.

(** The announcer advertises the relay that is running.  If the announcer is
started, the relay was started before it, from an idle system; the announced host
and port are the literal public endpoint (that of the port mapping, if one was
opened), the announced name and hash are those of the certificate the server
presents, and in groups mode the socket it is given is the private one on which
the ticket authority is listening. *)
Theorem announcer_consistent f env python args :
  idle (e_world env) -> HasPrefix (Join2 (f_state_dir f) (str "ticket-authority.sock")) (str "@") = false ->
  AnnouncerStarted python args ∈ fst (main url_Parse template_ok f env) ->
  exists access script pub allowed w' sv md relayAddress,
    Start url_Parse template_ok (e_start env) (make_config f access pub allowed) (e_world env) = (w', Ok (sv, md))
    /\ literal_endpoint pub = Some relayAddress /\ RelayAddress md = AddrPort_String relayAddress
    /\ (forall m, MappingOpened m ∈ fst (main url_Parse template_ok f env) -> relayAddress = Upnp.PublicAddress m)
    /\ args = announcer_args f access script relayAddress md
    /\ RelayServerName md = f_server_name f /\ RelayCertSHA256 md = pin (sv_policy sv)
    /\ (Mode (sv_access sv) = groups ->
        w_files w' !! Join2 (f_state_dir f) (str "ticket-authority.sock") = Some (UnixSocket true (octal 6 0 0))).
Proof.
  intros Hi Hp Hin. destruct (main_announcer f env python args (signalled_sub _ _ _ Hin)) as (access & allowed & script & m & pub & Hs & Hm).
  apply start_relay_announcer in Hs as (w' & sv & md & ra & HS & Hra & _ & ->).
  exists access, script, pub, allowed, w', sv, md, ra.
  destruct (Start_ok _ _ _ _ _ _ _ _ HS) as (public & fl & chain & Hpr & _ & _ & _ & _ & _ & Hmd).
  pose proof (pr_public _ _ _ _ _ _ _ _ _ _ Hpr) as Hpub. cbn in Hpub. assert (public = ra) as -> by congruence.
  split_and!; try done; [by rewrite Hmd|by intros mp Hmp; destruct (Hm mp (signalled_sub _ _ _ Hmp)); congruence|by rewrite Hmd..|].
  intros Hg. rewrite <- (announcer_socket f access pub allowed) in Hp |- *.
  destruct (Start_outcome _ _ _ _ _ _ _ Hp Hi HS) as (_ & _ & _ & _ & Ht). unfold tickets_serving in Ht.
  destruct (sv_tickets sv); [apply Ht|]. by destruct Ht.
Qed.
End Announcer.

(** ** A concrete run *)

#[local] Existing Instance sample_x509.

Definition sample_flags : flags :=
  {| f_access := Some (Some (qstr "{'mode':'groups','allowed_group_ids':[5],'core_url_bases':['core/']}"));
     f_listen := str "0.0.0.0:443"; f_public := str "9.9.9.9:443"; f_upnp := false;
     f_server_name := relay_name; f_state_dir := str "./data"; f_max_sessions := 4; f_allow_private := false; f_targets := [];
     f_rns_config := str "/rns"; f_discovery_script := str "announce.py"; f_python := str "python3"; f_no_discovery := false;
     f_allow_local := false |}.
Definition sample_main_env : main_env :=
  {| e_executable := None; e_stat := fun _ => false; e_gateways := {| dc_clients := []; dc_errors := 0; dc_fatal := false |}; e_start := sample_start_env (20000 * day) 7;
     e_world := fresh_world; e_announcer_starts := true; e_stop := SignalReceived; e_close := Closes; e_signal := None |}.
Definition sample_main : list action * ending := main sample_url (fun _ => true) sample_flags sample_main_env.



(** The mapping stays behind: a signal between its opening and [signal.Notify], and a
panic of [server.Close]. *)
Definition upnp_flags : flags :=
  {| f_access := f_access sample_flags; f_listen := f_listen sample_flags; f_public := []; f_upnp := true;
     f_server_name := relay_name; f_state_dir := str "./data"; f_max_sessions := 4; f_allow_private := false; f_targets := [];
     f_rns_config := str "/rns"; f_discovery_script := str "announce.py"; f_python := str "python3"; f_no_discovery := false;
     f_allow_local := false |}.
Definition upnp_env (c : close_outcome) (signal : option nat) : main_env :=
  {| e_executable := None; e_stat := fun _ => false; e_gateways := {| dc_clients := [good_gateway]; dc_errors := 0; dc_fatal := false |};
     e_start := sample_start_env (20000 * day) 7; e_world := fresh_world; e_announcer_starts := true; e_stop := SignalReceived;
     e_close := c; e_signal := signal |}.
Example mapping_left_behind :
  let run c signal := let '(l, e) := main sample_url (fun _ => true) upnp_flags (upnp_env c signal) in (e, occurrences is_open l, occurrences is_close l) in
  map (fun x => run (fst x) (snd x)) [(Closes, None); (Closes, Some 2%nat); (ClosePanics, None)]
  = [(Exits 0, 1, 1); (KilledBySignal, 1, 0); (Panics, 1, 0)]%nat.
Proof. vm_compute. reflexivity. Qed.

Definition announcer_of (l : list action) : list gostring :=
  match l with [_; _; AnnouncerStarted _ args; _; _; _; _] => args | _ => [] end.
Lemma sample_announces : AnnouncerStarted (str "python3") (announcer_of (fst sample_main)) ∈ fst sample_main.
Proof. apply (list_elem_of_lookup_2 _ 2). vm_compute. reflexivity. Qed.

Lemma announcer_consistent_witness :
  exists md relayAddress, RelayAddress md = AddrPort_String relayAddress /\ RelayServerName md = relay_name.
Proof.
  destruct (announcer_consistent sample_url (fun _ => true) sample_flags sample_main_env _ _ fresh_idle eq_refl sample_announces)
    as (_ & _ & _ & _ & _ & _ & md & ra & _ & _ & H1 & _ & _ & H2 & _).
  exists md, ra. exact (conj H1 H2).
Defined.
