(* ===== verification/Quicvarint.v ===== *)
(** * QUIC variable-length integers

Models [third_party/quic-go/quicvarint/varint.go]: the slice decoder [Parse],
the stream decoder [Read], the encoders [Append] and [AppendWithLen] and [Len],
and [byteReader.ReadByte] of [quicvarint/io.go] over a finite stream.  The
MASQUE data plane uses them for the context ID of every HTTP datagram and for
the type and length of every capsule. *)

From stdpp Require Import base list numbers.
From Stdlib Require Import ZArith Lia.
From S2P Require Import Prelude.

Local Open Scope Z_scope.

(** ** Streams *)

Inductive io_error := EOF | ErrUnexpectedEOF | ErrIO (code : Z).

#[global] Instance io_error_eq_dec : EqDecision io_error.
Proof. solve_decision. Defined.

(** An [io.Reader] at the point the code sees it: the bytes still to come and
the error the stream ends with ([io.EOF] on a clean end). *)
Record reader := mkReader { rd_avail : list Z; rd_end : io_error }.

Definition ReadByte (r : reader) : result io_error Z * reader :=
  match rd_avail r with
  | [] => (Err (rd_end r), r)
  | b :: bs => (Ok b, mkReader bs (rd_end r))
  end.

(** Sequencing of reads: an error ends the function, and the bytes consumed so
far stay consumed. *)
Definition rbind {A B} (m : reader -> result io_error A * reader)
    (f : A -> reader -> result io_error B * reader) (r : reader)
    : result io_error B * reader :=
  match m r with
  | (Ok a, r') => f a r'
  | (Err e, r') => (Err e, r')
  end.
Definition rret {A} (a : A) (r : reader) : result io_error A * reader := (Ok a, r).

(** ** varint.go *)

Definition maxVarInt1 : Z := 63.
Definition maxVarInt2 : Z := 16383.
Definition maxVarInt4 : Z := 1073741823.
Definition maxVarInt8 : Z := 4611686018427387903.

Definition Read : reader -> result io_error Z * reader :=
  rbind ReadByte (fun firstByte =>
  let l := Z.shiftl 1 (Z.shiftr (Z.land firstByte 0xc0) 6) in
  let b1 := Z.land firstByte (0xff - 0xc0) in
  if l =? 1 then rret b1 else
  rbind ReadByte (fun b2 =>
  if l =? 2 then rret (u64 (b2 + shl64 b1 8)) else
  rbind ReadByte (fun b3 =>
  rbind ReadByte (fun b4 =>
  if l =? 4 then rret (u64 (b4 + shl64 b3 8 + shl64 b2 16 + shl64 b1 24)) else
  rbind ReadByte (fun b5 =>
  rbind ReadByte (fun b6 =>
  rbind ReadByte (fun b7 =>
  rbind ReadByte (fun b8 =>
  rret (u64 (b8 + shl64 b7 8 + shl64 b6 16 + shl64 b5 24 + shl64 b4 32
             + shl64 b3 40 + shl64 b2 48 + shl64 b1 56)))))))))).

(** [binary.BigEndian.Uint64], which reads the first eight bytes. *)
Definition BigEndian_Uint64 (b : list Z) : Z := be_value (take 8 b).

(** The value and the number of bytes consumed.  The four cases of the switch
are exhaustive on a byte; the code panics after it. *)
Definition Parse (b : list Z) : result io_error (Z * Z) :=
  match b with
  | [] => Err EOF
  | first :: _ =>
    let at_ i := nth i b 0 in
    match Z.shiftr first 6 with
    | 0 => Ok (Z.land first 63, 1)
    | 1 => if len b <? 2 then Err ErrUnexpectedEOF else
           Ok (Z.lor (at_ 1%nat) (shl64 (Z.land first 63) 8), 2)
    | 2 => if len b <? 4 then Err ErrUnexpectedEOF else
           Ok (Z.lor (Z.lor (Z.lor (at_ 3%nat) (shl64 (at_ 2%nat) 8))
                            (shl64 (at_ 1%nat) 16))
                     (shl64 (Z.land first 63) 24), 4)
    | _ => if len b <? 8 then Err ErrUnexpectedEOF else
           Ok (Z.land (BigEndian_Uint64 b) 0x3fffffffffffffff, 8)
    end
  end.

(** [None] is the panic of the source. *)
Definition Append (b : list Z) (i : Z) : option (list Z) :=
  if i <=? maxVarInt1 then Some (b ++ [u8 i])
  else if i <=? maxVarInt2 then
    Some (b ++ [Z.lor (u8 (shr64 i 8)) 0x40; u8 i])
  else if i <=? maxVarInt4 then
    Some (b ++ [Z.lor (u8 (shr64 i 24)) 0x80; u8 (shr64 i 16); u8 (shr64 i 8); u8 i])
  else if i <=? maxVarInt8 then
    Some (b ++ [Z.lor (u8 (shr64 i 56)) 0xc0; u8 (shr64 i 48); u8 (shr64 i 40);
                u8 (shr64 i 32); u8 (shr64 i 24); u8 (shr64 i 16); u8 (shr64 i 8); u8 i])
  else None.

Definition Len (i : Z) : option Z :=
  if i <=? maxVarInt1 then Some 1
  else if i <=? maxVarInt2 then Some 2
  else if i <=? maxVarInt4 then Some 4
  else if i <=? maxVarInt8 then Some 8
  else None.

Definition AppendWithLen (b : list Z) (i length : Z) : option (list Z) :=
  if negb (length =? 1) && negb (length =? 2) && negb (length =? 4) && negb (length =? 8)
  then None
  else
    l ← Len i;
    if l =? length then Append b i
    else if l >? length then None
    else
      let b := b ++ (if length =? 2 then [0x40]
                     else if length =? 4 then [0x80]
                     else if length =? 8 then [0xc0] else []) in
      let b := b ++ replicate (Z.to_nat (length - l - 1)) 0 in
      Some (b ++ map (fun j => u8 (shr64 i (8 * (l - 1 - Z.of_nat j))))
                     (seq 0 (Z.to_nat l))).

(** ** Reference description

A varint of length [n] is the big-endian string of its [n] bytes with the tag
[log2 n] in the two most significant bits. *)

Definition tag_of (n : Z) : Z := if n =? 1 then 0 else if n =? 2 then 1 else if n =? 4 then 2 else 3.

Definition encode_with (n i : Z) : list Z :=
  be_bytes (Z.to_nat n) (i + tag_of n * 2 ^ (8 * n - 2)).

Definition varint_len (n : Z) : Prop := n = 1 \/ n = 2 \/ n = 4 \/ n = 8.

(** ** Lemmas *)

Lemma lor_shl64 a b n : 0 <= n -> 0 <= b < 2 ^ n -> 0 <= a -> a * 2 ^ n < 2 ^ 64 ->
  Z.lor b (shl64 a n) = b + a * 2 ^ n.
Proof.
  intros Hn Hb Ha Hlt. unfold shl64.
  assert (0 < 2 ^ n) by (apply Z.pow_pos_nonneg; lia).
  rewrite u64_small; [by apply lor_shiftl_add|].
  rewrite Z.shiftl_mul_pow2 by done. unfold is_u64. nia.
Qed.

Lemma shl64_mul a n : 0 <= n -> 0 <= a -> a * 2 ^ n < 2 ^ 64 -> shl64 a n = a * 2 ^ n.
Proof.
  intros Hn Ha Hlt. pose proof (lor_shl64 a 0 n Hn) as H.
  assert (0 < 2 ^ n) by (apply Z.pow_pos_nonneg; lia).
  rewrite Z.lor_0_l in H. rewrite H; lia.
Qed.

Lemma land_63 x : Z.land x 63 = x mod 64.
Proof. apply (land_ones_mod x 6). lia. Qed.

Lemma shiftr_6 x : Z.shiftr x 6 = x / 64.
Proof. apply (Z.shiftr_div_pow2 x 6). lia. Qed.

Lemma be_value_1 a : be_value [a] = a.
Proof. cbn. change (256 ^ len (@nil Z)) with 1. lia. Qed.
Lemma be_value_2 a b : be_value [a; b] = a * 256 + b.
Proof. change (be_value [a; b]) with (a * 256 + be_value [b]). by rewrite be_value_1. Qed.
Lemma be_value_4 a b c d : be_value [a; b; c; d] = a * 2 ^ 24 + b * 2 ^ 16 + c * 2 ^ 8 + d.
Proof.
  change (be_value [a; b; c; d]) with (a * 2 ^ 24 + (b * 2 ^ 16 + be_value [c; d])).
  rewrite be_value_2. dlia.
Qed.

(** The decoder computes the tagged big-endian value. *)
Lemma Parse_be b n first rest :
  varint_len n -> is_bytes b -> b = first :: rest -> first / 64 = tag_of n -> n <= len b ->
  Parse b = Ok (be_value (take (Z.to_nat n) b) mod 2 ^ (8 * n - 2), n).
Proof.
  intros Hn Hb -> Htag Hlen. unfold Parse. rewrite shiftr_6, Htag.
  destruct Hn as [-> | [-> | [-> | ->]]]; cbn [tag_of Z.eqb].
  - do 2 f_equal. rewrite land_63. change (take (Z.to_nat 1) (first :: rest)) with [first].
    rewrite be_value_1. change (2 ^ (8 * 1 - 2)) with 64. done.
  - destruct rest as [|x r]; [unfold len in Hlen; cbn in Hlen; lia|].
    cbn [Pos.eqb]. rewrite (proj2 (Z.ltb_ge _ _) Hlen).
    unfold is_bytes in Hb. rewrite !Forall_cons_iff in Hb. unfold is_byte in Hb. destruct_and!.
    do 2 f_equal. cbn [nth]. rewrite land_63, lor_shl64 by dlia.
    change (take (Z.to_nat 2) (first :: x :: r)) with [first; x]. rewrite be_value_2. dlia.
  - destruct rest as [|x [|y [|z r]]]; try (unfold len in Hlen; cbn in Hlen; lia).
    cbn [Pos.eqb]. rewrite (proj2 (Z.ltb_ge _ _) Hlen).
    unfold is_bytes in Hb. rewrite !Forall_cons_iff in Hb. unfold is_byte in Hb. destruct_and!.
    do 2 f_equal. cbn [nth]. rewrite land_63, (lor_shl64 y z 8), (lor_shl64 x _ 16), lor_shl64 by dlia.
    change (take (Z.to_nat 4) (first :: x :: y :: z :: r)) with [first; x; y; z].
    rewrite be_value_4. dlia.
  - cbn [Pos.eqb]. rewrite (proj2 (Z.ltb_ge _ _) Hlen).
    do 2 f_equal. apply (land_ones_mod _ 62). lia.
Qed.

Lemma encode_with_head n k i t : 0 <= i < 64 * 256 ^ Z.of_nat k -> 0 <= t < 4 -> n = S k ->
  be_bytes n (i + (t * 64) * 256 ^ Z.of_nat k) = (i / 256 ^ Z.of_nat k + t * 64) :: be_bytes k i.
Proof.
  intros Hi Ht ->. change (be_bytes (S k) ?x) with ((x / 256 ^ Z.of_nat k) mod 256 :: be_bytes k x).
  rewrite be_bytes_add. f_equal. pose proof (pow256_pos (Z.of_nat k) ltac:(lia)).
  rewrite Z.div_add by lia. apply Z.mod_small.
  pose proof (Z.div_lt_upper_bound i (256 ^ Z.of_nat k) 64). pose proof (Z.div_pos i (256 ^ Z.of_nat k)).
  lia.
Qed.

(** The four encodings: tag and leading bits, then the remaining bytes. *)
Lemma encode_with_eq n i : varint_len n -> 0 <= i < 2 ^ (8 * n - 2) ->
  exists k, n = Z.of_nat (S k) /\ i / 256 ^ Z.of_nat k < 64 /\
    encode_with n i = (i / 256 ^ Z.of_nat k + tag_of n * 64) :: be_bytes k i.
Proof.
  intros Hn Hi.
  assert (exists k, n = Z.of_nat (S k) /\ 2 ^ (8 * n - 2) = 64 * 256 ^ Z.of_nat k) as (k & -> & Hk).
  { destruct Hn as [-> | [-> | [-> | ->]]];
      [exists 0%nat | exists 1%nat | exists 3%nat | exists 7%nat]; done. }
  exists k. rewrite Hk in Hi. pose proof (pow256_pos (Z.of_nat k) ltac:(lia)).
  split; [done|]. split; [by apply Z.div_lt_upper_bound; lia|].
  unfold encode_with. rewrite Hk, Nat2Z.id, Z.mul_assoc.
  apply encode_with_head; [done| |done].
  unfold tag_of. repeat split_if; lia.
Qed.

Lemma first_encode_with n i : varint_len n -> 0 <= i < 2 ^ (8 * n - 2) ->
  exists first rest, encode_with n i = first :: rest /\ first / 64 = tag_of n.
Proof.
  intros Hn Hi. destruct (encode_with_eq n i Hn Hi) as (k & _ & Hq & ->).
  eexists _, _. split; [done|]. pose proof (pow256_pos (Z.of_nat k) ltac:(lia)).
  pose proof (Z.div_pos i (256 ^ Z.of_nat k)).
  rewrite Z.div_add, Z.div_small by lia. lia.
Qed.

Lemma length_encode_with n i : varint_len n -> len (encode_with n i) = n.
Proof. intros [-> | [-> | [-> | ->]]]; done. Qed.

(** Decoding what the reference encoder writes. *)
Lemma Parse_encode_with n i suffix :
  varint_len n -> 0 <= i < 2 ^ (8 * n - 2) -> is_bytes suffix ->
  Parse (encode_with n i ++ suffix) = Ok (i, n).
Proof.
  intros Hn Hi Hs. destruct (first_encode_with n i Hn Hi) as (f & r & Hfr & Ht).
  erewrite (Parse_be _ n f (r ++ suffix)); [|done| | |done|].
  - rewrite take_app_le by (unfold encode_with; rewrite length_be_bytes; done).
    rewrite take_ge by (unfold encode_with; rewrite length_be_bytes; done).
    unfold encode_with. rewrite be_value_be_bytes.
    do 2 f_equal. assert (256 ^ Z.of_nat (Z.to_nat n) = 2 ^ (8 * n - 2) * 4) as ->.
    { by destruct Hn as [-> | [-> | [-> | ->]]]. }
    rewrite Z.rem_mul_r, (Z.mul_comm (2 ^ _) (_ mod 4)), Z.mod_add, Z.mod_mod, Z.mod_add by lia.
    by apply Z.mod_small.
  - apply Forall_app. split; [apply be_bytes_is_bytes|done].
  - by rewrite Hfr.
  - rewrite len_app, length_encode_with by done. pose proof (len_nonneg suffix). lia.
Qed.

Lemma lor_tag x t : 0 <= x < 64 -> Z.lor x (t * 64) = x + t * 64.
Proof.
  intros. pose proof (lor_shiftl_add t x 6) as H0. rewrite Z.shiftl_mul_pow2 in H0 by lia.
  change (2 ^ 6) with 64 in H0. apply H0; lia.
Qed.

Lemma Len_range i n : 0 <= i -> Len i = Some n -> varint_len n /\ i < 2 ^ (8 * n - 2).
Proof.
  unfold Len, varint_len, maxVarInt1, maxVarInt2, maxVarInt4, maxVarInt8. intros Hi.
  repeat (split_if; breflect); intros [= <-]; lia.
Qed.

Lemma Append_encode_with b i n : 0 <= i -> Len i = Some n ->
  Append b i = Some (b ++ encode_with n i).
Proof.
  intros Hi Hn. destruct (Len_range i n Hi Hn) as [Hv Hlt].
  destruct (encode_with_eq n i Hv ltac:(lia)) as (k & Hk & Hq & ->).
  assert (u8 (shr64 i (8 * (n - 1))) = i / 256 ^ Z.of_nat k) as Hhd.
  { unfold shr64. rewrite u8_shiftr by lia. rewrite Hk. rewrite Nat2Z.inj_succ.
    replace (8 * (Z.succ (Z.of_nat k) - 1)) with (8 * Z.of_nat k) by lia.
    rewrite (Z.pow_mul_r 2 8) by lia. change (2 ^ 8) with 256.
    pose proof (pow256_pos (Z.of_nat k) ltac:(lia)). pose proof (Z.div_pos i (256 ^ Z.of_nat k)).
    apply Z.mod_small. lia. }
  pose proof (pow256_pos (Z.of_nat k) ltac:(lia)). pose proof (Z.div_pos i (256 ^ Z.of_nat k)).
  rewrite <- lor_tag, <- Hhd by lia. clear Hhd.
  revert Hn. unfold Len, Append, shr64.
  repeat (split_if; breflect); intros [= <-]; do 2 f_equal;
    [assert (k = 0%nat) as -> by lia | assert (k = 1%nat) as -> by lia
    | assert (k = 3%nat) as -> by lia | assert (k = 7%nat) as -> by lia];
    cbn [be_bytes tag_of Z.eqb Pos.eqb]; rewrite ?u8_shiftr by lia;
    rewrite ?Z.lor_0_r; unfold u8; rewrite ?Z.div_1_r; reflexivity.
Qed.

(** A decidable statement about bytes holds when it holds of all 256 of them. *)
Lemma byte_cases (P : Z -> bool) :
  forallb (fun n => P (Z.of_nat n)) (seq 0 256) = true -> forall b, is_byte b -> P b = true.
Proof.
  intros H b Hb. unfold is_byte in Hb. rewrite forallb_forall in H.
  specialize (H (Z.to_nat b)). rewrite Z2Nat.id in H by lia. apply H. apply in_seq. lia.
Qed.

Lemma Read_len_byte b : is_byte b ->
  Z.shiftl 1 (Z.shiftr (Z.land b 0xc0) 6) = 2 ^ (b / 64).
Proof.
  intros Hb. apply Z.eqb_eq. revert b Hb. apply byte_cases. by vm_compute.
Qed.

Lemma byte_div_64 b : is_byte b -> b / 64 = 0 \/ b / 64 = 1 \/ b / 64 = 2 \/ b / 64 = 3.
Proof. unfold is_byte. intros. dlia. Qed.

Lemma be_value_8 a b c d e f g h :
  be_value [a; b; c; d; e; f; g; h] =
  a * 2 ^ 56 + b * 2 ^ 48 + c * 2 ^ 40 + d * 2 ^ 32 + be_value [e; f; g; h].
Proof.
  change (be_value [a; b; c; d; e; f; g; h]) with
    (a * 2 ^ 56 + (b * 2 ^ 48 + (c * 2 ^ 40 + (d * 2 ^ 32 + be_value [e; f; g; h])))). lia.
Qed.

(** A short input makes the slice decoder report an unexpected end. *)
Lemma Parse_short first rest n : varint_len n -> first / 64 = tag_of n -> len (first :: rest) < n ->
  Parse (first :: rest) = Err ErrUnexpectedEOF.
Proof.
  intros Hn Ht Hl. unfold Parse. rewrite shiftr_6, Ht. rewrite len_cons in Hl |- *.
  pose proof (len_nonneg rest).
  destruct Hn as [-> | [-> | [-> | ->]]]; cbn [tag_of Z.eqb Pos.eqb];
    first [lia | by rewrite (proj2 (Z.ltb_lt _ _) Hl)].
Qed.

Lemma tag_len_cases first : is_byte first -> exists n, varint_len n /\ first / 64 = tag_of n.
Proof.
  intros Hb. unfold varint_len. destruct (byte_div_64 first Hb) as [-> | [-> | [-> | ->]]];
    [exists 1 | exists 2 | exists 4 | exists 8]; split; auto.
Qed.

(** Rewrite the shifts of [Read] into products. *)
Ltac read_sums :=
  rewrite ?shl64_mul by (unfold is_byte in *; dlia);
  rewrite ?u64_small by (unfold is_u64, is_byte in *; dlia).

Lemma Read_long b e n first rest :
  varint_len n -> is_bytes b -> b = first :: rest -> first / 64 = tag_of n -> n <= len b ->
  Read (mkReader b e) =
  (Ok (be_value (take (Z.to_nat n) b) mod 2 ^ (8 * n - 2)), mkReader (drop (Z.to_nat n) b) e).
Proof.
  intros Hn Hb -> Ht Hl. assert (is_byte first) as Hf by (by inversion Hb).
  unfold Read, rbind at 1, ReadByte at 1. cbn [rd_avail rd_end].
  rewrite (Read_len_byte first Hf), Ht. change (0xff - 0xc0) with 63. rewrite land_63.
  destruct Hn as [-> | [-> | [-> | ->]]]; cbn [tag_of Z.eqb Pos.eqb];
    [change (2 ^ 0) with 1 | change (2 ^ 1) with 2 | change (2 ^ 2) with 4 | change (2 ^ 3) with 8].
  - change (take (Z.to_nat 1) (first :: rest)) with [first]. rewrite be_value_1. done.
  - destruct rest as [|x r]; [done|].
    unfold is_bytes in Hb. rewrite !Forall_cons_iff in Hb. destruct_and!.
    change (take (Z.to_nat 2) (first :: x :: r)) with [first; x]. rewrite be_value_2.
    cbn -[u64 shl64 Z.pow]. read_sums. unfold rret. do 2 f_equal. unfold is_byte in *. dlia.
  - destruct rest as [|x [|y [|z r]]]; try done.
    unfold is_bytes in Hb. rewrite !Forall_cons_iff in Hb. destruct_and!.
    change (take (Z.to_nat 4) (first :: x :: y :: z :: r)) with [first; x; y; z].
    rewrite be_value_4.
    cbn -[u64 shl64 Z.pow]. read_sums. unfold rret. do 2 f_equal. unfold is_byte in *. dlia.
  - destruct rest as [|x [|y [|z [|p [|q [|s [|t r]]]]]]]; try done.
    unfold is_bytes in Hb. rewrite !Forall_cons_iff in Hb. destruct_and!.
    change (take (Z.to_nat 8) _) with [first; x; y; z; p; q; s; t].
    rewrite be_value_8, be_value_4.
    cbn -[u64 shl64 Z.pow]. read_sums. unfold rret. do 2 f_equal. unfold is_byte in *. dlia.
Qed.

Lemma Read_short b e n first rest :
  varint_len n -> is_bytes b -> b = first :: rest -> first / 64 = tag_of n -> len b < n ->
  Read (mkReader b e) = (Err e, mkReader [] e).
Proof.
  intros Hn Hb -> Ht Hl. assert (is_byte first) as Hf by (by inversion Hb).
  unfold Read, rbind at 1, ReadByte at 1. cbn [rd_avail rd_end].
  rewrite (Read_len_byte first Hf), Ht. pose proof (len_nonneg rest). rewrite len_cons in Hl.
  destruct Hn as [-> | [-> | [-> | ->]]]; cbn [tag_of Z.eqb Pos.eqb]; [lia|..];
    [change (2 ^ 1) with 2 | change (2 ^ 2) with 4 | change (2 ^ 3) with 8];
    destruct rest as [|? [|? [|? [|? [|? [|? [|? ?]]]]]]];
    rewrite ?len_cons in Hl; 
    first [done | match goal with l : list Z |- _ => pose proof (len_nonneg l) end; lia].
Qed.

Lemma be_bytes_pad k l i : 0 <= i < 256 ^ Z.of_nat l ->
  be_bytes (k + l) i = replicate k 0 ++ be_bytes l i.
Proof.
  intros Hi. induction k as [|k IH]; [done|]. cbn [Nat.add be_bytes replicate app]. f_equal; [|done].
  rewrite Z.div_small; [done|]. split; [lia|].
  eapply Z.lt_le_trans; [apply Hi|]. apply Z.pow_le_mono_r; lia.
Qed.

Lemma be_bytes_map l i :
  be_bytes l i = map (fun j => u8 (shr64 i (8 * (Z.of_nat l - 1 - Z.of_nat j)))) (seq 0 l).
Proof.
  induction l as [|l IH]; [done|]. cbn [be_bytes seq map]. f_equal.
  - unfold shr64. rewrite u8_shiftr by lia. rewrite <- (Z.pow_mul_r 2 8) by lia.
    do 3 f_equal. lia.
  - rewrite IH, <- seq_shift, map_map. apply map_ext. intros j. do 2 f_equal. lia.
Qed.

Lemma AppendWithLen_encode_with b i n :
  varint_len n -> 0 <= i < 2 ^ (8 * n - 2) ->
  AppendWithLen b i n = Some (b ++ encode_with n i).
Proof.
  intros Hn Hi. unfold AppendWithLen.
  assert (negb (n =? 1) && negb (n =? 2) && negb (n =? 4) && negb (n =? 8) = false) as ->
    by (by destruct Hn as [-> | [-> | [-> | ->]]]).
  assert (exists l, Len i = Some l /\ varint_len l /\ i < 2 ^ (8 * l - 2) /\ l <= n)
    as (l & Hl & Hvl & Hil & Hle).
  { unfold Len, maxVarInt1, maxVarInt2, maxVarInt4, maxVarInt8, varint_len in *.
    repeat (split_if; breflect); [exists 1|exists 2|exists 4|exists 8|exfalso];
      destruct Hn as [-> | [-> | [-> | ->]]]; (split; [done|lia]) || lia. }
  rewrite Hl. cbn [mbind option_bind].
  destruct (l =? n) eqn:Heq; breflect; [subst l; by apply Append_encode_with; try lia|].
  rewrite Z.gtb_ltb, (proj2 (Z.ltb_ge _ _) Hle).
  destruct (encode_with_eq n i Hn Hi) as (k & Hk & _ & ->).
  f_equal. rewrite <- !app_assoc. f_equal.
  assert (k = Z.to_nat (n - l - 1) + Z.to_nat l)%nat as Hkl
    by (destruct Hvl as [-> | [-> | [-> | ->]]]; lia).
  assert (0 <= i < 256 ^ Z.of_nat (Z.to_nat l)) as Hr.
  { destruct Hvl as [-> | [-> | [-> | ->]]]; split; try lia; by eapply Z.lt_trans; [apply Hil|]. }
  assert (i / 256 ^ Z.of_nat k = 0) as ->.
  { apply Z.div_small. split; [lia|]. eapply Z.lt_le_trans; [apply Hr|].
    apply Z.pow_le_mono_r; lia. }
  rewrite Hkl, be_bytes_pad, (be_bytes_map (Z.to_nat l)), Z2Nat.id by
    (first [done | destruct Hvl as [-> | [-> | [-> | ->]]]; lia]).
  by destruct Hn as [-> | [-> | [-> | ->]]]; [destruct Hvl as [-> | [-> | [-> | ->]]]; lia|..].
Qed.

(** Both decoders on any bytes. *)
Lemma Read_as_Parse b e : is_bytes b ->
  match Parse b with
  | Ok (v, n) => 0 <= v <= maxVarInt8 /\ 0 < n <= len b /\
                 Read (mkReader b e) = (Ok v, mkReader (drop (Z.to_nat n) b) e)
  | Err _ => Read (mkReader b e) = (Err e, mkReader [] e)
  end.
Proof.
  intros Hb. destruct b as [|first rest]; [done|].
  destruct (tag_len_cases first) as (n & Hn & Ht); [by inversion Hb|].
  destruct (decide (n <= len (first :: rest))) as [Hle|Hlt].
  - rewrite (Parse_be _ n first rest) by done. split; [|split].
    + unfold maxVarInt8. destruct Hn as [-> | [-> | [-> | ->]]]; dlia.
    + destruct Hn as [-> | [-> | [-> | ->]]]; lia.
    + by eapply Read_long.
  - rewrite (Parse_short first rest n) by (done || lia). eapply Read_short; try done; lia.
Qed.

(** ** The encoding of a value, for the codecs built on this one *)

Definition is_varint (i : Z) : Prop := 0 <= i <= maxVarInt8.
Definition venc (i : Z) : list Z := default [] (Append [] i).
(** The encoded size as a function. *)
Definition vlen (i : Z) : Z := len (venc i).

Lemma Len_total i : is_varint i -> exists n, Len i = Some n.
Proof. unfold is_varint, Len, maxVarInt1, maxVarInt2, maxVarInt4, maxVarInt8. intros. split_ifs; eauto. Qed.

Lemma venc_encode i n : is_varint i -> Len i = Some n -> venc i = encode_with n i.
Proof. intros [Hi _] Hn. unfold venc. by rewrite (Append_encode_with _ i n Hi Hn). Qed.

Lemma Append_venc b i : is_varint i -> Append b i = Some (b ++ venc i).
Proof.
  intros Hi. destruct (Len_total i Hi) as [n Hn]. rewrite (venc_encode i n Hi Hn).
  apply Append_encode_with; [apply Hi|done].
Qed.

Lemma Len_vlen i : is_varint i -> Len i = Some (vlen i).
Proof.
  intros Hi. destruct (Len_total i Hi) as [n Hn]. unfold vlen. rewrite (venc_encode i n Hi Hn), Hn.
  by rewrite length_encode_with by apply (Len_range i n (proj1 Hi) Hn).
Qed.

Lemma vlen_range i : is_varint i -> 1 <= vlen i <= 8.
Proof.
  intros Hi. destruct (Len_range i _ (proj1 Hi) (Len_vlen i Hi)) as [Hv _]. unfold varint_len in Hv. lia.
Qed.

Lemma venc_bytes i : is_bytes (venc i).
Proof.
  unfold venc. destruct (Append [] i) as [l|] eqn:E; [|constructor]. cbn.
  destruct (decide (0 <= i)) as [Hi|Hi].
  - assert (exists n, Len i = Some n) as [n Hn].
    { revert E. unfold Append, Len. split_ifs; eauto. }
    rewrite (Append_encode_with [] i n Hi Hn) in E. injection E as <-. apply be_bytes_is_bytes.
  - revert E. unfold Append, maxVarInt1. rewrite (proj2 (Z.leb_le i 63)) by lia. intros [= <-].
    constructor; [apply u8_range|constructor].
Qed.

Lemma Parse_venc i s : is_varint i -> is_bytes s -> Parse (venc i ++ s) = Ok (i, vlen i).
Proof.
  intros Hi Hs. pose proof (Len_vlen i Hi) as Hl. destruct (Len_range i _ (proj1 Hi) Hl) as [Hv Hlt].
  rewrite (venc_encode i _ Hi Hl). apply Parse_encode_with; [done| |done]. split; [apply Hi|done].
Qed.

Lemma Read_venc i s e : is_varint i -> is_bytes s -> Read (mkReader (venc i ++ s) e) = (Ok i, mkReader s e).
Proof.
  intros Hi Hs. assert (is_bytes (venc i ++ s)) as Hb by (apply Forall_app; split; [apply venc_bytes|done]).
  pose proof (Read_as_Parse _ e Hb) as H. rewrite (Parse_venc i s Hi Hs) in H. destruct H as (_ & _ & ->).
  unfold vlen, len. rewrite Nat2Z.id, drop_app_length. done.
Qed.

Lemma Parse_ok b v n : is_bytes b -> Parse b = Ok (v, n) -> is_varint v /\ 0 < n <= len b.
Proof. intros Hb H. pose proof (Read_as_Parse b EOF Hb) as Hr. rewrite H in Hr. by destruct Hr as (? & ? & _). Qed.

(** Byte lists put together from encodings. *)
Ltac solve_bytes :=
  repeat first [ assumption | apply venc_bytes | apply be_bytes_is_bytes | apply u8_range | apply Forall_app_2
               | apply Forall_take | apply Forall_drop | apply Forall_nil_2 | apply Forall_cons_2 ];
  try (unfold is_byte in *; lia).

(** More bytes do not change what was decoded, so a proper prefix of an encoding
is not one. *)
Lemma Parse_app b s v n : is_bytes b -> is_bytes s -> Parse b = Ok (v, n) -> Parse (b ++ s) = Ok (v, n).
Proof.
  intros Hb Hs H. destruct b as [|first rest]; [done|].
  destruct (tag_len_cases first) as (k & Hk & Ht); [by inversion Hb|].
  destruct (decide (k <= len (first :: rest))) as [Hle|Hlt].
  - rewrite (Parse_be _ k first rest) in H by done. rewrite (Parse_be _ k first (rest ++ s)); [|done|by apply Forall_app|done|done|].
    + rewrite take_app_le by (unfold len in Hle; lia). exact H.
    + rewrite len_app. pose proof (len_nonneg s). lia.
  - rewrite (Parse_short first rest k) in H by (done || lia). done.
Qed.

Lemma Parse_venc_prefix i k : is_varint i -> Z.of_nat k < vlen i -> exists e, Parse (take k (venc i)) = Err e.
Proof.
  intros Hi Hk. destruct (Parse (take k (venc i))) as [[v n]|e] eqn:E; [|by eexists].
  assert (is_bytes (take k (venc i))) as Hb by apply Forall_take, venc_bytes.
  pose proof (Parse_app _ (drop k (venc i)) v n Hb ltac:(apply Forall_drop, venc_bytes) E) as H.
  rewrite take_drop in H. pose proof (Parse_venc i [] Hi ltac:(constructor)) as H2. rewrite app_nil_r in H2.
  destruct (Parse_ok _ _ _ Hb E) as [_ Hn]. rewrite H2 in H. injection H as _ <-.
  unfold len in Hn. rewrite length_take in Hn. lia.
Qed.

(** ** Properties *)

(** Decoding is the inverse of encoding.  Every value up to [2^62-1] is
encoded without panic, in exactly [Len] bytes, and decoding the encoding,
whatever bytes follow it, returns the value and consumes exactly those bytes. *)
Theorem Append_Parse_roundtrip (b suffix : list Z) (i : Z) :
  0 <= i <= maxVarInt8 -> is_bytes suffix ->
  exists n enc, Len i = Some n /\ Append b i = Some (b ++ enc) /\ len enc = n /\
    Parse (enc ++ suffix) = Ok (i, n).
Proof.
  intros Hi Hs. exists (vlen i), (venc i).
  split; [by apply Len_vlen|]. split; [by apply Append_venc|]. split; [done|by apply Parse_venc].
Qed.

Lemma Append_Parse_roundtrip_witness :
  exists n enc, Len 15293 = Some n /\ Append [1; 2] 15293 = Some ([1; 2] ++ enc) /\ len enc = n /\
    Parse (enc ++ [7]) = Ok (15293, n).
Proof.
  apply (Append_Parse_roundtrip [1; 2] [7] 15293); [unfold maxVarInt8; lia|].
  repeat constructor; lia.
Defined.

(** The stream decoder agrees with the slice decoder.  Where [Parse]
succeeds, [Read] returns the same value and leaves exactly the unconsumed
suffix; where [Parse] fails, [Read] has drained the stream and returns the
stream's own final error. *)
Theorem Read_Parse_agree (b : list Z) (e : io_error) :
  is_bytes b ->
  match Parse b with
  | Ok (v, n) => 0 <= v <= maxVarInt8 /\ 0 < n <= len b /\
                 Read (mkReader b e) = (Ok v, mkReader (drop (Z.to_nat n) b) e)
  | Err _ => Read (mkReader b e) = (Err e, mkReader [] e)
  end.
Proof. apply Read_as_Parse. Qed.

Lemma Read_Parse_agree_witness :
  is_bytes [0x7b; 0xbd; 9] /\
  Read (mkReader [0x7b; 0xbd; 9] EOF) = (Ok 15293, mkReader [9] EOF).
Proof.
  assert (is_bytes [0x7b; 0xbd; 9]) as H by (repeat constructor; lia).
  split; [exact H|]. exact (proj2 (proj2 (Read_Parse_agree [0x7b; 0xbd; 9] EOF H))).
Defined.

(** [AppendWithLen] writes the value in exactly the requested number of
bytes whenever the value fits that length, and both decoders read it back. *)
Theorem AppendWithLen_roundtrip (b suffix : list Z) (i n : Z) :
  varint_len n -> 0 <= i < 2 ^ (8 * n - 2) -> is_bytes suffix ->
  exists enc, AppendWithLen b i n = Some (b ++ enc) /\ len enc = n /\
    Parse (enc ++ suffix) = Ok (i, n) /\
    forall e, Read (mkReader (enc ++ suffix) e) = (Ok i, mkReader suffix e).
Proof.
  intros Hn Hi Hs. exists (encode_with n i).
  rewrite AppendWithLen_encode_with, length_encode_with by done.
  pose proof (Parse_encode_with n i suffix Hn Hi Hs) as HP. repeat split; [done|].
  intros e. assert (is_bytes (encode_with n i ++ suffix)) as Hb.
  { apply Forall_app. split; [apply be_bytes_is_bytes|done]. }
  destruct (first_encode_with n i Hn Hi) as (f & r & Hfr & Ht).
  assert (n <= len (encode_with n i ++ suffix)) as Hlen.
  { rewrite len_app, length_encode_with by done. pose proof (len_nonneg suffix). lia. }
  rewrite (Read_long _ e n f (r ++ suffix)); [|done|done|by rewrite Hfr|done|done].
  rewrite (Parse_be _ n f (r ++ suffix)) in HP; [|done|done|by rewrite Hfr|done|done].
  injection HP as ->. do 2 f_equal. apply drop_app_length'.
  unfold encode_with. by rewrite length_be_bytes.
Qed.

Lemma AppendWithLen_roundtrip_witness :
  exists enc, AppendWithLen [] 37 4 = Some ([] ++ enc) /\ len enc = 4 /\
    Parse (enc ++ [5]) = Ok (37, 4) /\
    forall e, Read (mkReader (enc ++ [5]) e) = (Ok 37, mkReader [5] e).
Proof.
  apply (AppendWithLen_roundtrip [] [5] 37 4); [unfold varint_len; lia|lia|].
  repeat constructor; lia.
Defined.
