(* ===== verification/DatagramBuffer.v ===== *)
(** * Bounded datagram receive queues

Models [third_party/quic-go/internal/datagrambuffer/buffer.go]: the FIFO ring
of owned payloads with its packet, byte and age limits, and the process-wide
allocation budget [used] that every queue reserves from.  A queue operation
takes the queue and the shared counters and returns both; a slice index out of
range or a remainder by zero is a panic, [None].

- [Queue], [Globals]: the source's structs and package variables;
- [Push], [Pop], [Close], [EnableBurst], [QueueStats]: the operations;
- [contents]: the abstract FIFO a ring represents, and [Push]/[Pop]/[Close]
  refine operations on it;
- [queue_ok]: the ring invariant, with the exact accounting of bytes;
- [Reserve]: the compare-and-swap loop of [reserve] as interleaved steps. *)

From stdpp Require Import base gmap list numbers.
From Stdlib Require Import ZArith Lia.
From S2P Require Import Prelude.
From S2P Require Import Ring.

Local Open Scope Z_scope.

(** ** Data *)

Definition GlobalLimit : Z := 32 * 1024 * 1024.
Definition packetOverhead : Z := 64.
Definition BurstPackets : Z := 1024.
Definition BurstBytes : Z := 1024 * 1024.
(** [50 * time.Millisecond], in nanoseconds. *)
Definition BurstAge : Z := 50000000.

Record Stats := mkStats {
  QueuedBytes : Z;
  PeakBytes : Z;
  DroppedFull : Z;
  DroppedBudget : Z;
  DroppedExpired : Z;
  MaxResidenceMicros : Z;
  RawPacketDrops : Z
}.
Definition zero_stats : Stats := mkStats 0 0 0 0 0 0 0.

(** The package's atomics. *)
Record Globals := mkGlobals {
  used : Z;
  peak : Z;
  full : Z;
  budget : Z;
  expired : Z;
  rawPacketDrops : Z
}.

Record entry := mkEntry { data : list Z; at_ : Z }.
Definition zero_entry : entry := mkEntry [] 0.

Record Queue := mkQueue {
  items : list entry;
  head : Z;
  count : Z;
  bytes : Z;
  ringCharge : Z;
  limit : Z;
  maxAge : Z;
  closed : bool;
  stats : Stats
}.

(** [t.Sub(u)] saturates at the range of [time.Duration]. *)
Definition time_sub (t u : Z) : Z := Z.max (- 2 ^ 63) (Z.min (2 ^ 63 - 1) (t - u)).

(** Field updates. *)
Definition add_used (g : Globals) (d : Z) : Globals :=
  mkGlobals (i64 (used g + d)) (peak g) (full g) (budget g) (expired g) (rawPacketDrops g).
Definition add_full (g : Globals) : Globals :=
  mkGlobals (used g) (peak g) (u64 (full g + 1)) (budget g) (expired g) (rawPacketDrops g).
Definition add_budget (g : Globals) : Globals :=
  mkGlobals (used g) (peak g) (full g) (u64 (budget g + 1)) (expired g) (rawPacketDrops g).
Definition add_expired (g : Globals) : Globals :=
  mkGlobals (used g) (peak g) (full g) (budget g) (u64 (expired g + 1)) (rawPacketDrops g).
Definition set_stats (q : Queue) (s : Stats) : Queue :=
  mkQueue (items q) (head q) (count q) (bytes q) (ringCharge q) (limit q) (maxAge q) (closed q) s.
Definition bump_full (s : Stats) : Stats :=
  mkStats (QueuedBytes s) (PeakBytes s) (u64 (DroppedFull s + 1)) (DroppedBudget s)
          (DroppedExpired s) (MaxResidenceMicros s) (RawPacketDrops s).
Definition bump_budget (s : Stats) : Stats :=
  mkStats (QueuedBytes s) (PeakBytes s) (DroppedFull s) (u64 (DroppedBudget s + 1))
          (DroppedExpired s) (MaxResidenceMicros s) (RawPacketDrops s).
Definition bump_expired (s : Stats) : Stats :=
  mkStats (QueuedBytes s) (PeakBytes s) (DroppedFull s) (DroppedBudget s)
          (u64 (DroppedExpired s + 1)) (MaxResidenceMicros s) (RawPacketDrops s).
Definition max_peak (s : Stats) (n : Z) : Stats :=
  mkStats (QueuedBytes s) (Z.max (PeakBytes s) n) (DroppedFull s) (DroppedBudget s)
          (DroppedExpired s) (MaxResidenceMicros s) (RawPacketDrops s).
Definition max_residence (s : Stats) (n : Z) : Stats :=
  mkStats (QueuedBytes s) (PeakBytes s) (DroppedFull s) (DroppedBudget s)
          (DroppedExpired s) (Z.max (MaxResidenceMicros s) n) (RawPacketDrops s).

(** ** Operations *)

Definition RecordRawPacketDrop (g : Globals) : Globals :=
  mkGlobals (used g) (peak g) (full g) (budget g) (expired g) (u64 (rawPacketDrops g + 1)).

(** [reserve] run without interference: one iteration of each of its loops.
The interleaved loops are the relation [reserve_step] below. *)
Definition reserve (g : Globals) (charge : Z) : bool * Globals :=
  let n := used g in
  if n + charge >? GlobalLimit then (false, g)
  else (true, mkGlobals (n + charge) (Z.max (peak g) (n + charge))
                        (full g) (budget g) (expired g) (rawPacketDrops g)).

Definition GlobalStats (g : Globals) : Stats :=
  mkStats (used g) (peak g) (full g) (budget g) (expired g) 0 (rawPacketDrops g).

Definition New (limit : Z) : Queue :=
  mkQueue [] 0 0 0 0 limit 0 false zero_stats.

Definition EnableBurst (q : Queue) : Queue :=
  mkQueue (items q) (head q) (count q) (bytes q) (ringCharge q)
          BurstPackets BurstAge (closed q) (stats q).

(** An empty ring of more than 32 slots is released at once. *)
Definition shrink (q : Queue) (g : Globals) : Queue * Globals :=
  if (count q =? 0) && (len (items q) >? 32) then
    (mkQueue [] 0 (count q) (bytes q) 0 (limit q) (maxAge q) (closed q) (stats q),
     add_used g (- ringCharge q))
  else (q, g).

Definition note_residence (q : Queue) (age : Z) : Queue :=
  if age >? 0 then set_stats q (max_residence (stats q) (Z.quot age 1000)) else q.

Definition remove (q : Queue) (g : Globals) (now : Z) : option (list Z * Queue * Globals) :=
  e ← index (items q) (head q);
  items1 ← assign (items q) (head q) zero_entry;
  head1 ← go_mod (head q + 1) (len items1);
  let charge := len (data e) + packetOverhead in
  let q1 := mkQueue items1 head1 (count q - 1) (bytes q - charge) (ringCharge q)
                    (limit q) (maxAge q) (closed q) (stats q) in
  let '(q2, g2) := shrink q1 (add_used g (- charge)) in
  Some (data e, note_residence q2 (time_sub now (at_ e)), g2).

(** The condition of the expiry loop; reading [items[head]] may panic. *)
Definition head_expired (q : Queue) (now : Z) : option bool :=
  if (count q >? 0) && (maxAge q >? 0) then
    e ← index (items q) (head q); Some (time_sub now (at_ e) >? maxAge q)
  else Some false.

(** Each iteration removes one packet, so [count] iterations are enough. *)
Fixpoint expire_loop (fuel : nat) (q : Queue) (g : Globals) (now : Z) : option (Queue * Globals) :=
  match fuel with
  | O => Some (q, g)
  | S fuel =>
    c ← head_expired q now;
    if (c : bool) then
      '(_, q1, g1) ← remove q g now;
      expire_loop fuel (set_stats q1 (bump_expired (stats q1))) (add_expired g1) now
    else Some (q, g)
  end.
Definition expire (q : Queue) (g : Globals) (now : Z) : option (Queue * Globals) :=
  expire_loop (Z.to_nat (count q)) q g now.

(** [for i := 0; i < q.count; i++ { items[i] = q.items[(q.head+i)%len(q.items)] }] *)
Fixpoint copy_ring (q : Queue) (n : nat) (i : Z) (dst : list entry) : option (list entry) :=
  match n with
  | O => Some dst
  | S n =>
    j ← go_mod (head q + i) (len (items q));
    e ← index (items q) j;
    dst ← assign dst i e;
    copy_ring q n (i + 1) dst
  end.

(** The growth of the ring: [None] for a panic, [Some None] when the budget
refuses the replacement ring. *)
Definition grow (q : Queue) (g : Globals) : option (option (Queue * Globals)) :=
  let n := Z.min (limit q) (Z.max 8 (len (items q) * 2)) in
  let '(ok, g1) := reserve g (n * 64) in
  if (ok : bool) then
    items1 ← copy_ring q (Z.to_nat (count q)) 0 (replicate (Z.to_nat n) zero_entry);
    let g2 := add_used g1 (- ringCharge q) in
    Some (Some (mkQueue items1 0 (count q) (bytes q) (n * 64) (limit q) (maxAge q)
                        (closed q) (stats q), g2))
  else Some None.

Definition store (q : Queue) (g : Globals) (payload : list Z) (charge now : Z)
    : option (bool * Queue * Globals) :=
  slot ← go_mod (head q + count q) (len (items q));
  items1 ← assign (items q) slot (mkEntry payload now);
  let bytes1 := bytes q + charge in
  Some (true,
        mkQueue items1 (head q) (count q + 1) bytes1 (ringCharge q) (limit q) (maxAge q) (closed q)
                (max_peak (stats q) (bytes1 + ringCharge q)),
        g).

(** [Push] after the expiry: the limits of the queue, the budget, the ring. *)
Definition admit_packet (q : Queue) (g : Globals) (payload : list Z) (now : Z)
    : option (bool * Queue * Globals) :=
  let charge := len payload + packetOverhead in
  if (count q >=? limit q) || (bytes q + charge >? BurstBytes) then
    Some (false, set_stats q (bump_full (stats q)), add_full g)
  else
    let '(ok, g1) := reserve g charge in
    if negb ok then
      Some (false, set_stats q (bump_budget (stats q)), add_budget g1)
    else if count q =? len (items q) then
      r ← grow q g1;
      match r with
      | None =>
        Some (false, set_stats q (bump_budget (stats q)), add_budget (add_used g1 (- charge)))
      | Some (q2, g2) => store q2 g2 payload charge now
      end
    else store q g1 payload charge now.

Definition Push (q : Queue) (g : Globals) (payload : list Z) (now : Z)
    : option (bool * Queue * Globals) :=
  if closed q then Some (false, q, g)
  else '(q, g) ← expire q g now; admit_packet q g payload now.

Definition Pop (q : Queue) (g : Globals) (now : Z)
    : option (option (list Z) * Queue * Globals) :=
  '(q, g) ← expire q g now;
  if count q =? 0 then Some (None, q, g)
  else '(d, q, g) ← remove q g now; Some (Some d, q, g).

Definition Close (q : Queue) (g : Globals) : Queue * Globals :=
  if closed q then (q, g)
  else
    (mkQueue [] 0 0 0 0 (limit q) (maxAge q) true (stats q),
     add_used g (- (bytes q + ringCharge q))).

Definition QueueStats (q : Queue) : Stats :=
  let s := stats q in
  mkStats (bytes q + ringCharge q) (PeakBytes s) (DroppedFull s) (DroppedBudget s)
          (DroppedExpired s) (MaxResidenceMicros s) (RawPacketDrops s).

(** ** The FIFO a ring represents *)

Definition contents (q : Queue) : list entry :=
  ring_list zero_entry (items q) (head q) (count q).

Fixpoint charge_of (l : list entry) : Z :=
  match l with
  | [] => 0
  | e :: l => len (data e) + packetOverhead + charge_of l
  end.

(** What the queue holds of the process-wide budget. *)
Definition live (q : Queue) : Z := bytes q + ringCharge q.

Definition stale (maxAge now : Z) (e : entry) : bool :=
  (maxAge >? 0) && (time_sub now (at_ e) >? maxAge).

Fixpoint drop_stale (maxAge now : Z) (l : list entry) : list entry :=
  match l with
  | [] => []
  | e :: l' => if stale maxAge now e then drop_stale maxAge now l' else l
  end.

Record queue_ok (q : Queue) : Prop := {
  ok_count : 0 <= count q <= len (items q);
  ok_head : 0 <= head q < Z.max 1 (len (items q));
  ok_bytes : bytes q = charge_of (contents q);
  ok_cap : bytes q <= BurstBytes;
  ok_ring : ringCharge q = 64 * len (items q);
  ok_size : len (items q) <= limit q;
  ok_limit : 0 < limit q <= BurstPackets;
  ok_closed : closed q = true -> items q = []
}.

Lemma length_contents q : 0 <= count q -> len (contents q) = count q.
Proof. apply len_ring_list. Qed.

Lemma contents_nil q : count q = 0 -> contents q = [].
Proof. intros H. apply ring_list_nil. lia. Qed.

Lemma charge_of_nonneg l : 0 <= charge_of l.
Proof. induction l as [|e l IH]; cbn; [lia|]. pose proof (len_nonneg (data e)). unfold packetOverhead. lia. Qed.

Lemma charge_of_app l k : charge_of (l ++ k) = charge_of l + charge_of k.
Proof. induction l; cbn; lia. Qed.

Lemma i64_small z : - 2 ^ 63 <= z < 2 ^ 63 -> i64 z = z.
Proof. intros. unfold i64. rewrite Z.mod_small; lia. Qed.

(** ** What an operation may change

[op_step q g q' g']: the queue stays well formed, keeps its configuration, and
the shared budget moves by exactly what the queue's holding moved; the budget
never exceeds the limit. *)
Record op_step (q : Queue) (g : Globals) (q' : Queue) (g' : Globals) : Prop := {
  st_ok : queue_ok q';
  st_used : used g' - live q' = used g - live q;
  st_limit : used g' <= GlobalLimit;
  st_conf : limit q' = limit q /\ maxAge q' = maxAge q /\ closed q' = closed q
}.

Definition budget_ok (q : Queue) (g : Globals) : Prop := live q <= used g <= GlobalLimit.

Lemma op_step_budget q g q' g' : budget_ok q g -> op_step q g q' g' -> budget_ok q' g'.
Proof. unfold budget_ok. intros ? []. lia. Qed.

Lemma op_step_refl q g : queue_ok q -> used g <= GlobalLimit -> op_step q g q g.
Proof. by constructor. Qed.

Lemma op_step_trans q1 g1 q2 g2 q3 g3 :
  op_step q1 g1 q2 g2 -> op_step q2 g2 q3 g3 -> op_step q1 g1 q3 g3.
Proof. intros [] []. constructor; [done|lia|done|intuition congruence]. Qed.

Lemma queue_ok_live q : queue_ok q -> 0 <= live q <= BurstBytes + 64 * BurstPackets.
Proof.
  intros []. unfold live. rewrite ok_bytes0 at 1. pose proof (charge_of_nonneg (contents q)).
  pose proof (len_nonneg (items q)). lia.
Qed.

(** Only the counters change: the ring is the same. *)
Lemma queue_ok_stats q s : queue_ok q -> queue_ok (set_stats q s).
Proof. by intros []. Qed.

Lemma op_step_stats q g s q' g' :
  op_step q g q' g' -> op_step q g (set_stats q' s) g'.
Proof. intros []. constructor; [by apply queue_ok_stats|done..]. Qed.

#[local] Hint Resolve op_step_refl op_step_trans queue_ok_stats op_step_stats : relay.

Lemma used_add_used g d : 0 <= used g + d <= GlobalLimit -> used (add_used g d) = used g + d.
Proof. intros. cbn. apply i64_small. unfold GlobalLimit in *. lia. Qed.

(** ** remove *)

Lemma head_charge q e rest : queue_ok q -> contents q = e :: rest ->
  0 < len (data e) + packetOverhead <= bytes q.
Proof.
  intros [] He. rewrite ok_bytes0, He. cbn. pose proof (charge_of_nonneg rest).
  pose proof (len_nonneg (data e)). unfold packetOverhead. lia.
Qed.

Lemma shrink_spec q g q' g' : queue_ok q -> budget_ok q g -> shrink q g = (q', g') ->
  op_step q g q' g' /\ contents q' = contents q /\ used g' <= used g.
Proof.
  intros Hok Hb. pose proof (queue_ok_live q Hok). pose proof Hok as [].
  unfold shrink, budget_ok, live in *. split_if; intros [= <- <-]; [breflect|].
  - rewrite (contents_nil q) in ok_bytes0 by done. cbn in ok_bytes0.
    pose proof (len_nonneg (items q)). rewrite !used_add_used by lia.
    repeat split; cbn -[add_used]; rewrite ?len_nil, ?used_add_used, ?contents_nil by (done || lia);
      try done; unfold live; cbn; lia.
  - split; [apply op_step_refl; [done|lia]|done].
Qed.

Lemma note_residence_step q g q' g' age : op_step q g q' g' -> op_step q g (note_residence q' age) g'.
Proof. unfold note_residence. intros. split_if; auto with relay. Qed.

Lemma note_residence_contents q age : contents (note_residence q age) = contents q.
Proof. unfold note_residence. by split_if. Qed.

Lemma remove_spec q g now : queue_ok q -> budget_ok q g -> 0 < count q ->
  exists e q' g', remove q g now = Some (data e, q', g') /\
    index (items q) (head q) = Some e /\
    contents q = e :: contents q' /\ op_step q g q' g' /\ used g' <= used g.
Proof.
  intros Hok Hb Hc. pose proof Hok as [].
  assert (0 <= head q < len (items q)) as Hh by lia.
  set (e := nth (Z.to_nat (head q)) (items q) zero_entry).
  set (q1 := mkQueue (<[Z.to_nat (head q) := zero_entry]> (items q)) ((head q + 1) mod len (items q))
               (count q - 1) (bytes q - (len (data e) + packetOverhead)) (ringCharge q)
               (limit q) (maxAge q) (closed q) (stats q)).
  assert (contents q = e :: contents q1) as Hpop by (apply ring_list_pop; lia).
  pose proof (head_charge q e _ Hok Hpop) as Hce. pose proof (len_nonneg (items q)).
  set (g1 := add_used g (- (len (data e) + packetOverhead))).
  assert (used g1 = used g - (len (data e) + packetOverhead)) as Hg1
    by (unfold g1, budget_ok, live in *; rewrite used_add_used; lia).
  assert (op_step q g q1 g1) as Hstep.
  { constructor; [|unfold live in *; cbn -[g1] in *; lia|unfold budget_ok in Hb; lia|done].
    pose proof (ring_mod_range (head q + 1) (len (items q))). rewrite Hpop in ok_bytes0.
    constructor; cbn [q1 items head count bytes ringCharge limit closed charge_of] in *;
      rewrite ?len_insert; try done; try lia.
    intros Hcl. specialize (ok_closed0 Hcl). rewrite ok_closed0 in Hh. unfold len in Hh. cbn in Hh. lia. }
  destruct (shrink q1 g1) as [q2 g2] eqn:Hs.
  destruct (shrink_spec q1 g1 q2 g2) as (Hs1 & Hs2 & Hs3);
    [apply Hstep|by eapply op_step_budget|done|].
  exists e, (note_residence q2 (time_sub now (at_ e))), g2.
  split; [|split; [by apply index_nth|]].
  - unfold remove. rewrite (index_nth (items q) (head q) zero_entry Hh), assign_insert by done.
    cbn [mbind option_bind]. rewrite len_insert, go_mod_mod by lia. cbn [mbind option_bind].
    fold e q1 g1. by rewrite Hs.
  - rewrite note_residence_contents, Hs2. split; [done|].
    split; [|lia]. apply note_residence_step. by eapply op_step_trans.
Qed.

(** ** expire *)

Lemma stale_head q now e rest : contents q = e :: rest -> queue_ok q ->
  index (items q) (head q) = Some e -> 0 < count q ->
  head_expired q now = Some (stale (maxAge q) now e).
Proof.
  intros Hc Hok He Hpos. unfold head_expired, stale. rewrite He.
  rewrite (proj2 (Z.gtb_lt (count q) 0)) by lia. cbn [andb].
  by destruct (maxAge q >? 0).
Qed.

Lemma expire_loop_spec fuel q g now :
  queue_ok q -> budget_ok q g -> fuel = Z.to_nat (count q) ->
  exists q' g', expire_loop fuel q g now = Some (q', g') /\
    contents q' = drop_stale (maxAge q) now (contents q) /\ op_step q g q' g' /\ used g' <= used g.
Proof.
  revert q g. induction fuel as [|fuel IH]; intros q g Hok Hb Hfuel.
  - pose proof (ok_count q Hok). exists q, g. split; [done|].
    rewrite contents_nil by lia. split; [done|]. split; [|done].
    apply op_step_refl; [done|apply Hb].
  - cbn [expire_loop]. destruct (remove_spec q g now Hok Hb ltac:(lia))
      as (e & q1 & g1 & Hr & He & Hc & Hs & Hu).
    rewrite (stale_head q now e (contents q1)) by (done || lia). cbn [mbind option_bind].
    rewrite Hc. cbn [drop_stale]. destruct (stale (maxAge q) now e) eqn:Hst.
    + rewrite Hr. cbn [mbind option_bind].
      set (q2 := set_stats q1 (bump_expired (stats q1))). set (g2 := add_expired g1).
      assert (op_step q g q2 g2) as Hs2 by (destruct Hs; constructor; try done; by apply queue_ok_stats).
      destruct (IH q2 g2) as (q' & g' & HE & HC & HS & HU);
        [apply Hs2|by eapply op_step_budget|pose proof (length_contents q1) as H1;
         pose proof (length_contents q) as H2; rewrite Hc, len_cons in H2; cbn;
         pose proof (ok_count q1 (st_ok _ _ _ _ Hs)); lia|].
      exists q', g'. split; [done|]. split; [|split; [by eapply op_step_trans|cbn in HU; lia]].
      rewrite HC. cbn. by destruct (st_conf _ _ _ _ Hs) as (_ & -> & _).
    + exists q, g. split; [done|]. split; [done|]. split; [|done].
      apply op_step_refl; [done|apply Hb].
Qed.

Lemma expire_spec q g now : queue_ok q -> budget_ok q g ->
  exists q' g', expire q g now = Some (q', g') /\
    contents q' = drop_stale (maxAge q) now (contents q) /\ op_step q g q' g' /\ used g' <= used g.
Proof. intros. by apply expire_loop_spec. Qed.

(** ** grow *)

Lemma copy_ring_spec q n k dst :
  queue_ok q -> (k + n = Z.to_nat (count q))%nat -> (Z.to_nat (count q) <= length dst)%nat ->
  copy_ring q n (Z.of_nat k) dst = Some (take k dst ++ drop k (contents q) ++ drop (k + n) dst).
Proof.
  intros Hok. pose proof Hok as []. revert k dst. induction n as [|n IH]; intros k dst Hk Hd.
  - cbn. rewrite Nat.add_0_r, (drop_ge (contents q)); [by rewrite app_nil_l, take_drop|].
    unfold contents. rewrite length_ring_list. lia.
  - cbn [copy_ring]. rewrite go_mod_mod by lia. cbn [mbind option_bind].
    pose proof (ring_mod_range (head q + Z.of_nat k) (len (items q)) ltac:(lia)).
    rewrite (index_nth _ _ zero_entry) by done. cbn [mbind option_bind].
    set (e := nth _ _ _).
    rewrite assign_insert by (unfold len; lia). cbn [mbind option_bind].
    replace (Z.of_nat k + 1) with (Z.of_nat (S k)) by lia. rewrite Nat2Z.id.
    rewrite IH by (rewrite ?length_insert; lia). f_equal.
    rewrite (drop_S (contents q) e k) by (apply ring_list_lookup; lia).
    rewrite (take_S_r _ _ e) by (apply list_lookup_insert_eq; lia).
    rewrite take_insert_ge by lia. rewrite drop_insert_lt by lia.
    rewrite <- app_assoc. cbn [app]. by replace (k + S n)%nat with (S k + n)%nat by lia.
Qed.

Lemma reserve_spec g c ok g' : reserve g c = (ok, g') -> used g <= GlobalLimit ->
  used g' = (if ok then used g + c else used g) /\ used g' <= GlobalLimit /\
  (ok = true <-> used g + c <= GlobalLimit).
Proof.
  unfold reserve. split_if; intros [= <- <-]; breflect; cbn; intuition (try done; lia).
Qed.

(** Growth keeps the contents and gives the ring a free slot. *)
Lemma grow_spec q g :
  queue_ok q -> budget_ok q g -> count q = len (items q) -> count q < limit q -> closed q = false ->
  exists r, grow q g = Some r /\
    match r with
    | None => GlobalLimit < used g + 64 * BurstPackets
    | Some (q', g') => op_step q g q' g' /\ contents q' = contents q /\ count q' = count q /\
                       bytes q' = bytes q /\ count q' < len (items q')
    end.
Proof.
  intros Hok Hb Hfull Hlim Hcl. pose proof Hok as []. unfold budget_ok, live in Hb.
  unfold grow. set (n := Z.min _ _).
  assert (count q < n <= limit q) as Hn by (unfold n; lia).
  destruct (reserve g (n * 64)) as [ok g1] eqn:Hr.
  destruct (reserve_spec _ _ _ _ Hr ltac:(lia)) as (Hu & Hl & Hiff).
  pose proof (charge_of_nonneg (contents q)) as Hch.
  destruct ok; [|eexists; split; [done|]; cbn in *; destruct Hiff as [_ Hi]; unfold BurstPackets in *;
                 destruct (decide (GlobalLimit < used g + 64 * 1024)); [done|];
                 discriminate Hi; lia].
  rewrite (copy_ring_spec q _ 0) by (rewrite ?length_replicate; done || lia).
  cbn [mbind option_bind]. rewrite take_0, drop_0, app_nil_l, drop_replicate, Nat.add_0_l.
  set (its := contents q ++ replicate _ zero_entry).
  assert (length its = Z.to_nat n) as Hits.
  { unfold its, contents. rewrite length_app, length_replicate, length_ring_list. lia. }
  assert (len its = n) as Hlits by (unfold len; lia).
  set (q' := mkQueue its _ _ _ _ _ _ _ _).
  assert (contents q' = contents q) as Hc'.
  { unfold contents at 1. cbn [q' items head count]. rewrite <- (Z2Nat.id (count q)) by lia.
    rewrite ring_list_head0 by lia. unfold its. apply take_app_length'.
    unfold contents. by rewrite length_ring_list. }
  assert (used (add_used g1 (- ringCharge q)) = used g + n * 64 - ringCharge q) as Hu'
    by (rewrite used_add_used; lia).
  eexists. split; [done|]. split; [|repeat split; cbn; (done || lia)].
  constructor; [|unfold live; cbn -[add_used] in *; lia|lia|done].
  constructor; rewrite ?Hc'; cbn; rewrite ?Hlits; try done; try lia. congruence.
Qed.

(** ** store *)

Lemma store_spec q g payload charge now :
  queue_ok q -> used g <= GlobalLimit -> count q < len (items q) -> count q < limit q ->
  charge = len payload + packetOverhead -> bytes q + charge <= BurstBytes ->
  exists q', store q g payload charge now = Some (true, q', g) /\
    contents q' = contents q ++ [mkEntry payload now] /\ queue_ok q' /\
    live q' = live q + charge /\
    limit q' = limit q /\ maxAge q' = maxAge q /\ closed q' = closed q.
Proof.
  intros Hok Hg Hfree Hlim -> Hfit. pose proof Hok as [].
  unfold store. rewrite go_mod_mod by lia. cbn [mbind option_bind].
  pose proof (ring_mod_range (head q + count q) (len (items q)) ltac:(lia)) as Hslot.
  rewrite assign_insert by done. cbn [mbind option_bind].
  set (q' := mkQueue _ _ _ _ _ _ _ _ _).
  assert (contents q' = contents q ++ [mkEntry payload now]) as Hc.
  { apply ring_list_push; lia. }
  exists q'. split; [done|]. split; [done|]. split; [|unfold live; cbn; repeat split; lia].
  constructor; rewrite ?Hc, ?charge_of_app; cbn; rewrite ?len_insert; try done; try lia.
  intros Hcl. specialize (ok_closed0 Hcl). rewrite ok_closed0, len_nil in Hfree. lia.
Qed.

(** ** Push, Pop, Close *)

Lemma drop_stale_len maxAge now l : len (drop_stale maxAge now l) <= len l.
Proof. induction l as [|e l IH]; cbn [drop_stale]; [done|]. rewrite len_cons. split_if; rewrite ?len_cons; lia. Qed.

(** A packet that passes the limits is stored behind the others. *)
Lemma store_step q1 g1 g2 q2 g3 payload charge now :
  charge = len payload + packetOverhead ->
  used g2 = used g1 + charge -> op_step q1 g2 q2 g3 -> contents q2 = contents q1 ->
  bytes q2 + charge <= BurstBytes -> count q2 < len (items q2) -> count q2 < limit q2 ->
  exists q', store q2 g3 payload charge now = Some (true, q', g3) /\
    contents q' = contents q1 ++ [mkEntry payload now] /\ op_step q1 g1 q' g3.
Proof.
  intros Hch Hu [] Hc2 Hfit Hfree Hlim.
  destruct (store_spec q2 g3 payload charge now) as (q' & -> & Hc' & Hq' & Hlv & Hconf); try done.
  exists q'. split; [done|]. rewrite Hc', Hc2. split; [done|].
  constructor; [done|lia|done|intuition congruence].
Qed.

Lemma drop_step q g s g' : queue_ok q -> used g' = used g -> used g <= GlobalLimit ->
  op_step q g (set_stats q s) g'.
Proof.
  intros. constructor; [by apply queue_ok_stats| |lia|done].
  change (live (set_stats q s)) with (live q). lia.
Qed.

Lemma admit_packet_spec q g payload now : queue_ok q -> budget_ok q g -> closed q = false ->
  let charge := len payload + packetOverhead in
  exists ok q' g', admit_packet q g payload now = Some (ok, q', g') /\
    contents q' = (if ok then contents q ++ [mkEntry payload now] else contents q) /\
    op_step q g q' g' /\
    (ok = true -> count q < limit q /\ bytes q + charge <= BurstBytes) /\
    (count q < limit q -> bytes q + charge <= BurstBytes ->
     used g + charge + 64 * BurstPackets <= GlobalLimit -> ok = true).
Proof.
  intros Hok Hb Hcl charge. unfold admit_packet. fold charge. pose proof Hok as [].
  assert (0 <= charge) as Hch by (unfold charge, packetOverhead; pose proof (len_nonneg payload); lia).
  pose proof (queue_ok_live q Hok) as Hlv. unfold budget_ok in Hb.
  destruct ((count q >=? limit q) || (bytes q + charge >? BurstBytes)) eqn:Hfull.
  { exists false, (set_stats q (bump_full (stats q))), (add_full g).
    split_and!; try done; [by apply drop_step; try lia|]. intros Hn Hbb.
    apply orb_true_iff in Hfull as [Hf|Hf]; breflect; lia. }
  breflect. destruct (reserve g charge) as [ok g2] eqn:Hr.
  destruct (reserve_spec _ _ _ _ Hr ltac:(lia)) as (Hu2 & Hl2 & Hiff).
  destruct ok; cbn [negb].
  2: { exists false, (set_stats q (bump_budget (stats q))), (add_budget g2).
       split_and!; try done; [by apply drop_step; try lia|]. intros _ _ Hroom.
       unfold BurstPackets in *. apply Hiff. lia. }
  destruct (count q =? len (items q)) eqn:Hring; breflect.
  - destruct (grow_spec q g2) as (r & -> & Hgr);
      [done|unfold budget_ok in *; lia|done|lia|congruence|].
    cbn [mbind option_bind]. destruct r as [[q2 g3]|].
    + destruct Hgr as (Hgs & Hgc & Hgn & Hgb & Hgf).
      destruct (store_step q g g2 q2 g3 payload charge now) as (q' & -> & Hc' & Hs'); try done; [lia|..].
      { destruct Hgs as [_ _ _ (-> & _)]; lia. }
      exists true, q', g3. split_and!; done || lia.
    + exists false, (set_stats q (bump_budget (stats q))), (add_budget (add_used g2 (- charge))).
      split_and!; try done; try lia. apply drop_step; [done| |lia].
      change (used (add_used g2 (- charge)) = used g). rewrite used_add_used; lia.
  - destruct (store_step q g g2 q g2 payload charge now) as (q' & -> & Hc' & Hs'); try done; try lia.
    exists true, q', g2. split_and!; done || lia.
Qed.

Lemma Push_spec q g payload now : queue_ok q -> budget_ok q g ->
  let fresh := drop_stale (maxAge q) now (contents q) in
  let charge := len payload + packetOverhead in
  exists ok q' g', Push q g payload now = Some (ok, q', g') /\
    contents q' = (if ok then fresh ++ [mkEntry payload now] else fresh) /\
    op_step q g q' g' /\
    (ok = true -> closed q = false /\ len fresh < limit q /\ charge_of fresh + charge <= BurstBytes) /\
    (closed q = false -> len fresh < limit q -> charge_of fresh + charge <= BurstBytes ->
     used g + charge + 64 * BurstPackets <= GlobalLimit -> ok = true).
Proof.
  intros Hok Hb fresh charge. unfold Push. destruct (closed q) eqn:Hcl.
  { exists false, q, g. split; [done|]. split; [|split; [|done]].
    - unfold fresh. pose proof (ok_closed q Hok Hcl) as Hit. pose proof (ok_count q Hok) as Hc.
      rewrite Hit in Hc. unfold len in Hc. cbn in Hc. rewrite contents_nil by lia. done.
    - apply op_step_refl; [done|apply Hb]. }
  destruct (expire_spec q g now Hok Hb) as (q1 & g1 & -> & Hc1 & Hs1 & Hu1).
  cbn [mbind option_bind]. fold fresh in Hc1.
  pose proof Hs1 as [Hok1 _ _ (Hl1 & Hm1 & Hcl1)].
  pose proof (ok_count q1 Hok1). pose proof (length_contents q1 ltac:(lia)) as Hlen.
  pose proof (ok_bytes q1 Hok1) as Hby. rewrite Hc1 in Hlen, Hby.
  destruct (admit_packet_spec q1 g1 payload now) as (ok & q' & g' & HA & HC & HS & HT & HF);
    [done|by eapply op_step_budget|congruence|].
  exists ok, q', g'. rewrite HA, HC, Hc1. split; [done|]. split; [done|].
  split; [by eapply op_step_trans|]. fold charge in HT, HF. rewrite Hlen, <- Hby, <- Hl1.
  split; [intros; split; [done|by apply HT]|]. intros. apply HF; lia.
Qed.

Lemma Pop_spec q g now : queue_ok q -> budget_ok q g ->
  exists r q' g', Pop q g now = Some (r, q', g') /\ op_step q g q' g' /\
    match drop_stale (maxAge q) now (contents q) with
    | [] => r = None /\ contents q' = []
    | e :: rest => r = Some (data e) /\ contents q' = rest
    end.
Proof.
  intros Hok Hb. unfold Pop.
  destruct (expire_spec q g now Hok Hb) as (q1 & g1 & -> & Hc1 & Hs1 & Hu1).
  cbn [mbind option_bind]. pose proof (op_step_budget _ _ _ _ Hb Hs1) as Hb1.
  pose proof (st_ok _ _ _ _ Hs1) as Hok1. pose proof (ok_count q1 Hok1) as Hcnt. rewrite <- Hc1.
  destruct (count q1 =? 0) eqn:Hz; breflect.
  - exists None, q1, g1. by rewrite contents_nil by done.
  - destruct (remove_spec q1 g1 now Hok1 Hb1 ltac:(lia)) as (e & q2 & g2 & -> & _ & Hc2 & Hs2 & _).
    cbn [mbind option_bind]. exists (Some (data e)), q2, g2. rewrite Hc2.
    split; [done|]. split; [by eapply op_step_trans|done].
Qed.

Lemma Close_spec q g q' g' : queue_ok q -> budget_ok q g -> Close q g = (q', g') ->
  queue_ok q' /\ live q' = 0 /\ contents q' = [] /\ closed q' = true /\ used g' = used g - live q.
Proof.
  intros Hok Hb. pose proof (queue_ok_live q Hok). unfold Close. destruct (closed q) eqn:Hcl; intros [= <- <-].
  - pose proof Hok as [Hc _ Hby _ Hr _ _ Hit]. rewrite (Hit Hcl) in Hc, Hr. unfold len in Hc, Hr.
    cbn in Hc, Hr. rewrite contents_nil in Hby |- * by lia. cbn in Hby.
    split_and!; try done; unfold live; lia.
  - unfold budget_ok, live in *. rewrite used_add_used by lia. pose proof Hok as [].
    split_and!; try done; [constructor; cbn; rewrite ?len_nil; done || lia|cbn; lia..].
Qed.

Lemma New_ok lim : 0 < lim <= BurstPackets -> queue_ok (New lim).
Proof. intros. constructor; cbn; rewrite ?len_nil; try done; lia. Qed.

Lemma EnableBurst_ok q : queue_ok q -> queue_ok (EnableBurst q).
Proof. intros []. constructor; cbn; try done; unfold BurstPackets in *; lia. Qed.

(** ** Many queues, one budget

Every connection and every HTTP/3 stream owns a queue; all of them share the
package counters.  [run_op] executes one call on one queue; [None] is a panic. *)

Inductive op :=
| OpNew (id : nat) (lim : Z)
| OpPush (id : nat) (payload : list Z) (now : Z)
| OpPop (id : nat) (now : Z)
| OpEnableBurst (id : nat)
| OpClose (id : nat)
| OpRawDrop.

Record sys := mkSys { queues : gmap nat Queue; globals : Globals }.

Definition sys0 : sys := mkSys ∅ (mkGlobals 0 0 0 0 0 0).

(** An operation names a queue that exists; [OpNew] a fresh one, with one of the
limits the program passes (32 per stream, 128 per connection, 1024 at most). *)
Definition op_valid (s : sys) (o : op) : Prop :=
  match o with
  | OpNew id lim => queues s !! id = None /\ 0 < lim <= BurstPackets
  | OpPush id _ _ | OpPop id _ | OpEnableBurst id | OpClose id => is_Some (queues s !! id)
  | OpRawDrop => True
  end.

Definition run_op (s : sys) (o : op) : option sys :=
  match o with
  | OpNew id lim => Some (mkSys (<[id := New lim]> (queues s)) (globals s))
  | OpPush id payload now =>
    q ← queues s !! id;
    '(_, q', g') ← Push q (globals s) payload now;
    Some (mkSys (<[id := q']> (queues s)) g')
  | OpPop id now =>
    q ← queues s !! id;
    '(_, q', g') ← Pop q (globals s) now;
    Some (mkSys (<[id := q']> (queues s)) g')
  | OpEnableBurst id =>
    q ← queues s !! id;
    Some (mkSys (<[id := EnableBurst q]> (queues s)) (globals s))
  | OpClose id =>
    q ← queues s !! id;
    let '(q', g') := Close q (globals s) in
    Some (mkSys (<[id := q']> (queues s)) g')
  | OpRawDrop => Some (mkSys (queues s) (RecordRawPacketDrop (globals s)))
  end.

Inductive reachable : sys -> Prop :=
| reach_init : reachable sys0
| reach_op s o s' : reachable s -> op_valid s o -> run_op s o = Some s' -> reachable s'.

Definition total_live (m : gmap nat Queue) : Z := map_fold (fun _ q acc => live q + acc) 0 m.

Lemma total_live_insert_None m id q : m !! id = None ->
  total_live (<[id := q]> m) = live q + total_live m.
Proof. intros. unfold total_live. rewrite map_fold_insert_L; [done| |done]. intros. lia. Qed.

Lemma total_live_insert m id q q' : m !! id = Some q ->
  total_live (<[id := q']> m) = total_live m - live q + live q'.
Proof.
  intros Hq. rewrite <- insert_delete_eq, total_live_insert_None by apply lookup_delete_eq.
  unfold total_live at 2. rewrite (map_fold_delete_L _ _ id q m); [|intros; lia|done].
  fold (total_live (delete id m)). lia.
Qed.

Lemma total_live_ge m id q : (forall i p, m !! i = Some p -> queue_ok p) -> m !! id = Some q ->
  live q <= total_live m.
Proof.
  intros Hall Hq. unfold total_live. rewrite (map_fold_delete_L _ _ id q m); [|intros; lia|done].
  cut (0 <= total_live (delete id m)); [unfold total_live; lia|].
  assert (forall i p, delete id m !! i = Some p -> queue_ok p) as Hd.
  { intros i p Hp. apply lookup_delete_Some in Hp as [_ Hp]. eauto. }
  revert Hd. generalize (delete id m). intros m'. induction m' as [|i p m' Hi IH] using map_ind; [done|].
  intros Hd. rewrite total_live_insert_None by done.
  pose proof (queue_ok_live p (Hd i p (lookup_insert_eq _ _ _))).
  assert (0 <= total_live m'); [|lia]. apply IH. intros j p' Hj. apply (Hd j p').
  rewrite lookup_insert_ne; [done|]. intros ->. congruence.
Qed.

(** The invariant of the process: well-formed queues, exact accounting, budget. *)
Record sys_ok (s : sys) : Prop := {
  sys_queues : forall id q, queues s !! id = Some q -> queue_ok q;
  sys_used : used (globals s) = total_live (queues s);
  sys_limit : used (globals s) <= GlobalLimit
}.

Lemma sys_ok_budget s id q : sys_ok s -> queues s !! id = Some q -> budget_ok q (globals s).
Proof.
  intros [Hq Hu Hl] Hid. pose proof (total_live_ge _ id q Hq Hid). unfold budget_ok. lia.
Qed.

(** Updating one queue along with its budget keeps the invariant. *)
Lemma sys_ok_update s id q q' g' : sys_ok s -> queues s !! id = Some q ->
  queue_ok q' -> used g' - live q' = used (globals s) - live q -> used g' <= GlobalLimit ->
  sys_ok (mkSys (<[id := q']> (queues s)) g').
Proof.
  intros [Hq Hu Hl] Hid Hok Hd Hlim. constructor; cbn; [|rewrite (total_live_insert _ _ q) by done; lia|done].
  intros i p Hp. apply lookup_insert_Some in Hp as [[_ <-]|[_ Hp]]; eauto.
Qed.

Lemma run_op_ok s o : sys_ok s -> op_valid s o -> exists s', run_op s o = Some s' /\ sys_ok s'.
Proof.
  intros Hs Hv. destruct o as [id lim|id payload now|id now|id|id|]; cbn in Hv |- *.
  - destruct Hv as [Hn Hlim]. eexists. split; [done|]. destruct Hs as [Hq Hu Hl]. constructor; cbn.
    + intros i p Hp. apply lookup_insert_Some in Hp as [[_ <-]|[_ Hp]]; eauto using New_ok.
    + by rewrite total_live_insert_None.
    + done.
  - destruct Hv as [q Hq]. rewrite Hq. cbn [mbind option_bind].
    destruct (Push_spec q (globals s) payload now) as (ok & q' & g' & -> & _ & [] & _);
      [by eapply sys_queues|by eapply sys_ok_budget|].
    cbn [mbind option_bind]. eexists. split; [done|]. by eapply sys_ok_update.
  - destruct Hv as [q Hq]. rewrite Hq. cbn [mbind option_bind].
    destruct (Pop_spec q (globals s) now) as (r & q' & g' & -> & [] & _);
      [by eapply sys_queues|by eapply sys_ok_budget|].
    cbn [mbind option_bind]. eexists. split; [done|]. by eapply sys_ok_update.
  - destruct Hv as [q Hq]. rewrite Hq. cbn [mbind option_bind]. eexists. split; [done|].
    eapply sys_ok_update; [done|done|eapply EnableBurst_ok, sys_queues; done|done|by destruct Hs].
  - destruct Hv as [q Hq]. rewrite Hq. cbn [mbind option_bind].
    destruct (Close q (globals s)) as [q' g'] eqn:Hc.
    destruct (Close_spec q (globals s) q' g') as (Hok' & Hl & _ & _ & Hu);
      [by eapply sys_queues|by eapply sys_ok_budget|done|].
    eexists. split; [done|]. eapply sys_ok_update; [done|done|done|lia|].
    pose proof (queue_ok_live q ltac:(by eapply sys_queues)). pose proof (sys_limit s Hs). lia.
  - eexists. split; [done|]. by destruct Hs.
Qed.

Lemma reachable_ok s : reachable s -> sys_ok s.
Proof.
  induction 1 as [|s o s' _ IH Hv Hr].
  - constructor; [|done|done]. intros id q Hq. cbn in Hq. by rewrite lookup_empty in Hq.
  - destruct (run_op_ok s o IH Hv) as (s2 & Hs2 & Hok). congruence.
Qed.

(** ** Histories of one queue

[history id s acc del]: [s] is reached by a run in which queue [id] accepted
the payloads [acc] and handed out the payloads [del], in these orders. *)

Definition touches (id : nat) (o : op) : bool :=
  match o with
  | OpPush i _ _ | OpPop i _ => Nat.eqb i id
  | _ => false
  end.

Inductive history (id : nat) : sys -> list (list Z) -> list (list Z) -> Prop :=
| hist_init : history id sys0 [] []
| hist_push s acc del q payload now ok q' g' :
    history id s acc del -> queues s !! id = Some q ->
    Push q (globals s) payload now = Some (ok, q', g') ->
    history id (mkSys (<[id := q']> (queues s)) g')
            (if (ok : bool) then acc ++ [payload] else acc) del
| hist_pop s acc del q now r q' g' :
    history id s acc del -> queues s !! id = Some q ->
    Pop q (globals s) now = Some (r, q', g') ->
    history id (mkSys (<[id := q']> (queues s)) g')
            acc (match r with Some d => del ++ [d] | None => del end)
| hist_other s acc del o s' :
    history id s acc del -> op_valid s o -> touches id o = false -> run_op s o = Some s' ->
    history id s' acc del.

Definition payloads_of (s : sys) (id : nat) : list (list Z) :=
  match queues s !! id with
  | Some q => map data (contents q)
  | None => []
  end.

Lemma history_reachable id s acc del : history id s acc del -> reachable s.
Proof.
  induction 1 as [|s acc del q payload now ok q' g' _ IH Hq Hp|s acc del q now r q' g' _ IH Hq Hp
                  |s acc del o s' _ IH Hv _ Hr].
  - constructor.
  - apply (reach_op s (OpPush id payload now)); [done|by exists q|]. cbn. by rewrite Hq; cbn; rewrite Hp.
  - apply (reach_op s (OpPop id now)); [done|by exists q|]. cbn. by rewrite Hq; cbn; rewrite Hp.
  - by eapply reach_op.
Qed.

Lemma drop_stale_sublist m now l : sublist (map data (drop_stale m now l)) (map data l).
Proof.
  induction l as [|e l IH]; [done|]. cbn [drop_stale]. split_if; [|done].
  cbn [map]. by apply sublist_cons.
Qed.

Lemma run_op_other_queue s o s' id : op_valid s o -> touches id o = false -> sys_ok s ->
  run_op s o = Some s' -> payloads_of s' id = payloads_of s id \/ payloads_of s' id = [].
Proof.
  intros Hv Ht Hs Hr. unfold payloads_of.
  destruct o as [i lim|i payload now|i now|i|i|]; cbn in *; try apply Nat.eqb_neq in Ht;
    try (injection Hr as <-; cbn).
  - destruct (decide (i = id)) as [->|]; [right; by rewrite lookup_insert_eq|].
    left. by rewrite lookup_insert_ne.
  - destruct Hv as [q Hq]. rewrite Hq in Hr. cbn in Hr.
    destruct (Push _ _ _ _) as [[[? ?] ?]|]; [|done]. injection Hr as <-. cbn.
    by rewrite lookup_insert_ne; [left|].
  - destruct Hv as [q Hq]. rewrite Hq in Hr. cbn in Hr.
    destruct (Pop _ _ _) as [[[? ?] ?]|]; [|done]. injection Hr as <-. cbn.
    by rewrite lookup_insert_ne; [left|].
  - destruct Hv as [q Hq]. rewrite Hq in Hr. injection Hr as <-. cbn.
    destruct (decide (i = id)) as [->|]; [|left; by rewrite lookup_insert_ne].
    left. rewrite lookup_insert_eq, Hq. done.
  - destruct Hv as [q Hq]. rewrite Hq in Hr. cbn in Hr.
    destruct (Close q (globals s)) as [q' g'] eqn:Hc. injection Hr as <-. cbn.
    destruct (decide (i = id)) as [->|]; [|left; by rewrite lookup_insert_ne].
    right. rewrite lookup_insert_eq.
    destruct (Close_spec q (globals s) q' g') as (_ & _ & -> & _);
      [by eapply sys_queues|by eapply sys_ok_budget|done|done].
  - by left.
Qed.

Lemma history_sublist id s acc del : history id s acc del ->
  sublist (del ++ payloads_of s id) acc.
Proof.
  intros H. induction H as [|s acc del q payload now ok q' g' Hh IH Hq Hp|s acc del q now r q' g' Hh IH Hq Hp
                  |s acc del o s' Hh IH Hv Ht Hr];
    [by unfold payloads_of; cbn; rewrite lookup_empty|..];
    pose proof (reachable_ok s (history_reachable id s acc del Hh)) as Hs.
  - destruct (Push_spec q (globals s) payload now) as (ok2 & q2 & g2 & HP & HC & _);
      [by eapply sys_queues|by eapply sys_ok_budget|].
    rewrite HP in Hp. injection Hp as -> -> ->. unfold payloads_of in *. cbn. rewrite lookup_insert_eq, HC.
    rewrite Hq in IH.
    assert (sublist (del ++ map data (drop_stale (maxAge q) now (contents q))) acc) as Hd.
    { etrans; [|exact IH]. apply sublist_app; [done|apply drop_stale_sublist]. }
    destruct ok; [|done]. rewrite map_app, app_assoc. by apply sublist_app.
  - destruct (Pop_spec q (globals s) now) as (r2 & q2 & g2 & HP & _ & HR);
      [by eapply sys_queues|by eapply sys_ok_budget|].
    rewrite HP in Hp. injection Hp as -> -> ->. unfold payloads_of in *. cbn. rewrite lookup_insert_eq.
    rewrite Hq in IH. etrans; [|exact IH].
    pose proof (drop_stale_sublist (maxAge q) now (contents q)) as Hd.
    destruct (drop_stale _ _ _) as [|e rest]; destruct HR as [-> ->]; cbn in *.
    + rewrite app_nil_r. apply sublist_inserts_r. done.
    + rewrite <- app_assoc. by apply sublist_app.
  - etrans; [|exact IH]. destruct (run_op_other_queue s o s' id) as [-> | ->]; try done.
    rewrite app_nil_r. by apply sublist_inserts_r.
Qed.

Lemma drop_stale_split m now l : exists skipped, l = skipped ++ drop_stale m now l /\
  Forall (fun x => stale m now x = true) skipped.
Proof.
  induction l as [|e l (sk & Hl & Hsk)]; [by exists []|]. cbn [drop_stale].
  destruct (stale m now e) eqn:E; [|by exists []].
  exists (e :: sk). cbn. rewrite <- Hl. split; [done|by constructor].
Qed.

Lemma drop_stale_head m now l e rest : drop_stale m now l = e :: rest -> stale m now e = false.
Proof.
  induction l as [|e' l IH]; [done|]. cbn. destruct (stale m now e') eqn:E; [done|]. congruence.
Qed.

(** A small run, for the witnesses below. *)
Definition demo1 : sys := mkSys (<[1%nat := New 32]> ∅) (globals sys0).
Definition demo2 : sys := mkSys (<[1%nat := EnableBurst (New 32)]> (queues demo1)) (globals sys0).
Definition demo : sys := default sys0 (run_op demo2 (OpPush 1 [1; 2; 3] 7)).

Lemma demo1_reachable : reachable demo1.
Proof.
  apply (reach_op sys0 (OpNew 1 32)); [constructor| |reflexivity].
  split; [reflexivity|]. unfold BurstPackets. lia.
Qed.

Lemma demo_reachable : reachable demo.
Proof.
  apply (reach_op demo2 (OpPush 1 [1; 2; 3] 7)); [|by eexists|reflexivity].
  apply (reach_op demo1 (OpEnableBurst 1)); [apply demo1_reachable|by eexists|reflexivity].
Qed.

(** ** Properties of the queues *)

(** C36: no call panics and the process-wide budget is exact and bounded.  In
every state reached by any sequence of calls on any number of queues, each
further call returns, [used] equals the sum of what the open queues hold
(payloads with their 64-byte overhead, and 64 bytes per ring slot), and it is at
most 32 MiB. *)
Theorem budget_invariant (s : sys) : reachable s ->
  used (globals s) = total_live (queues s) /\ used (globals s) <= GlobalLimit /\
  (forall id q, queues s !! id = Some q ->
     count q <= limit q /\ bytes q <= BurstBytes /\ ringCharge q <= 64 * BurstPackets /\
     bytes q = charge_of (contents q)) /\
  (forall o, op_valid s o -> is_Some (run_op s o)).
Proof.
  intros Hr. pose proof (reachable_ok s Hr) as Hs. pose proof Hs as [Hq Hu Hl].
  split_and!; [done|done| |].
  - intros id q Hid. destruct (Hq id q Hid). split_and!; try done; lia.
  - intros o Hv. destruct (run_op_ok s o Hs Hv) as (s' & -> & _). by eexists.
Qed.

Lemma budget_invariant_witness :
  exists s, run_op sys0 (OpNew 1 32) = Some s /\ used (globals s) = total_live (queues s).
Proof.
  eexists. split; [reflexivity|].
  apply (budget_invariant demo1 demo1_reachable).
Defined.

(** [Push] refines appending to a FIFO.  In any reachable state, [Push]
first forgets the entries that are too old, then either appends exactly the
given payload at the end or leaves the rest unchanged; it accepts only within
the packet and byte limits of an open queue, and it does accept there whenever
the budget has room for the packet and a full-size ring. *)
Theorem Push_refines_fifo (s : sys) (id : nat) (q : Queue) (payload : list Z) (now : Z) :
  reachable s -> queues s !! id = Some q ->
  let fresh := drop_stale (maxAge q) now (contents q) in
  let charge := len payload + packetOverhead in
  exists ok q' g', Push q (globals s) payload now = Some (ok, q', g') /\
    contents q' = (if ok then fresh ++ [mkEntry payload now] else fresh) /\
    (ok = true -> closed q = false /\ len fresh < limit q /\ charge_of fresh + charge <= BurstBytes) /\
    (closed q = false -> len fresh < limit q -> charge_of fresh + charge <= BurstBytes ->
     used (globals s) + charge + 64 * BurstPackets <= GlobalLimit -> ok = true).
Proof.
  intros Hr Hq fresh charge. pose proof (reachable_ok s Hr) as Hs.
  destruct (Push_spec q (globals s) payload now) as (ok & q' & g' & HP & HC & _ & HT & HF);
    [by eapply sys_queues|by eapply sys_ok_budget|]. by exists ok, q', g'.
Qed.

Lemma Push_refines_fifo_witness :
  exists ok q' g', Push (New 32) (globals sys0) [1; 2; 3] 7 = Some (ok, q', g') /\
    contents q' = (if ok then [mkEntry [1; 2; 3] 7] else []) /\ ok = true.
Proof.
  destruct (Push_refines_fifo demo1 1 (New 32) [1; 2; 3] 7 demo1_reachable eq_refl)
    as (ok & q' & g' & HP & HC & _ & HF).
  exists ok, q', g'. split; [exact HP|]. split; [exact HC|]. apply HF; vm_compute; done.
Defined.

(** [Pop] hands out the oldest entry that is not too old, and nothing else:
with the burst profile enabled the packet it returns has been queued for at most
50 ms, and it returns nothing exactly when every queued entry is stale. *)
Theorem Pop_delivers_fresh (s : sys) (id : nat) (q : Queue) (now : Z) :
  reachable s -> queues s !! id = Some q ->
  exists r q' g', Pop q (globals s) now = Some (r, q', g') /\
    match r with
    | Some d => exists skipped e rest,
        contents q = skipped ++ e :: rest /\ d = data e /\ contents q' = rest /\
        Forall (fun x => stale (maxAge q) now x = true) skipped /\
        (maxAge q > 0 -> time_sub now (at_ e) <= maxAge q)
    | None => Forall (fun x => stale (maxAge q) now x = true) (contents q) /\ contents q' = []
    end.
Proof.
  intros Hr Hq. pose proof (reachable_ok s Hr) as Hs.
  destruct (Pop_spec q (globals s) now) as (r & q' & g' & HP & _ & HR);
    [by eapply sys_queues|by eapply sys_ok_budget|].
  exists r, q', g'. split; [done|].
  destruct (drop_stale_split (maxAge q) now (contents q)) as (sk & Hsk & Hall).
  destruct (drop_stale (maxAge q) now (contents q)) as [|e rest] eqn:Hds; destruct HR as [-> HR].
  - rewrite app_nil_r in Hsk. by rewrite Hsk.
  - exists sk, e, rest. split_and!; try done. intros Hm.
    pose proof (drop_stale_head _ _ _ _ _ Hds) as He. unfold stale in He. breflect. destruct He; breflect; lia.
Qed.

Lemma Pop_delivers_fresh_witness :
  exists q, queues demo !! 1%nat = Some q /\
  exists r q' g', Pop q (globals demo) 9 = Some (r, q', g') /\ r = Some [1; 2; 3].
Proof.
  eexists. split; [reflexivity|].
  destruct (Pop_delivers_fresh demo 1 _ 9 demo_reachable eq_refl) as (r & q' & g' & HP & _).
  exists r, q', g'. split; [exact HP|]. vm_compute in HP. congruence.
Defined.

(** End to end the queue neither reorders, duplicates nor invents datagrams.
Over any interleaving with the other queues, what has been handed out, followed
by what is still queued, is a subsequence of what was accepted. *)
Theorem queue_order (id : nat) (s : sys) (acc del : list (list Z)) :
  history id s acc del -> sublist (del ++ payloads_of s id) acc.
Proof. apply history_sublist. Qed.

Lemma queue_order_witness :
  exists s, history 1 s [[1; 2; 3]] [] /\ sublist ([] ++ payloads_of s 1) [[1; 2; 3]].
Proof.
  assert (history 1 demo ([] ++ [[1; 2; 3]]) []) as H.
  { eapply (hist_push 1 demo2 [] [] _ [1; 2; 3] 7 true); [|reflexivity|reflexivity].
    apply (hist_other 1 demo1 [] [] (OpEnableBurst 1)); [|by eexists|reflexivity|reflexivity].
    apply (hist_other 1 sys0 [] [] (OpNew 1 32)); [constructor| |reflexivity|reflexivity].
    split; [reflexivity|]. unfold BurstPackets. lia. }
  exists demo. split; [exact H|]. exact (queue_order 1 demo _ _ H).
Defined.

(** ** The budget under interleaving

[reserve] is a load, a comparison and a compare-and-swap, then the same for
[peak]; any number of goroutines run it at once, and a release is one atomic
addition.  A goroutine is at one of these points: *)

Module Reserve.

Inductive pc :=
| Idle
| Called (charge : Z)                 (* about to load [used] *)
| Loaded (charge n : Z)               (* loaded [n] *)
| Peaking (charge v : Z)              (* swapped in [v]; about to load [peak] *)
| PeakLoaded (charge v p : Z)         (* loaded [p] *)
| Held (charge : Z).                  (* returned true *)

Record state := mkState { usedA : Z; peakA : Z; threads : list pc }.

Inductive reserve_step : state -> state -> Prop :=
| st_call u p ts i c :
    ts !! i = Some Idle -> 0 < c ->
    reserve_step (mkState u p ts) (mkState u p (<[i := Called c]> ts))
| st_load u p ts i c :
    ts !! i = Some (Called c) ->
    reserve_step (mkState u p ts) (mkState u p (<[i := Loaded c u]> ts))
| st_refuse u p ts i c n :
    ts !! i = Some (Loaded c n) -> n + c > GlobalLimit ->
    reserve_step (mkState u p ts) (mkState u p (<[i := Idle]> ts))
| st_cas_ok u p ts i c n :
    ts !! i = Some (Loaded c n) -> n + c <= GlobalLimit -> u = n ->
    reserve_step (mkState u p ts) (mkState (n + c) p (<[i := Peaking c (n + c)]> ts))
| st_cas_fail u p ts i c n :
    ts !! i = Some (Loaded c n) -> n + c <= GlobalLimit -> u <> n ->
    reserve_step (mkState u p ts) (mkState u p (<[i := Called c]> ts))
| st_peak_load u p ts i c v :
    ts !! i = Some (Peaking c v) ->
    reserve_step (mkState u p ts) (mkState u p (<[i := PeakLoaded c v p]> ts))
| st_peak_done u p ts i c v q :
    ts !! i = Some (PeakLoaded c v q) -> v <= q ->
    reserve_step (mkState u p ts) (mkState u p (<[i := Held c]> ts))
| st_peak_ok u p ts i c v q :
    ts !! i = Some (PeakLoaded c v q) -> v > q -> p = q ->
    reserve_step (mkState u p ts) (mkState u v (<[i := Held c]> ts))
| st_peak_fail u p ts i c v q :
    ts !! i = Some (PeakLoaded c v q) -> v > q -> p <> q ->
    reserve_step (mkState u p ts) (mkState u p (<[i := Peaking c v]> ts))
| st_release u p ts i c :
    ts !! i = Some (Held c) ->
    reserve_step (mkState u p ts) (mkState (u - c) p (<[i := Idle]> ts)).

(** What a goroutine holds of the budget, and the peak value it has yet to record. *)
Definition held (t : pc) : Z :=
  match t with
  | Peaking c _ | PeakLoaded c _ _ | Held c => c
  | _ => 0
  end.
Definition pending (t : pc) : option Z :=
  match t with
  | Peaking _ v | PeakLoaded _ v _ => Some v
  | _ => None
  end.
Fixpoint total_held (ts : list pc) : Z :=
  match ts with [] => 0 | t :: ts => held t + total_held ts end.

Lemma total_held_insert ts i t t' : ts !! i = Some t ->
  total_held (<[i := t']> ts) = total_held ts - held t + held t'.
Proof.
  revert i. induction ts as [|x ts IH]; intros [|i] H; try done.
  - injection H as ->. cbn. lia.
  - change (held x + total_held (<[i := t']> ts) = held x + total_held ts - held t + held t').
    rewrite (IH i H). lia.
Qed.

(** [peak] never decreases, so what was loaded of it is at most its value. *)
Definition thread_ok (peak : Z) (t : pc) : Prop :=
  match t with
  | Idle => True
  | Called c | Loaded c _ | Held c => 0 < c
  | Peaking c v => 0 < c /\ v <= GlobalLimit
  | PeakLoaded c v p => 0 < c /\ v <= GlobalLimit /\ p <= peak
  end.

(** [used] is covered by the recorded peak or by a goroutine about to record it. *)
Definition covered (s : state) (x : Z) : Prop :=
  x <= peakA s \/ exists i t v, threads s !! i = Some t /\ pending t = Some v /\ x <= v.

Record inv (s : state) : Prop := {
  inv_used : usedA s = total_held (threads s);
  inv_limit : usedA s <= GlobalLimit;
  inv_peak : peakA s <= GlobalLimit;
  inv_threads : Forall (thread_ok (peakA s)) (threads s);
  inv_covered : covered s (usedA s)
}.

Lemma thread_ok_mono p p' t : p <= p' -> thread_ok p t -> thread_ok p' t.
Proof. intros. destruct t; cbn in *; lia. Qed.

Lemma total_held_nonneg p ts : Forall (thread_ok p) ts -> 0 <= total_held ts.
Proof.
  induction 1 as [|t ts Ht _ IH]; [done|]. cbn. destruct t; cbn in *; lia.
Qed.

Lemma covered_step u p u' p' ts i t t' x : ts !! i = Some t ->
  covered (mkState u p ts) x -> p <= p' ->
  (forall v, pending t = Some v -> pending t' = Some v \/ v <= p') ->
  covered (mkState u' p' (<[i := t']> ts)) x.
Proof.
  intros Hi Hc Hp Hpend. unfold covered in *. cbn in *. destruct Hc as [Hc|(j & tj & v & Hj & Hv & Hx)]; [left; lia|].
  destruct (decide (i = j)) as [->|Hne].
  - assert (t = tj) as <- by congruence. destruct (Hpend v Hv) as [Hv'|]; [|left; lia].
    right. exists j, t', v. rewrite list_lookup_insert_eq by (by eapply lookup_lt_Some). done.
  - right. exists j, tj, v. by rewrite list_lookup_insert_ne.
Qed.

Lemma step_inv s s' : inv s -> reserve_step s s' -> inv s'.
Proof.
  intros [Hu Hl Hp Ht Hc] Hs. destruct Hs; cbn in *;
    match goal with H : ?ts !! ?i = Some ?t |- _ =>
      pose proof (proj1 (Forall_lookup _ _) Ht i t H) as Hti; cbn in Hti;
      constructor; cbn [usedA peakA threads];
        [rewrite (total_held_insert _ _ _ _ H); cbn [held]; lia
        |try lia|try lia
        |apply Forall_insert; [eapply List.Forall_impl; [|exact Ht]; intros ? ?; eapply thread_ok_mono; [|eassumption]; lia
                              |cbn; try done; try lia]|]
    end;
    try (eapply covered_step; [eassumption|eassumption|lia|cbn; intros ? [= ->]; solve [auto|right; lia]]);
    try (eapply covered_step; [eassumption|eassumption|lia|cbn; done]).
  - right. exists i, (Peaking c (n + c)), (n + c). cbn.
    rewrite list_lookup_insert_eq by (by eapply lookup_lt_Some). split_and!; [done|done|lia].
  - eapply (covered_step u p (u - c) p ts i (Held c) Idle); [done| |lia|done].
    destruct Hc as [Hc|(j & t & v & Hj & Hv & Hx)]; [left; cbn in *; lia|].
    right. exists j, t, v. split_and!; [done|done|lia].
Qed.

(** The budget is safe under any interleaving of the compare-and-swap loops.
From an empty budget with any number of goroutines, at every moment [used] is
exactly what the goroutines that were granted hold, it never exceeds 32 MiB, and
once no goroutine is between its grant and its peak update, the recorded peak is
at least the current use and at most the limit. *)
Theorem reserve_interleaving (n : nat) (s : state) :
  rtc reserve_step (mkState 0 0 (replicate n Idle)) s ->
  usedA s = total_held (threads s) /\ 0 <= usedA s <= GlobalLimit /\
  (Forall (fun t => pending t = None) (threads s) -> usedA s <= peakA s <= GlobalLimit).
Proof.
  intros Hr. assert (inv s) as [Hu Hl Hp Ht Hc].
  { assert (inv (mkState 0 0 (replicate n Idle))) as H0.
    { constructor; cbn [usedA peakA threads]; [|done|done|by apply Forall_replicate|by left].
      clear Hr. induction n as [|n IH]; [done|]. exact IH. }
    revert H0. induction Hr as [|x y z Hxy _ IH]; [done|]. eauto using step_inv. }
  split; [done|]. pose proof (total_held_nonneg _ _ Ht). split; [lia|]. intros Hq. split; [|done].
  destruct Hc as [|(i & t & v & Hi & Hv & _)]; [done|].
  rewrite Forall_lookup in Hq. rewrite (Hq i t Hi) in Hv. done.
Qed.

Lemma reserve_interleaving_witness :
  rtc reserve_step (mkState 0 0 [Idle; Idle]) (mkState 100 0 [Peaking 100 100; Called 7]) /\
  100 = total_held [Peaking 100 100; Called 7].
Proof.
  assert (rtc reserve_step (mkState 0 0 (replicate 2 Idle))
            (mkState 100 0 [Peaking 100 100; Called 7])) as H.
  { eapply rtc_l; [apply (st_call 0 0 [Idle; Idle] 0 100); [reflexivity|lia]|].
    eapply rtc_l; [apply (st_load 0 0 _ 0 100); reflexivity|].
    eapply rtc_l; [apply (st_call 0 0 _ 1 7); [reflexivity|lia]|].
    eapply rtc_l; [apply (st_cas_ok 0 0 _ 0 100 0); [reflexivity|unfold GlobalLimit; lia|reflexivity]|].
    apply rtc_refl. }
  split; [exact H|]. exact (proj1 (reserve_interleaving 2 _ H)).
Defined.

End Reserve.
