(* ===== verification/ReserveProgress.v ===== *)
(** * Progress of the budget's compare-and-swap loops

[reserve] of [internal/datagrambuffer/buffer.go] retries until its
compare-and-swap succeeds, twice: for [used] and for [peak].  The interleavings
are the relation [reserve_step] of [DatagramBuffer]; here its steps are counted. *)

From stdpp Require Import base list numbers relations.
From Stdlib Require Import ZArith Lia.
From S2P Require Import Prelude.
From S2P Require Import DatagramBuffer.
Import DatagramBuffer.Reserve.

Local Open Scope Z_scope.

(** A goroutine that loaded a value which has changed since. *)
Definition outdated (u p : Z) (t : pc) : bool :=
  match t with
  | Loaded _ n => negb (n =? u)
  | PeakLoaded _ _ q => negb (q =? p)
  | _ => false
  end.
Definition stale (s : state) : nat := List.length (List.filter (outdated (usedA s) (peakA s)) (threads s)).

(** A compare-and-swap that fails: the loop goes round. *)
Inductive retry : state -> state -> Prop :=
| retry_used u p ts i c n :
    ts !! i = Some (Loaded c n) -> n + c <= GlobalLimit -> u <> n ->
    retry (mkState u p ts) (mkState u p (<[i := Called c]> ts))
| retry_peak u p ts i c v q :
    ts !! i = Some (PeakLoaded c v q) -> v > q -> p <> q ->
    retry (mkState u p ts) (mkState u p (<[i := Peaking c v]> ts)).

(** [r] retries and [k] steps that changed [used] or [peak]. *)
Inductive counted_run : state -> nat -> nat -> state -> Prop :=
| run_nil s : counted_run s 0 0 s
| run_retry s r k s1 s2 : counted_run s r k s1 -> reserve_step s1 s2 -> retry s1 s2 -> counted_run s (S r) k s2
| run_change s r k s1 s2 : counted_run s r k s1 -> reserve_step s1 s2 ->
    usedA s2 <> usedA s1 \/ peakA s2 <> peakA s1 -> counted_run s r (S k) s2
| run_quiet s r k s1 s2 : counted_run s r k s1 -> reserve_step s1 s2 -> ~ retry s1 s2 ->
    usedA s2 = usedA s1 -> peakA s2 = peakA s1 -> counted_run s r k s2.

Definition weight (u p : Z) (t : pc) : nat := Nat.b2n (outdated u p t).
Lemma stale_insert u p ts i t t' : ts !! i = Some t ->
  (stale (mkState u p (<[i := t']> ts)) + weight u p t = stale (mkState u p ts) + weight u p t')%nat.
Proof.
  unfold stale, weight. cbn [usedA peakA threads]. revert i. induction ts as [|x ts IH]; intros [|i] H; try done.
  - injection H as ->. change (<[0%nat := t']> (t :: ts)) with (t' :: ts). cbn [List.filter].
    destruct (outdated u p t), (outdated u p t'); cbn [List.length Nat.b2n]; lia.
  - specialize (IH i H). change (<[S i := t']> (x :: ts)) with (x :: <[i := t']> ts). cbn [List.filter].
    destruct (outdated u p x); cbn [List.length]; lia.
Qed.

Lemma stale_bound s : (stale s <= List.length (threads s))%nat.
Proof. unfold stale. induction (threads s) as [|t ts IH]; [done|]. cbn. destruct (outdated _ _ t); cbn; lia. Qed.

Lemma step_threads s s' : reserve_step s s' -> List.length (threads s') = List.length (threads s).
Proof. intros []; cbn; apply length_insert. Qed.

Lemma retry_stale s s' : retry s s' -> (stale s' + 1 <= stale s)%nat.
Proof.
  intros [u p ts i c n Hi _ Hne|u p ts i c v q Hi _ Hne].
  - pose proof (stale_insert u p ts i _ (Called c) Hi) as Hs. unfold weight, outdated in Hs.
    rewrite (proj2 (Z.eqb_neq n u)) in Hs by congruence. cbn [negb Nat.b2n] in Hs. lia.
  - pose proof (stale_insert u p ts i _ (Peaking c v) Hi) as Hs. unfold weight, outdated in Hs.
    rewrite (proj2 (Z.eqb_neq q p)) in Hs by congruence. cbn [negb Nat.b2n] in Hs. lia.
Qed.

Lemma quiet_stale s s' : reserve_step s s' -> usedA s' = usedA s -> peakA s' = peakA s -> (stale s' <= stale s)%nat.
Proof.
  intros Hs Hu Hp. destruct Hs as [u p ts i c Hi|u p ts i c Hi|u p ts i c n Hi|u p ts i c n Hi|u p ts i c n Hi
    |u p ts i c v Hi|u p ts i c v q Hi|u p ts i c v q Hi|u p ts i c v q Hi|u p ts i c Hi]; cbn in Hu, Hp; rewrite ?Hu, ?Hp;
    match goal with |- (stale (mkState _ _ (<[_ := ?t']> _)) <= _)%nat =>
      pose proof (stale_insert u p ts i _ t' Hi) as Hw end; unfold weight, outdated in Hw;
    rewrite ?Z.eqb_refl in Hw; cbn [negb Nat.b2n] in Hw; subst; rewrite ?Z.eqb_refl in *; lia.
Qed.

Lemma counted_run_bound s r k s' : counted_run s r k s' ->
  List.length (threads s') = List.length (threads s)
  /\ (r + stale s' <= stale s + k * List.length (threads s))%nat.
Proof.
  induction 1 as [s|s r k s1 s2 _ [IHl IH] Hst Hr|s r k s1 s2 _ [IHl IH] Hst _|s r k s1 s2 _ [IHl IH] Hst _ Hu Hp]; [lia|..];
    pose proof (step_threads _ _ Hst) as Hl; (split; [congruence|]).
  - apply retry_stale in Hr. lia.
  - pose proof (stale_bound s2) as Hb. rewrite Hl, IHl in Hb. lia.
  - pose proof (quiet_stale _ _ Hst Hu Hp). lia.
Qed.

(** A step changes one goroutine, and which one it was can be seen. *)
Lemma insert_same (ts : list pc) (i j : nat) (t t' x x' : pc) : ts !! i = Some t -> ts !! j = Some x -> t <> t' ->
  <[i := t']> ts = <[j := x']> ts -> t = x /\ t' = x'.
Proof.
  intros Hi Hj Hne He. pose proof (f_equal (lookup i) He) as Hl.
  rewrite list_lookup_insert_eq in Hl by (by eapply lookup_lt_Some).
  destruct (decide (i = j)) as [->|Hij].
  - rewrite list_lookup_insert_eq in Hl by (by eapply lookup_lt_Some). split; congruence.
  - rewrite list_lookup_insert_ne in Hl by done. congruence.
Qed.

(** Which steps are retries. *)
Lemma step_retry s s' : reserve_step s s' -> retry s s' \/ ~ retry s s'.
Proof.
  intros Hs. destruct Hs; try (left; solve [eapply retry_used; eassumption|eapply retry_peak; eassumption]); right; intros Hr; inversion Hr; subst; try lia;
    match goal with E : <[?i := ?t']> ?l = <[?j := ?x']> ?l, Hi : ?l !! ?i = Some ?t, Hj : ?l !! ?j = Some ?x |- _ =>
      destruct (insert_same l i j t t' x x' Hi Hj ltac:(discriminate) E); discriminate || congruence end.
Qed.

(** Every execution has its counts: a step is a retry, or changes a counter, or
neither. *)
Lemma rtc_counted s s' : rtc reserve_step s s' -> exists r k, counted_run s r k s'.
Proof.
  revert s'. refine (rtc_ind_r (fun s' => exists r k, counted_run s r k s') _ _ _); [eexists _, _; apply run_nil|].
  intros s1 s2 _ Hst (r & k & Hc). destruct (step_retry _ _ Hst) as [Hr|Hr]; [exists (S r), k; by eapply run_retry|].
  destruct (decide (usedA s2 = usedA s1 /\ peakA s2 = peakA s1)) as [[Hu Hp]|Hn].
  - exists r, k. by eapply run_quiet.
  - exists r, (S k). eapply run_change; [done..|]. destruct (decide (usedA s2 = usedA s1)); [right|by left]. tauto.
Qed.

(** The steps a goroutine still needs if no other one interferes. *)
Definition solo_steps (u p : Z) (t : pc) : nat :=
  match t with
  | Idle | Held _ => 0
  | Called _ => 4
  | Loaded _ n => if n =? u then 3 else 5
  | Peaking _ _ => 2
  | PeakLoaded _ v q => if (q =? p) || (v <=? q) then 1 else 3
  end.
(** The next state of goroutine [i], running alone. *)
Definition solo_step (s : state) (i : nat) (s' : state) : Prop :=
  reserve_step s s' /\ forall j, j <> i -> threads s' !! j = threads s !! j.

Lemma solo_moves u p ts i t u' p' t' : ts !! i = Some t ->
  reserve_step (mkState u p ts) (mkState u' p' (<[i := t']> ts)) ->
  exists s', solo_step (mkState u p ts) i s' /\ threads s' !! i = Some t' /\ usedA s' = u' /\ peakA s' = p'.
Proof.
  intros Hi Hs. exists (mkState u' p' (<[i := t']> ts)). split; [split; [done|]|split; [|done]].
  - intros j Hj. by apply list_lookup_insert_ne.
  - apply list_lookup_insert_eq. by eapply lookup_lt_Some.
Qed.

(** One goroutine alone: a step that brings it nearer to the end of its call. *)
Lemma solo_progress s i t : threads s !! i = Some t -> (0 < solo_steps (usedA s) (peakA s) t)%nat ->
  exists s' t', solo_step s i s' /\ threads s' !! i = Some t'
    /\ (solo_steps (usedA s') (peakA s') t' < solo_steps (usedA s) (peakA s) t <= 5)%nat.
Proof.
  destruct s as [u p ts]. cbn [usedA peakA threads]. intros Hi Hpos.
  assert (forall u' p' t', reserve_step (mkState u p ts) (mkState u' p' (<[i := t']> ts)) ->
    (solo_steps u' p' t' < solo_steps u p t <= 5)%nat ->
    exists s' t', solo_step (mkState u p ts) i s' /\ threads s' !! i = Some t'
      /\ (solo_steps (usedA s') (peakA s') t' < solo_steps u p t <= 5)%nat) as Hmove.
  { intros u' p' t' Hs Hlt. destruct (solo_moves _ _ _ _ _ _ _ _ Hi Hs) as (s' & H1 & H2 & <- & <-). by exists s', t'. }
  destruct t as [|c|c n|c v|c v q|c]; cbn [solo_steps] in Hpos; try lia.
  - eapply Hmove; [by apply st_load|]. cbn. rewrite Z.eqb_refl. lia.
  - destruct (decide (n + c <= GlobalLimit)).
    + destruct (Z.eqb_spec n u) as [->|Hne].
      * eapply Hmove; [by eapply st_cas_ok|]. cbn. rewrite Z.eqb_refl. lia.
      * eapply Hmove; [eapply st_cas_fail; eauto|]. cbn. rewrite (proj2 (Z.eqb_neq n u)) by done. lia.
    + eapply Hmove; [eapply st_refuse; [done|lia]|]. cbn. destruct (n =? u); lia.
  - eapply Hmove; [by apply st_peak_load|]. cbn. rewrite Z.eqb_refl. cbn. lia.
  - destruct (Z.leb_spec v q).
    + eapply Hmove; [eapply st_peak_done; [done|lia]|]. cbn. rewrite (proj2 (Z.leb_le v q)), orb_true_r by lia. lia.
    + destruct (Z.eqb_spec q p) as [->|Hne].
      * eapply Hmove; [eapply st_peak_ok; [done|lia|done]|]. cbn. rewrite Z.eqb_refl. cbn. lia.
      * eapply Hmove; [eapply st_peak_fail; [done|lia|congruence]|]. cbn.
        rewrite (proj2 (Z.eqb_neq q p)), (proj2 (Z.leb_gt v q)) by done. cbn. lia.
Qed.

(** [reserve] is lock-free.  Over any interleaving of any number of goroutines
(and of releases), the retries of their compare-and-swap loops are at most the
number of goroutines times the number of changes made to [used] and [peak]: a
goroutine goes round again only because another one got through.  And a goroutine
that is in the middle of a call always has a step, and left alone it is done after
at most five. *)
Theorem reserve_lock_free n s r k :
  counted_run (mkState 0 0 (replicate n Idle)) r k s ->
  (r <= k * n)%nat
  /\ forall i t, threads s !! i = Some t -> (0 < solo_steps (usedA s) (peakA s) t)%nat ->
     exists s' t', solo_step s i s' /\ threads s' !! i = Some t'
       /\ (solo_steps (usedA s') (peakA s') t' < solo_steps (usedA s) (peakA s) t <= 5)%nat.
Proof.
  intros Hr. apply counted_run_bound in Hr as [Hl Hb]. cbn [threads] in *. rewrite length_replicate in *. split.
  - assert (stale (mkState 0 0 (replicate n Idle)) = 0%nat) as Hz; [|lia].
    unfold stale. cbn. clear. induction n as [|n IH]; [done|]. exact IH.
  - apply solo_progress.
Qed.

Ltac no_retry :=
  let Hr := fresh in intros Hr; inversion Hr as [? ? ? i ? ? Hi|? ? ? i ? ? ? Hi]; subst;
  destruct i as [|[|i]]; try discriminate Hi; rewrite ?lookup_nil in Hi; try discriminate Hi; cbn in *; congruence.
(** Two goroutines race: the second one retries once, after one change. *)
Lemma reserve_lock_free_witness : (1 <= 1 * 2)%nat.
Proof.
  refine (proj1 (reserve_lock_free 2 (mkState 100 0 [Peaking 100 100; Called 7]) 1 1 _)).
  pose (s0 := mkState 0 0 [Idle; Idle]). pose (s1 := mkState 0 0 [Called 100; Idle]). pose (s2 := mkState 0 0 [Called 100; Called 7]).
  pose (s3 := mkState 0 0 [Loaded 100 0; Called 7]). pose (s4 := mkState 0 0 [Loaded 100 0; Loaded 7 0]).
  pose (s5 := mkState 100 0 [Peaking 100 100; Loaded 7 0]).
  apply (run_retry s0 0 1 s5).
  - apply (run_change s0 0 0 s4); [|apply (st_cas_ok 0 0 [Loaded 100 0; Loaded 7 0] 0 100 0); [reflexivity|unfold GlobalLimit; lia|reflexivity]
                                   |left; discriminate].
    apply (run_quiet s0 0 0 s3); [|apply (st_load 0 0 [Loaded 100 0; Called 7] 1 7); reflexivity|no_retry|reflexivity|reflexivity].
    apply (run_quiet s0 0 0 s2); [|apply (st_load 0 0 [Called 100; Called 7] 0 100); reflexivity|no_retry|reflexivity|reflexivity].
    apply (run_quiet s0 0 0 s1); [|apply (st_call 0 0 [Called 100; Idle] 1 7); [reflexivity|lia]|no_retry|reflexivity|reflexivity].
    apply (run_quiet s0 0 0 s0); [apply run_nil|apply (st_call 0 0 [Idle; Idle] 0 100); [reflexivity|lia]|no_retry|reflexivity|reflexivity].
  - apply (st_cas_fail 100 0 [Peaking 100 100; Loaded 7 0] 1 7 0); [reflexivity|unfold GlobalLimit; lia|discriminate].
  - apply (retry_used 100 0 [Peaking 100 100; Loaded 7 0] 1 7 0); [reflexivity|unfold GlobalLimit; lia|discriminate].
Defined.
