(* ===== verification/RingBuffer.v ===== *)
(** * The generic ring buffer

Models [third_party/quic-go/internal/utils/ringbuffer/ringbuffer.go], the
growable FIFO behind the DATAGRAM send queue.  A Go slice with spare capacity is
its whole backing array and its length; [d] is the zero value of the element
type.  Each operation is the source's, panics included ([None]); the refinement
theorem compares any run of operations with the same run on a plain list. *)

From stdpp Require Import base list numbers.
From Stdlib Require Import ZArith Lia.
From S2P Require Import Prelude.
From S2P Require Import Ring.

Local Open Scope Z_scope.

Record RingBuffer (A : Type) := mkRing {
  backing : list A;   (* ring[:cap(ring)] *)
  rlen : Z;           (* len(ring) *)
  headPos : Z
}.
Arguments mkRing {A} backing rlen headPos.
Arguments backing {A} _.
Arguments rlen {A} _.
Arguments headPos {A} _.

Section Ops.
Context {A : Type} (d : A).

Definition rcap (r : RingBuffer A) : Z := len (backing r).

(** The zero value of the struct: a nil slice. *)
Definition ring_zero : RingBuffer A := mkRing [] 0 0.

Definition Init (size : Z) : RingBuffer A := mkRing (replicate (Z.to_nat size) d) 0 0.

Definition Len (r : RingBuffer A) : Z := rlen r.
Definition Empty (r : RingBuffer A) : bool := rlen r =? 0.

(** [copy(dst, src)]: the shorter of the two, from the start. *)
Definition go_copy (dst src : list A) : list A * Z :=
  (take (length dst) src ++ drop (length src) dst,
   Z.min (len dst) (len src)).

Definition ring_grow (r : RingBuffer A) : RingBuffer A :=
  let oldRing := take (Z.to_nat (rlen r)) (backing r) in
  let newSize := rcap r * 2 in
  let newSize := if newSize =? 0 then 1 else newSize in
  let newRing := replicate (length oldRing) d in
  let '(newRing, headLen) := go_copy newRing (drop (Z.to_nat (headPos r)) oldRing) in
  let '(rest, _) := go_copy (drop (Z.to_nat headLen) newRing) (take (Z.to_nat (headPos r)) oldRing) in
  let newRing := take (Z.to_nat headLen) newRing ++ rest in
  mkRing (newRing ++ replicate (Z.to_nat newSize - length oldRing) d) (rlen r) 0.

Definition PushBack (r : RingBuffer A) (t : A) : option (RingBuffer A) :=
  let r := if rlen r =? rcap r then ring_grow r else r in
  let tailPos := headPos r + rlen r in
  let tailPos := if tailPos >=? rcap r then tailPos - rcap r else tailPos in
  backing' ← assign (backing r) tailPos t;
  Some (mkRing backing' (rlen r + 1) (headPos r)).

Definition PopFront (r : RingBuffer A) : option (A * RingBuffer A) :=
  if Empty r then None
  else
    t ← index (backing r) (headPos r);
    backing' ← assign (backing r) (headPos r) d;
    let head := headPos r + 1 in
    let head := if head =? rcap r then 0 else head in
    Some (t, mkRing backing' (rlen r - 1) head).

Definition PeekFront (r : RingBuffer A) : option A :=
  if Empty r then None else index (backing r) (headPos r).

Definition Clear (r : RingBuffer A) : RingBuffer A :=
  mkRing (replicate (length (backing r)) d) 0 0.

(** ** Refinement *)

Definition ring_items (r : RingBuffer A) : list A := ring_list d (backing r) (headPos r) (rlen r).

Record ring_ok (r : RingBuffer A) : Prop := {
  rok_len : 0 <= rlen r <= rcap r;
  rok_head : 0 <= headPos r < Z.max 1 (rcap r)
}.

Lemma len_ring_items r : ring_ok r -> len (ring_items r) = rlen r.
Proof. intros []. apply len_ring_list. lia. Qed.

Lemma go_copy_fits dst src : (length src <= length dst)%nat ->
  go_copy dst src = (src ++ drop (length src) dst, len src).
Proof.
  intros H. unfold go_copy. rewrite take_ge by done. f_equal. unfold len. lia.
Qed.

(** Growing a full ring lays its elements out in order. *)
Lemma ring_grow_backing r : ring_ok r -> rlen r = rcap r ->
  exists n, (0 < n)%nat /\ ring_grow r = mkRing (ring_items r ++ replicate n d) (rlen r) 0.
Proof.
  intros [Hl Hh] Hfull. unfold ring_grow, ring_items. rewrite Hfull. unfold rcap in *.
  set (B := backing r) in *. clearbody B. set (h := Z.to_nat (headPos r)).
  assert (Z.to_nat (len B) = length B) as -> by (unfold len; lia). rewrite firstn_all.
  assert (h <= length B)%nat as Hhl by (unfold h, len in *; lia).
  assert (ring_list d B (headPos r) (len B) = drop h B ++ take h B) as ->.
  { destruct (decide (len B = 0)) as [H0|]; [|apply ring_list_full; lia].
    destruct B; [by rewrite drop_nil, take_nil|rewrite len_cons in H0; pose proof (len_nonneg B); lia]. }
  rewrite (go_copy_fits (replicate (length B) d)) by (rewrite length_replicate, length_drop; lia).
  rewrite length_drop, drop_replicate.
  assert (Z.to_nat (len (drop h B)) = length (drop h B)) as -> by (unfold len; lia).
  rewrite take_app_length, drop_app_length.
  replace (length B - (length B - h))%nat with h by lia.
  rewrite go_copy_fits by (rewrite length_replicate, length_take; lia).
  rewrite length_take, Nat.min_l, drop_replicate, Nat.sub_diag by lia. cbn [replicate].
  rewrite app_nil_r. eexists. split; [|done]. unfold len in *. split_if; breflect; lia.
Qed.

Lemma PushBack_spec r t : ring_ok r ->
  exists r', PushBack r t = Some r' /\ ring_ok r' /\ ring_items r' = ring_items r ++ [t].
Proof.
  intros Hok. unfold PushBack.
  assert (exists r1, (if rlen r =? rcap r then ring_grow r else r) = r1 /\ ring_ok r1 /\
    ring_items r1 = ring_items r /\ rlen r1 < rcap r1) as (r1 & -> & Hok1 & Hi1 & Hfree).
  { destruct (rlen r =? rcap r) eqn:E; breflect; [|eexists; split; [done|]; destruct Hok; split_and!; done || lia].
    destruct (ring_grow_backing r Hok E) as (n & Hn & ->). eexists. split; [done|].
    pose proof (len_ring_items r Hok) as Hl. destruct Hok.
    assert (rcap (mkRing (ring_items r ++ replicate n d) (rlen r) 0) = rlen r + Z.of_nat n) as Hcap.
    { unfold rcap, len in *. cbn. rewrite length_app, length_replicate. lia. }
    split; [|split; [|rewrite Hcap; cbn; lia]]; [constructor; rewrite Hcap; cbn; lia|].
    unfold ring_items at 1. cbn [backing headPos rlen]. rewrite <- (Z2Nat.id (rlen r)) by lia.
    rewrite ring_list_head0 by (rewrite length_app; unfold len in Hl; lia).
    apply take_app_length'. unfold len in Hl. lia. }
  clear Hok. destruct Hok1. unfold rcap in *. rewrite Z.geb_leb.
  match goal with |- context [assign _ ?t _] => set (tail := t) end.
  assert (tail = (headPos r1 + rlen r1) mod len (backing r1)) as ->.
  { unfold tail. rewrite ring_mod_eq by lia. split_if; split_if; breflect; lia. }
  pose proof (ring_mod_range (headPos r1 + rlen r1) (len (backing r1)) ltac:(lia)).
  rewrite assign_insert by done. cbn [mbind option_bind]. eexists. split; [done|].
  rewrite <- Hi1. split; [constructor; unfold rcap; cbn; rewrite len_insert; lia|].
  apply ring_list_push; lia.
Qed.

Lemma PopFront_spec r : ring_ok r ->
  match ring_items r with
  | [] => PopFront r = None /\ PeekFront r = None
  | t :: rest => PeekFront r = Some t /\
      exists r', PopFront r = Some (t, r') /\ ring_ok r' /\ ring_items r' = rest
  end.
Proof.
  intros Hok. pose proof (len_ring_items r Hok) as Hl. destruct Hok. unfold rcap in *.
  unfold PopFront, PeekFront, Empty, rcap. destruct (rlen r =? 0) eqn:E; breflect.
  - unfold ring_items. rewrite ring_list_nil by lia. done.
  - unfold ring_items at 1. rewrite (ring_list_pop d _ _ _ d) by lia.
    rewrite (index_nth _ _ d), assign_insert by lia. cbn [mbind option_bind].
    split; [done|]. eexists. split; [done|]. match goal with |- context [mkRing _ _ ?t] => set (h1 := t) end.
    assert (h1 = (headPos r + 1) mod len (backing r)) as ->.
    { unfold h1. rewrite ring_mod_eq by lia. split_if; split_if; breflect; lia. }
    pose proof (ring_mod_range (headPos r + 1) (len (backing r)) ltac:(lia)).
    split; [constructor; unfold rcap; cbn; rewrite len_insert; lia|done].
Qed.

Lemma Clear_spec r : ring_ok (Clear r) /\ ring_items (Clear r) = [].
Proof.
  unfold Clear, ring_items. rewrite ring_list_nil by (cbn; lia). split; [|done].
  constructor; unfold rcap, len; cbn; lia.
Qed.

Lemma Init_spec n : 0 <= n -> ring_ok (Init n) /\ ring_items (Init n) = [].
Proof.
  intros. unfold Init, ring_items. rewrite ring_list_nil by (cbn; lia). split; [|done].
  constructor; unfold rcap, len; cbn; lia.
Qed.

(** ** Runs of operations *)

Inductive ring_op := RPush (t : A) | RPop | RPeek | RLen | RClear.

(** What a call gives back: an element, a length, nothing, or a panic. *)
Inductive ring_out := OutElem (t : A) | OutLen (n : Z) | OutUnit | OutPanic.

Definition ring_run1 (r : RingBuffer A) (o : ring_op) : RingBuffer A * ring_out :=
  match o with
  | RPush t => match PushBack r t with Some r' => (r', OutUnit) | None => (r, OutPanic) end
  | RPop => match PopFront r with Some (t, r') => (r', OutElem t) | None => (r, OutPanic) end
  | RPeek => match PeekFront r with Some t => (r, OutElem t) | None => (r, OutPanic) end
  | RLen => (r, OutLen (Len r))
  | RClear => (Clear r, OutUnit)
  end.

(** The specification: a list, first in first out. *)
Definition fifo_run1 (l : list A) (o : ring_op) : list A * ring_out :=
  match o with
  | RPush t => (l ++ [t], OutUnit)
  | RPop => match l with t :: l' => (l', OutElem t) | [] => (l, OutPanic) end
  | RPeek => match l with t :: _ => (l, OutElem t) | [] => (l, OutPanic) end
  | RLen => (l, OutLen (len l))
  | RClear => ([], OutUnit)
  end.

Fixpoint run {S} (f : S -> ring_op -> S * ring_out) (s : S) (os : list ring_op) : list ring_out :=
  match os with
  | [] => []
  | o :: os => let '(s', out) := f s o in out :: run f s' os
  end.

Lemma ring_run1_refines r o : ring_ok r ->
  let '(r', out) := ring_run1 r o in
  ring_ok r' /\ fifo_run1 (ring_items r) o = (ring_items r', out).
Proof.
  intros Hok. pose proof (PopFront_spec r Hok) as Hpop.
  destruct o as [t| | | |]; cbn.
  - destruct (PushBack_spec r t Hok) as (r' & -> & Hr' & ->). done.
  - destruct (ring_items r) as [|t rest] eqn:E; [destruct Hpop as [-> _]; by rewrite E|].
    destruct Hpop as [_ (r' & -> & Hr' & <-)]. done.
  - destruct (ring_items r) as [|t rest] eqn:E; [destruct Hpop as [_ ->]; by rewrite E|].
    destruct Hpop as [-> _]. by rewrite E.
  - by rewrite len_ring_items.
  - destruct (Clear_spec r) as [? ->]. done.
Qed.

(** From the zero value or any preallocated buffer, every run of
operations returns, call by call, what the same run on a plain list returns;
in particular a pop or peek panics exactly on an empty queue, and a push never
does. *)
Theorem RingBuffer_refines_fifo (r : RingBuffer A) (os : list ring_op) :
  r = ring_zero \/ (exists n, 0 <= n /\ r = Init n) ->
  run ring_run1 r os = run fifo_run1 [] os.
Proof.
  intros H0. assert (ring_ok r /\ ring_items r = []) as [Hok <-].
  { destruct H0 as [-> |(n & Hn & ->)]; [|by apply Init_spec].
    split; [constructor; unfold rcap, len; cbn; lia|done]. }
  revert r H0 Hok. cut (forall r, ring_ok r -> run ring_run1 r os = run fifo_run1 (ring_items r) os); [auto|].
  induction os as [|o os IH]; intros r Hok; [done|]. cbn.
  pose proof (ring_run1_refines r o Hok) as Href. destruct (ring_run1 r o) as [r' out].
  destruct Href as [Hr' ->]. f_equal. by apply IH.
Qed.

End Ops.

Lemma RingBuffer_refines_fifo_witness :
  run (ring_run1 0) ring_zero [RPush 5; RPush 6; RPop; RPush 7; RLen; RPop; RPop; RPop] =
  run fifo_run1 [] [RPush 5; RPush 6; RPop; RPush 7; RLen; RPop; RPop; RPop].
Proof. apply (RingBuffer_refines_fifo 0 ring_zero). left. reflexivity. Defined.
