(* ===== verification/DatagramQueue.v ===== *)
(** * The datagram queue of a connection

[third_party/quic-go/datagram_queue.go]: the bounded send queue of DATAGRAM
frames, whose [Add] blocks while 32 frames are queued, and the receive queue
behind [Receive].  Every critical section under [sendMx] or [rcvMx] is one step;
a goroutine that waits in a [select] is a program counter, and the one-slot
channels [sent] and [rcvd] are booleans.  Any number of senders, one receiver. *)

From stdpp Require Import base list numbers.
From Stdlib Require Import ZArith Lia.
From S2P Require Import Prelude.
From S2P Require Import Ring.
From S2P Require Import RingBuffer.
From S2P Require Import DatagramBuffer.

Local Open Scope Z_scope.

(** ** Data *)

Definition maxDatagramSendQueueLen : Z := 32.
Definition maxDatagramRcvQueueLen : Z := 128.

(** A DATAGRAM frame is its payload, a byte list. *)
Record datagramQueue := mkDQ {
  sendQueue : RingBuffer (list Z);
  sent : bool;
  rcvQueue : Queue;
  rcvd : bool;
  dq_closed : option Z;     (** the closed channel, with [closeErr] *)
}.

Definition newDatagramQueue : datagramQueue :=
  mkDQ ring_zero false (New maxDatagramRcvQueueLen) false None.

(** ** Operations *)

(** One round of the loop of [Add], from taking the lock to releasing it. *)
Inductive add_round := Added | AddWait.
Definition Add (h : datagramQueue) (f : list Z) : option (add_round * datagramQueue) :=
  if RingBuffer.Len (sendQueue h) <? maxDatagramSendQueueLen then
    q ← PushBack [] (sendQueue h) f;
    Some (Added, mkDQ q (sent h) (rcvQueue h) (rcvd h) (dq_closed h))
  else Some (AddWait, mkDQ (sendQueue h) false (rcvQueue h) (rcvd h) (dq_closed h)).

Definition Peek (h : datagramQueue) : option (list Z) :=
  if Empty (sendQueue h) then None else PeekFront (sendQueue h).

Definition Pop (h : datagramQueue) : option datagramQueue :=
  '(_, q) ← PopFront [] (sendQueue h);
  Some (mkDQ q true (rcvQueue h) (rcvd h) (dq_closed h)).

Definition HandleDatagramFrame (h : datagramQueue) (g : Globals) (f : list Z) (now : Z)
  : option (datagramQueue * Globals) :=
  '(ok, q, g) ← Push (rcvQueue h) g f now;
  Some (mkDQ (sendQueue h) (sent h) q ((ok : bool) || rcvd h) (dq_closed h), g).

(** One round of the loop of [Receive] under the lock. *)
Definition Receive (h : datagramQueue) (g : Globals) (now : Z)
  : option (option (list Z) * datagramQueue * Globals) :=
  '(r, q, g) ← DatagramBuffer.Pop (rcvQueue h) g now;
  Some (r, mkDQ (sendQueue h) (sent h) q (rcvd h) (dq_closed h), g).

(** [CloseWithError]: the part under the lock, then the closing of the channel,
which panics the second time. *)
Definition close_receive (h : datagramQueue) (g : Globals) : datagramQueue * Globals :=
  let '(q, g) := DatagramBuffer.Close (rcvQueue h) g in
  (mkDQ (sendQueue h) (sent h) q (rcvd h) (dq_closed h), g).
Definition close_channel (h : datagramQueue) (e : Z) : option datagramQueue :=
  match dq_closed h with
  | Some _ => None
  | None => Some (mkDQ (sendQueue h) (sent h) (rcvQueue h) (rcvd h) (Some e))
  end.

(** [Conn.EnableDatagramReceiveBuffer] *)
Definition enable_burst (h : datagramQueue) : datagramQueue :=
  mkDQ (sendQueue h) (sent h) (EnableBurst (rcvQueue h)) (rcvd h) (dq_closed h).

(** ** Goroutines *)

Inductive sender := Pending (f : list Z) | Blocked (f : list Z) | Returned (err : option Z).
Inductive receiver := RcvOutside | RcvBlocked.

Record dq_world := mkDW {
  dw_queue : datagramQueue;
  dw_globals : Globals;
  dw_senders : list sender;
  dw_receiver : receiver;
  dw_added : list (list Z);     (** frames accepted by [Add], in order *)
  dw_popped : list (list Z);    (** frames taken by the packet packer, in order *)
}.

Inductive dq_op :=
| CallAdd (f : list Z)
| RunAdd (i : nat)            (** a pending sender runs its critical section *)
| WakeAdd (i : nat)           (** a blocked sender takes the token *)
| AbortAdd (i : nat)          (** a blocked sender sees the closed channel *)
| SendOne                     (** the packer peeks a frame and pops it *)
| Arrive (f : list Z) (now : Z)
| RunReceive (now : Z)
| WakeReceive
| AbortReceive                (** closed or the context ended *)
| CloseReceiveSide
| CloseChannel (e : Z)
| EnableBurstOp
| OtherQueues (g : Globals).

Definition dq_enabled (w : dq_world) (o : dq_op) : Prop :=
  match o with
  | RunAdd i => exists f, dw_senders w !! i = Some (Pending f)
  | WakeAdd i => sent (dw_queue w) = true /\ exists f, dw_senders w !! i = Some (Blocked f)
  | AbortAdd i => dq_closed (dw_queue w) <> None /\ exists f, dw_senders w !! i = Some (Blocked f)
  | SendOne => Peek (dw_queue w) <> None
  | RunReceive _ => dw_receiver w = RcvOutside
  | WakeReceive => dw_receiver w = RcvBlocked /\ rcvd (dw_queue w) = true
  | AbortReceive => dw_receiver w = RcvBlocked
  | CloseChannel _ => dq_closed (dw_queue w) = None
  | OtherQueues g => budget_ok (rcvQueue (dw_queue w)) g
  | _ => True
  end.

Definition with_queue (w : dq_world) (h : datagramQueue) (g : Globals) (r : receiver) : dq_world :=
  mkDW h g (dw_senders w) r (dw_added w) (dw_popped w).
Definition with_sender (w : dq_world) (h : datagramQueue) (i : nat) (s : sender) (added : list (list Z)) : dq_world :=
  mkDW h (dw_globals w) (<[i := s]> (dw_senders w)) (dw_receiver w) (dw_added w ++ added) (dw_popped w).

(** [None] is a panic. *)
Definition run_dq (w : dq_world) (o : dq_op) : option dq_world :=
  let h := dw_queue w in let g := dw_globals w in
  match o with
  | CallAdd f => Some (mkDW h g (dw_senders w ++ [Pending f]) (dw_receiver w) (dw_added w) (dw_popped w))
  | RunAdd i =>
    match dw_senders w !! i with
    | Some (Pending f) =>
      '(r, h) ← Add h f;
      Some (match r with
            | Added => with_sender w h i (Returned None) [f]
            | AddWait => with_sender w h i (Blocked f) []
            end)
    | _ => Some w
    end
  | WakeAdd i =>
    match dw_senders w !! i with
    | Some (Blocked f) =>
      Some (with_sender w (mkDQ (sendQueue h) false (rcvQueue h) (rcvd h) (dq_closed h)) i (Pending f) [])
    | _ => Some w
    end
  | AbortAdd i => Some (with_sender w h i (Returned (dq_closed h)) [])
  | SendOne =>
    f ← Peek h; h ← Pop h;
    Some (mkDW h g (dw_senders w) (dw_receiver w) (dw_added w) (dw_popped w ++ [f]))
  | Arrive f now => '(h, g) ← HandleDatagramFrame h g f now; Some (with_queue w h g (dw_receiver w))
  | RunReceive now =>
    '(r, h, g) ← Receive h g now;
    Some (with_queue w h g (match r with Some _ => RcvOutside | None => RcvBlocked end))
  | WakeReceive => Some (with_queue w (mkDQ (sendQueue h) (sent h) (rcvQueue h) false (dq_closed h)) g RcvOutside)
  | AbortReceive => Some (with_queue w h g RcvOutside)
  | CloseReceiveSide => let '(h, g) := close_receive h g in Some (with_queue w h g (dw_receiver w))
  | CloseChannel e => h ← close_channel h e; Some (with_queue w h g (dw_receiver w))
  | EnableBurstOp => Some (with_queue w (enable_burst h) g (dw_receiver w))
  | OtherQueues g => Some (with_queue w h g (dw_receiver w))
  end.

Definition dq_start (g : Globals) : dq_world := mkDW newDatagramQueue g [] RcvOutside [] [].

Inductive dq_reachable (g0 : Globals) : dq_world -> Prop :=
| dq_init : dq_reachable g0 (dq_start g0)
| dq_step w o w' : dq_reachable g0 w -> dq_enabled w o -> run_dq w o = Some w' -> dq_reachable g0 w'.

(** ** The invariant *)

Definition queued (h : datagramQueue) : list (list Z) := ring_items [] (sendQueue h).
Definition has_blocked (l : list sender) : Prop := exists i f, l !! i = Some (Blocked f).
Definition has_pending (l : list sender) : Prop := exists i f, l !! i = Some (Pending f).

Record dq_ok (w : dq_world) : Prop := {
  dq_ring : ring_ok (sendQueue (dw_queue w));
  dq_len : rlen (sendQueue (dw_queue w)) <= maxDatagramSendQueueLen;
  dq_fifo : dw_added w = dw_popped w ++ queued (dw_queue w);
  dq_wake : has_blocked (dw_senders w) ->
            sent (dw_queue w) = true \/ has_pending (dw_senders w) \/ queued (dw_queue w) <> [];
  dq_rqueue : queue_ok (rcvQueue (dw_queue w));
  dq_budget : budget_ok (rcvQueue (dw_queue w)) (dw_globals w);
  dq_rwake : dw_receiver w = RcvBlocked -> contents (rcvQueue (dw_queue w)) <> [] -> rcvd (dw_queue w) = true;
}.

(** ** Senders *)

Lemma blocked_insert l i s : (forall f, s <> Blocked f) -> has_blocked (<[i := s]> l) -> has_blocked l.
Proof.
  intros Hs (j & f & Hj). apply list_lookup_insert_Some in Hj as [(_ & He & _)|[_ Hj]]; [by destruct (Hs f)|].
  by exists j, f.
Qed.

Lemma pending_insert l i s t : l !! i = Some s -> (forall f, s <> Pending f) -> has_pending l -> has_pending (<[i := t]> l).
Proof.
  intros Hi Hs (j & f & Hj). exists j, f. rewrite list_lookup_insert_ne; [done|].
  intros <-. rewrite Hi in Hj. injection Hj as ->. by destruct (Hs f).
Qed.

Lemma queued_len h : ring_ok (sendQueue h) -> len (queued h) = rlen (sendQueue h).
Proof. apply len_ring_items. Qed.

Lemma run_add_ok w i f : dq_ok w -> dw_senders w !! i = Some (Pending f) ->
  exists w', run_dq w (RunAdd i) = Some w' /\ dq_ok w'.
Proof.
  intros [H1 H2 H3 H4 H5 H6 H7] Hi. cbn. rewrite Hi. unfold Add, RingBuffer.Len. split_if; breflect.
  - destruct (PushBack_spec [] _ f H1) as (q & -> & Hok & Hit). cbn [mbind option_bind].
    eexists. split; [done|]. constructor; cbn; try done.
    + pose proof (len_ring_items [] q Hok) as L. rewrite Hit, len_app, len_cons, len_nil in L.
      rewrite (len_ring_items [] _ H1) in L. lia.
    + unfold queued. cbn. by rewrite Hit, H3, app_assoc.
    + intros _. right. right. unfold queued. cbn. rewrite Hit. intros [_ ?]%app_eq_nil. done.
  - eexists. split; [done|]. constructor; cbn; try done; [by rewrite app_nil_r|].
    intros _. right. right. intros Hn.
    pose proof (queued_len (dw_queue w) H1) as L. unfold queued in L, Hn. cbn in Hn. rewrite Hn, len_nil in L.
    unfold maxDatagramSendQueueLen in *. lia.
Qed.

Lemma wake_add_ok w i f : dq_ok w -> dw_senders w !! i = Some (Blocked f) ->
  exists w', run_dq w (WakeAdd i) = Some w' /\ dq_ok w'.
Proof.
  intros [H1 H2 H3 H4 H5 H6 H7] Hi. cbn. rewrite Hi. eexists. split; [done|].
  constructor; cbn; try done; [by rewrite app_nil_r|].
  intros _. right. left. exists i, f. rewrite list_lookup_insert_eq; [done|]. by eapply lookup_lt_Some.
Qed.

Lemma abort_add_ok w i f : dq_ok w -> dw_senders w !! i = Some (Blocked f) ->
  exists w', run_dq w (AbortAdd i) = Some w' /\ dq_ok w'.
Proof.
  intros [H1 H2 H3 H4 H5 H6 H7] Hi. cbn. eexists. split; [done|].
  constructor; cbn; try done; [by rewrite app_nil_r|]. intros Hb.
  destruct (H4 (blocked_insert _ _ (Returned (dq_closed (dw_queue w))) ltac:(done) Hb)) as [|[Hp|]]; [by left| |by right; right].
  right. left. by eapply pending_insert.
Qed.

Lemma send_one_ok w : dq_ok w -> Peek (dw_queue w) <> None ->
  exists w', run_dq w SendOne = Some w' /\ dq_ok w'.
Proof.
  intros [H1 H2 H3 H4 H5 H6 H7] Hp. cbn. unfold Peek, Pop in *.
  pose proof (PopFront_spec [] _ H1) as Hpop. pose proof (len_ring_items [] _ H1) as Hl.
  destruct (Empty (sendQueue (dw_queue w))) eqn:Ee; [done|].
  unfold queued in H3. destruct (ring_items [] (sendQueue (dw_queue w))) as [|t rest] eqn:Er.
  { destruct Hpop as [_ Hn]. by rewrite Hn in Hp. }
  destruct Hpop as [-> (q & -> & Hok & Hit)]. cbn [mbind option_bind]. eexists. split; [done|].
  constructor; cbn; try done; [|by rewrite <- app_assoc; unfold queued; cbn; rewrite Hit|by left].
  pose proof (len_ring_items [] q Hok) as L. rewrite Hit in L. rewrite len_cons in Hl. lia.
Qed.

(** ** The receive side *)

Lemma arrive_ok w f now : dq_ok w -> exists w', run_dq w (Arrive f now) = Some w' /\ dq_ok w'.
Proof.
  intros [H1 H2 H3 H4 H5 H6 H7]. cbn. unfold HandleDatagramFrame.
  destruct (Push_spec _ _ f now H5 H6) as (ok & q & g & -> & Hc & Hst & _). cbn [mbind option_bind].
  pose proof (op_step_budget _ _ _ _ H6 Hst). destruct Hst as [Hok _ _ _].
  eexists. split; [done|]. constructor; cbn; try done. intros Hr Hn. destruct ok; [done|].
  apply (H7 Hr). intros Hnil. by rewrite Hnil in Hc.
Qed.

Lemma run_receive_ok w now : dq_ok w -> exists w', run_dq w (RunReceive now) = Some w' /\ dq_ok w'.
Proof.
  intros [H1 H2 H3 H4 H5 H6 H7]. cbn. unfold Receive.
  destruct (Pop_spec _ _ now H5 H6) as (r & q & g & -> & Hst & Hm). cbn [mbind option_bind].
  pose proof (op_step_budget _ _ _ _ H6 Hst). destruct Hst as [Hok _ _ _].
  eexists. split; [done|]. constructor; cbn; try done.
  destruct (drop_stale _ _ _); destruct Hm as [-> ->]; done.
Qed.

Lemma close_receive_ok w : dq_ok w -> exists w', run_dq w CloseReceiveSide = Some w' /\ dq_ok w'.
Proof.
  intros [H1 H2 H3 H4 H5 H6 H7]. cbn. unfold close_receive.
  destruct (DatagramBuffer.Close _ _) as [q g] eqn:Ec.
  destruct (Close_spec _ _ _ _ H5 H6 Ec) as (Hok & Hl & Hc & Hcl & Hu).
  eexists. split; [done|]. constructor; cbn; try done.
  unfold budget_ok in *. pose proof (queue_ok_live _ H5). lia.
Qed.

Lemma run_dq_ok w o : dq_ok w -> dq_enabled w o -> exists w', run_dq w o = Some w' /\ dq_ok w'.
Proof.
  intros Hw Ho. pose proof Hw as [H1 H2 H3 H4 H5 H6 H7].
  destruct o as [f|i|i|i| |f now|now| | | |e| |g]; cbn [dq_enabled] in Ho.
  - eexists. split; [reflexivity|]. constructor; cbn; try done. intros _. right. left.
    exists (List.length (dw_senders w)), f. by rewrite lookup_app_r, Nat.sub_diag.
  - destruct Ho as [f Hi]. by eapply run_add_ok.
  - destruct Ho as [_ [f Hi]]. by eapply wake_add_ok.
  - destruct Ho as [_ [f Hi]]. by eapply abort_add_ok.
  - by apply send_one_ok.
  - by apply arrive_ok.
  - by apply run_receive_ok.
  - eexists. split; [reflexivity|]. by constructor.
  - eexists. split; [reflexivity|]. by constructor.
  - by apply close_receive_ok.
  - cbn. unfold close_channel. rewrite Ho. eexists. split; [reflexivity|]. by constructor.
  - eexists. split; [reflexivity|]. constructor; cbn; try done. by apply EnableBurst_ok.
  - eexists. split; [reflexivity|]. by constructor.
Qed.

Lemma dq_reachable_ok g0 w : 0 <= used g0 <= GlobalLimit -> dq_reachable g0 w -> dq_ok w.
Proof.
  intros Hg. induction 1 as [|w o w' _ IH He Hr].
  - constructor; try done. by intros (? & ? & [=]).
  - destruct (run_dq_ok w o IH He) as (w2 & H2 & Hok). congruence.
Qed.

(** C35: The datagram queue over any interleaving of senders, the packet packer,
arriving frames, a receiver and closing.  No step panics.  The packer gets
exactly the frames the senders queued, in order, and at most 32 wait.  A blocked
sender is never forgotten: a token is pending, another sender is about to run, or
frames are still queued whose removal signals again.  A receiver blocked although
a datagram is queued has a token pending. *)
Theorem datagram_queue_correct g0 w :
  0 <= used g0 <= GlobalLimit -> dq_reachable g0 w ->
  (forall o, dq_enabled w o -> is_Some (run_dq w o))
  /\ dw_added w = dw_popped w ++ queued (dw_queue w)
  /\ len (queued (dw_queue w)) <= maxDatagramSendQueueLen
  /\ Peek (dw_queue w) = hd_error (queued (dw_queue w))
  /\ (has_blocked (dw_senders w) ->
      sent (dw_queue w) = true \/ has_pending (dw_senders w) \/ queued (dw_queue w) <> [])
  /\ (dw_receiver w = RcvBlocked -> contents (rcvQueue (dw_queue w)) <> [] -> rcvd (dw_queue w) = true).
Proof.
  intros Hg Hr. pose proof (dq_reachable_ok g0 w Hg Hr) as Hok. split_and!; try apply Hok.
  - intros o Ho. destruct (run_dq_ok w o Hok Ho) as (w' & -> & _). by eexists.
  - rewrite queued_len by apply Hok. apply Hok.
  - destruct Hok as [H1 _ _ _ _ _ _]. unfold Peek, queued. pose proof (PopFront_spec [] _ H1) as Hp.
    pose proof (len_ring_items [] _ H1) as Hl. unfold Empty.
    destruct (ring_items [] _) as [|t rest]; destruct Hp as [Hp Hq]; cbn; split_if; try done.
    breflect. rewrite len_cons in Hl. pose proof (len_nonneg rest). lia.
Qed.

Definition dq_sample : dq_world :=
  default (dq_start (mkGlobals 0 0 0 0 0 0))
    (run_dq (default (dq_start (mkGlobals 0 0 0 0 0 0)) (run_dq (dq_start (mkGlobals 0 0 0 0 0 0)) (CallAdd [7]))) (RunAdd 0)).
Lemma datagram_queue_correct_witness :
  Peek (dw_queue dq_sample) = Some [7] /\ dw_added dq_sample = dw_popped dq_sample ++ queued (dw_queue dq_sample).
Proof.
  assert (dq_reachable (mkGlobals 0 0 0 0 0 0) dq_sample) as Hr.
  { eapply (dq_step _ _ (RunAdd 0)); [apply (dq_step _ _ (CallAdd [7]) _ (dq_init _) I eq_refl)| |reflexivity].
    by exists [7]. }
  split; [vm_compute; reflexivity|].
  apply (datagram_queue_correct (mkGlobals 0 0 0 0 0 0) dq_sample); [vm_compute; split; discriminate|exact Hr].
Defined.
