(* ===== verification/StateTracking.v ===== *)
(** * Datagram streams of HTTP/3

[third_party/quic-go/http3/state_tracking_stream.go]: the wrapper that records
when the send and the receive side of a request stream end, forgets the stream
once both have, and queues the HTTP Datagrams of the stream for a reader.  The
underlying QUIC stream is a parameter of each call: the result it returned.
Calls run under the stream's mutex, so they are atomic; a blocked
[ReceiveDatagram] is a state of the reader. *)

From stdpp Require Import base list numbers.
From Stdlib Require Import ZArith Lia.
From S2P Require Import Prelude.
From S2P Require Import Ring.
From S2P Require Import DatagramBuffer.

Local Open Scope Z_scope.

(** ** Data *)

Definition streamDatagramQueueLen : Z := 32.

(** The errors the code tells apart. *)
Inductive stream_error :=
| StreamEOF
| DeadlineExceeded
| WouldBlock
| WriteOnClosedStream
| StreamReset (code : Z)
| ContextEnded
| ConnectionError (code : Z).

Record tracking := {
  sendErr : option stream_error;
  recvErr : option stream_error;
  hasData : bool;              (** the one-slot channel holds a token *)
  ts_queue : Queue;
}.

Definition newStateTrackingStream : tracking :=
  {| sendErr := None; recvErr := None; hasData := false; ts_queue := New streamDatagramQueueLen |}.

Definition set_queue (t : tracking) (q : Queue) : tracking :=
  {| sendErr := sendErr t; recvErr := recvErr t; hasData := hasData t; ts_queue := q |}.
Definition signalHasDatagram (t : tracking) : tracking :=
  {| sendErr := sendErr t; recvErr := recvErr t; hasData := true; ts_queue := ts_queue t |}.
Definition take_token (t : tracking) : tracking :=
  {| sendErr := sendErr t; recvErr := recvErr t; hasData := false; ts_queue := ts_queue t |}.

Definition is_set {A} (o : option A) : bool := match o with Some _ => true | None => false end.

(** ** Operations *)

(** The boolean says whether [clearStream] was called. *)
Definition closeSend (t : tracking) (e : stream_error) : tracking * bool :=
  match sendErr t with
  | Some _ => (t, false)
  | None => ({| sendErr := Some e; recvErr := recvErr t; hasData := hasData t; ts_queue := ts_queue t |},
             is_set (recvErr t))
  end.

Definition closeReceive (t : tracking) (g : Globals) (e : stream_error) : tracking * Globals * bool :=
  match recvErr t with
  | Some _ => (t, g, false)
  | None =>
    let '(q, g) := DatagramBuffer.Close (ts_queue t) g in
    (signalHasDatagram {| sendErr := sendErr t; recvErr := Some e; hasData := hasData t; ts_queue := q |}, g,
     is_set (sendErr t))
  end.

Definition Close (t : tracking) : tracking * bool := closeSend t WriteOnClosedStream.
Definition CancelWrite (t : tracking) (code : Z) : tracking * bool := closeSend t (StreamReset code).
Definition CancelRead (t : tracking) (g : Globals) (code : Z) : tracking * Globals * bool :=
  closeReceive t g (StreamReset code).

(** [err] is what the underlying stream returned. *)
Definition Write (t : tracking) (err : option stream_error) : tracking * bool :=
  match err with
  | None | Some DeadlineExceeded => (t, false)
  | Some e => closeSend t e
  end.
Definition TryWriteAll (t : tracking) (err : option stream_error) : tracking * bool :=
  match err with
  | None | Some WouldBlock => (t, false)
  | Some e => closeSend t e
  end.
Definition Read (t : tracking) (g : Globals) (err : option stream_error) : tracking * Globals * bool :=
  match err with
  | None | Some DeadlineExceeded => (t, g, false)
  | Some e => closeReceive t g e
  end.

(** The error, or the bytes handed to the connection. *)
Definition SendDatagram (t : tracking) (b : list Z) : result stream_error (list Z) :=
  match sendErr t with Some e => Err e | None => Ok b end.

Definition enqueueDatagram (t : tracking) (g : Globals) (data : list Z) (now : Z) : option (tracking * Globals) :=
  match recvErr t with
  | Some _ => Some (t, g)
  | None =>
    '(ok, q, g) ← Push (ts_queue t) g data now;
    Some (if (ok : bool) then signalHasDatagram (set_queue t q) else set_queue t q, g)
  end.

(** One round of [ReceiveDatagram] under the mutex. *)
Inductive receive_round := RData (data : list Z) | RError (e : stream_error) | RWait.
Definition ReceiveDatagram (t : tracking) (g : Globals) (now : Z) : option (receive_round * tracking * Globals) :=
  '(r, q, g) ← Pop (ts_queue t) g now;
  let t := set_queue t q in
  Some (match r with
        | Some data => RData data
        | None => match recvErr t with Some e => RError e | None => RWait end
        end, t, g).

Definition enableDatagramReceiveBuffer (t : tracking) : tracking := set_queue t (EnableBurst (ts_queue t)).
Definition datagramReceiveBufferStats (t : tracking) : Stats := QueueStats (ts_queue t).

(** ** Interleavings

One stream, its reader, and everybody else who charges the shared budget. *)

Inductive reader_pc := Outside | Waiting.

Record world := mkWorld {
  w_stream : tracking;
  w_globals : Globals;
  w_reader : reader_pc;
  w_clears : nat;          (** calls of [clearStream] so far *)
}.

Inductive stream_op :=
| DoClose
| DoContextEnded
| DoCancelWrite (code : Z)
| DoWrite (err : option stream_error)
| DoTryWriteAll (err : option stream_error)
| DoCancelRead (code : Z)
| DoRead (err : option stream_error)
| DoEnqueue (data : list Z) (now : Z)
| DoReceive (now : Z)            (** the reader runs a round *)
| DoWake                         (** the reader takes the token *)
| DoReaderCancelled              (** the reader's context ends *)
| DoEnableBurst
| DoOther (g : Globals).         (** other queues charge the budget *)

Definition enabled (w : world) (o : stream_op) : Prop :=
  match o with
  | DoReceive _ => w_reader w = Outside
  | DoWake => w_reader w = Waiting /\ hasData (w_stream w) = true
  | DoReaderCancelled => w_reader w = Waiting
  | DoOther g => budget_ok (ts_queue (w_stream w)) g
  | _ => True
  end.

Definition send_side (w : world) (r : tracking * bool) : world :=
  mkWorld (fst r) (w_globals w) (w_reader w) (w_clears w + (if snd r then 1 else 0)).
Definition receive_side (w : world) (r : tracking * Globals * bool) : world :=
  let '(t, g, c) := r in mkWorld t g (w_reader w) (w_clears w + (if (c : bool) then 1 else 0)).

(** [None] is a panic. *)
Definition run_stream (w : world) (o : stream_op) : option world :=
  let t := w_stream w in let g := w_globals w in
  match o with
  | DoClose => Some (send_side w (Close t))
  | DoContextEnded => Some (send_side w (closeSend t ContextEnded))
  | DoCancelWrite code => Some (send_side w (CancelWrite t code))
  | DoWrite err => Some (send_side w (Write t err))
  | DoTryWriteAll err => Some (send_side w (TryWriteAll t err))
  | DoCancelRead code => Some (receive_side w (CancelRead t g code))
  | DoRead err => Some (receive_side w (Read t g err))
  | DoEnqueue data now => '(t, g) ← enqueueDatagram t g data now; Some (mkWorld t g (w_reader w) (w_clears w))
  | DoReceive now =>
    '(r, t, g) ← ReceiveDatagram t g now;
    Some (mkWorld t g (match r with RWait => Waiting | _ => Outside end) (w_clears w))
  | DoWake => Some (mkWorld (take_token t) g Outside (w_clears w))
  | DoReaderCancelled => Some (mkWorld t g Outside (w_clears w))
  | DoEnableBurst => Some (mkWorld (enableDatagramReceiveBuffer t) g (w_reader w) (w_clears w))
  | DoOther g => Some (mkWorld t g (w_reader w) (w_clears w))
  end.

Definition new_world (g : Globals) : world := mkWorld newStateTrackingStream g Outside 0.

Inductive stream_reachable (g0 : Globals) : world -> Prop :=
| stream_init : stream_reachable g0 (new_world g0)
| stream_step w o w' : stream_reachable g0 w -> enabled w o -> run_stream w o = Some w' -> stream_reachable g0 w'.

(** ** The invariant *)

Definition ended (t : tracking) : bool := is_set (sendErr t) && is_set (recvErr t).

Record tracking_ok (w : world) : Prop := {
  tr_queue : queue_ok (ts_queue (w_stream w));
  tr_budget : budget_ok (ts_queue (w_stream w)) (w_globals w);
  tr_clears : w_clears w = if ended (w_stream w) then 1%nat else 0%nat;
  tr_closed : recvErr (w_stream w) <> None -> closed (ts_queue (w_stream w)) = true;
  tr_wake : w_reader w = Waiting -> hasData (w_stream w) = false ->
            contents (ts_queue (w_stream w)) = [] /\ recvErr (w_stream w) = None;
}.

Lemma closeSend_ok w e : tracking_ok w -> tracking_ok (send_side w (closeSend (w_stream w) e)).
Proof.
  intros [H1 H2 H3 H4 H5]. unfold closeSend, send_side. destruct (sendErr (w_stream w)) eqn:Es; cbn.
  - constructor; cbn; try done. by rewrite H3, Nat.add_0_r.
  - constructor; cbn; try done. unfold ended in *. cbn. rewrite Es in H3. cbn in H3. rewrite H3. by destruct (is_set _).
Qed.

Lemma closeReceive_ok w e : tracking_ok w ->
  tracking_ok (receive_side w (closeReceive (w_stream w) (w_globals w) e)).
Proof.
  intros [H1 H2 H3 H4 H5]. unfold closeReceive, receive_side. destruct (recvErr (w_stream w)) eqn:Es.
  - constructor; cbn; rewrite ?Es; try done. by rewrite H3, Nat.add_0_r.
  - destruct (DatagramBuffer.Close _ _) as [q g] eqn:Ec.
    destruct (Close_spec _ _ _ _ H1 H2 Ec) as (Hok & Hl & Hc & Hcl & Hu).
    constructor; cbn; try done.
    + unfold budget_ok in *. pose proof (queue_ok_live _ H1). lia.
    + unfold ended in *. cbn. rewrite H3, Es. by destruct (sendErr _).
Qed.

Lemma closed_empty q : queue_ok q -> closed q = true -> contents q = [] /\ live q = 0.
Proof.
  intros Hok Hcl. destruct Hok as [Hc _ Hby _ Hr _ _ Hit]. specialize (Hit Hcl). rewrite Hit in Hc, Hr.
  unfold len in Hc, Hr. cbn in Hc, Hr. rewrite contents_nil in Hby |- * by lia. unfold live. cbn in Hby. split; [done|lia].
Qed.

Lemma enqueue_ok w data now : tracking_ok w ->
  exists w', run_stream w (DoEnqueue data now) = Some w' /\ tracking_ok w'.
Proof.
  intros Hw. pose proof Hw as [H1 H2 H3 H4 H5]. cbn. unfold enqueueDatagram.
  destruct (recvErr (w_stream w)) eqn:Er; [by eexists; destruct w|].
  destruct (Push_spec _ _ data now H1 H2) as (ok & q & g & -> & Hc & Hst & _). cbn [mbind option_bind].
  pose proof (op_step_budget _ _ _ _ H2 Hst). destruct Hst as [Hok _ _ (_ & _ & Hcl)].
  eexists. split; [done|]. unfold ended in *.
  destruct ok; constructor; unfold ended; cbn; rewrite ?Er in *; try done.
  intros Hr Hd. rewrite Hc. by destruct (H5 Hr Hd) as [-> _].
Qed.

Lemma receive_ok w now : tracking_ok w -> w_reader w = Outside ->
  exists w', run_stream w (DoReceive now) = Some w' /\ tracking_ok w'.
Proof.
  intros [H1 H2 H3 H4 H5] _. cbn. unfold ReceiveDatagram.
  destruct (Pop_spec _ _ now H1 H2) as (r & q & g & -> & Hst & Hm). cbn [mbind option_bind].
  pose proof (op_step_budget _ _ _ _ H2 Hst). destruct Hst as [Hok _ _ (_ & _ & Hcl)].
  eexists. split; [done|]. unfold ended in *. constructor; cbn; try done.
  - intros Hr. rewrite Hcl. by apply H4.
  - intros Hr _. destruct (drop_stale _ _ _) as [|e rest]; destruct Hm as [-> Hm]; [|done].
    split; [done|]. by destruct (recvErr (w_stream w)).
Qed.

(** Every step that can happen runs without a panic and keeps the invariant. *)
Lemma run_stream_ok w o : tracking_ok w -> enabled w o -> exists w', run_stream w o = Some w' /\ tracking_ok w'.
Proof.
  intros Hw Ho. destruct o as [| |code|err|err|code|err|data now|now| | | |g];
    try (eexists; split; [reflexivity|by apply closeSend_ok]);
    try (eexists; split; [reflexivity|by apply closeReceive_ok]);
    try (by apply enqueue_ok); try (by apply receive_ok).
  - eexists. split; [reflexivity|]. unfold Write. destruct err as [[]|]; try (by apply closeSend_ok);
      destruct w, Hw; constructor; cbn in *; try done; by rewrite Nat.add_0_r.
  - eexists. split; [reflexivity|]. unfold TryWriteAll. destruct err as [[]|]; try (by apply closeSend_ok);
      destruct w, Hw; constructor; cbn in *; try done; by rewrite Nat.add_0_r.
  - eexists. split; [reflexivity|]. unfold Read. destruct err as [[]|]; try (by apply closeReceive_ok);
      destruct w, Hw; constructor; cbn in *; try done; by rewrite Nat.add_0_r.
  - eexists. split; [reflexivity|]. destruct Hw. by constructor.
  - eexists. split; [reflexivity|]. destruct Hw. by constructor.
  - eexists. split; [reflexivity|]. destruct Hw. constructor; cbn; try done. by apply EnableBurst_ok.
  - eexists. split; [reflexivity|]. destruct Hw. by constructor.
Qed.

Lemma stream_reachable_ok g0 w : 0 <= used g0 <= GlobalLimit -> stream_reachable g0 w -> tracking_ok w.
Proof.
  intros Hg. induction 1 as [|w o w' _ IH He Hr].
  - constructor; try done; by apply New_ok.
  - destruct (run_stream_ok w o IH He) as (w2 & H2 & Hok). congruence.
Qed.

(** C34: A datagram stream over any interleaving of closing, cancelling, reading,
writing, arriving datagrams and a reader.  No call panics.  The stream is
forgotten exactly once, when the second of its two sides ends.  A reader never
sleeps past its wake-up: if it is blocked although a datagram is queued or the
receive side has ended, a token is waiting for it.  Once the receive side has
ended nothing is queued and the memory is returned to the budget. *)
Theorem stream_tracking g0 w :
  0 <= used g0 <= GlobalLimit -> stream_reachable g0 w ->
  (forall o, enabled w o -> is_Some (run_stream w o))
  /\ w_clears w = (if ended (w_stream w) then 1 else 0)%nat
  /\ (w_reader w = Waiting -> contents (ts_queue (w_stream w)) <> [] \/ recvErr (w_stream w) <> None ->
      hasData (w_stream w) = true)
  /\ (recvErr (w_stream w) <> None ->
      contents (ts_queue (w_stream w)) = [] /\ live (ts_queue (w_stream w)) = 0).
Proof.
  intros Hg Hr. pose proof (stream_reachable_ok g0 w Hg Hr) as Hok. split_and!.
  - intros o Ho. destruct (run_stream_ok w o Hok Ho) as (w' & -> & _). by eexists.
  - apply Hok.
  - intros Hw Hq. destruct (hasData (w_stream w)) eqn:E; [done|].
    destruct (tr_wake w Hok Hw E) as [H1 H2]. by destruct Hq.
  - intros He. apply closed_empty; [apply Hok|by apply (tr_closed w Hok)].
Qed.

Definition no_globals : Globals := mkGlobals 0 0 0 0 0 0.
(** A reader blocks, then a datagram arrives. *)
Definition step_or_stay (w : world) (o : stream_op) : world := default w (run_stream w o).
Definition blocked : world := step_or_stay (new_world no_globals) (DoReceive 5).
Definition woken : world := step_or_stay blocked (DoEnqueue [1; 2] 6).
Lemma stream_tracking_witness :
  w_reader woken = Waiting /\ contents (ts_queue (w_stream woken)) = [mkEntry [1; 2] 6]
  /\ hasData (w_stream woken) = true.
Proof.
  split; [vm_compute; reflexivity|]. split; [vm_compute; reflexivity|].
  apply (stream_tracking no_globals woken).
  - vm_compute. split; discriminate.
  - apply (stream_step _ blocked (DoEnqueue [1; 2] 6));
      [|exact I|vm_compute; reflexivity].
    apply (stream_step _ (new_world no_globals) (DoReceive 5)); [constructor|reflexivity|vm_compute; reflexivity].
  - vm_compute. reflexivity.
  - left. vm_compute. discriminate.
Defined.
