(* ===== verification/Capsule.v ===== *)
(** * Capsules on a request stream

[third_party/quic-go/http3/capsule.go]: the parser of a sequence of capsules,
the reader of the current one, and the writer; and [skipCapsules] of
[third_party/masque-go/conn.go], which both ends of a tunnel run on the request
stream.  An [io.Reader] may return fewer bytes than asked for: how many is a
parameter of every read ([chunk]), at least one while bytes are left. *)

From stdpp Require Import base list numbers.
From Stdlib Require Import ZArith Lia.
From S2P Require Import Prelude.
From S2P Require Import Quicvarint.

Local Open Scope Z_scope.

(** ** Data *)

Record CapsuleParser := mkParser {
  cp_r : reader;
  generation : Z;
  remaining : Z;
}.
Definition NewCapsuleParser (r : reader) : CapsuleParser := mkParser r 0 0.

Inductive capsule_error := ReaderInvalid | CapsuleNotConsumed | CapsuleIO (e : io_error).

(** [CapsuleReader]: the generation it was created for; [None] is the zero
value, whose parser is nil. *)
Definition CapsuleReader : Type := option Z.

(** ** Operations *)

(** Bytes a [countingByteReader] has seen between two states of a stream. *)
Definition NumRead (before after : reader) : Z := len (rd_avail before) - len (rd_avail after).

Definition Next (p : CapsuleParser) : result capsule_error (Z * CapsuleReader) * CapsuleParser :=
  if remaining p >? 0 then (Err CapsuleNotConsumed, p)
  else
    match Quicvarint.Read (cp_r p) with
    | (Err e, r) =>
      (Err (CapsuleIO (if bool_decide (e = EOF) && (NumRead (cp_r p) r >? 0) then ErrUnexpectedEOF else e)),
       mkParser r (generation p) (remaining p))
    | (Ok ct, r) =>
      match Quicvarint.Read r with
      | (Err e, r) =>
        (Err (CapsuleIO (if bool_decide (e = EOF) then ErrUnexpectedEOF else e)),
         mkParser r (generation p) (remaining p))
      | (Ok l, r) =>
        let g := u64 (generation p + 1) in
        (Ok (ct, Some g), mkParser r g l)
      end
    end.

Definition valid (c : CapsuleReader) (p : CapsuleParser) : bool :=
  match c with None => false | Some g => g =? generation p end.

(** A read of at most [size] bytes from the underlying stream, which delivers
[S chunk] of them if it has them; [early] delivers the final error together with
the last bytes. *)
Definition stream_Read (r : reader) (size : Z) (chunk : nat) (early : bool) : list Z * option io_error * reader :=
  match rd_avail r with
  | [] => ([], Some (rd_end r), r)
  | _ =>
    let n := Nat.min (Z.to_nat size) (S chunk) in
    let rest := drop n (rd_avail r) in
    (take n (rd_avail r), (if early && bool_decide (rest = []) then Some (rd_end r) else None),
     mkReader rest (rd_end r))
  end.

(** [CapsuleReader.Read] into a buffer of [size] bytes. *)
Definition Read (c : CapsuleReader) (p : CapsuleParser) (size : Z) (chunk : nat) (early : bool)
  : list Z * option capsule_error * CapsuleParser :=
  if negb (valid c p) then ([], Some ReaderInvalid, p)
  else if remaining p =? 0 then ([], Some (CapsuleIO EOF), p)
  else
    let size := if size >? remaining p then remaining p else size in
    let '(b, err, r) := stream_Read (cp_r p) size chunk early in
    let left := remaining p - len b in
    let p := mkParser r (generation p) left in
    if bool_decide (err = Some EOF) && (left >? 0) then (b, Some (CapsuleIO ErrUnexpectedEOF), p)
    else (b, CapsuleIO <$> err, p).

(** [CapsuleReader.ReadByte] *)
Definition ReadByte (c : CapsuleReader) (p : CapsuleParser) : result capsule_error Z * CapsuleParser :=
  if negb (valid c p) then (Err ReaderInvalid, p)
  else if remaining p =? 0 then (Err (CapsuleIO EOF), p)
  else
    match Quicvarint.ReadByte (cp_r p) with
    | (Err e, r) => (Err (CapsuleIO (if bool_decide (e = EOF) then ErrUnexpectedEOF else e)),
                     mkParser r (generation p) (remaining p))
    | (Ok b, r) => (Ok b, mkParser r (generation p) (remaining p - 1))
    end.

Definition Remaining (c : CapsuleReader) (p : CapsuleParser) : Z := if negb (valid c p) then 0 else i64 (remaining p).

(** [io.Copy(io.Discard, r)]: reads of 8192 bytes until an error; [io.EOF] is
success.  Every read before the last takes a byte of the capsule, so one more
round than bytes remain is enough; [None] is out of fuel. *)
Fixpoint copy_discard (fuel : nat) (c : CapsuleReader) (p : CapsuleParser) (chunks : nat -> nat * bool)
  : option (list Z * option capsule_error * CapsuleParser) :=
  match fuel with
  | O => None
  | S fuel =>
    let '(chunk, early) := chunks fuel in
    match Read c p 8192 chunk early with
    | (b, None, p) => '(bs, err, p) ← copy_discard fuel c p chunks; Some (b ++ bs, err, p)
    | (b, Some (CapsuleIO EOF), p) => Some (b, None, p)
    | (b, Some e, p) => Some (b, Some e, p)
    end
  end.
Definition Discard (c : CapsuleReader) (p : CapsuleParser) (chunks : nat -> nat * bool)
  : option (list Z * option capsule_error * CapsuleParser) :=
  copy_discard (S (Z.to_nat (remaining p))) c p chunks.

(** The bytes [WriteCapsule] writes, in its two writes; [None] is a panic. *)
Definition WriteCapsule (ct : Z) (value : list Z) : option (list Z) :=
  b ← Append [] ct; b ← Append b (len value); Some (b ++ value).

(** [skipCapsules]: the error it ends with and the types it logged.  Every
capsule has at least two bytes, so the length of the stream bounds the rounds. *)
Fixpoint skip_loop (fuel : nat) (p : CapsuleParser) (chunks : nat -> nat * bool) : option (capsule_error * list Z) :=
  match fuel with
  | O => None
  | S fuel =>
    match Next p with
    | (Err e, _) => Some (e, [])
    | (Ok (ct, c), p) =>
      '(_, err, p) ← Discard c p chunks;
      match err with
      | Some e => Some (e, [ct])
      | None => '(e, cts) ← skip_loop fuel p chunks; Some (e, ct :: cts)
      end
    end
  end.
Definition skipCapsules (str : reader) (chunks : nat -> nat * bool) : option (capsule_error * list Z) :=
  skip_loop (S (length (rd_avail str))) (NewCapsuleParser str) chunks.

Example skip_two :
  let s := default [] (WriteCapsule 0 [1; 2; 3]) ++ default [] (WriteCapsule 70 []) in
  skipCapsules (mkReader s EOF) (fun _ => (0%nat, false)) = Some (CapsuleIO EOF, [0; 70])
  /\ skipCapsules (mkReader (removelast s) EOF) (fun _ => (5%nat, true)) = Some (CapsuleIO ErrUnexpectedEOF, [0]).
Proof. vm_compute. split; reflexivity. Qed.

(** ** Reading a capsule *)

Definition parser_bytes (p : CapsuleParser) : list Z := rd_avail (cp_r p).

(** One read of a valid, unfinished reader on a stream that ends cleanly. *)
Lemma Read_step c p chunk early : valid c p = true -> rd_end (cp_r p) = EOF -> 0 < remaining p ->
  parser_bytes p <> [] ->
  exists n : nat, (0 < n)%nat /\ Z.of_nat n <= remaining p /\
  let b := take n (parser_bytes p) in let rest := drop n (parser_bytes p) in
  let left := remaining p - len b in
  let p' := mkParser (mkReader rest EOF) (generation p) left in
  Read c p 8192 chunk early
  = (b, (if early && bool_decide (rest = []) then
           Some (CapsuleIO (if left >? 0 then ErrUnexpectedEOF else EOF)) else None), p').
Proof.
  intros Hv He Hr Hb. exists (Nat.min (Z.to_nat (if 8192 >? remaining p then remaining p else 8192)) (S chunk)).
  split; [split_if; breflect; lia|]. split; [split_if; breflect; lia|]. cbv zeta.
  set (n := Nat.min _ _). unfold Read. rewrite Hv, (proj2 (Z.eqb_neq _ _)) by lia. cbn [negb]. cbv zeta.
  unfold stream_Read, parser_bytes in *. destruct (rd_avail (cp_r p)) as [|x l] eqn:E; [done|]. fold n.
  cbv zeta. rewrite He. destruct (early && _) eqn:E2.
  - rewrite bool_decide_true by done. cbn [andb]. by destruct (_ >? 0).
  - by rewrite bool_decide_false by done.
Qed.

Lemma take_drop_split {A} (n k : nat) (l : list A) : (n <= k)%nat -> take n l ++ take (k - n) (drop n l) = take k l.
Proof. intros H. by rewrite take_take_drop, Nat.add_comm, Nat.sub_add. Qed.

(** Reading to the end of the capsule: everything it has, or a complaint that
the stream is too short. *)
Definition discarded (p : CapsuleParser) : list Z * option capsule_error * CapsuleParser :=
  let l := Z.to_nat (remaining p) in let b := parser_bytes p in
  if (l <=? length b)%nat then (take l b, None, mkParser (mkReader (drop l b) EOF) (generation p) 0)
  else (b, Some (CapsuleIO ErrUnexpectedEOF), mkParser (mkReader [] EOF) (generation p) (remaining p - len b)).

Lemma copy_discard_spec c chunks fuel p : (Z.to_nat (remaining p) < fuel)%nat -> valid c p = true ->
  rd_end (cp_r p) = EOF -> 0 <= remaining p ->
  copy_discard fuel c p chunks = Some (discarded p).
Proof.
  revert p. induction fuel as [|fuel IH]; intros p Hf Hv He Hr; [lia|]. cbn [copy_discard].
  destruct (chunks fuel) as [chunk early].
  destruct (decide (remaining p = 0)) as [H0|H0].
  { unfold Read. rewrite Hv, H0. cbn. unfold discarded, parser_bytes. rewrite H0. cbn.
    destruct p as [[bs e] gen rem]. cbn in *. by subst. }
  destruct (decide (parser_bytes p = [])) as [Hb|Hb].
  { unfold Read. rewrite Hv, (proj2 (Z.eqb_neq _ _)) by lia. cbn [negb]. cbv zeta. unfold stream_Read, discarded.
    unfold parser_bytes in *. rewrite Hb, He, bool_decide_true by done. rewrite len_nil, Z.sub_0_r.
    rewrite (proj2 (Z.gtb_lt _ _)) by lia. cbn [andb length].
    rewrite (proj2 (Nat.leb_gt _ _)) by lia. destruct p as [[bs e] gen rem]. cbn in *. by subst. }
  destruct (Read_step c p chunk early Hv He ltac:(lia) Hb) as (n & Hn1 & Hn2 & ->).
  set (b := parser_bytes p) in *. pose proof (length_take b n) as Ltk. pose proof (length_drop b n) as Ldr.
  assert (len (take n b) = Z.of_nat (Nat.min n (length b))) as Hlen by (unfold len; lia).
  assert (0 < length b)%nat as Hpos by (destruct b; [done|cbn; lia]).
  destruct (early && _) eqn:E2.
  - apply andb_true_iff in E2 as [_ E2%bool_decide_eq_true]. rewrite E2 in Ldr. cbn in Ldr.
    assert (take n b = b) as Htb by (apply take_ge; lia). rewrite Htb in *. rewrite E2. unfold discarded. fold b.
    destruct (remaining p - len b >? 0) eqn:E3; breflect; unfold len in *.
    + rewrite (proj2 (Nat.leb_gt _ _)) by lia. done.
    + rewrite (proj2 (Nat.leb_le _ _)) by lia. rewrite take_ge, drop_ge by lia. do 3 f_equal. lia.
  - rewrite IH; [|cbn [remaining]; lia|exact Hv|done|cbn [remaining]; lia]. cbn [mbind option_bind]. unfold discarded.
    change (parser_bytes (mkParser (mkReader (drop n b) EOF) _ _)) with (drop n b).
    cbn [remaining generation]. fold b. replace (Z.to_nat (remaining p - len (take n b))) with (Z.to_nat (remaining p) - Nat.min n (length b))%nat by lia.
    rewrite Ldr. destruct (Nat.leb_spec (Z.to_nat (remaining p)) (length b)).
    + rewrite (proj2 (Nat.leb_le _ _)) by lia. rewrite Nat.min_l by lia. rewrite drop_drop, take_drop_split by lia.
      do 6 f_equal. lia.
    + rewrite (proj2 (Nat.leb_gt _ _)) by lia. rewrite take_drop. do 3 f_equal. unfold len in *. rewrite Ldr. lia.
Qed.

(** ** Sequences of capsules *)

Definition capsule_enc (c : Z * list Z) : list Z := venc (fst c) ++ venc (len (snd c)) ++ snd c.
Definition capsule_ok (c : Z * list Z) : Prop := is_varint (fst c) /\ is_varint (len (snd c)) /\ is_bytes (snd c).

Lemma WriteCapsule_enc c : capsule_ok c -> WriteCapsule (fst c) (snd c) = Some (capsule_enc c).
Proof.
  intros (H1 & H2 & _). unfold WriteCapsule. rewrite Append_venc by done. cbn [mbind option_bind].
  rewrite Append_venc by done. cbn [mbind option_bind app]. unfold capsule_enc. by rewrite <- app_assoc.
Qed.

Lemma capsule_enc_bytes c : capsule_ok c -> is_bytes (capsule_enc c).
Proof. intros (_ & _ & H). solve_bytes. Qed.

Lemma capsule_enc_len c : capsule_ok c -> len (capsule_enc c) = vlen (fst c) + vlen (len (snd c)) + len (snd c).
Proof. intros _. unfold capsule_enc, vlen. rewrite !len_app. lia. Qed.

Definition next_generation (p : CapsuleParser) : Z := u64 (generation p + 1).

Lemma Next_enc p c rest : capsule_ok c -> is_bytes rest -> remaining p = 0 ->
  cp_r p = mkReader (capsule_enc c ++ rest) EOF ->
  Next p = (Ok (fst c, Some (next_generation p)), mkParser (mkReader (snd c ++ rest) EOF) (next_generation p) (len (snd c))).
Proof.
  intros (H1 & H2 & H3) Hr H0 Hp. unfold Next. rewrite H0, Hp. cbn [Z.gtb Z.compare].
  unfold capsule_enc. rewrite <- !app_assoc.
  rewrite Read_venc by (done || solve_bytes).
  rewrite Read_venc by (done || solve_bytes). done.
Qed.

(** A read that runs out drains the stream. *)
Lemma Read_prefix i k e : is_varint i -> Z.of_nat k < vlen i ->
  Quicvarint.Read (mkReader (take k (venc i)) e) = (Err e, mkReader [] e).
Proof.
  intros Hi Hk. destruct (Parse_venc_prefix i k Hi Hk) as [e' He].
  pose proof (Read_as_Parse (take k (venc i)) e ltac:(apply Forall_take, venc_bytes)) as H. by rewrite He in H.
Qed.

Lemma Next_end p : remaining p = 0 -> cp_r p = mkReader [] EOF -> fst (Next p) = Err (CapsuleIO EOF).
Proof. intros H0 Hp. unfold Next. by rewrite H0, Hp. Qed.

Lemma take_app_Z {A} (k : nat) (a b : list A) : len a <= Z.of_nat k -> take k (a ++ b) = a ++ take (k - length a) b.
Proof. intros H. rewrite take_app, take_ge by (unfold len in H; lia). done. Qed.

Lemma Next_truncated p c k : capsule_ok c -> remaining p = 0 -> (0 < k)%nat ->
  Z.of_nat k < vlen (fst c) + vlen (len (snd c)) ->
  cp_r p = mkReader (take k (capsule_enc c)) EOF ->
  fst (Next p) = Err (CapsuleIO ErrUnexpectedEOF).
Proof.
  intros (H1 & H2 & H3) H0 Hk1 Hk2 Hp. unfold Next. rewrite H0, Hp. cbn [Z.gtb Z.compare]. unfold capsule_enc.
  pose proof (vlen_range _ H1) as Hv.
  destruct (decide (Z.of_nat k < vlen (fst c))) as [Hlt|Hge].
  - rewrite take_app_le by (unfold vlen, len in Hlt; lia). rewrite (Read_prefix _ _ _ H1 Hlt).
    unfold NumRead. cbn [rd_avail]. rewrite len_nil, bool_decide_true by done.
    assert (0 < len (take k (venc (fst c)))) as Hlen.
    { unfold vlen, len in *. rewrite length_take. lia. }
    rewrite (proj2 (Z.gtb_lt _ _)) by lia. done.
  - rewrite take_app_Z by (unfold vlen in *; lia).
    rewrite take_app_le by (unfold vlen, len in *; lia).
    rewrite Read_venc by (done || apply Forall_take, venc_bytes).
    rewrite Read_prefix by (done || (unfold vlen, len in *; lia)). by rewrite bool_decide_true.
Qed.

Lemma Discard_ok c p chunks : valid c p = true -> rd_end (cp_r p) = EOF -> 0 <= remaining p ->
  Discard c p chunks = Some (discarded p).
Proof. intros. apply copy_discard_spec; (done || lia). Qed.

Lemma valid_next p r l : valid (Some (next_generation p)) (mkParser r (next_generation p) l) = true.
Proof. apply Z.eqb_refl. Qed.

(** The incomplete capsule at the end of a stream. *)
Lemma skip_tail fuel p c k chunks : capsule_ok c -> remaining p = 0 -> Z.of_nat k < len (capsule_enc c) ->
  cp_r p = mkReader (take k (capsule_enc c)) EOF ->
  skip_loop (S fuel) p chunks
  = Some (CapsuleIO (if (k =? 0)%nat then EOF else ErrUnexpectedEOF),
          if vlen (fst c) + vlen (len (snd c)) <=? Z.of_nat k then [fst c] else []).
Proof.
  intros Hc H0 Hk Hp. pose proof Hc as (H1 & H2 & H3). pose proof (vlen_range _ H1). pose proof (vlen_range _ H2).
  rewrite capsule_enc_len in Hk by done. cbn [skip_loop]. destruct k as [|k].
  { pose proof (Next_end p H0 Hp) as Hn. destruct (Next p) as [[|] ?]; [done|]. injection Hn as ->.
    rewrite (proj2 (Z.leb_gt _ _)) by lia. done. }
  destruct (Z.leb_spec (vlen (fst c) + vlen (len (snd c))) (Z.of_nat (S k))) as [Hge|Hlt].
  - set (j := (S k - length (venc (fst c) ++ venc (len (snd c))))%nat).
    assert (take (S k) (capsule_enc c) = venc (fst c) ++ venc (len (snd c)) ++ take j (snd c)) as Ht.
    { unfold capsule_enc. rewrite !app_assoc. rewrite take_app_Z by (rewrite len_app; unfold vlen in *; lia). done. }
    unfold Next. rewrite H0, Hp, Ht. cbn [Z.gtb Z.compare].
    rewrite Read_venc by (done || solve_bytes).
    rewrite Read_venc by (done || solve_bytes). fold (next_generation p).
    rewrite Discard_ok by (apply valid_next || done || apply len_nonneg). cbn [mbind option_bind].
    unfold discarded, parser_bytes. cbn [remaining cp_r rd_avail].
    rewrite (proj2 (Nat.leb_gt _ _)); [done|].
    unfold vlen, len in *. rewrite length_take. unfold j. rewrite length_app. lia.
  - pose proof (Next_truncated p c (S k) Hc H0 ltac:(lia) Hlt Hp) as Hn.
    destruct (Next p) as [[|] ?]; [done|]. by injection Hn as ->.
Qed.

Lemma skip_loop_caps fuel p caps c k chunks : Forall capsule_ok caps -> capsule_ok c -> remaining p = 0 ->
  Z.of_nat k < len (capsule_enc c) -> (length caps < fuel)%nat ->
  cp_r p = mkReader (concat (map capsule_enc caps) ++ take k (capsule_enc c)) EOF ->
  skip_loop fuel p chunks
  = Some (CapsuleIO (if (k =? 0)%nat then EOF else ErrUnexpectedEOF),
          map fst caps ++ (if vlen (fst c) + vlen (len (snd c)) <=? Z.of_nat k then [fst c] else [])).
Proof.
  revert fuel p. induction caps as [|d caps IH]; intros fuel p Hcs Hc H0 Hk Hf Hp.
  { destruct fuel; [cbn in Hf; lia|]. by apply skip_tail. }
  inversion Hcs as [|?? Hd Hcs']; subst. destruct fuel as [|fuel]; [cbn in Hf; lia|].
  cbn [map concat] in Hp. rewrite <- app_assoc in Hp.
  set (tail := concat (map capsule_enc caps) ++ take k (capsule_enc c)) in *.
  assert (is_bytes tail) as Ht.
  { apply Forall_app_2; [|apply Forall_take; by apply capsule_enc_bytes]. apply Forall_concat, Forall_map.
    eapply List.Forall_impl; [|exact Hcs']. apply capsule_enc_bytes. }
  cbn [skip_loop]. rewrite (Next_enc p d tail Hd Ht H0 Hp).
  rewrite Discard_ok by (apply valid_next || done || apply len_nonneg). cbn [mbind option_bind].
  unfold discarded, parser_bytes. cbn [remaining cp_r rd_avail generation].
  assert (Z.to_nat (len (snd d)) = length (snd d)) as -> by (unfold len; lia).
  rewrite (proj2 (Nat.leb_le _ _)) by (rewrite length_app; lia). cbv iota beta.
  rewrite (IH fuel); [done|done|done|done|done|cbn in Hf; lia|].
  cbn [cp_r]. by rewrite drop_app_length.
Qed.

(** Every round consumes bytes, whatever they are. *)
Lemma skip_loop_total fuel p chunks : (length (parser_bytes p) < fuel)%nat -> rd_end (cp_r p) = EOF ->
  is_bytes (parser_bytes p) -> exists r, skip_loop fuel p chunks = Some r.
Proof.
  revert p. induction fuel as [|fuel IH]; intros p Hf He Hb; [lia|]. cbn [skip_loop]. unfold Next.
  split_if; [by eexists|]. destruct (cp_r p) as [bs e] eqn:Er. unfold parser_bytes in *. rewrite Er in *. cbn in Hf, He, Hb. subst e.
  pose proof (Read_as_Parse bs EOF Hb) as H1. destruct (Parse bs) as [[v n]|e1]; [|rewrite H1; by eexists].
  destruct H1 as (_ & Hn & ->).
  pose proof (Read_as_Parse (drop (Z.to_nat n) bs) EOF ltac:(by apply Forall_drop)) as H2.
  destruct (Parse (drop (Z.to_nat n) bs)) as [[l m]|e2]; [|rewrite H2; by eexists].
  destruct H2 as ([Hl _] & Hm & ->). fold (next_generation p).
  rewrite Discard_ok by (apply valid_next || done). cbn [mbind option_bind].
  unfold discarded, parser_bytes. cbn [remaining cp_r rd_avail generation]. split_if; [|by eexists].
  edestruct (IH (mkParser (mkReader (drop (Z.to_nat l) (drop (Z.to_nat m) (drop (Z.to_nat n) bs))) EOF) (next_generation p) 0))
    as [[e cts] ->]; [|done| |by eexists].
  - cbn. unfold len in *. rewrite !length_drop in *. lia.
  - cbn. by repeat apply Forall_drop.
Qed.

(** [skipCapsules] reads the request stream capsule by capsule, however the
stream is cut into reads.  On what a sequence of [WriteCapsule] calls wrote it
reports exactly the types that were written and ends with [io.EOF]; if the
stream stops inside a further capsule it ends with [io.ErrUnexpectedEOF]; and on
arbitrary bytes it comes to an end. *)
Theorem skipCapsules_correct caps c k chunks bytes :
  Forall capsule_ok caps -> capsule_ok c -> Z.of_nat k < len (capsule_enc c) -> is_bytes bytes ->
  (forall d, In d (c :: caps) -> WriteCapsule (fst d) (snd d) = Some (capsule_enc d))
  /\ skipCapsules (mkReader (concat (map capsule_enc caps) ++ take k (capsule_enc c)) EOF) chunks
     = Some (CapsuleIO (if (k =? 0)%nat then EOF else ErrUnexpectedEOF),
             map fst caps ++ (if vlen (fst c) + vlen (len (snd c)) <=? Z.of_nat k then [fst c] else []))
  /\ exists r, skipCapsules (mkReader bytes EOF) chunks = Some r.
Proof.
  intros Hcs Hc Hk Hb. split; [|split].
  - intros d Hd. apply WriteCapsule_enc. destruct Hd as [->|Hd]; [done|].
    rewrite List.Forall_forall in Hcs. by apply Hcs.
  - apply skip_loop_caps; try done. cbn [rd_avail]. rewrite length_app. apply Nat.lt_succ_r.
    clear Hc Hk Hb. induction Hcs as [|d caps Hd _ IH]; [cbn; lia|]. cbn [map concat]. rewrite length_app.
    pose proof (capsule_enc_len d Hd). destruct Hd as (H1 & H2 & _). pose proof (vlen_range _ H1).
    pose proof (vlen_range _ H2). unfold len in *. cbn. lia.
  - apply skip_loop_total; [cbn; lia|done|done].
Qed.

Lemma skipCapsules_correct_witness :
  skipCapsules (mkReader ([0; 2; 9; 9] ++ take 3 [0x40; 70; 1; 5]) EOF) (fun _ => (0%nat, true))
  = Some (CapsuleIO ErrUnexpectedEOF, [0; 70]).
Proof.
  assert (forall c, forallb (fun b => (0 <=? b) && (b <? 256)) (snd c) = true -> 0 <= fst c <= 100 ->
          len (snd c) <= 100 -> capsule_ok c) as Hmk.
  { intros c H1 H2 H3. unfold capsule_ok, is_varint, maxVarInt8. pose proof (len_nonneg (snd c)).
    split; [lia|]. split; [lia|]. apply List.Forall_forall. intros b Hb. rewrite forallb_forall in H1.
    specialize (H1 b Hb). apply andb_true_iff in H1 as [H4 H5]. apply Z.leb_le in H4. apply Z.ltb_lt in H5. split; lia. }
  pose proof (skipCapsules_correct [(0, [9; 9])] (70, [5]) 3 (fun _ => (0%nat, true)) [7]) as H.
  destruct H as (_ & H & _).
  - constructor; [apply Hmk; vm_compute; done|constructor].
  - apply Hmk; vm_compute; done.
  - vm_compute. reflexivity.
  - constructor; [vm_compute; split; done|constructor].
  - exact H.
Defined.
