(* ===== verification/Tunnel.v ===== *)
(** * The data path of a tunnel

A UDP payload travels through four layers in each direction:
- [internal/masque/client.go] ([Tunnel.Send], [Tunnel.Receive]);
- [third_party/masque-go/conn.go] ([WriteTo], [ReadFrom]) and [proxy.go]
  ([proxyConnSend], [proxyConnReceive]), which add and check the context ID;
- [third_party/quic-go/http3/conn.go] ([sendDatagram], [receiveDatagrams]),
  which prefix the quarter stream ID and dispatch to the stream;
- the queue of the stream (see [StateTracking]).
The QUIC connection below them delivers or loses whole datagrams. *)

From stdpp Require Import base gmap list numbers.
From Stdlib Require Import ZArith Lia.
From S2P Require Import Prelude.
From S2P Require Import Quicvarint.
From S2P Require Import DatagramBuffer.
From S2P Require Import StateTracking.

Local Open Scope Z_scope.

(** ** HTTP datagrams: [http3/conn.go] *)

Definition maxQuarterStreamID : Z := 2 ^ 60 - 1.

(** The tracked streams of a connection and the shared budget. *)
Record rawConn := mkConn { streams : gmap Z tracking; conn_globals : Globals }.

Definition TrackStream (c : rawConn) (id : Z) : rawConn :=
  mkConn (<[id := newStateTrackingStream]> (streams c)) (conn_globals c).

(** The boolean: [onStreamsEmpty] is called. *)
Definition clearStream (c : rawConn) (id : Z) : rawConn * bool :=
  let c := mkConn (delete id (streams c)) (conn_globals c) in
  (c, bool_decide (streams c = ∅)).
Definition hasActiveStreams (c : rawConn) : bool := negb (bool_decide (streams c = ∅)).

(** The bytes handed to the QUIC connection; [None] is a panic of [Append]. *)
Definition sendDatagram (streamID : Z) (b : list Z) : option (list Z) :=
  data ← Append [] (Z.quot streamID 4); Some (data ++ b).

(** One datagram in the loop of [receiveDatagrams]: whether the connection is
closed with [H3_DATAGRAM_ERROR].  [None] is a panic. *)
Definition receive_one (c : rawConn) (b : list Z) (now : Z) : option (bool * rawConn) :=
  match Parse b with
  | Err _ => Some (true, c)
  | Ok (quarterStreamID, n) =>
    if quarterStreamID >? maxQuarterStreamID then Some (true, c)
    else
      let streamID := 4 * quarterStreamID in
      match streams c !! streamID with
      | None => Some (false, c)
      | Some dg =>
        '(dg, g) ← enqueueDatagram dg (conn_globals c) (drop (Z.to_nat n) b) now;
        Some (false, mkConn (<[streamID := dg]> (streams c)) g)
      end
  end.

(** The loop over the datagrams that arrive until the connection fails. *)
Inductive receive_end := ConnFailed | DatagramError.
Fixpoint receiveDatagrams (c : rawConn) (arrivals : list (list Z * Z)) : option (receive_end * rawConn) :=
  match arrivals with
  | [] => Some (ConnFailed, c)
  | (b, now) :: arrivals =>
    '(stop, c) ← receive_one c b now;
    if (stop : bool) then Some (DatagramError, c) else receiveDatagrams c arrivals
  end.

(** ** UDP payloads: [masque-go] *)

Definition maxUDPPayloadSize : Z := 1500.
(** [quicvarint.Append([]byte{}, 0)], evaluated when the package loads. *)
Definition contextIDZero : list Z := default [] (Append [] 0).

(** What one received HTTP datagram becomes at the proxy. *)
Inductive proxied := Malformed | Dropped | Forward (payload : list Z).
Definition proxy_send_one (data : list Z) : proxied :=
  match Parse data with
  | Err _ => Malformed
  | Ok (contextID, n) =>
    let payload := drop (Z.to_nat n) data in
    if negb (contextID =? 0) then Dropped
    else if len payload >? maxUDPPayloadSize then Dropped
    else Forward payload
  end.

(** [proxyConnSend] on the datagrams the stream delivers before it fails with
[last]: the packets written to the socket, and whether it returns an error.
[write] says whether a write succeeds. *)
Fixpoint proxyConnSend (received : list (list Z)) (last : stream_error) (write : list Z -> bool) : list (list Z) * bool :=
  match received with
  | [] => ([], match last with StreamEOF => false | _ => true end)
  | data :: received =>
    match proxy_send_one data with
    | Malformed => ([], true)
    | Dropped => proxyConnSend received last write
    | Forward payload =>
      if write payload then let '(out, err) := proxyConnSend received last write in (payload :: out, err)
      else ([], true)
    end
  end.

(** [proxyConnReceive] on the packets the socket delivers before it fails
([eof]: with [io.EOF]): the datagrams sent on the stream.  A read into the
1501-byte buffer cuts longer packets. *)
Fixpoint proxyConnReceive (packets : list (list Z)) (eof : bool) (send : list Z -> bool) : list (list Z) * bool :=
  match packets with
  | [] => ([], negb eof)
  | p :: packets =>
    let read := take (Z.to_nat (maxUDPPayloadSize + 1)) p in
    if len read >? maxUDPPayloadSize then proxyConnReceive packets eof send
    else
      let b := contextIDZero ++ read in
      if send b then let '(out, err) := proxyConnReceive packets eof send in (b :: out, err)
      else ([], true)
  end.

(** [Conn.WriteTo]: the datagram it sends and the number it returns. *)
Definition WriteTo (p : list Z) : list Z * Z := (contextIDZero ++ p, len p).

(** One datagram in the loop of [Conn.ReadFrom] with a buffer of [size] bytes. *)
Inductive read_one := ReadMalformed | ReadAgain | ReadPayload (payload : list Z).
Definition ReadFrom_one (data : list Z) (size : Z) : read_one :=
  match Parse data with
  | Err _ => ReadMalformed
  | Ok (contextID, n) =>
    if negb (contextID =? 0) then ReadAgain
    else ReadPayload (take (Z.to_nat size) (drop (Z.to_nat n) data))
  end.

(** ** The local client: [internal/masque/client.go] *)

Definition MaxDatagramBytes : Z := 1200.

(** [Tunnel.Send]: the datagram, or the refusal. *)
Definition Tunnel_Send (data : list Z) : option (list Z) :=
  if (len data =? 0) || (len data >? MaxDatagramBytes) then None else Some (fst (WriteTo data)).

(** [Tunnel.Receive] over the datagrams that arrive: the first payload, cut to
its buffer; [None] if none arrives in time or one is malformed. *)
Fixpoint Tunnel_Receive (received : list (list Z)) : option (list Z) :=
  match received with
  | [] => None
  | data :: received =>
    match ReadFrom_one data 1500 with
    | ReadMalformed => None
    | ReadAgain => Tunnel_Receive received
    | ReadPayload p => Some p
    end
  end.

(** ** Framing *)

Lemma contextIDZero_eq : contextIDZero = [0].
Proof. reflexivity. Qed.

Lemma Parse_context p : is_bytes p -> Parse (contextIDZero ++ p) = Ok (0, 1).
Proof. intros Hp. exact (Parse_venc 0 p ltac:(unfold is_varint, maxVarInt8; lia) Hp). Qed.

Lemma proxy_send_context p : is_bytes p -> len p <= maxUDPPayloadSize -> proxy_send_one (contextIDZero ++ p) = Forward p.
Proof.
  intros Hp Hl. unfold proxy_send_one. rewrite Parse_context by done. cbn [negb Z.eqb].
  change (drop (Z.to_nat 1) (contextIDZero ++ p)) with p. split_if; [breflect; lia|done].
Qed.

Lemma ReadFrom_context p size : is_bytes p -> len p <= size -> ReadFrom_one (contextIDZero ++ p) size = ReadPayload p.
Proof.
  intros Hp Hl. unfold ReadFrom_one. rewrite Parse_context by done. cbn [negb Z.eqb].
  change (drop (Z.to_nat 1) (contextIDZero ++ p)) with p. rewrite take_ge; [done|]. unfold len in Hl. lia.
Qed.

Lemma sendDatagram_venc id b : 0 <= id < 2 ^ 62 -> sendDatagram id b = Some (venc (id / 4) ++ b).
Proof.
  intros Hid. unfold sendDatagram. rewrite Z.quot_div_nonneg by lia.
  rewrite Append_venc; [done|]. unfold is_varint, maxVarInt8. dlia.
Qed.

(** What is sent for a request stream is dispatched to that stream. *)
Lemma receive_sent c id b now : 0 <= id < 2 ^ 62 -> id mod 4 = 0 -> is_bytes b ->
  receive_one c (venc (id / 4) ++ b) now
  = match streams c !! id with
    | None => Some (false, c)
    | Some dg => '(dg, g) ← enqueueDatagram dg (conn_globals c) b now;
                 Some (false, mkConn (<[id := dg]> (streams c)) g)
    end.
Proof.
  intros Hid Hm Hb. unfold receive_one.
  assert (is_varint (id / 4)) as Hv by (unfold is_varint, maxVarInt8; dlia).
  rewrite (Parse_venc _ b Hv Hb).
  replace (id / 4 >? maxQuarterStreamID) with false by (symmetry; rewrite Z.gtb_ltb, Z.ltb_ge; unfold maxQuarterStreamID; dlia).
  cbv zeta. replace (4 * (id / 4)) with id by dlia.
  unfold vlen, len. by rewrite Nat2Z.id, drop_app_length.
Qed.

(** ** The whole path to the proxy *)

Definition small (p : list Z) : bool := len p <=? maxUDPPayloadSize.

(** C30: A payload the local client sends through request stream [id] reaches that
stream at the relay and no other, and the proxy will write exactly that payload
to the target: the stream's queue grows by one entry that is forwarded as [p], or
the datagram is dropped whole, and the reader is signalled when it is queued.
Nothing panics and the connection is not closed. *)
Theorem tunnel_delivery c id p now t :
  is_bytes p -> 0 < len p <= MaxDatagramBytes -> 0 <= id < 2 ^ 62 -> id mod 4 = 0 ->
  streams c !! id = Some t -> queue_ok (ts_queue t) -> budget_ok (ts_queue t) (conn_globals c) ->
  recvErr t = None ->
  exists dg wire c' t',
    Tunnel_Send p = Some dg /\ sendDatagram id dg = Some wire
    /\ receive_one c wire now = Some (false, c')
    /\ (forall id', id' <> id -> streams c' !! id' = streams c !! id')
    /\ streams c' !! id = Some t'
    /\ let fresh := drop_stale (maxAge (ts_queue t)) now (contents (ts_queue t)) in
       let forwards l := map (fun e => proxy_send_one (data e)) l in
       (forwards (contents (ts_queue t')) = forwards fresh ++ [Forward p] /\ hasData t' = true)
       \/ contents (ts_queue t') = fresh.
Proof.
  intros Hp Hl Hid Hm Ht Hq Hb Hr. exists (contextIDZero ++ p), (venc (id / 4) ++ contextIDZero ++ p).
  assert (is_bytes (contextIDZero ++ p)) as Hcp by (apply Forall_app_2; [apply (venc_bytes 0)|done]).
  destruct (Push_spec _ _ (contextIDZero ++ p) now Hq Hb) as (ok & q & g & HP & Hc & _ & _).
  assert (Hen : enqueueDatagram t (conn_globals c) (contextIDZero ++ p) now
          = Some (if ok then signalHasDatagram (set_queue t q) else set_queue t q, g)).
  { unfold enqueueDatagram. rewrite Hr, HP. done. }
  eexists _, _. split_and!; [|by apply sendDatagram_venc|by rewrite receive_sent, Ht, Hen by done|..].
  - unfold Tunnel_Send. rewrite (proj2 (Z.eqb_neq _ _)) by lia. cbn [orb].
    split_if; [breflect; lia|done].
  - intros id' Hne. cbn [streams]. by rewrite lookup_insert_ne.
  - cbn [streams]. by rewrite lookup_insert_eq.
  - cbv zeta. destruct ok; cbn [ts_queue hasData signalHasDatagram set_queue]; [left|by right].
    split; [|done]. rewrite Hc, map_app. cbn [map data]. f_equal. rewrite proxy_send_context; [done|done|].
    unfold maxUDPPayloadSize, MaxDatagramBytes in *. lia.
Qed.

Definition sample_conn : rawConn := TrackStream (mkConn ∅ (mkGlobals 0 0 0 0 0 0)) 8.
Lemma tunnel_delivery_witness :
  exists dg wire c' t',
    Tunnel_Send [1; 2; 3] = Some dg /\ sendDatagram 8 dg = Some wire
    /\ receive_one sample_conn wire 7 = Some (false, c') /\ streams c' !! 8 = Some t'.
Proof.
  destruct (tunnel_delivery sample_conn 8 [1; 2; 3] 7 newStateTrackingStream) as (dg & wire & c' & t' & H1 & H2 & H3 & _ & H5 & _).
  - repeat constructor; done.
  - split; reflexivity || discriminate.
  - split; [discriminate|reflexivity].
  - reflexivity.
  - reflexivity.
  - apply New_ok. vm_compute. split; [reflexivity|discriminate].
  - vm_compute. split; discriminate.
  - reflexivity.
  - exists dg, wire, c', t'. exact (conj H1 (conj H2 (conj H3 H5))).
Defined.

(** ** The loops of the proxy *)

(** What the proxy is to forward, after RFC 9298: a datagram starts with a context ID,
a variable-length integer of RFC 9000 (the two high bits of its first byte are the
logarithm of its length, the rest is big-endian), and only context 0 carries UDP
payloads, of at most 1500 bytes. *)
Definition context_of (data : list Z) : option (Z * list Z) :=
  match data with
  | [] => None
  | first :: _ =>
    let n := 2 ^ (first / 64) in
    if len data <? n then None
    else Some (be_value (take (Z.to_nat n) data) mod 2 ^ (8 * n - 2), drop (Z.to_nat n) data)
  end.
Definition forwarded (data : list Z) : option (list Z) :=
  '(contextID, payload) ← context_of data;
  if bool_decide (contextID = 0 /\ len payload <= 1500) then Some payload else None.

Lemma Parse_context_of data : is_bytes data ->
  match Parse data with
  | Ok (contextID, n) => context_of data = Some (contextID, drop (Z.to_nat n) data)
  | Err _ => context_of data = None
  end.
Proof.
  intros Hb. destruct data as [|first rest]; [done|]. inversion Hb as [|? ? Hf _]; subst.
  destruct (tag_len_cases first Hf) as (n & Hn & Ht). unfold context_of. rewrite Ht.
  assert (2 ^ tag_of n = n) as -> by (by destruct Hn as [-> | [-> | [-> | ->]]]).
  destruct (Z.ltb_spec (len (first :: rest)) n) as [Hl|Hl]; [by rewrite (Parse_short _ _ n)|].
  by rewrite (Parse_be _ n first rest).
Qed.

(** One datagram in the loop of the proxy, against that. *)
Lemma proxy_send_spec data : is_bytes data ->
  match proxy_send_one data with
  | Malformed => context_of data = None
  | Dropped => is_Some (context_of data) /\ forwarded data = None
  | Forward p => forwarded data = Some p
  end.
Proof.
  intros Hb. pose proof (Parse_context_of data Hb) as Hp. unfold proxy_send_one, forwarded, maxUDPPayloadSize.
  destruct (Parse data) as [[contextID n]|]; [|done]. rewrite Hp. cbn [mbind option_bind].
  destruct (Z.eqb_spec contextID 0) as [->|Hc]; cbn [negb]; [|rewrite bool_decide_false by tauto; by eauto].
  destruct (Z.gtb_spec (len (drop (Z.to_nat n) data)) 1500); [rewrite bool_decide_false by lia; by eauto|by rewrite bool_decide_true by lia].
Qed.

(** What stops the loop at a datagram: it is malformed, or its payload cannot be written. *)
Definition stops (write : list Z -> bool) (data : list Z) : Prop :=
  context_of data = None \/ exists p, forwarded data = Some p /\ write p = false.

Lemma proxyConnSend_prefix received last write out err : Forall is_bytes received -> proxyConnSend received last write = (out, err) ->
  exists k, out = omap forwarded (take k received) /\ Forall (fun d => ~ stops write d) (take k received)
    /\ (if decide (k = length received) then err = match last with StreamEOF => false | _ => true end
        else err = true /\ exists data, received !! k = Some data /\ stops write data).
Proof.
  intros Hb. revert out err. induction Hb as [|data received Hd _ IH]; intros out err H; cbn in H.
  { injection H as <- <-. by exists O. }
  pose proof (proxy_send_spec data Hd) as Hs. destruct (proxy_send_one data) as [| |p] eqn:E.
  - injection H as <- <-. exists O. split_and!; [done|constructor|]. cbn. split; [done|]. exists data. split; [done|by left].
  - destruct (IH _ _ H) as (k & -> & Hf & Hk). exists (S k). cbn. destruct Hs as [[x Hx] Hn]. rewrite Hn. split_and!; [done| |].
    + constructor; [|done]. intros [Hc|(p & Hp & _)]; congruence.
    + destruct (decide (k = length received)), (decide (S k = S (length received))); (done || lia).
  - destruct (write p) eqn:Ew.
    + destruct (proxyConnSend received last write) as [out' err'] eqn:Er. injection H as <- <-.
      destruct (IH _ _ eq_refl) as (k & -> & Hf & Hk). exists (S k). cbn. rewrite Hs. split_and!; [done| |].
      * constructor; [|done]. unfold stops. intros [Hc|(p' & Hp & Hw)]; [|congruence]. unfold forwarded in Hs. by rewrite Hc in Hs.
      * destruct (decide (k = length received)), (decide (S k = S (length received))); (done || lia).
    + injection H as <- <-. exists O. split_and!; [done|constructor|]. cbn. split; [done|]. exists data. split; [done|]. right. by exists p.
Qed.

Lemma proxyConnReceive_all packets eof :
  proxyConnReceive packets eof (fun _ => true) = (map (app contextIDZero) (List.filter small packets), negb eof).
Proof.
  induction packets as [|p packets IH]; [done|]. cbn [proxyConnReceive List.filter]. cbv zeta. unfold small at 1.
  rewrite IH. destruct (Z.leb_spec (len p) maxUDPPayloadSize) as [Hle|Hgt].
  - rewrite (take_ge p) by (unfold len, maxUDPPayloadSize in *; lia).
    rewrite Z.gtb_ltb, (proj2 (Z.ltb_ge _ _)) by lia. done.
  - replace (len (take _ p) >? maxUDPPayloadSize) with true; [done|]. symmetry. apply Z.gtb_lt.
    unfold len in *. rewrite length_take. unfold maxUDPPayloadSize in *. lia.
Qed.


