(* ===== verification/MasqueConn.v ===== *)
(** * The client end of a tunnel

[third_party/masque-go/conn.go]: the read deadline of a proxied connection, its
reading loop and [Close]; [client.go] and [transport.go]: opening one; and
[internal/masque/client.go]: the pinned connection to the relay.  Times are
nanoseconds; a deadline of [None] is the zero time, "no deadline". *)

From stdpp Require Import base list numbers relations.
From Stdlib Require Import ZArith Lia String.
From S2P Require Import Prelude.
From S2P Require Import GoStrings.
From S2P Require Import Quicvarint.
From S2P Require Import Netip.
From S2P Require Import Base58.
From S2P Require Import ProxyRequest.
From S2P Require Import AccessConfig.
From S2P Require Import Samples.
From S2P Require Import Certificate.
From S2P Require Import StateTracking.
From S2P Require Import Tunnel.

Local Open Scope Z_scope.

(** ** The read deadline *)

(** [time.Timer] made by [AfterFunc]: no channel, only [Stop] and [Reset].  A
timer that fired or was stopped is [Idle]. *)
Inductive timer := NoTimer | Armed (at_ : Z) | Idle.

Record deadlines := {
  dl_context : nat;             (** how often [readCtx] was replaced *)
  dl_cancelled : bool;          (** the current [readCtx] is cancelled *)
  dl_deadline : option Z;
  dl_timer : timer;
  dl_callbacks : nat;           (** the timer fired, its function has not run yet *)
  dl_fired : Z;                 (** when it fired last *)
}.

Definition new_deadlines : deadlines :=
  {| dl_context := 0; dl_cancelled := false; dl_deadline := None; dl_timer := NoTimer;
     dl_callbacks := 0; dl_fired := 0 |}.

Definition is_before (now : Z) (t : option Z) : bool := match t with Some t => now <? t | None => false end.

(** [Conn.SetReadDeadline].  [None] is a call that never returns: [Stop] reports
false for a timer that fired or was stopped, and the channel of an [AfterFunc]
timer is nil, so receiving from it blocks for ever, with [deadlineMx] held. *)
Definition SetReadDeadline (s : deadlines) (t : option Z) (now : Z) : option deadlines :=
  let oldDeadline := dl_deadline s in
  match t with
  | None =>
    match dl_timer s with
    | NoTimer => Some {| dl_context := dl_context s; dl_cancelled := dl_cancelled s; dl_deadline := None;
                         dl_timer := NoTimer; dl_callbacks := dl_callbacks s; dl_fired := dl_fired s |}
    | Armed _ => Some {| dl_context := dl_context s; dl_cancelled := dl_cancelled s; dl_deadline := None;
                         dl_timer := Idle; dl_callbacks := dl_callbacks s; dl_fired := dl_fired s |}
    | Idle => None
    end
  | Some t =>
    if t <=? now then
      Some {| dl_context := dl_context s; dl_cancelled := true; dl_deadline := Some t;
              dl_timer := dl_timer s; dl_callbacks := dl_callbacks s; dl_fired := dl_fired s |}
    else
      let fresh := match dl_timer s with NoTimer => false | _ => is_before now oldDeadline end in
      Some {| dl_context := if fresh then S (dl_context s) else dl_context s;
              dl_cancelled := if fresh then false else dl_cancelled s;
              dl_deadline := Some t; dl_timer := Armed t;
              dl_callbacks := dl_callbacks s; dl_fired := dl_fired s |}
  end.

(** The timer expires, and later its function runs. *)
Definition timer_fires (s : deadlines) (now : Z) : deadlines :=
  {| dl_context := dl_context s; dl_cancelled := dl_cancelled s; dl_deadline := dl_deadline s;
     dl_timer := Idle; dl_callbacks := S (dl_callbacks s); dl_fired := now |}.
Definition timer_function (s : deadlines) (now : Z) : deadlines :=
  {| dl_context := dl_context s;
     dl_cancelled := dl_cancelled s || match dl_deadline s with Some d => d <? now | None => false end;
     dl_deadline := dl_deadline s; dl_timer := dl_timer s; dl_callbacks := Nat.pred (dl_callbacks s);
     dl_fired := dl_fired s |}.

(** One round of [Conn.ReadFrom]: what [ReceiveDatagram] returned, the deadline
and the clock if it has to check them. *)
Inductive received := Datagram (data : list Z) | Cancelled | Failed (e : stream_error).
Inductive read_result := ReadOk (payload : list Z) | ReadDeadlineExceeded | ReadFailed (e : stream_error) | ReadBad.
Fixpoint ReadFrom (size : Z) (rounds : list (received * option Z * Z)) : option read_result :=
  match rounds with
  | [] => None                       (* still waiting *)
  | (Failed e, _, _) :: _ => Some (ReadFailed e)
  | (Cancelled, deadline, now) :: rounds =>
    if is_before now deadline then ReadFrom size rounds else Some ReadDeadlineExceeded
  | (Datagram data, _, _) :: rounds =>
    match ReadFrom_one data size with
    | ReadMalformed => Some ReadBad
    | ReadAgain => ReadFrom size rounds
    | ReadPayload p => Some (ReadOk p)
    end
  end.

Inductive deadline_step : deadlines -> deadlines -> Prop :=
| set_step s t now s' : SetReadDeadline s t now = Some s' -> deadline_step s s'
| fire_step s at_ now : dl_timer s = Armed at_ -> at_ <= now -> deadline_step s (timer_fires s now)
| run_step s now : (0 < dl_callbacks s)%nat -> dl_fired s < now -> deadline_step s (timer_function s now).

Definition deadline_inv (s : deadlines) : Prop :=
  forall d, dl_deadline s = Some d -> dl_cancelled s = false ->
    dl_timer s = Armed d \/ (dl_timer s = Idle /\ (0 < dl_callbacks s)%nat /\ d <= dl_fired s).

Lemma deadline_step_inv s s' : deadline_step s s' -> deadline_inv s -> deadline_inv s'.
Proof.
  intros Hst Hi. destruct Hst as [s t now s' H|s at_ now Ht Hle|s now Hc Hf].
  - unfold SetReadDeadline in H. destruct t as [t|].
    + destruct (t <=? now); injection H as <-; intros d [= <-] Hnc; [done|by left].
    + destruct (dl_timer s); try done; injection H as <-; by intros d ?.
  - intros d Hd Hnc. cbn in *. right. destruct (Hi d Hd Hnc) as [Ha|(Ha & _)]; [|congruence].
    rewrite Ht in Ha. injection Ha as ->. split; [done|]. split; lia.
  - intros d Hd Hnc. cbn in *. apply orb_false_iff in Hnc as [Hnc Hlt]. rewrite Hd in Hlt. breflect.
    destruct (Hi d Hd Hnc) as [Ha|(Ha & Hb & Hc')]; [by left|lia].
Qed.

(** A read deadline is enforced.  Whatever deadlines were set before and
however the timer and its function interleave with them, provided its function
reads a later clock than the one the timer fired at: as long as the context of
the readers is not cancelled, the timer is armed for exactly the deadline in
force or its function is about to run; and a read that times out does so at or
after that deadline, never before. *)
Theorem deadline_enforced s d :
  rtc deadline_step new_deadlines s -> dl_deadline s = Some d ->
  (dl_cancelled s = true \/ dl_timer s = Armed d \/ (0 < dl_callbacks s)%nat)
  /\ forall size now rounds,
     ReadFrom size ((Cancelled, dl_deadline s, now) :: rounds) = Some ReadDeadlineExceeded ->
     d <= now \/ ReadFrom size rounds = Some ReadDeadlineExceeded.
Proof.
  intros Hr Hd. split.
  - assert (deadline_inv s) as Hi.
    { revert Hr. clear Hd. refine (rtc_ind_r deadline_inv _ _ _ s); [done|]. intros y z _ Hyz Hy. by eapply deadline_step_inv. }
    destruct (dl_cancelled s) eqn:Ec; [by left|]. right. destruct (Hi d Hd Ec) as [|(_ & ? & _)]; [by left|by right].
  - intros size now rounds. cbn. rewrite Hd. cbn. destruct (Z.ltb_spec now d); [by right|by left].
Qed.

(** A deadline is set, moved, and its timer fires. *)
Definition deadline_sample : deadlines :=
  timer_fires (default new_deadlines (SetReadDeadline (default new_deadlines (SetReadDeadline new_deadlines (Some 50) 10)) (Some 90) 20)) 95.
Lemma deadline_enforced_witness :
  dl_cancelled deadline_sample = true \/ dl_timer deadline_sample = Armed 90 \/ (0 < dl_callbacks deadline_sample)%nat.
Proof.
  apply (deadline_enforced deadline_sample 90); [|reflexivity].
  eapply rtc_l; [apply (set_step _ (Some 50) 10); reflexivity|].
  eapply rtc_l; [apply (set_step _ (Some 90) 20); reflexivity|].
  eapply rtc_l; [apply (fire_step _ 90 95); [reflexivity|vm_compute; discriminate]|]. apply rtc_refl.
Defined.

(** Clearing the read deadline does not work as [net.Conn] promises.  Once
the timer has fired or was stopped, [SetReadDeadline] with the zero time never
returns, so clearing twice hangs; and if a deadline was already over when it was
set, after clearing it a read without data still fails with a timeout although
no deadline is set. *)
Theorem clearing_deadline_hangs s t now now' now'' :
  (dl_timer s = Idle -> SetReadDeadline s None now = None)
  /\ (now < t -> exists s1 s2, SetReadDeadline s (Some t) now = Some s1
        /\ SetReadDeadline s1 None now' = Some s2 /\ SetReadDeadline s2 None now'' = None
        /\ SetReadDeadline (timer_fires s1 t) None now' = None)
  /\ (t <= now -> dl_timer s = NoTimer -> exists s1 s2,
        SetReadDeadline s (Some t) now = Some s1 /\ SetReadDeadline s1 None now' = Some s2
        /\ dl_deadline s2 = None /\ dl_cancelled s2 = true
        /\ forall size, ReadFrom size [(Cancelled, dl_deadline s2, now'')] = Some ReadDeadlineExceeded).
Proof.
  split; [|split].
  - unfold SetReadDeadline. by intros ->.
  - intros Ht. unfold SetReadDeadline. rewrite (proj2 (Z.leb_gt t now) Ht). eexists _, _. split; [done|]. cbn. done.
  - intros Ht Hn. unfold SetReadDeadline. rewrite (proj2 (Z.leb_le t now) Ht). eexists _, _. split; [done|]. cbn.
    rewrite Hn. done.
Qed.

Lemma clearing_deadline_hangs_witness :
  exists s1 s2, SetReadDeadline new_deadlines (Some 50) 10 = Some s1
    /\ SetReadDeadline s1 None 20 = Some s2 /\ SetReadDeadline s2 None 30 = None.
Proof.
  destruct (proj1 (proj2 (clearing_deadline_hangs new_deadlines 50 10 20 30)) ltac:(reflexivity)) as (s1 & s2 & H1 & H2 & H3 & _).
  exists s1, s2. exact (conj H1 (conj H2 H3)).
Defined.

(** ** Closing *)

Inductive conn_action := StreamCancelRead | StreamClose | WaitReadDone | ContextCancelled | TimerStopped | QUICClosed.

(** [Conn.Close]; a connection made by [Transport.Dial] owns its QUIC connection. *)
Definition Conn_Close (owns : bool) (s : deadlines) : list conn_action :=
  [StreamCancelRead; StreamClose; WaitReadDone; ContextCancelled]
  ++ (match dl_timer s with NoTimer => [] | _ => [TimerStopped] end)
  ++ (if owns then [QUICClosed] else []).

(** ** Opening: [client.go] *)

Record dial_url := { du_Host : gostring; du_Hostname : gostring; du_Port : gostring }.
Record dial_request := { dr_URL : option dial_url; dr_Host : gostring; dr_target : gostring }.

(** What the [Proxy-Status] header of the response holds ([httpsfv] decodes it). *)
Inductive proxy_status := StatusAbsent | StatusBad | NextHopMissing | NextHopOther | NextHop (s : gostring).

(** [net.LookupPort] for UDP: a number with an optional sign, or the name of a
service, which the system resolves. *)
Definition LookupPort (service : gostring -> option Z) (s : gostring) : option Z :=
  let digits := match s with 43 :: r | 45 :: r => r | _ => s end in
  let sign := match s with 45 :: _ => -1 | _ => 1 end in
  match digits_value 0 digits with
  | Some v => let port := sign * v in if (port <? 0) || (65535 <? port) then None else Some port
  | None => service s
  end.

Definition nextHopAddr (service : gostring -> option Z) (p : proxy_status) : option (Addr * Z) :=
  match p with
  | NextHop nextHopStr =>
    if same nextHopStr [] then None
    else
      '(host, port) ← SplitHostPort nextHopStr;
      ip ← ParseIP host;
      portNum ← LookupPort service port;
      Some (ip, portNum)
  | _ => None
  end.

(** Which of the three channels [dial] selects. *)
Inductive settle := RequestDone | ConnectionDone | SettingsReceived.

Record dial_env := {
  de_settle : settle;
  de_extended : bool;             (** the peer's SETTINGS *)
  de_datagrams : bool;
  de_open : bool;                 (** [OpenRequestStream] succeeds *)
  de_send : bool;                 (** [SendRequestHeader] succeeds *)
  de_response : option (Z * proxy_status);
  de_service : gostring -> option Z;
}.

Inductive dial_error :=
| NilURL | NeedsHost | RequestContextDone | ConnectionContextDone | NoExtendedConnect | NoDatagrams
| OpenStreamFailed | SendRequestFailed | ReadResponseFailed | ServerResponded (status : Z)
| ConfigNeedsDatagrams | QUICDialFailed | NeedsDatagramSupport.

Inductive dial_action := Dialled (addr : gostring) | OpenedStream | CancelledStream | ClosedConnection.

Inductive remote_addr := RemoteUDP (ip : Addr) (port : Z) | RemoteTarget (target : gostring).

(** [ClientConn.dial]; the deferred cancellation runs unless the stream is kept. *)
Definition dial (env : dial_env) (req : dial_request) : list dial_action * result dial_error remote_addr :=
  match dr_URL req with
  | None => ([], Err NilURL)
  | Some u =>
    if same (dr_Host req) [] && same (du_Host u) [] then ([], Err NeedsHost)
    else match de_settle env with
    | RequestDone => ([], Err RequestContextDone)
    | ConnectionDone => ([], Err ConnectionContextDone)
    | SettingsReceived =>
      if negb (de_extended env) then ([], Err NoExtendedConnect)
      else if negb (de_datagrams env) then ([], Err NoDatagrams)
      else if negb (de_open env) then ([], Err OpenStreamFailed)
      else if negb (de_send env) then ([OpenedStream; CancelledStream], Err SendRequestFailed)
      else match de_response env with
      | None => ([OpenedStream; CancelledStream], Err ReadResponseFailed)
      | Some (status, p) =>
        if (status <? 200) || (status >? 299) then ([OpenedStream; CancelledStream], Err (ServerResponded status))
        else ([OpenedStream],
              Ok (match nextHopAddr (de_service env) p with
                  | Some (ip, port) => RemoteUDP ip port
                  | None => RemoteTarget (dr_target req)
                  end))
      end
    end
  end.

(** ** Opening: [transport.go] *)

Record transport := {
  tr_quic : option bool;                                    (** the QUIC configuration: datagrams enabled *)
  tr_dial : gostring -> option (bool * bool);               (** dialling: datagram support, local and remote *)
}.

(** [net.JoinHostPort] *)
Definition JoinHostPort (host port : gostring) : gostring :=
  if contains_byte host 58 then 91 :: host ++ 93 :: 58 :: port else host ++ 58 :: port.

Definition NewClientConn (datagrams : bool * bool) : result dial_error unit :=
  if negb (fst datagrams) || negb (snd datagrams) then Err NeedsDatagramSupport else Ok tt.

Definition Transport_Dial (t : transport) (env : dial_env) (req : dial_request)
  : list dial_action * result dial_error remote_addr :=
  match dr_URL req with
  | None => ([], Err NeedsHost)
  | Some u =>
    if same (du_Host u) [] then ([], Err NeedsHost)
    else if negb (match tr_quic t with None => true | Some d => d end) then ([], Err ConfigNeedsDatagrams)
    else
      let addr := if same (du_Port u) [] then JoinHostPort (du_Hostname u) (str "443") else du_Host u in
      match tr_dial t addr with
      | None => ([], Err QUICDialFailed)
      | Some datagrams =>
        match NewClientConn datagrams with
        | Err e => ([Dialled addr; ClosedConnection], Err e)
        | Ok _ =>
          let '(l, r) := dial env req in
          (Dialled addr :: l ++ (match r with Err _ => [ClosedConnection] | Ok _ => [] end), r)
        end
      end
  end.

(** ** No leaks *)

Definition dialled (a : dial_action) : bool := match a with Dialled _ => true | _ => false end.
Definition opened (a : dial_action) : bool := match a with OpenedStream => true | _ => false end.
Definition cancelled (a : dial_action) : bool := match a with CancelledStream => true | _ => false end.
Definition connection_closed (a : dial_action) : bool := match a with ClosedConnection => true | _ => false end.
Definition times (p : dial_action -> bool) (l : list dial_action) : nat := List.length (List.filter p l).

Lemma dial_streams env req :
  let '(l, r) := dial env req in
  times dialled l = 0%nat /\ times connection_closed l = 0%nat /\
  match r with
  | Ok _ => l = [OpenedStream] /\ de_extended env = true /\ de_datagrams env = true
            /\ exists status p, de_response env = Some (status, p) /\ 200 <= status <= 299
  | Err _ => times opened l = times cancelled l
  end.
Proof.
  unfold dial. destruct (dr_URL req) as [u|]; [|done]. split_if; [done|]. destruct (de_settle env); [done..|].
  destruct (de_extended env) eqn:E1; [|done]. destruct (de_datagrams env) eqn:E2; [|done].
  destruct (de_open env); [|done]. destruct (de_send env); [|done]. cbn [negb].
  destruct (de_response env) as [[status p]|]; [|done].
  destruct ((status <? 200) || (status >? 299)) eqn:E; [done|]. split_and!; try done. exists status, p.
  split; [done|]. apply orb_false_iff in E as [E3 E4]. breflect. lia.
Qed.

(** [Transport.Dial] leaks nothing: when it fails, a QUIC connection it
opened is closed, exactly once, and a request stream it opened is cancelled;
when it succeeds both stay open, the peer had enabled Extended CONNECT and
datagrams on every layer, and the answer was a 2xx. *)
Theorem dial_no_leak t env req :
  let '(l, r) := Transport_Dial t env req in
  match r with
  | Err _ => times dialled l = times connection_closed l /\ (times dialled l <= 1)%nat /\ times opened l = times cancelled l
  | Ok _ => times dialled l = 1%nat /\ times opened l = 1%nat /\ times cancelled l = 0%nat
            /\ times connection_closed l = 0%nat
            /\ (exists addr, tr_dial t addr = Some (true, true)) /\ tr_quic t <> Some false
            /\ de_extended env = true /\ de_datagrams env = true
            /\ exists status p, de_response env = Some (status, p) /\ 200 <= status <= 299
  end.
Proof.
  unfold Transport_Dial. destruct (dr_URL req) as [u|] eqn:Eu; [|cbn; split_and!; done || lia].
  split_if; [cbn; split_and!; done || lia|].
  destruct (match tr_quic t with None => true | Some d => d end) eqn:Eq; [|cbn; split_and!; done || lia].
  cbn [negb]. cbv zeta. set (addr := if same (du_Port u) [] then _ else _).
  destruct (tr_dial t addr) as [[loc rem]|] eqn:Ed; [|cbn; split_and!; done || lia].
  unfold NewClientConn. cbn [fst snd]. destruct loc, rem; try (cbn; split_and!; done || lia). cbn [negb orb].
  pose proof (dial_streams env req) as Hd. destruct (dial env req) as [l r]. destruct Hd as (H1 & H2 & H3).
  unfold times in *. destruct r as [ra|e].
  - destruct H3 as (-> & H4 & H5 & H6). cbn. split_and!; try done; [by exists addr|]. intros Hn. by rewrite Hn in Eq.
  - change (Dialled addr :: l ++ [ClosedConnection]) with ([Dialled addr] ++ l ++ [ClosedConnection]).
    rewrite !List.filter_app, !length_app, H1, H2, H3. cbn. split_and!; lia.
Qed.

(** ** The pinned relay: [internal/masque/client.go] *)

Record client_config := {
  cc_RelayAddress : gostring;
  cc_RelayServerName : gostring;
  cc_RelayCertSHA256 : gostring;
  cc_TargetAddress : gostring;
  cc_Timeout : Z;
}.

(** A certificate of the peer: its DER text and what it says. *)
Record certificate := { crt_Raw : list Z; crt_parsed : x509_certificate }.

(** [TemplatePanic]: [uritemplate.MustNew] panics. *)
Inductive open_error :=
| BadRelayAddress | BadTargetAddress | NoServerName | BadPin | TemplatePanic | BadRequest | TunnelFailed (e : dial_error).

(** The connection of a [Tunnel]; one made by [Transport.Dial] owns its QUIC connection. *)
Record Tunnel := { tn_remote : remote_addr; tn_owns : bool; tn_conn : deadlines }.
Definition Tunnel_Close (t : Tunnel) : list conn_action := Conn_Close (tn_owns t) (tn_conn t).

(** How long opening may take. *)
Definition open_timeout (cfg : client_config) : Z := if cc_Timeout cfg <=? 0 then 5 * Second else cc_Timeout cfg.

(** The template the client expands, for the text of a relay endpoint. *)
Definition client_template (relayAddress : gostring) : gostring :=
  str "https://" ++ relayAddress ++ str "/.well-known/masque/udp/{target_host}/{target_port}/".

Section Pinned.
  Context {H : Hashes} (MustNew : gostring -> option Template).

Definition parseLiteralAddrPort (value : gostring) : option AddrPort :=
  address ← ParseAddrPort value;
  if negb (Addr_IsValid (ap_addr address)) || (ap_port address =? 0) then None else Some address.

(** The [VerifyConnection] callback: the chain the peer presented. *)
Definition VerifyConnection (pin : list Z) (serverName : gostring) (chain : list certificate) (now : Z) : bool :=
  match chain with
  | [] => false
  | leaf :: _ =>
    if (now <? x_NotBefore (crt_parsed leaf)) || (x_NotAfter (crt_parsed leaf) <? now) then false
    else if negb (VerifyHostname (crt_parsed leaf) serverName) then false
    else bool_decide (sha256 (crt_Raw leaf) = pin)
  end.

(** A relay at the other end: the certificates it presents, and the datagram
support it negotiates.  [quic.DialAddr] fails unless [VerifyConnection] accepts. *)
Record peer := { p_chain : list certificate; p_datagrams : bool * bool; p_now : Z }.

Definition pinned_dial (relayAddress : gostring) (pin : list Z) (serverName : gostring)
  (network : gostring -> option peer) (address : gostring) : option (bool * bool) :=
  if negb (same address relayAddress) then None
  else
    p ← network relayAddress;
    if VerifyConnection pin serverName (p_chain p) (p_now p) then Some (p_datagrams p) else None.

(** [Open]; [MustNew] parses a template, [parse_url] gives host and port of an
expanded one, and [env] is how the dialling goes, given the time it may take. *)
Definition Open (parse_url : gostring -> option dial_url) (network : gostring -> option peer) (env : Z -> dial_env)
  (cfg : client_config) : result open_error Tunnel :=
  match parseLiteralAddrPort (cc_RelayAddress cfg) with
  | None => Err BadRelayAddress
  | Some relay =>
    match parseLiteralAddrPort (cc_TargetAddress cfg) with
    | None => Err BadTargetAddress
    | Some target =>
      if same (cc_RelayServerName cfg) [] then Err NoServerName
      else match hex_DecodeString (cc_RelayCertSHA256 cfg) with
      | None => Err BadPin
      | Some pin =>
        if negb (len pin =? 32) then Err BadPin
        else
          let relayAddress := AddrPort_String relay in
          match MustNew (client_template relayAddress) with
          | None => Err TemplatePanic
          | Some proxyTemplate =>
            match NewRequest (T := proxyTemplate) (fun u => du_Host <$> parse_url u) (AddrPort_String target) with
            | None => Err BadRequest
            | Some httpReq =>
              let t := {| tr_quic := Some true;
                          tr_dial := pinned_dial relayAddress pin (cc_RelayServerName cfg) network |} in
              let req := {| dr_URL := parse_url (hr_URL httpReq); dr_Host := hr_Host httpReq;
                            dr_target := AddrPort_String target |} in
              match snd (Transport_Dial t (env (open_timeout cfg)) req) with
              | Err e => Err (TunnelFailed e)
              | Ok raddr => Ok {| tn_remote := raddr; tn_owns := true; tn_conn := new_deadlines |}
              end
            end
          end
      end
    end
  end.
End Pinned.

(** A leaf that the pinned dial accepts. *)
Lemma pinned_dial_ok {H : Hashes} relayAddress pin name network address d :
  pinned_dial relayAddress pin name network address = Some d ->
  address = relayAddress /\ exists p leaf rest, network relayAddress = Some p /\ p_chain p = leaf :: rest
  /\ sha256 (crt_Raw leaf) = pin /\ x_NotBefore (crt_parsed leaf) <= p_now p <= x_NotAfter (crt_parsed leaf)
  /\ VerifyHostname (crt_parsed leaf) name = true.
Proof.
  unfold pinned_dial. destruct (same_spec address relayAddress) as [->|]; [|done]. cbn [negb].
  destruct (network relayAddress) as [p|] eqn:En; [|done]. cbn [mbind option_bind].
  unfold VerifyConnection. destruct (p_chain p) as [|leaf rest] eqn:Ec; [done|].
  destruct (_ || _) eqn:E4; [done|]. apply orb_false_iff in E4 as [E4 E5].
  destruct (VerifyHostname _ _) eqn:E6; [|done]. cbn [negb]. destruct (bool_decide _) eqn:Ev; [|done].
  apply bool_decide_eq_true in Ev. breflect. intros _. split; [done|]. exists p, leaf, rest. split_and!; done || lia.
Qed.

(** C33: A tunnel is only opened through the pinned relay.  If [Open] succeeds, the
relay and target are literal endpoints with a port, the pin has 32 bytes, the
connection went to exactly that relay endpoint, and the leaf certificate the peer
presented hashes to the pin, is within its validity period and is for the
configured name; the relay answered with a 2xx within the timeout; and closing the
tunnel ends with closing the QUIC connection. *)
Theorem Open_pinned {H : Hashes} MustNew parse_url network env cfg tunnel :
  Open MustNew parse_url network env cfg = Ok tunnel ->
  exists relay target pin p leaf rest,
    ParseAddrPort (cc_RelayAddress cfg) = Some relay /\ ap_port relay <> 0
    /\ ParseAddrPort (cc_TargetAddress cfg) = Some target /\ ap_port target <> 0
    /\ hex_DecodeString (cc_RelayCertSHA256 cfg) = Some pin /\ len pin = 32
    /\ network (AddrPort_String relay) = Some p /\ p_chain p = leaf :: rest
    /\ sha256 (crt_Raw leaf) = pin /\ x_NotBefore (crt_parsed leaf) <= p_now p <= x_NotAfter (crt_parsed leaf)
    /\ VerifyHostname (crt_parsed leaf) (cc_RelayServerName cfg) = true
    /\ (exists status ps, de_response (env (open_timeout cfg)) = Some (status, ps) /\ 200 <= status <= 299)
    /\ 0 < open_timeout cfg /\ List.last (Tunnel_Close tunnel) StreamCancelRead = QUICClosed.
Proof.
  unfold Open, parseLiteralAddrPort.
  destruct (ParseAddrPort (cc_RelayAddress cfg)) as [relay|]; [|done]. cbn [mbind option_bind].
  destruct (_ || _) eqn:E1; [done|]. apply orb_false_iff in E1 as [_ E1].
  destruct (ParseAddrPort (cc_TargetAddress cfg)) as [target|]; [|done]. cbn [mbind option_bind].
  destruct (_ || _) eqn:E2; [done|]. apply orb_false_iff in E2 as [_ E2]. split_if; [done|].
  destruct (hex_DecodeString _) as [pin|]; [|done]. destruct (len pin =? 32) eqn:E3; [|done]. cbn [negb]. cbv zeta.
  destruct (MustNew _) as [T|]; [|done]. destruct (NewRequest _ _) as [hr|]; [|done].
  unfold Transport_Dial. cbn [dr_URL tr_quic tr_dial].
  destruct (parse_url (hr_URL hr)) as [u|]; [|done]. split_if; [done|]. cbn [negb]. cbv zeta.
  set (addr := if same (du_Port u) [] then _ else _).
  destruct (pinned_dial _ _ _ _ addr) as [d|] eqn:Ed; [|done].
  apply pinned_dial_ok in Ed as (_ & p & leaf & rest & H1 & H2 & H3 & H4 & H5). destruct (NewClientConn _); [|done].
  pose proof (dial_streams (env (open_timeout cfg))
    {| dr_URL := Some u; dr_Host := hr_Host hr; dr_target := AddrPort_String target |}) as Hd.
  destruct (dial _ _) as [l r]. destruct r as [ra|e]; [|done]. destruct Hd as (_ & _ & _ & _ & _ & Hs). intros [= <-].
  breflect. exists relay, target, pin, p, leaf, rest. split_and!; try done; try lia.
  unfold open_timeout, Second. destruct (cc_Timeout cfg <=? 0) eqn:Et; breflect; lia.
Qed.

Definition sample_client_template : Template :=
  {| template_host := Some (str "203.0.113.9:443"); template_match := fun _ => ([], []);
     template_expand := fun host port => Some (str "https://203.0.113.9:443/" ++ host ++ str "/" ++ port) |}.
Definition client_url (u : gostring) : option dial_url :=
  Some {| du_Host := str "203.0.113.9:443"; du_Hostname := str "203.0.113.9"; du_Port := str "443" |}.
Definition relay_leaf : certificate :=
  {| crt_Raw := [1; 2];
     crt_parsed := {| x_NotBefore := 0; x_NotAfter := 100; x_DNSNames := [str "relay"]; x_IPAddresses := [] |} |}.
Definition relay_peer : peer := {| p_chain := [relay_leaf]; p_datagrams := (true, true); p_now := 50 |}.
Definition client_env : dial_env :=
  {| de_settle := SettingsReceived; de_extended := true; de_datagrams := true; de_open := true; de_send := true;
     de_response := Some (200, NextHop (str "9.9.9.9:53")); de_service := fun _ => None |}.
Definition client_sample : client_config :=
  {| cc_RelayAddress := str "203.0.113.9:443"; cc_RelayServerName := str "relay";
     cc_RelayCertSHA256 := hex_EncodeToString (@sha256 sample_hashes [1; 2]); cc_TargetAddress := str "9.9.9.9:53";
     cc_Timeout := 0 |}.
Lemma Open_pinned_witness :
  exists pin, hex_DecodeString (cc_RelayCertSHA256 client_sample) = Some pin /\ len pin = 32.
Proof.
  destruct (@Open_pinned sample_hashes (fun _ => Some sample_client_template) client_url (fun _ => Some relay_peer)
              (fun _ => client_env) client_sample
              {| tn_remote := RemoteUDP (A4 0x09090909) 53; tn_owns := true; tn_conn := new_deadlines |})
    as (relay & target & pin & p & leaf & rest & _ & _ & _ & _ & H5 & H6 & _).
  - vm_compute. reflexivity.
  - exists pin. exact (conj H5 H6).
Defined.
