(* ===== verification/Reach.v ===== *)
(** * From the announcement to a tunnel

The two ends of the system composed: a relay that was started ([Startup],
[Certificate], [Server]) and a client that was given the metadata the relay
announced ([MasqueConn]).  The client's certificate check accepts the relay, so that
[Open] gets to its request; and the request means at the relay what it meant at the
client.  [Exchange] composes these with the bytes in between.  URI templates are a
third-party package; [template_law] is what both sides rely on. *)

From stdpp Require Import base gmap strings list numbers.
From Stdlib Require Import ZArith Lia.
From S2P Require Import Prelude.
From S2P Require Import GoStrings.
From S2P Require Import Paths.
From S2P Require Import Netip.
From S2P Require Import Endpoints.
From S2P Require Import TargetPolicy.
From S2P Require Import Sessions.
From S2P Require Import Base58.
From S2P Require Import AccessConfig.
From S2P Require Import Bolt.
From S2P Require Import Tickets.
From S2P Require Import Samples.
From S2P Require Import Authorize.
From S2P Require Import ProxyRequest.
From S2P Require Import Certificate.
From S2P Require Import TicketService.
From S2P Require Import Server.
From S2P Require Import Startup.
From S2P Require Import MasqueConn.

Local Open Scope Z_scope.

(** ** The request *)

(** The characters of an address without a zone, and of a port. *)
Definition host_char (c : Z) : Prop := v6_char c \/ c = 46.

(** The template of a relay at [authority]: expanding it with a host and a port
gives a URL of that authority, with a port, which it matches with the same values. *)
Record template_law (parse_url : gostring -> option dial_url) (authority : gostring) (T : Template) : Prop := {
  tl_host : template_host = Some authority;
  tl_expand h p : h <> [] -> Forall host_char h -> p <> [] -> Forall host_char p ->
    exists u url, template_expand h p = Some u /\ template_match u = (h, p)
      /\ parse_url u = Some url /\ du_Host url = authority /\ du_Port url <> [];
}.

(** A target a client may ask for. *)
Definition target_ok (t : AddrPort) : Prop :=
  addr_wf (ap_addr t) /\ Addr_IsValid (ap_addr t) = true /\ Zone (ap_addr t) = [] /\ 0 < ap_port t < 65536.

Lemma FormatUint_chars n : 0 <= n -> Forall host_char (FormatUint n).
Proof.
  intros Hn. eapply List.Forall_impl; [|by apply FormatUint_digits]. cbn. intros c Hc. unfold is_digit in Hc. breflect.
  left. left. lia.
Qed.

Lemma string_v4_host v : Forall host_char (string_v4 v).
Proof.
  unfold string_v4. pose proof (fun i => FormatUint_chars (v4 v i) ltac:(apply v4_range)) as Ho.
  repeat (apply Forall_app_2; [apply Ho|constructor; [by right|]]). apply Ho.
Qed.

Lemma host_text_chars a : Addr_IsValid a = true -> Zone a = [] -> Addr_String a <> [] /\ Forall host_char (Addr_String a).
Proof.
  destruct a as [|v|v z]; [done| |]; intros _ Hz.
  - split; [|apply string_v4_host]. cbn [Addr_String]. destruct (string_v4_head v) as (d & r & _ & ->). done.
  - cbn in Hz. subst z. cbn [Addr_String with_zone]. split_if.
    + split; [done|]. apply Forall_app_2; [|apply string_v4_host].
      change (str "::ffff:") with [58; 58; 102; 102; 102; 102; 58]. repeat (constructor; [left; unfold v6_char; lia|]). constructor.
    + split; [destruct (v6_text_colon v) as ([|c pre] & rest & -> & _); done|].
      eapply List.Forall_impl; [|apply string_v6_chars]. by left.
Qed.

Lemma host_text_colon a : Addr_IsValid a = true -> Zone a = [] -> contains_byte (Addr_String a) 58 = Is6 a.
Proof.
  destruct a as [|v|v z]; [done| |]; intros _ Hz.
  - apply contains_byte_lacks, string_v4_lacks. lia.
  - cbn in Hz. subst z. cbn [Addr_String with_zone Is6]. split_if; [done|].
    destruct (v6_text_colon v) as (pre & rest & -> & _). apply contains_byte_mid.
Qed.

Section Request.
  Context (parse_url : gostring -> option dial_url) (authority : gostring) {T : Template}.
  Context (law : template_law parse_url authority T).

(** The request of a client for a target is parsed by the relay as that target. *)
Lemma request_understood t : target_ok t ->
  exists r url, NewRequest (fun u => du_Host <$> parse_url u) (AddrPort_String t) = Some r
    /\ hr_Host r = authority /\ parse_url (hr_URL r) = Some url /\ du_Host url = authority /\ du_Port url <> []
    /\ ParseProxyRequest r = Ok {| pr_Target := AddrPort_String t; pr_Host := authority |}.
Proof.
  destruct t as [a port]. intros (Hw & Hv & Hz & Hp). cbn [ap_addr ap_port] in *.
  destruct (host_text_chars a Hv Hz) as [Hne Hch].
  destruct (tl_expand _ _ _ law (Addr_String a) (FormatUint port) Hne Hch (FormatUint_nonempty port)
    (FormatUint_chars port ltac:(lia))) as (u & url & He & Hm & Hu & Hh & Hpo).
  unfold NewRequest. change {| ap_addr := a; ap_port := port |} with (AddrPortFrom a port).
  rewrite SplitHostPort_String by (done || lia). cbn [mbind option_bind]. rewrite He. cbn [mbind option_bind]. rewrite Hu.
  cbn [fmap option_fmap option_map mbind option_bind]. eexists _, url. split; [reflexivity|]. cbn [hr_Host hr_URL].
  split_and!; try done. unfold ParseProxyRequest. rewrite (tl_host _ _ _ law). cbn [hr_Method hr_Proto hr_Host hr_capsule hr_URL].
  rewrite Hh. destruct (same_spec authority authority); [|done]. cbn [negb]. rewrite Hm.
  destruct (same_spec (Addr_String a) []); [done|]. destruct (same_spec (FormatUint port) []); [by destruct (FormatUint_nonempty port)|].
  assert (FormatInt port = FormatUint port) as Ef by (unfold FormatInt; split_if; [breflect; lia|done]).
  unfold Atoi. rewrite <- Ef at 1. rewrite ParseInt64_FormatInt by lia. rewrite Ef, (host_text_colon a Hv Hz).
  do 2 f_equal. destruct a as [|v|v z]; [done|done|]. cbn [Is6 AddrPort_String AddrPortFrom ap_addr ap_port].
  change (str "[") with [91]. change (str "]") with [93]. change (str ":") with [58]. by rewrite <- !app_assoc.
Qed.
End Request.

(** What the handler answers to a request it understood, from an authorized client. *)
Section Outcome.
  Context {B : Bucket} {Hs : Hashes} {C : Crypto} {T : Template}.

Lemma connect_outcome_table mode policy env dial s a tickets rq a' tickets' account until t host :
  target_ok t -> authorize mode policy env a tickets (cr_auth rq) = (a', tickets', Allowed account until) ->
  cr_Control rq <> str "authorize" -> ParseProxyRequest (cr_http rq) = Ok {| pr_Target := AddrPort_String t; pr_Host := host |} ->
  let target := AddrPortFrom (Unmap (ap_addr t)) (ap_port t) in
  let source := if negb (same account []) then str "account:" ++ account else sourceHost (cr_RemoteAddr rq) in
  snd (connect_udp mode policy env dial s a tickets rq)
  = if negb (targetAllowed (r_targets s) target) then Responded 403
    else if negb (snd (acquire (r_sessions s) source)) then Responded 429
    else if negb (dial target) then Responded 502
    else Server.Tunnel source target.
Proof.
  intros (Hw & Hv & Hz & Hp) Ha Hc Hr. unfold connect_udp, connect_admit, connect_dial. rewrite Ha. destruct (same_spec (cr_Control rq) (str "authorize")); [done|].
  rewrite Hr. cbn [pr_Target]. destruct t as [ad port]. cbn [ap_addr ap_port] in *.
  change {| ap_addr := ad; ap_port := port |} with (AddrPortFrom ad port). rewrite ParseAddrPort_String by (done || lia).
  cbn [ap_addr ap_port AddrPortFrom]. cbv zeta. destruct (targetAllowed _ _); [|done]. cbn [negb].
  destruct (acquire _ _) as [ss [|]]; [|done]. cbn [snd negb]. by destruct (dial _).
Qed.
End Outcome.

(** ** The client at the relay *)

(** What the relay presents and negotiates, as the client's stack sees it. *)
Record presented {X : X509} (http : http3_config) (p : peer) : Prop := {
  rp_chain : Certificates http = [map crt_Raw (p_chain p)];
  rp_parsed : Forall (fun c => ParseCertificate (crt_Raw c) = Some (crt_parsed c)) (p_chain p);
  rp_datagrams : p_datagrams p = (true, quic_EnableDatagrams http);
  rp_valid : forall leaf rest, p_chain p = leaf :: rest -> x_NotBefore (crt_parsed leaf) <= p_now p <= x_NotAfter (crt_parsed leaf);
}.

Lemma AddrPort_String_nonempty p : AddrPort_String p <> [].
Proof.
  destruct p as [[|v|v z] port]; [done| |done]. cbn [AddrPort_String ap_addr ap_port].
  destruct (string_v4_head v) as (d & r & _ & ->). done.
Qed.

Section Reach.
  Context {B : Bucket} {H : Hashes} {HO : HashesOk H} {C : Crypto} {X : X509} {XO : X509Ok X}.
  Context (url_Parse : gostring -> option url) (template_ok : gostring -> bool).

(** The relay's certificate is what the client's check expects. *)
Lemma relay_accepted env c w w' sv md p : Start url_Parse template_ok env c w = (w', Ok (sv, md)) ->
  Clean (CertificatePath c) <> Clean (PrivateKeyPath c) -> hostname_ok (ServerName c) = true ->
  - 7200 <= ce_zone' (s_cert env) - ce_zone (s_cert env) <= 7200 -> presented (sv_http sv) p ->
  exists pin, hex_DecodeString (RelayCertSHA256 md) = Some pin /\ len pin = 32
    /\ VerifyConnection pin (RelayServerName md) (p_chain p) (p_now p) = true.
Proof.
  intros Hs Hne Hn Hz [Hc Hpa _ Hv]. destruct (Start_ok _ _ _ _ _ _ _ _ Hs) as (public & f & chain & Hpr & _ & [Hht _] & _ & _ & _ & ->).
  destruct Hpr as [_ _ _ _ (der & Hce & Hpin) _ _].
  destruct (certificate_identity _ _ _ _ _ _ _ _ Hce Hne Hn Hz) as [(leaf & rest & -> & Hleaf & Hname & _) _].
  rewrite Hht in Hc. cbn in Hc. injection Hc as Hc. cbn [RelayCertSHA256 RelayServerName]. rewrite Hpin.
  exists (sha256 der). split_and!; [apply hex_roundtrip, sha256_bytes|unfold len; by rewrite sha256_length|].
  destruct (p_chain p) as [|l ls] eqn:El; [done|]. injection Hc as Hraw _. inversion_clear Hpa as [|? ? Hl _].
  rewrite <- Hraw, Hleaf in Hl. injection Hl as Hl. specialize (Hv l ls eq_refl). unfold VerifyConnection.
  rewrite <- Hraw, <- Hl in *. rewrite Hname, bool_decide_true by done. cbn [negb].
  destruct (_ || _) eqn:E; [|done]. apply orb_prop in E as [E|E]; breflect; lia.
Qed.

(** A client that was given the announced metadata. *)
Definition client_of (md : Metadata) (t : AddrPort) (timeout : Z) : client_config :=
  {| cc_RelayAddress := RelayAddress md; cc_RelayServerName := RelayServerName md;
     cc_RelayCertSHA256 := RelayCertSHA256 md; cc_TargetAddress := AddrPort_String t; cc_Timeout := timeout |}.

Lemma parseLiteral_target t : target_ok t -> parseLiteralAddrPort (AddrPort_String t) = Some t.
Proof.
  destruct t as [a port]. intros (Hw & Hv & _ & Hp). cbn [ap_addr ap_port] in *. unfold parseLiteralAddrPort.
  change {| ap_addr := a; ap_port := port |} with (AddrPortFrom a port). rewrite ParseAddrPort_String by (done || lia).
  cbn [mbind option_bind AddrPortFrom ap_addr ap_port]. rewrite Hv, (proj2 (Z.eqb_neq _ _)) by lia. done.
Qed.

Lemma parseLiteral_relay env c w w' sv md : Start url_Parse template_ok env c w = (w', Ok (sv, md)) ->
  exists public, parseLiteralAddrPort (RelayAddress md) = Some public /\ RelayAddress md = AddrPort_String public
    /\ sv_template sv = client_template (RelayAddress md) /\ RelayServerName md <> []
    /\ quic_EnableDatagrams (sv_http sv) = true /\ http3_EnableDatagrams (sv_http sv) = true.
Proof.
  intros Hs. destruct (Start_announces _ _ _ _ _ _ _ _ Hs) as (public & Hl & Hr & Hp). exists public.
  destruct (Start_ok _ _ _ _ _ _ _ _ Hs) as (public' & f & chain & Hpr & _ & [Hht Hte] & _ & _ & _ & Hmd).
  assert (public' = public) as -> by (pose proof (pr_public _ _ _ _ _ _ _ _ _ _ Hpr); congruence).
  unfold literal_endpoint in Hl. unfold parseLiteralAddrPort. apply bind_Some in Hl as (q & Hq & Hl).
  destruct (_ || _) eqn:E in Hl; [done|]. injection Hl as ->. rewrite Hp. cbn [mbind option_bind]. rewrite E, Hte, Hht, Hr.
  split_and!; try done. pose proof (pr_name _ _ _ _ _ _ _ _ _ _ Hpr) as Hn. rewrite Hmd. cbn. intros En. rewrite En in Hn.
  change (len (@nil Z)) with 0 in Hn. lia.
Qed.

(** [Open] of such a client goes as far as [dial], and ends as it does. *)
Lemma open_dials env c w w' sv md MustNew T parse_url network denv t timeout p r :
  Start url_Parse template_ok env c w = (w', Ok (sv, md)) ->
  Clean (CertificatePath c) <> Clean (PrivateKeyPath c) -> hostname_ok (ServerName c) = true ->
  - 7200 <= ce_zone' (s_cert env) - ce_zone (s_cert env) <= 7200 ->
  MustNew (sv_template sv) = Some T -> template_law parse_url (RelayAddress md) T ->
  network (RelayAddress md) = Some p -> presented (sv_http sv) p -> target_ok t ->
  NewRequest (T := T) (fun u => du_Host <$> parse_url u) (AddrPort_String t) = Some r ->
  exists url, parse_url (hr_URL r) = Some url
    /\ MasqueConn.Open MustNew parse_url network denv (client_of md t timeout)
       = match snd (dial (denv (open_timeout (client_of md t timeout)))
                        {| dr_URL := Some url; dr_Host := hr_Host r; dr_target := AddrPort_String t |}) with
         | Err e => Err (TunnelFailed e)
         | Ok raddr => Ok {| tn_remote := raddr; tn_owns := true; tn_conn := new_deadlines |}
         end.
Proof.
  intros Hs Hne Hn Hz HT Hlaw Hnet Hpeer Ht Hr'.
  destruct (relay_accepted _ _ _ _ _ _ _ Hs Hne Hn Hz Hpeer) as (pin & Hpin & Hlen & Hver).
  destruct (parseLiteral_relay _ _ _ _ _ _ Hs) as (public & Hpu & Hra & Hte & Hsn & Hqd & Hhd).
  destruct (request_understood _ _ Hlaw t Ht) as (r0 & u & Hr & Hh & Hu & Huh & Hup & _). rewrite Hr' in Hr. injection Hr as <-.
  exists u. split; [done|].
  unfold MasqueConn.Open. cbn [client_of cc_RelayAddress cc_TargetAddress cc_RelayServerName cc_RelayCertSHA256].
  rewrite Hpu, (parseLiteral_target t Ht), Hpin, Hlen. destruct (same_spec (RelayServerName md) []); [done|]. cbn [Z.eqb Pos.eqb negb].
  rewrite <- Hra, <- Hte, HT, Hr'. cbv zeta. unfold Transport_Dial. cbn [dr_URL tr_quic tr_dial dr_Host]. rewrite Hu, Huh.
  assert (RelayAddress md <> []) as Hne' by (rewrite Hra; apply AddrPort_String_nonempty).
  destruct (same_spec (RelayAddress md) []); [done|]. cbn [negb]. destruct (same_spec (du_Port u) []); [done|].
  unfold pinned_dial. destruct (same_spec (RelayAddress md) (RelayAddress md)); [|done]. cbn [negb].
  rewrite Hnet. cbn [mbind option_bind]. rewrite Hver, (rp_datagrams _ _ Hpeer), Hqd. cbn [NewClientConn fst snd negb orb].
  destruct (dial _ _) as [l [raddr|err]]; done.
Qed.
End Reach.

(** ** A concrete pair *)

#[local] Existing Instance sample_x509.
#[local] Existing Instance sample_x509_ok.

Definition reach_authority : gostring := str "9.9.9.9:443".
Definition reach_prefix : gostring := str "https://9.9.9.9:443/.well-known/masque/udp".
Definition reach_template : Template :=
  {| template_host := Some reach_authority;
     template_match := fun u => match Split u 47 with [_; _; _; _; _; _; h; p; _] => (h, p) | _ => ([], []) end;
     template_expand := fun h p => Some (reach_prefix ++ 47 :: h ++ 47 :: p ++ [47]) |}.
Definition reach_url (u : gostring) : option dial_url :=
  Some {| du_Host := reach_authority; du_Hostname := str "9.9.9.9"; du_Port := str "443" |}.

Lemma reach_law : template_law reach_url reach_authority reach_template.
Proof.
  split; [done|]. intros h p _ Hh _ Hp. eexists _, _. split; [reflexivity|]. split; [|done].
  assert (forall s, Forall host_char s -> lacks 47 s) as Hl.
  { intros s Hs. eapply List.Forall_impl; [|exact Hs]. unfold host_char, v6_char. cbn. intros. lia. }
  cbn [template_match reach_template]. change (p ++ [47]) with (p ++ 47 :: []).
  rewrite !Split_sep, (Split_lacks 47 h), (Split_lacks 47 p) by auto. vm_compute (Split reach_prefix 47). reflexivity.
Qed.

(** The relay of [Startup]'s sample, as a peer. *)
Definition reach_http : http3_config := match snd first_run with Ok (sv, _) => sv_http sv | Err _ => relay_http [] end.
Definition reach_cert (der : list Z) : certificate :=
  {| crt_Raw := der;
     crt_parsed := default {| x_NotBefore := 0; x_NotAfter := 0; x_DNSNames := []; x_IPAddresses := [] |} (ParseCertificate der) |}.
Definition reach_peer : peer :=
  {| p_chain := map reach_cert (List.concat (Certificates reach_http)); p_datagrams := (true, true); p_now := 20000 * day |}.
Definition reach_target : AddrPort := AddrPortFrom (A4 0x01010101) 53.

Lemma reach_presented : presented reach_http reach_peer.
Proof.
  split; [vm_compute; reflexivity| |vm_compute; reflexivity|].
  - assert (forallb (fun der => match ParseCertificate der with Some _ => true | None => false end)
      (List.concat (Certificates reach_http)) = true) as Hb by (vm_compute; reflexivity).
    rewrite forallb_forall in Hb. apply Forall_map, List.Forall_forall. intros der Hd. specialize (Hb der Hd).
    cbn [crt_Raw crt_parsed reach_cert]. by destruct (ParseCertificate der).
  - intros leaf rest E.
    assert (match p_chain reach_peer with
            | l :: _ => (x_NotBefore (crt_parsed l) <=? p_now reach_peer) && (p_now reach_peer <=? x_NotAfter (crt_parsed l))
            | [] => true end = true) as Hb by (vm_compute; reflexivity).
    rewrite E in Hb. apply andb_prop in Hb as [H1 H2]. split; [by apply Z.leb_le in H1|by apply Z.leb_le in H2].
Qed.
