(* ===== verification/ProxyFlows.v ===== *)
(** * Flows of the proxy

[third_party/masque-go/proxy.go]: the lifetime of proxied flows
([ProxyConnectedSocket], [proxyEntry.Close], [Proxy.Close]) and the answers of
[Proxy.Proxy].  A flow is three goroutines (towards the target, from the target,
and the reader of the request stream); what each has done, and which ends of the
flow are closed, is its state.  The loops themselves are in [Tunnel], the request
stream's capsules in [Capsule]. *)

From stdpp Require Import base list numbers.
From Stdlib Require Import ZArith Lia String.
From S2P Require Import Prelude.
From S2P Require Import GoStrings.

Local Open Scope Z_scope.

(** ** Data *)

Record flow := mkFlow {
  fl_send : bool;          (** [proxyConnSend] is running *)
  fl_receive : bool;       (** [proxyConnReceive] is running *)
  fl_skip : bool;          (** [skipCapsules] is running *)
  fl_str_closed : bool;    (** [str.Close] was called *)
  fl_read_ended : bool;    (** reads from the stream fail: cancelled here or ended by the peer *)
  fl_conn_closed : bool;   (** the UDP socket is closed *)
  fl_registered : bool;    (** in [closers] *)
  fl_returned : bool;      (** [ProxyConnectedSocket] has returned *)
}.

Record Proxy := mkProxy {
  px_closed : bool;
  px_refCount : Z;
  px_flows : list flow;
}.
Definition zero_proxy : Proxy := mkProxy false 0 [].

(** ** Operations *)

(** The part of [ProxyConnectedSocket] under the mutex: a closed proxy closes the
socket and answers 503, an open one registers the flow and starts it. *)
Definition ProxyConnectedSocket (p : Proxy) : Proxy * Z :=
  if px_closed p then
    (mkProxy true (px_refCount p) (px_flows p ++ [mkFlow false false false false false true false true]), 503)
  else
    (mkProxy false (px_refCount p + 1) (px_flows p ++ [mkFlow true true true false false false true false]), 200).

(** [proxyEntry.Close] *)
Definition entry_Close (f : flow) : flow :=
  mkFlow (fl_send f) (fl_receive f) (fl_skip f) true true true (fl_registered f) (fl_returned f).

(** [Proxy.Close] up to waiting for the flows. *)
Definition Proxy_Close (p : Proxy) : Proxy :=
  mkProxy true (px_refCount p) (map (fun f => if fl_registered f then entry_Close f else f) (px_flows p)).

(** What happens to a running flow. *)
Inductive flow_event :=
| PeerEnds          (** the client ends or resets the request stream *)
| SendEnds          (** [proxyConnSend] returns and closes the stream *)
| ReceiveEnds       (** [proxyConnReceive] returns and closes the stream *)
| SkipEnds          (** [skipCapsules] returns; stream and socket are closed *)
| FlowReturns.      (** both goroutines are done: unregister and return *)

Definition flow_step (f : flow) (e : flow_event) : option flow :=
  match e with
  | PeerEnds => Some (mkFlow (fl_send f) (fl_receive f) (fl_skip f) (fl_str_closed f) true (fl_conn_closed f)
                             (fl_registered f) (fl_returned f))
  | SendEnds => if fl_send f then
      Some (mkFlow false (fl_receive f) (fl_skip f) true (fl_read_ended f) (fl_conn_closed f)
                   (fl_registered f) (fl_returned f)) else None
  | ReceiveEnds => if fl_receive f then
      Some (mkFlow (fl_send f) false (fl_skip f) true (fl_read_ended f) (fl_conn_closed f)
                   (fl_registered f) (fl_returned f)) else None
  | SkipEnds => if fl_skip f && fl_read_ended f then
      Some (mkFlow (fl_send f) (fl_receive f) false true (fl_read_ended f) true
                   (fl_registered f) (fl_returned f)) else None
  | FlowReturns =>
    if negb (fl_send f) && negb (fl_receive f) && negb (fl_skip f) && negb (fl_returned f) then
      Some (mkFlow false false false (fl_str_closed f) (fl_read_ended f) (fl_conn_closed f) false true)
    else None
  end.

Inductive proxy_op := StartFlow | CloseProxy | FlowStep (i : nat) (e : flow_event).
Definition run_proxy (p : Proxy) (o : proxy_op) : option Proxy :=
  match o with
  | StartFlow => Some (fst (ProxyConnectedSocket p))
  | CloseProxy => Some (Proxy_Close p)
  | FlowStep i e =>
    f ← px_flows p !! i; f' ← flow_step f e;
    Some (mkProxy (px_closed p) (match e with FlowReturns => px_refCount p - 1 | _ => px_refCount p end)
                  (<[i := f']> (px_flows p)))
  end.
Fixpoint run_ops (p : Proxy) (os : list proxy_op) : option Proxy :=
  match os with [] => Some p | o :: os => p' ← run_proxy p o; run_ops p' os end.

(** [Proxy.Close] waits until no flow is counted. *)
Definition close_returns (p : Proxy) : bool := px_closed p && (px_refCount p =? 0).

(** ** Invariant *)

Definition is_running (f : flow) : bool := negb (fl_returned f).
Definition running (l : list flow) : Z := len (List.filter is_running l).

Record flow_ok (closed : bool) (f : flow) : Prop := {
  fo_registered : fl_registered f = is_running f;
  fo_stopped : fl_returned f = true -> fl_send f = false /\ fl_receive f = false /\ fl_skip f = false;
  fo_socket : fl_skip f = false -> fl_conn_closed f = true;
  fo_closed : closed = true -> fl_read_ended f = true \/ fl_returned f = true;
  fo_closed_socket : closed = true -> fl_conn_closed f = true;
}.

Definition proxy_ok (p : Proxy) : Prop :=
  px_refCount p = running (px_flows p) /\ Forall (flow_ok (px_closed p)) (px_flows p).

Lemma running_app l k : running (l ++ k) = running l + running k.
Proof. unfold running. by rewrite List.filter_app, len_app. Qed.

Lemma running_cons f l : running (f :: l) = (if is_running f then 1 else 0) + running l.
Proof. unfold running. cbn [List.filter]. destruct (is_running f); rewrite ?len_cons; lia. Qed.

Lemma running_insert l i f f' : l !! i = Some f ->
  running (<[i := f']> l) = running l - (if is_running f then 1 else 0) + (if is_running f' then 1 else 0).
Proof.
  intros Hi. rewrite (insert_take_drop l i f') by (by eapply lookup_lt_Some).
  rewrite <- (take_drop_middle l i f Hi) at 3. rewrite !running_app, !running_cons. lia.
Qed.

Lemma flow_step_ok c f e f' : flow_ok c f -> flow_step f e = Some f' -> flow_ok c f'.
Proof.
  intros [H1 H2 H3 H4 H5] H. unfold is_running in *. destruct f as [s r k sc re cc rg rt], e; cbn in *.
  - injection H as <-. constructor; cbn; try done. intros Hc. by left.
  - destruct s; [|done]. injection H as <-. constructor; cbn; try done. intros Hrt. by destruct (H2 Hrt).
  - destruct r; [|done]. injection H as <-. constructor; cbn; try done. intros Hrt. by destruct (H2 Hrt) as (_ & ? & _).
  - destruct k, re; try done. injection H as <-. constructor; cbn; try done. intros Hrt. by destruct (H2 Hrt) as (_ & _ & ?).
  - destruct s, r, k, rt; try done. injection H as <-. constructor; cbn; try done. intros Hc. by right.
Qed.

Lemma run_proxy_ok p o p' : proxy_ok p -> run_proxy p o = Some p' -> proxy_ok p'.
Proof.
  intros [Hr Hf] H. destruct o as [| |i e]; cbn in H.
  - injection H as <-. unfold ProxyConnectedSocket, proxy_ok. destruct (px_closed p) eqn:Ec; cbn;
      rewrite running_app, running_cons, Hr; (split; [change (running []) with 0; cbn [is_running fl_returned negb]; lia|]); apply Forall_app_2; try done;
      (constructor; [|constructor]); constructor; try done; by right.
  - injection H as <-. unfold proxy_ok, Proxy_Close. cbn. split.
    + rewrite Hr. clear Hr. induction Hf as [|f l Hff _ IH]; [done|]. cbn [map]. rewrite !running_cons, IH.
      by destruct (fl_registered f).
    + apply Forall_map. eapply List.Forall_impl; [|exact Hf]. intros f [H1 H2 H3 H4 H5]. cbn.
      destruct (fl_registered f) eqn:Eg; unfold is_running in *.
      * constructor; unfold is_running; cbn; [congruence|done|done|by left|done].
      * destruct (fl_returned f) eqn:Et; [|exfalso; destruct f; cbn in *; congruence]. constructor; unfold is_running; rewrite ?Et;
          [congruence|by intros _; apply H2|done|by right|]. intros _. apply H3. by apply H2.
  - destruct (px_flows p !! i) as [f|] eqn:Ei; [|done]. cbn in H. destruct (flow_step f e) as [f'|] eqn:Es; [|done].
    injection H as <-. unfold proxy_ok. cbn. rewrite Forall_lookup in Hf. split.
    + rewrite (running_insert _ _ f f' Ei). destruct f as [s r k sc re cc rg rt], e; cbn in Es; unfold is_running.
      * injection Es as <-. cbn. destruct rt; cbn; lia.
      * destruct s; [|done]. injection Es as <-. cbn. destruct rt; cbn; lia.
      * destruct r; [|done]. injection Es as <-. cbn. destruct rt; cbn; lia.
      * destruct k, re; try done. injection Es as <-. cbn. destruct rt; cbn; lia.
      * destruct s, r, k, rt; try done. injection Es as <-. cbn. lia.
    + apply Forall_insert; [by rewrite Forall_lookup|]. eapply flow_step_ok; [by eapply Hf|done].
Qed.

Lemma run_ops_app p os os' : run_ops p (os ++ os') = (p' ← run_ops p os; run_ops p' os').
Proof. revert p. induction os as [|o os IH]; intros p; [done|]. cbn. destruct (run_proxy p o); [apply IH|done]. Qed.

Lemma run_ops_ok p os p' : proxy_ok p -> run_ops p os = Some p' -> proxy_ok p'.
Proof.
  revert p. induction os as [|o os IH]; intros p Hp H; cbn in H; [by injection H as <-|].
  destruct (run_proxy p o) as [p1|] eqn:E; [|done]. eapply IH; [by eapply run_proxy_ok|done].
Qed.

Lemma zero_proxy_ok : proxy_ok zero_proxy.
Proof. by split; [|constructor]. Qed.

Definition flow_op (o : proxy_op) : Prop := exists i e, o = FlowStep i e.

(** A running flow of a closed proxy ends by its own steps. *)
Lemma finish_flow p i f : proxy_ok p -> px_closed p = true -> px_flows p !! i = Some f -> fl_returned f = false ->
  exists os p', run_ops p os = Some p' /\ Forall flow_op os /\ px_closed p' = true
    /\ px_refCount p' = px_refCount p - 1.
Proof.
  intros [_ Hf] Hc Hi Hn. rewrite Forall_lookup in Hf. destruct (Hf i f Hi) as [_ _ _ Hread _].
  assert (fl_read_ended f = true) as Hre by (destruct (Hread Hc); congruence).
  pose proof (lookup_lt_Some _ _ _ Hi) as Hlt.
  exists ((if fl_send f then [FlowStep i SendEnds] else []) ++ (if fl_receive f then [FlowStep i ReceiveEnds] else [])
          ++ (if fl_skip f then [FlowStep i SkipEnds] else []) ++ [FlowStep i FlowReturns]).
  destruct f as [s r k sc re cc rg rt]. cbn in *. subst re rt.
  destruct s, r, k; cbn; rewrite Hi; cbn; rewrite ?list_lookup_insert_eq by (by rewrite ?length_insert); cbn;
    rewrite ?list_lookup_insert_eq by (by rewrite ?length_insert); cbn;
    rewrite ?list_lookup_insert_eq by (by rewrite ?length_insert); cbn;
    (eexists; split; [reflexivity|]); (split; [|done]); repeat (constructor; [by eexists _, _|]); constructor.
Qed.

Lemma running_pos l : running l <> 0 -> exists i f, l !! i = Some f /\ fl_returned f = false.
Proof.
  induction l as [|f l IH]; [done|]. rewrite running_cons. destruct (is_running f) eqn:E.
  - intros _. exists O, f. split; [done|]. unfold is_running in E. by destruct (fl_returned f).
  - intros H. destruct IH as (i & g & H1 & H2); [lia|]. by exists (S i), g.
Qed.

Lemma flows_finish n p : proxy_ok p -> px_closed p = true -> running (px_flows p) = Z.of_nat n ->
  exists os p', run_ops p os = Some p' /\ Forall flow_op os /\ close_returns p' = true.
Proof.
  revert p. induction n as [|n IH]; intros p Hp Hc Hn.
  - exists [], p. split; [done|]. split; [constructor|]. unfold close_returns. destruct Hp as [-> _]. by rewrite Hc, Hn.
  - destruct (running_pos (px_flows p)) as (i & f & Hi & Hr); [lia|].
    destruct (finish_flow p i f Hp Hc Hi Hr) as (os & p1 & H1 & H2 & H3 & H4).
    pose proof (run_ops_ok _ _ _ Hp H1) as Hp1. destruct (IH p1 Hp1 H3) as (os' & p2 & H5 & H6 & H7).
    { destruct Hp as [Hr0 _], Hp1 as [Hr1 _]. lia. }
    exists (os ++ os'), p2. rewrite run_ops_app, H1. split; [done|]. split; [by apply Forall_app_2|done].
Qed.

(** C32: Flows over any order of starting, ending and closing the proxy.  The
count [Close] waits for is exactly the number of flows that have not returned; a
flow that returned has stopped its goroutines and closed its socket; once the
proxy is closed every new flow is refused with 503 and every running one has its
stream reads failing and its socket closed, so that its own steps end it: [Close]
returns after flow steps only, and when it returns no flow is left. *)
Theorem proxy_lifecycle os p :
  run_ops zero_proxy os = Some p ->
  px_refCount p = running (px_flows p)
  /\ Forall (fun f => fl_returned f = true ->
       fl_send f = false /\ fl_receive f = false /\ fl_skip f = false /\ fl_conn_closed f = true) (px_flows p)
  /\ (px_closed p = true -> snd (ProxyConnectedSocket p) = 503
      /\ Forall (fun f => fl_returned f = true \/ fl_read_ended f = true /\ fl_conn_closed f = true) (px_flows p)
      /\ exists os' p', run_ops p os' = Some p' /\ Forall flow_op os' /\ close_returns p' = true)
  /\ (close_returns p = true -> Forall (fun f => fl_returned f = true) (px_flows p)).
Proof.
  intros Hr. pose proof (run_ops_ok _ _ _ zero_proxy_ok Hr) as Hok. pose proof Hok as [Hc Hf]. split_and!; [done|..].
  - eapply List.Forall_impl; [|exact Hf]. intros f [H1 H2 H3 H4 H5] Ht. destruct (H2 Ht) as (? & ? & ?). auto.
  - intros Hcl. split_and!.
    + unfold ProxyConnectedSocket. by rewrite Hcl.
    + eapply List.Forall_impl; [|exact Hf]. intros f [H1 H2 H3 H4 H5]. destruct (H4 Hcl) as [Hre|]; [right; auto|by left].
    + apply (flows_finish (Z.to_nat (running (px_flows p)))); [done|done|]. unfold running.
      rewrite Z2Nat.id; [done|apply len_nonneg].
  - unfold close_returns. intros H0. apply andb_true_iff in H0 as [_ H0]. apply Z.eqb_eq in H0. rewrite Hc in H0.
    clear - H0. induction (px_flows p) as [|f l IH]; constructor; rewrite running_cons in H0;
      assert (0 <= running l) by apply len_nonneg; unfold is_running in H0; destruct (fl_returned f); cbn in H0; try done; try lia.
    apply IH. lia.
Qed.

Definition proxy_sample : list proxy_op := [StartFlow; StartFlow; FlowStep 0 SendEnds; CloseProxy; StartFlow].
Lemma proxy_lifecycle_witness :
  exists p, run_ops zero_proxy proxy_sample = Some p /\ px_refCount p = 2 /\ px_refCount p = running (px_flows p).
Proof.
  eexists. split; [reflexivity|]. split; [reflexivity|]. apply (proxy_lifecycle proxy_sample). reflexivity.
Defined.

(** ** [Proxy.Proxy] *)

(** Errors as the code classifies them. *)
Inductive net_error :=
| DNSError (timeout notFound : bool)
| AddrError
| ParseError
| TimeoutError              (** another [net.Error] whose [Timeout] is true *)
| OtherError.

Definition errToStatus (e : net_error) : Z :=
  match e with
  | DNSError true _ | TimeoutError => 504
  | DNSError false _ => 502
  | AddrError | ParseError => 400
  | OtherError => 500
  end.

Definition dnsErrorToProxyStatus (timeout notFound : bool) : list (gostring * gostring) :=
  if timeout then [(str "error", str "dns_timeout")]
  else [(str "error", str "dns_error");
        (str "rcode", if notFound then str "Negative response" else str "SERVFAIL")].

Record proxy_reply := {
  py_status : option Z;                                  (** the status written, if any was *)
  py_params : option (list (gostring * gostring));       (** the [Proxy-Status] parameters, if added *)
  py_flow : bool;                                        (** handed to [ProxyConnectedSocket] *)
}.

(** [resolve] and [dial] are the outcomes of [net.ResolveUDPAddr] (the resolved
address as text) and [net.DialUDP]; [marshal] says whether the header value can
be serialized; [details] is the text of an error. *)
Definition Proxy_Proxy (closed : bool) (resolve : result net_error gostring) (dial : option net_error)
  (marshal : list (gostring * gostring) -> bool) (details : net_error -> gostring) : proxy_reply :=
  let refuse params e :=
    let params := params ++ [(str "details", details e)] in
    if marshal params then {| py_status := Some (errToStatus e); py_params := Some params; py_flow := false |}
    else {| py_status := Some (errToStatus OtherError); py_params := None; py_flow := false |} in
  if closed then {| py_status := Some 503; py_params := None; py_flow := false |}
  else match resolve with
  | Err e => refuse (match e with DNSError t n => dnsErrorToProxyStatus t n | _ => [] end) e
  | Ok addr =>
    let params := [(str "next-hop", addr)] in
    match dial with
    | Some e => refuse (params ++ [(str "error", str "destination_ip_unroutable")]) e
    | None =>
      if marshal params then {| py_status := None; py_params := Some params; py_flow := true |}
      else {| py_status := Some (errToStatus OtherError); py_params := None; py_flow := false |}
    end
  end.

(** A flow is started without a status of its own, or an error status is
written and no flow is started. *)
Lemma Proxy_Proxy_answers closed resolve dial marshal details :
  let r := Proxy_Proxy closed resolve dial marshal details in
  if py_flow r then py_status r = None /\ closed = false /\ dial = None /\ is_ok resolve = true
  else exists status, py_status r = Some status /\ 400 <= status <= 504.
Proof.
  assert (forall e, 400 <= errToStatus e <= 504) as He by (intros [[] ?| | | |]; cbn; lia).
  unfold Proxy_Proxy. destruct closed; [cbn; eexists; split; [done|lia]|].
  destruct resolve as [addr|e]; [destruct dial as [e|]|]; cbv zeta;
    (destruct (marshal _); cbn [py_flow py_status]; [|eexists; split; [reflexivity|apply (He OtherError)]]).
  - eexists. split; [reflexivity|apply He].
  - done.
  - eexists. split; [reflexivity|apply He].
Qed.
