(* ===== verification/Http3Server.v ===== *)
(** * The HTTP/3 server: listeners, connections and their end

[third_party/quic-go/http3/server.go]: [Serve], [ServeListener] and [ServeQUICConn],
[Close] and [Shutdown] as goroutines over one [Server], each step one access to what
they share: the mutex, the two contexts, [connCount] and [connHandlingDone].

[server_closes] says that closing the server comes to an end under any interleaving,
[close_waits] that it waits for every connection unless one slips through at that
moment; [late_connection_panics] and [early_return_panics] are two ways in which one
can, each of which ends the process. *)

From stdpp Require Import base list numbers.
From Stdlib Require Import ZArith Lia.
From S2P Require Import Prelude.

Local Open Scope Z_scope.

(** ** The goroutines *)

(** Who serves: a listener, created by the server or given to it, or one connection. *)
Inductive serve_kind := LocalListener | GivenListener | SingleConn.

(** Where a serving goroutine is: before it has the mutex, in [Accept], with a
connection before [graceCtx] is looked at and before [connCount] is raised, before
[removeListener], and returned. *)
Inductive serve_phase := Starting | Accepting | GotConn | Counting | Removing | ServeReturned.
#[global] Instance serve_phase_eq_dec : EqDecision serve_phase.
Proof. solve_decision. Defined.
Record serve_loop := { sl_kind : serve_kind; sl_phase : serve_phase; sl_open : bool }.

(** A connection: in [handleConn]; after [decreaseConnCount] found zero, before it
looks at [graceCtx]; gone. *)
Inductive conn_phase := Handling | Checking | Gone.
#[global] Instance conn_phase_eq_dec : EqDecision conn_phase.
Proof. solve_decision. Defined.

(** A call of [Close] or [Shutdown]: what [Shutdown] will return instead of the
result of [Close], and where it is. *)
Inductive close_result := CloseError (failed : bool) | ContextExpired | ListenerErrors.
Inductive caller :=
| ShutdownEnter | ShutdownListeners | ShutdownLoad | ShutdownWait
| CloseEnter (expired : bool) | CloseListeners (expired : bool) | CloseLoad (expired failed : bool) | CloseWait (expired failed : bool)
| CallReturned (r : close_result).

(** The server.  [inited] says that there are contexts; [grace_done] and [close_done]
that they were cancelled; [chan_closes] counts [close(connHandlingDone)] of the
current channel.  A second one panics and ends the process. *)
Record http3_server := mkServer {
  closed : bool;
  inited : bool;
  grace_done : bool;
  close_done : bool;
  mutex : bool;
  connCount : Z;
  chan_closes : nat;
  serves : list serve_loop;
  conns : list conn_phase;
  callers : list caller;
  panicked : bool;
}.
Definition zero_server : http3_server := mkServer false false false false false 0 0 [] [] [] false.

Definition set_serves (s : http3_server) (l : list serve_loop) : http3_server :=
  mkServer (closed s) (inited s) (grace_done s) (close_done s) (mutex s) (connCount s) (chan_closes s) l (conns s) (callers s) (panicked s).
Definition set_conn_count (s : http3_server) (n : Z) (l : list conn_phase) : http3_server :=
  mkServer (closed s) (inited s) (grace_done s) (close_done s) (mutex s) n (chan_closes s) (serves s) l (callers s) (panicked s).
Definition set_callers (s : http3_server) (l : list caller) : http3_server :=
  mkServer (closed s) (inited s) (grace_done s) (close_done s) (mutex s) (connCount s) (chan_closes s) (serves s) (conns s) l (panicked s).
Definition set_mutex (s : http3_server) (held : bool) : http3_server :=
  mkServer (closed s) (inited s) (grace_done s) (close_done s) held (connCount s) (chan_closes s) (serves s) (conns s) (callers s) (panicked s).

(** [init], called with the mutex held: a new channel each time. *)
Definition init (s : http3_server) : http3_server :=
  mkServer (closed s) true (grace_done s) (close_done s) (mutex s) (connCount s) 0 (serves s) (conns s) (callers s) (panicked s).

(** [closed = true] and [graceCancel], or [closeCancel], which cancels both contexts. *)
Definition cancel (s : http3_server) (close : bool) : http3_server :=
  mkServer true (inited s) (if inited s then true else grace_done s) (if inited s && close then true else close_done s) (mutex s) (connCount s)
    (chan_closes s) (serves s) (conns s) (callers s) (panicked s).

(** [close(s.connHandlingDone)] *)
Definition close_chan (s : http3_server) : http3_server :=
  mkServer (closed s) (inited s) (grace_done s) (close_done s) (mutex s) (connCount s) (S (chan_closes s)) (serves s) (conns s) (callers s)
    (panicked s || (0 <? chan_closes s)%nat).

(** The listeners the server created are closed; others are their owner's. *)
Definition close_local (l : serve_loop) : serve_loop :=
  match sl_kind l, sl_phase l with
  | LocalListener, (Accepting | GotConn | Counting | Removing) => {| sl_kind := LocalListener; sl_phase := sl_phase l; sl_open := false |}
  | _, _ => l
  end.
Definition close_listeners (s : http3_server) : http3_server := set_serves s (map close_local (serves s)).

(** ** Their steps *)

(** The environment decides what [Accept] returns, whether setting up or closing a
listener fails, and when the context of a [Shutdown] ends. *)
Inductive server_op :=
| StartServe (kind : serve_kind)
| ServeStep (i : nat) (choice : bool)
| ConnStep (j : nat)
| CallClose
| CallShutdown
| CallerStep (k : nat) (choice : bool).

Definition at_phase (l : serve_loop) (p : serve_phase) : serve_loop := {| sl_kind := sl_kind l; sl_phase := p; sl_open := sl_open l |}.

(** [setupListenerForConn] or [addListener] (choice: the listener could be created),
and the start of [ServeQUICConn]. *)
Definition start_listener (s : http3_server) (i : nat) (l : serve_loop) (choice : bool) : http3_server :=
  if closed s then set_serves s (<[i := at_phase l ServeReturned]> (serves s))
  else match sl_kind l with
  | SingleConn => let s := init s in set_serves s (<[i := at_phase l Counting]> (serves s))
  | kind =>
    if choice then let s := init s in set_serves s (<[i := {| sl_kind := kind; sl_phase := Accepting; sl_open := true |}]> (serves s))
    else set_serves s (<[i := at_phase l ServeReturned]> (serves s))
  end.

(** [serveListener], and [ServeQUICConn] from [connCount.Add(1)] on, which goes on as
the connection. *)
Definition serve_next (s : http3_server) (i : nat) (l : serve_loop) (choice : bool) : option http3_server :=
  match sl_phase l with
  | Starting => if mutex s then None else Some (start_listener s i l choice)
  | Accepting =>
    if choice then if sl_open l then Some (set_serves s (<[i := at_phase l GotConn]> (serves s))) else None
    else Some (set_serves s (<[i := at_phase l Removing]> (serves s)))
  | GotConn => Some (set_serves s (<[i := at_phase l (if grace_done s then Removing else Counting)]> (serves s)))
  | Counting =>
    let s := set_conn_count s (connCount s + 1) (conns s ++ [Handling]) in
    Some (set_serves s (<[i := at_phase l match sl_kind l with SingleConn => ServeReturned | _ => Accepting end]> (serves s)))
  | Removing => if mutex s then None else Some (set_serves s (<[i := at_phase l ServeReturned]> (serves s)))
  | ServeReturned => None
  end.

(** The end of a connection: [decreaseConnCount]. *)
Definition conn_next (s : http3_server) (j : nat) (c : conn_phase) : option http3_server :=
  match c with
  | Handling => Some (set_conn_count s (connCount s - 1) (<[j := if connCount s - 1 =? 0 then Checking else Gone]> (conns s)))
  | Checking =>
    let s := set_conn_count s (connCount s) (<[j := Gone]> (conns s)) in
    Some (if grace_done s then close_chan s else s)
  | Gone => None
  end.

(** [Shutdown] and [Close]. *)
Definition caller_next (s : http3_server) (k : nat) (c : caller) (choice : bool) : option http3_server :=
  let goto s c := set_callers s (<[k := c]> (callers s)) in
  let own expired failed := if (expired : bool) then ContextExpired else CloseError failed in
  match c with
  | ShutdownEnter =>
    if mutex s then None
    else let s := cancel s false in
      Some (if negb (inited s) then goto s (CallReturned (CloseError false)) else goto (set_mutex s true) ShutdownListeners)
  | ShutdownListeners =>
    let s := set_mutex (close_listeners s) false in
    Some (goto s (if choice then ShutdownLoad else CallReturned ListenerErrors))
  | ShutdownLoad => Some (goto s (if connCount s =? 0 then CloseEnter false else ShutdownWait))
  | ShutdownWait =>
    if choice then if (0 <? chan_closes s)%nat then Some (goto s (CloseEnter false)) else None
    else Some (goto s (CloseEnter true))
  | CloseEnter expired =>
    if mutex s then None
    else let s := cancel s true in
      Some (if negb (inited s) then goto s (CallReturned (own expired false)) else goto (set_mutex s true) (CloseListeners expired))
  | CloseListeners expired => Some (goto (close_listeners s) (CloseLoad expired (negb choice)))
  | CloseLoad expired failed =>
    Some (if connCount s =? 0 then goto (set_mutex s false) (CallReturned (own expired failed)) else goto s (CloseWait expired failed))
  | CloseWait expired failed =>
    if (0 <? chan_closes s)%nat then Some (goto (set_mutex s false) (CallReturned (own expired failed))) else None
  | CallReturned _ => None
  end.

Definition server_step (s : http3_server) (o : server_op) : option http3_server :=
  if panicked s then None
  else match o with
  | StartServe kind => Some (set_serves s (serves s ++ [{| sl_kind := kind; sl_phase := Starting; sl_open := false |}]))
  | CallClose => Some (set_callers s (callers s ++ [CloseEnter false]))
  | CallShutdown => Some (set_callers s (callers s ++ [ShutdownEnter]))
  | ServeStep i choice => l ← serves s !! i; serve_next s i l choice
  | ConnStep j => c ← conns s !! j; conn_next s j c
  | CallerStep k choice => c ← callers s !! k; caller_next s k c choice
  end.
Fixpoint run_http3 (s : http3_server) (os : list server_op) : option http3_server :=
  match os with
  | [] => Some s
  | o :: os => s ← server_step s o; run_http3 s os
  end.

(** ** Two ways to close the channel twice *)

(** A connection was accepted before [Close], and is counted after the last other one
is gone: its own end closes the channel again. *)
Definition late_connection : list server_op :=
  [StartServe LocalListener; ServeStep 0 true;          (* Serve *)
   ServeStep 0 true; ServeStep 0 true; ServeStep 0 true; (* a connection is accepted and counted *)
   ServeStep 0 true; ServeStep 0 true;                  (* another is accepted, graceCtx is not done *)
   CallClose; CallerStep 0 true; CallerStep 0 true; CallerStep 0 true;
   ConnStep 0; ConnStep 0;                              (* the first one is gone, the channel is closed *)
   CallerStep 0 true;                                   (* Close returns *)
   ServeStep 0 true; ConnStep 1; ConnStep 1].
Example late_connection_panics : exists s, run_http3 zero_server late_connection = Some s /\ panicked s = true
  /\ callers s = [CallReturned (CloseError false)].
Proof. eexists. vm_compute. done. Qed.

(** The only connection is gone, but has not looked at [graceCtx] when another one
is counted and the server is closed: it closes the channel while the other is still
there, so [Close] returns with a connection open, whose end closes it again. *)
Definition early_return : list server_op :=
  [StartServe LocalListener; ServeStep 0 true;
   ServeStep 0 true; ServeStep 0 true; ServeStep 0 true; ConnStep 0;
   ServeStep 0 true; ServeStep 0 true; ServeStep 0 true;
   CallClose; CallerStep 0 true; CallerStep 0 true; CallerStep 0 true; ConnStep 0; CallerStep 0 true].
Example early_return_panics : exists s, run_http3 zero_server early_return = Some s /\ panicked s = false
  /\ callers s = [CallReturned (CloseError false)] /\ conns s = [Gone; Handling] /\ connCount s = 1
  /\ exists s', run_http3 s [ConnStep 1; ConnStep 1] = Some s' /\ panicked s' = true.
Proof. eexists. vm_compute. split; [reflexivity|]. do 4 (split; [done|]). by eexists. Qed.

(** ** The invariant *)

(** Sums over the goroutines. *)
Lemma sum_insert {A} (f : A -> nat) l i x y : l !! i = Some x -> (sum_list_with f (<[i := y]> l) + f x = sum_list_with f l + f y)%nat.
Proof.
  revert i. induction l as [|z l IH]; intros [|i] Hi; try done; [injection Hi as ->; cbn; lia|]. specialize (IH i Hi).
  change (<[S i := y]> (z :: l)) with (z :: <[i := y]> l). cbn [sum_list_with]. lia.
Qed.
Lemma sum_lookup {A} (f : A -> nat) l i x : l !! i = Some x -> (f x <= sum_list_with f l)%nat.
Proof. revert i. induction l as [|z l IH]; intros [|i] Hi; cbn in *; try done; [injection Hi as ->; lia|]. specialize (IH i Hi). lia. Qed.
Lemma sum_pos {A} (f : A -> nat) l : (0 < sum_list_with f l)%nat -> exists i x, l !! i = Some x /\ (0 < f x)%nat.
Proof.
  induction l as [|z l IH]; cbn; [lia|]. intros Hs. destruct (decide (0 < f z)%nat); [by exists 0%nat, z|]. destruct IH as (i & x & ? & ?); [lia|]. by exists (S i), x.
Qed.

Lemma not_all {A} (P : A -> Prop) `{forall x, Decision (P x)} l : ~ Forall P l -> exists i x, l !! i = Some x /\ ~ P x.
Proof. intros Hn%not_Forall_Exists; [|apply _]. apply Exists_exists in Hn as (x & Hx & ?). apply list_elem_of_In, list_elem_of_lookup in Hx as [i Hi]. eauto. Qed.

Definition handling (c : conn_phase) : nat := match c with Handling => 1 | _ => 0 end.
Definition checking (c : conn_phase) : nat := match c with Checking => 1 | _ => 0 end.
Definition holds (c : caller) : nat := match c with ShutdownListeners | CloseListeners _ | CloseLoad _ _ | CloseWait _ _ => 1 | _ => 0 end.
Definition waits (c : caller) : bool := match c with ShutdownWait | CloseWait _ _ => true | _ => false end.

(** What a waiting call waits for: the channel is closed, or will be by a connection. *)
Definition signal (s : http3_server) : Prop := (0 < chan_closes s)%nat \/ 0 < connCount s \/ (0 < sum_list_with checking (conns s))%nat.
Definition caller_ok (grace close : bool) (c : caller) : Prop :=
  match c with
  | ShutdownListeners | ShutdownLoad | ShutdownWait => grace = true
  | CloseListeners _ | CloseLoad _ _ | CloseWait _ _ => close = true
  | _ => True
  end.

(** A call that returned: its contexts were cancelled, or there was nothing to wait for,
and never will be. *)
Definition over (c : caller) : bool := match c with CallReturned (CloseError _ | ContextExpired) => true | _ => false end.

Record server_ok (s : http3_server) : Prop := {
  so_count : connCount s = Z.of_nat (sum_list_with handling (conns s));
  so_mutex : sum_list_with holds (callers s) = Nat.b2n (mutex s);
  so_grace : grace_done s = true -> closed s = true /\ inited s = true;
  so_close : close_done s = true -> grace_done s = true;
  so_callers : Forall (caller_ok (grace_done s) (close_done s)) (callers s);
  so_chan : (0 < chan_closes s)%nat -> grace_done s = true;
  so_wait : Forall (fun c => waits c = true -> signal s) (callers s);
  so_over : Forall (fun c => over c = true -> grace_done s = true \/ closed s = true /\ inited s = false) (callers s);
}.

Lemma zero_server_ok : server_ok zero_server.
Proof. constructor; cbn; (done || lia || constructor). Qed.

(** A call that waits, waits with a context cancelled, so nothing is reset under it. *)
Lemma waiting_grace s : server_ok s -> grace_done s = false -> Forall (fun c => waits c = false) (callers s).
Proof.
  intros [_ _ _ Hcl Hc _ _ _] Hg. eapply Forall_impl; [|exact Hc]. intros [] H; cbn in *; try done; try congruence. specialize (Hcl H). congruence.
Qed.

Lemma serve_step_ok s i l choice s' : server_ok s -> serves s !! i = Some l -> serve_next s i l choice = Some s' -> server_ok s'.
Proof.
  intros Hok Hi Hs. assert (forall x, server_ok (set_serves s x)) as Hset by (intros x; destruct Hok; by constructor).
  unfold serve_next in Hs. destruct (sl_phase l) eqn:Ep; try done.
  - destruct (mutex s) eqn:Em; [done|]. injection Hs as <-. unfold start_listener. destruct (closed s) eqn:Ec; [apply Hset|].
    assert (grace_done s = false) as Hg by (destruct (grace_done s) eqn:E; [|done]; destruct (so_grace s Hok E); congruence).
    assert (forall x, server_ok (set_serves (init s) x)) as Hinit.
    { intros x. pose proof (waiting_grace s Hok Hg) as Hw. destruct Hok as [? ? ? ? ? ? ? H8]. constructor; cbn; try done; [congruence|lia|eapply Forall_impl; [|exact Hw]; intros; congruence|].
      eapply Forall_impl; [|exact H8]. intros c Hc Ho. destruct (Hc Ho) as [|[? _]]; [by left|congruence]. }
    destruct (sl_kind l), choice; try apply Hinit; apply Hset.
  - destruct choice; [destruct (sl_open l); [|done]|]; injection Hs as <-; apply Hset.
  - injection Hs as <-. apply Hset.
  - injection Hs as <-. destruct Hok as [H1 H2 H3 H4 H5 H6 H7 H8]. constructor; cbn; try done.
    + rewrite sum_list_with_app. cbn. lia.
    + eapply Forall_impl; [|exact H7]. intros c Hc Hw. right. left. cbn. lia.
  - destruct (mutex s); [done|]. injection Hs as <-. apply Hset.
Qed.

Lemma conn_step_ok s j c s' : server_ok s -> conns s !! j = Some c -> conn_next s j c = Some s' -> server_ok s'.
Proof.
  intros [H1 H2 H3 H4 H5 H6 H7 H8] Hj Hs. destruct c; cbn [conn_next] in Hs; try done.
  - injection Hs as <-. set (c' := if connCount s - 1 =? 0 then Checking else Gone). assert (handling c' = 0%nat) as Hh by (unfold c'; by destruct (_ =? 0)).
    pose proof (sum_insert handling _ j _ c' Hj) as Hi. pose proof (sum_insert checking _ j _ c' Hj) as Hk. cbn in Hi, Hk.
    constructor; cbn; try done; [lia|]. eapply Forall_impl; [|exact H7]. intros c Hc Hw. specialize (Hc Hw). unfold signal in *. cbn [chan_closes connCount conns set_conn_count].
    destruct Hc as [?|[?|?]]; [by left| |right; right; lia]. unfold c' in *. destruct (Z.eqb_spec (connCount s - 1) 0); cbn in Hk; [right; right; lia|right; left; lia].
  - pose proof (sum_insert handling _ j _ Gone Hj) as Hi. pose proof (sum_insert checking _ j _ Gone Hj) as Hk. cbn in Hi, Hk. injection Hs as <-. cbn [grace_done set_conn_count].
    destruct (grace_done s) eqn:Eg.
    + constructor; cbn; try done; [lia|by rewrite Eg|by rewrite Eg| |apply Forall_true; intros; by left]. apply Forall_true. intros c _. left. cbn. lia.
    + assert (Forall (fun c => waits c = false) (callers s)) as Hw by (apply waiting_grace; [by constructor; rewrite ?Eg|done]).
      constructor; cbn; rewrite ?Eg; try done; [lia|]. eapply Forall_impl; [|exact Hw]. intros; congruence.
Qed.

Lemma goto_ok s s1 k c c' : server_ok s -> callers s !! k = Some c ->
  connCount s1 = connCount s /\ conns s1 = conns s /\ chan_closes s1 = chan_closes s /\ callers s1 = callers s ->
  (grace_done s = true -> grace_done s1 = true) /\ (close_done s = true -> close_done s1 = true) ->
  (grace_done s1 = true -> closed s1 = true /\ inited s1 = true) /\ (close_done s1 = true -> grace_done s1 = true) ->
  (holds c + Nat.b2n (mutex s1) = holds c' + Nat.b2n (mutex s))%nat -> caller_ok (grace_done s1) (close_done s1) c' -> (waits c' = true -> signal s) ->
  (over c' = true -> grace_done s1 = true \/ closed s1 = true /\ inited s1 = false) -> (inited s1 = inited s /\ (closed s = true -> closed s1 = true)) ->
  server_ok (set_callers s1 (<[k := c']> (callers s1))).
Proof.
  intros [H1 H2 H3 H4 H5 H6 H7 H8] Hk (E1 & E2 & E3 & E4) (M1 & M2) (C1 & C2) Hm Hc Hw Ho (I1 & I2). pose proof (sum_insert holds _ k _ c' Hk) as Hs.
  constructor; cbn; rewrite ?E1, ?E2, ?E3, ?E4; try done; [lia| |auto| |].
  - apply Forall_insert; [|done]. eapply Forall_impl; [|exact H5]. intros []; cbn; auto.
  - assert (forall c, (waits c = true -> signal s) -> waits c = true -> signal (set_callers s1 (<[k := c']> (callers s)))) as Hsig.
    { intros c0 H Hc0. specialize (H Hc0). unfold signal in *. cbn. by rewrite E1, E2, E3. }
    apply Forall_insert; [|by apply (Hsig c')]. eapply Forall_impl; [|exact H7]. intros c0. by apply Hsig.
  - apply Forall_insert; [|done]. eapply Forall_impl; [|exact H8]. intros c0 H Hc0. rewrite I1. destruct (H Hc0) as [|[? ?]]; [left|right]; auto.
Qed.

Lemma caller_step_ok s k c choice s' : server_ok s -> callers s !! k = Some c -> caller_next s k c choice = Some s' -> server_ok s'.
Proof.
  intros Hok Hk Hs. pose proof (so_grace s Hok) as Hg. pose proof (so_close s Hok) as Hcl. pose proof (so_mutex s Hok) as Hm.
  pose proof (proj1 (Forall_lookup _ _) (so_callers s Hok) k c Hk) as Hc. pose proof (sum_lookup holds _ k c Hk) as Hh.
  assert (forall b, grace_done (cancel s b) = true -> closed (cancel s b) = true /\ inited (cancel s b) = true) as G1.
  { intros b. cbn. destruct (inited s); [done|]. intros E. destruct (Hg E). done. }
  assert (forall b, close_done (cancel s b) = true -> grace_done (cancel s b) = true) as G2.
  { intros b. cbn. destruct (inited s); [done|]. exact Hcl. }
  assert (forall b, (grace_done s = true -> grace_done (cancel s b) = true) /\ (close_done s = true -> close_done (cancel s b) = true)) as G3.
  { intros b. cbn. split; intros ->; destruct (inited s), b; done. }
  assert (connCount s <> 0 -> signal s) as Hsig by (rewrite (so_count s Hok); right; left; rewrite (so_count s Hok); lia).
  destruct c; cbn [caller_next] in Hs; cbn [holds] in Hh.
  - destruct (mutex s) eqn:Em; [done|]. injection Hs as <-. destruct (inited s) eqn:Ei; cbn [negb cancel inited]; rewrite ?Ei; cbn [negb].
    + apply (goto_ok s (set_mutex (cancel s false) true) k ShutdownEnter); try done; first [exact (G3 _)|exact (conj (G1 _) (G2 _))|idtac]; cbn; rewrite ?Ei, ?Em; first [done|intros; by right].
    + apply (goto_ok s (cancel s false) k ShutdownEnter); try done; first [exact (G3 _)|exact (conj (G1 _) (G2 _))|idtac]; cbn; rewrite ?Ei, ?Em; first [done|intros; by right].
  - injection Hs as <-. apply (goto_ok s (set_mutex (close_listeners s) false) k ShutdownListeners); try done; [destruct (mutex s); [by destruct choice|cbn in Hm; lia]|by destruct choice..].
  - injection Hs as <-. apply (goto_ok s s k ShutdownLoad); try done; [by destruct (_ =? 0)|by destruct (_ =? 0)| |by destruct (_ =? 0)]. destruct (Z.eqb_spec (connCount s) 0); [done|auto].
  - destruct choice; [destruct (0 <? chan_closes s)%nat; [|done]|]; injection Hs as <-; by apply (goto_ok s s k ShutdownWait).
  - destruct (mutex s) eqn:Em; [done|]. injection Hs as <-. destruct (inited s) eqn:Ei; cbn [negb cancel inited]; rewrite ?Ei; cbn [negb].
    + apply (goto_ok s (set_mutex (cancel s true) true) k (CloseEnter expired)); try done; first [exact (G3 _)|exact (conj (G1 _) (G2 _))|idtac]; cbn; rewrite ?Ei, ?Em; first [done|intros; by right].
    + apply (goto_ok s (cancel s true) k (CloseEnter expired)); try done; first [exact (G3 _)|exact (conj (G1 _) (G2 _))|idtac]; cbn; rewrite ?Ei, ?Em; first [done|intros; by right].
  - injection Hs as <-. by apply (goto_ok s (close_listeners s) k (CloseListeners expired)).
  - injection Hs as <-. destruct (Z.eqb_spec (connCount s) 0).
    + apply (goto_ok s (set_mutex s false) k (CloseLoad expired failed)); try done; [destruct (mutex s); [done|cbn in Hm; lia]|left; by apply Hcl].
    + apply (goto_ok s s k (CloseLoad expired failed)); try done. auto.
  - destruct (0 <? chan_closes s)%nat; [|done]. injection Hs as <-. apply (goto_ok s (set_mutex s false) k (CloseWait expired failed)); try done; [|left; by apply Hcl].
    destruct (mutex s); [done|cbn in Hm; lia].
  - done.
Qed.

Lemma server_step_ok s o s' : server_ok s -> server_step s o = Some s' -> server_ok s'.
Proof.
  intros Hok Hs. unfold server_step in Hs. destruct (panicked s); [done|]. destruct o.
  - injection Hs as <-. destruct Hok. by constructor.
  - apply bind_Some in Hs as (l & Hl & Hs). by eapply serve_step_ok.
  - apply bind_Some in Hs as (c & Hc & Hs). by eapply conn_step_ok.
  - injection Hs as <-. destruct Hok. constructor; cbn; try done; [rewrite sum_list_with_app; cbn; lia| | |]; by apply Forall_app_2; [|repeat constructor].
  - injection Hs as <-. destruct Hok. constructor; cbn; try done; [rewrite sum_list_with_app; cbn; lia| | |]; by apply Forall_app_2; [|repeat constructor].
  - apply bind_Some in Hs as (c & Hc & Hs). by eapply caller_step_ok.
Qed.
Lemma run_http3_ok s os s' : server_ok s -> run_http3 s os = Some s' -> server_ok s'.
Proof.
  revert s. induction os as [|o os IH]; intros s Hok Hr; cbn in Hr; [by injection Hr as <-|]. apply bind_Some in Hr as (s1 & Hs & Hr). eapply IH; [|done]. by eapply server_step_ok.
Qed.

(** ** Closing ends *)

(** Steps that a goroutine takes by itself: [Accept] returns when its context is done,
a connection ends when the server is closed (its request handlers return once it is
closed), and [Shutdown] need not time out. *)
Definition forced (s : http3_server) (o : server_op) : bool :=
  match o with
  | ServeStep i choice => match sl_phase <$> serves s !! i with Some Accepting => grace_done s && negb choice | _ => true end
  | ConnStep j => match conns s !! j with Some Handling => close_done s | _ => true end
  | CallerStep k choice => match callers s !! k with Some ShutdownWait => choice | _ => true end
  | _ => false
  end.
Definition due (s : http3_server) (o : server_op) : Prop := forced s o = true /\ is_Some (server_step s o).
Definition returned (c : caller) : bool := match c with CallReturned _ => true | _ => false end.
Definition finished (s : http3_server) : Prop :=
  Forall (fun l => sl_phase l = ServeReturned) (serves s) /\ Forall (fun c => c = Gone) (conns s) /\ Forall (fun c => returned c = true) (callers s).

Lemma conn_due s : server_ok s -> panicked s = false -> close_done s = true -> 0 < connCount s \/ (0 < sum_list_with checking (conns s))%nat -> exists o, due s o.
Proof.
  intros Hok Hp Hc Hs. rewrite (so_count s Hok) in Hs. assert (exists j c, conns s !! j = Some c /\ c <> Gone) as (j & c & Hj & Hne).
  { destruct Hs as [Hs|Hs]; [destruct (sum_pos handling (conns s)) as (j & c & Hj & Hn); [lia|]|destruct (sum_pos _ _ Hs) as (j & c & Hj & Hn)]; exists j, c; (split; [done|]); by destruct c; cbn in Hn; try lia. }
  exists (ConnStep j). split; [cbn; rewrite Hj; by destruct c|]. unfold server_step. rewrite Hp, Hj. cbn. destruct c; [by eexists..|done].
Qed.
Lemma wait_due s k c : server_ok s -> panicked s = false -> close_done s = true -> callers s !! k = Some c -> waits c = true -> exists o, due s o.
Proof.
  intros Hok Hp Hc Hk Hw. destruct (proj1 (Forall_lookup _ _) (so_wait s Hok) k c Hk Hw) as [Hs|Hs]; [|by apply conn_due].
  exists (CallerStep k true). split; [cbn; rewrite Hk; by destruct c|]. unfold server_step. rewrite Hp, Hk. cbn [mbind option_bind]. apply Nat.ltb_lt in Hs. destruct c; try done; unfold caller_next; rewrite Hs; by eexists.
Qed.

(** The mutex is free, or its holder goes on. *)
Lemma mutex_due s : server_ok s -> panicked s = false -> mutex s = true -> exists o, due s o.
Proof.
  intros Hok Hp Hm. pose proof (so_mutex s Hok) as Hs. rewrite Hm in Hs. destruct (sum_pos holds (callers s)) as (k & c & Hk & Hh); [rewrite Hs; cbn; lia|].
  pose proof (proj1 (Forall_lookup _ _) (so_callers s Hok) k c Hk) as Hc. destruct c; cbn in Hh; try lia; try (by eapply wait_due);
    exists (CallerStep k true); (split; [cbn; by rewrite Hk|]); unfold server_step; rewrite Hp, Hk; cbn; by eexists.
Qed.

Lemma server_progress s : server_ok s -> panicked s = false -> close_done s = true \/ (exists k e, callers s !! k = Some (CloseEnter e)) -> (exists o, due s o) \/ finished s.
Proof.
  intros Hok Hp Hc. destruct (mutex s) eqn:Em; [left; by apply mutex_due|]. destruct Hc as [Hc|(k & e & Hk)].
  2: { left. exists (CallerStep k true). split; [cbn; by rewrite Hk|]. unfold server_step. rewrite Hp, Hk. cbn. rewrite Em. by eexists. }
  pose proof (so_close s Hok Hc) as Hg. destruct (decide (Forall (fun c => returned c = true) (callers s))) as [Hcs|Hcs].
  2: { left. destruct (not_all _ _ Hcs) as (k & c & Hk & Hn). destruct (waits c) eqn:Ew; [by eapply wait_due|].
       exists (CallerStep k true). split; [cbn; rewrite Hk; by destruct c|]. unfold server_step. rewrite Hp, Hk. cbn. destruct c; cbn; rewrite ?Em; try done; by eexists. }
  destruct (decide (Forall (fun l => sl_phase l = ServeReturned) (serves s))) as [Hss|Hss].
  2: { left. destruct (not_all _ _ Hss) as (i & l & Hi & Hn).
       exists (ServeStep i false). split; [cbn; rewrite Hi, Hg; cbn; by destruct (sl_phase l)|]. unfold server_step. rewrite Hp, Hi. cbn. unfold serve_next.
       destruct (sl_phase l); rewrite ?Em; try done; by eexists. }
  destruct (decide (Forall (fun c => c = Gone) (conns s))) as [Hgs|Hgs]; [by right|]. left.
  destruct (not_all _ _ Hgs) as (j & c & Hj & Hn).
  apply conn_due; try done. rewrite (so_count s Hok). pose proof (sum_lookup handling _ j c Hj). pose proof (sum_lookup checking _ j c Hj). destruct c; cbn in *; [left; lia|right; lia|done].
Qed.

(** How many steps are left once the server is closed, and what a new call adds. *)
Definition serve_weight (l : serve_loop) : nat :=
  match sl_phase l with Starting => 1 | Accepting => 3 | GotConn => 2 | Counting => 6 | Removing => 1 | ServeReturned => 0 end.
Definition conn_weight (c : conn_phase) : nat := match c with Handling => 2 | Checking => 1 | Gone => 0 end.
Definition caller_weight (c : caller) : nat :=
  match c with
  | ShutdownEnter => 8 | ShutdownListeners => 7 | ShutdownLoad => 6 | ShutdownWait => 5
  | CloseEnter _ => 4 | CloseListeners _ => 3 | CloseLoad _ _ => 2 | CloseWait _ _ => 1 | CallReturned _ => 0
  end.
Definition server_weight (s : http3_server) : nat :=
  sum_list_with serve_weight (serves s) + sum_list_with conn_weight (conns s) + sum_list_with caller_weight (callers s).
Definition called (o : server_op) : nat := match o with StartServe _ => 1 | CallClose => 4 | CallShutdown => 8 | _ => 0 end.

Lemma close_listeners_weight l : sum_list_with serve_weight (map close_local l) = sum_list_with serve_weight l.
Proof. induction l as [|[k p o] l IH]; [done|]. cbn. rewrite IH. f_equal. by destruct k, p. Qed.

Lemma serve_step_weight s i l choice s' : server_ok s -> close_done s = true -> serves s !! i = Some l -> serve_next s i l choice = Some s' ->
  close_done s' = true /\ (server_weight s' < server_weight s)%nat.
Proof.
  intros Hok Hc Hi Hs. pose proof (so_close s Hok Hc) as Hg. destruct (so_grace s Hok Hg) as [Hcl _].
  pose proof (fun y => sum_insert serve_weight _ i l y Hi) as Hw. unfold serve_next in Hs. unfold server_weight.
  destruct (sl_phase l) eqn:Ep; try done; assert (serve_weight l = serve_weight (at_phase l (sl_phase l))) as El by done; rewrite Ep in El; unfold at_phase, serve_weight at 2 in El; cbn [sl_phase] in El.
  - destruct (mutex s); [done|]. injection Hs as <-. unfold start_listener. rewrite Hcl. split; [done|]. cbn [set_serves serves conns callers]. specialize (Hw (at_phase l ServeReturned)). cbn in *. lia.
  - destruct choice; [destruct (sl_open l); [|done]|]; injection Hs as <-; (split; [done|]); cbn [set_serves serves conns callers].
    + specialize (Hw (at_phase l GotConn)). cbn in *. lia.
    + specialize (Hw (at_phase l Removing)). cbn in *. lia.
  - rewrite Hg in Hs. injection Hs as <-. split; [done|]. cbn [set_serves serves conns callers]. specialize (Hw (at_phase l Removing)). cbn in *. lia.
  - injection Hs as <-. split; [done|]. cbn [set_serves set_conn_count serves conns callers]. rewrite sum_list_with_app. cbn [sum_list_with conn_weight].
    match goal with |- context [at_phase l ?p] => specialize (Hw (at_phase l p)); assert (serve_weight (at_phase l p) <= 3)%nat by (cbn; destruct (sl_kind l); cbn; lia) end. lia.
  - destruct (mutex s); [done|]. injection Hs as <-. split; [done|]. cbn [set_serves serves conns callers]. specialize (Hw (at_phase l ServeReturned)). cbn in *. lia.
Qed.

Lemma conn_step_weight s j c s' : close_done s = true -> conns s !! j = Some c -> conn_next s j c = Some s' ->
  close_done s' = true /\ (server_weight s' < server_weight s)%nat.
Proof.
  intros Hc Hj Hs. pose proof (fun y => sum_insert conn_weight _ j c y Hj) as Hw. destruct c; cbn [conn_next] in Hs; try done; injection Hs as <-; unfold server_weight.
  - split; [done|]. cbn [set_conn_count serves conns callers]. specialize (Hw (if connCount s - 1 =? 0 then Checking else Gone)). destruct (_ =? 0); cbn [conn_weight] in Hw; lia.
  - specialize (Hw Gone). cbn [conn_weight] in Hw. cbn [grace_done set_conn_count]. destruct (grace_done s); (split; [done|]); cbn [set_conn_count close_chan serves conns callers]; lia.
Qed.

Lemma caller_step_weight s k c choice s' : server_ok s -> close_done s = true -> callers s !! k = Some c -> caller_next s k c choice = Some s' ->
  close_done s' = true /\ (server_weight s' < server_weight s)%nat.
Proof.
  intros Hok Hc Hk Hs. destruct (so_grace s Hok (so_close s Hok Hc)) as [_ Hi]. pose proof (fun y => sum_insert caller_weight _ k c y Hk) as Hw. unfold server_weight.
  assert (forall s1 c', close_done s1 = true -> callers s1 = callers s -> sum_list_with serve_weight (serves s1) = sum_list_with serve_weight (serves s) -> conns s1 = conns s ->
    (caller_weight c' < caller_weight c)%nat -> s' = set_callers s1 (<[k := c']> (callers s1)) ->
    close_done s' = true /\ (sum_list_with serve_weight (serves s') + sum_list_with conn_weight (conns s') + sum_list_with caller_weight (callers s')
      < sum_list_with serve_weight (serves s) + sum_list_with conn_weight (conns s) + sum_list_with caller_weight (callers s))%nat) as Hgo.
  { intros s1 c' D1 D2 D3 D4 Hlt ->. split; [done|]. cbn [set_callers serves conns callers]. rewrite D2, D3, D4. specialize (Hw c'). lia. }
  assert (forall b, close_done (cancel s b) = true) as D by (intros b; cbn; rewrite Hc; by destruct (inited s && b)).
  unfold caller_next in Hs. destruct c; cbn [cancel inited] in Hs; rewrite ?Hi in Hs; cbn [negb] in Hs.
  - destruct (mutex s); [done|]. injection Hs as <-. eapply (Hgo (set_mutex (cancel s false) true)); try done; [apply D|cbn; lia].
  - injection Hs as <-. eapply (Hgo (set_mutex (close_listeners s) false)); try done; [apply close_listeners_weight|destruct choice; cbn; lia].
  - injection Hs as <-. eapply (Hgo s); try done. destruct (_ =? 0); cbn; lia.
  - destruct choice; [destruct (0 <? chan_closes s)%nat; [|done]|]; injection Hs as <-; eapply (Hgo s); try done; cbn; lia.
  - destruct (mutex s); [done|]. injection Hs as <-. eapply (Hgo (set_mutex (cancel s true) true)); try done; [apply D|cbn; lia].
  - injection Hs as <-. eapply (Hgo (close_listeners s)); try done; [apply close_listeners_weight|cbn; lia].
  - injection Hs as <-. destruct (_ =? 0); [eapply (Hgo (set_mutex s false))|eapply (Hgo s)]; try done; cbn; lia.
  - destruct (0 <? chan_closes s)%nat; [|done]. injection Hs as <-. eapply (Hgo (set_mutex s false)); try done. cbn. lia.
  - done.
Qed.

Lemma server_step_weight s o s' : server_ok s -> close_done s = true -> server_step s o = Some s' ->
  close_done s' = true /\ (server_weight s' + (if called o =? 0 then 1 else 0) <= server_weight s + called o)%nat.
Proof.
  intros Hok Hc Hs. unfold server_step in Hs. destruct (panicked s); [done|]. destruct o; cbn [called Nat.eqb].
  - injection Hs as <-. split; [done|]. unfold server_weight. cbn [set_serves serves conns callers]. rewrite sum_list_with_app. cbn. lia.
  - apply bind_Some in Hs as (l & Hl & Hs). destruct (serve_step_weight s i l choice s' Hok Hc Hl Hs). split; [done|lia].
  - apply bind_Some in Hs as (c & Hl & Hs). destruct (conn_step_weight s j c s' Hc Hl Hs). split; [done|lia].
  - injection Hs as <-. split; [done|]. unfold server_weight. cbn [set_callers serves conns callers]. rewrite sum_list_with_app. cbn. lia.
  - injection Hs as <-. split; [done|]. unfold server_weight. cbn [set_callers serves conns callers]. rewrite sum_list_with_app. cbn. lia.
  - apply bind_Some in Hs as (c & Hl & Hs). destruct (caller_step_weight s k c choice s' Hok Hc Hl Hs). split; [done|lia].
Qed.

(** The steps of goroutines in a run. *)
Definition goroutine_steps (os : list server_op) : nat := List.length (List.filter (fun o => called o =? 0)%nat os).
Lemma run_http3_weight s os s' : server_ok s -> close_done s = true -> run_http3 s os = Some s' ->
  (server_weight s' + goroutine_steps os <= server_weight s + sum_list_with called os)%nat.
Proof.
  revert s. induction os as [|o os IH]; intros s Hok Hc Hr; cbn in Hr; [injection Hr as <-; cbn; lia|]. apply bind_Some in Hr as (s1 & Hs & Hr).
  destruct (server_step_weight s o s1 Hok Hc Hs) as [Hc1 Hw]. specialize (IH s1 (server_step_ok s o s1 Hok Hs) Hc1 Hr).
  unfold goroutine_steps in *. cbn [List.filter sum_list_with]. destruct (called o =? 0)%nat; cbn [List.length]; lia.
Qed.

(** C25: Closing the server ends.  In any state that goroutines reach which serve listeners
and connections, call [Close] and call [Shutdown], as long as none has panicked
([late_connection_panics], [early_return_panics]): if a [Close] was called, then some
goroutine has a step that is due, or all of them have returned; and from the moment its
contexts are cancelled the number of steps is bounded.  In particular no call waits for a
signal that was given before.  A step is due if it waits for no peer: [Accept] returns
when the context is done, and a connection ends when the server is closed, since the
loop of [handleConn] then closes it and [HandleRequestStream] returns once the
connection is closed. *)
Theorem server_closes os s : run_http3 zero_server os = Some s -> panicked s = false ->
  (close_done s = true \/ (exists k e, callers s !! k = Some (CloseEnter e)) -> (exists o, due s o) \/ finished s)
  /\ (close_done s = true -> forall os' s', run_http3 s os' = Some s' -> (goroutine_steps os' <= server_weight s + sum_list_with called os')%nat).
Proof.
  intros Hr Hp. pose proof (run_http3_ok _ _ _ zero_server_ok Hr) as Hok. split; [by apply server_progress|].
  intros Hc os' s' Hr'. pose proof (run_http3_weight s os' s' Hok Hc Hr'). lia.
Qed.

(** ** Closing waits *)

(** No goroutine is between its look at [graceCtx] and its access to [connCount], or
the other way round. *)
Definition quiet (s : http3_server) : Prop := Forall (fun l => sl_phase l <> Counting) (serves s) /\ sum_list_with checking (conns s) = 0%nat.

Record sealed (s : http3_server) : Prop := {
  se_grace : grace_done s = true;
  se_serves : Forall (fun l => sl_phase l <> Counting) (serves s);
  se_chan : (sum_list_with checking (conns s) + chan_closes s <= 1)%nat;
  se_zero : (0 < sum_list_with checking (conns s) + chan_closes s)%nat -> connCount s = 0;
  se_over : Forall (fun c => over c = true -> connCount s = 0) (callers s);
  se_alive : panicked s = false;
}.

Lemma sealed_serve s i l choice s' : server_ok s -> sealed s -> serves s !! i = Some l -> serve_next s i l choice = Some s' -> sealed s'.
Proof.
  intros Hok [S1 S2 S3 S4 S5 S6] Hi Hs. pose proof (proj1 (Forall_lookup _ _) S2 i l Hi) as Hn. destruct (so_grace s Hok S1) as [Hcl _].
  assert (forall y, sl_phase y <> Counting -> sealed (set_serves s (<[i := y]> (serves s)))) as Hset.
  { intros y Hy. constructor; cbn; try done. by apply Forall_insert. }
  unfold serve_next in Hs. destruct (sl_phase l) eqn:Ep; try done.
  - destruct (mutex s); [done|]. injection Hs as <-. unfold start_listener. rewrite Hcl. by apply Hset.
  - destruct choice; [destruct (sl_open l); [|done]|]; injection Hs as <-; by apply Hset.
  - rewrite S1 in Hs. injection Hs as <-. by apply Hset.
  - destruct (mutex s); [done|]. injection Hs as <-. by apply Hset.
Qed.

Lemma sealed_conn s j c s' : server_ok s -> sealed s -> conns s !! j = Some c -> conn_next s j c = Some s' -> sealed s'.
Proof.
  intros Hok [S1 S2 S3 S4 S5 S6] Hj Hs. pose proof (so_count s Hok) as Hn. pose proof (sum_lookup handling _ j c Hj) as Hh. pose proof (sum_lookup checking _ j c Hj) as Hk.
  pose proof (fun y => sum_insert checking _ j c y Hj) as Hw. destruct c; cbn [conn_next] in Hs; try done; injection Hs as <-; cbn in Hh, Hk.
  - assert (sum_list_with checking (conns s) + chan_closes s = 0)%nat as Hz by (destruct (decide (0 < sum_list_with checking (conns s) + chan_closes s)%nat) as [E|E]; [specialize (S4 E)|]; lia).
    specialize (Hw (if connCount s - 1 =? 0 then Checking else Gone)). constructor; cbn [set_conn_count grace_done serves conns chan_closes connCount callers panicked]; try done.
    + destruct (_ =? 0); cbn in Hw; lia.
    + destruct (Z.eqb_spec (connCount s - 1) 0); [done|]. cbn in Hw. lia.
    + eapply Forall_impl; [|exact S5]. intros x Hx Ho. specialize (Hx Ho). lia.
  - specialize (Hw Gone). cbn in Hw. cbn [grace_done set_conn_count]. rewrite S1. specialize (S4 ltac:(lia)).
    constructor; cbn [set_conn_count close_chan grace_done serves conns chan_closes connCount callers panicked]; try done; [lia|]. rewrite S6. cbn [orb]. apply Nat.ltb_ge. lia.
Qed.

Lemma sealed_caller s k c choice s' : server_ok s -> sealed s -> callers s !! k = Some c -> caller_next s k c choice = Some s' -> sealed s'.
Proof.
  intros Hok [S1 S2 S3 S4 S5 S6] Hk Hs. destruct (so_grace s Hok S1) as [_ Hi].
  assert (forall s1 c', grace_done s1 = true -> Forall (fun l => sl_phase l <> Counting) (serves s1) -> conns s1 = conns s -> chan_closes s1 = chan_closes s -> connCount s1 = connCount s ->
    callers s1 = callers s -> panicked s1 = panicked s -> (over c' = true -> connCount s = 0) -> s' = set_callers s1 (<[k := c']> (callers s1)) -> sealed s') as Hgo.
  { intros s1 c' D1 D2 D3 D4 D5 D6 D7 Ho ->. constructor; cbn; rewrite ?D3, ?D4, ?D5, ?D6, ?D7; try done. by apply Forall_insert. }
  assert (Forall (fun l => sl_phase l <> Counting) (map close_local (serves s))) as Hcl.
  { apply Forall_fmap. eapply Forall_impl; [|exact S2]. intros [kd p o]. by destruct kd, p. }
  assert (forall b, grace_done (cancel s b) = true) as Hg by (intros; cbn; by rewrite Hi).
  unfold caller_next in Hs. destruct c; cbn [cancel inited] in Hs; rewrite ?Hi in Hs; cbn [negb] in Hs.
  - destruct (mutex s); [done|]. injection Hs as <-. eapply (Hgo (set_mutex (cancel s false) true) ShutdownListeners); try done; first [apply Hg|by cbn].
  - injection Hs as <-. eapply (Hgo (set_mutex (close_listeners s) false)); [..|reflexivity]; try done. by destruct choice.
  - injection Hs as <-. eapply (Hgo s); [..|reflexivity]; try done. by destruct (_ =? 0).
  - destruct choice; [destruct (0 <? chan_closes s)%nat; [|done]|]; injection Hs as <-; eapply (Hgo s); [..|reflexivity]; try done; by cbn.
  - destruct (mutex s); [done|]. injection Hs as <-. eapply (Hgo (set_mutex (cancel s true) true) (CloseListeners expired)); try done; first [apply Hg|by cbn].
  - injection Hs as <-. eapply (Hgo (close_listeners s)); [..|reflexivity]; try done; by cbn.
  - injection Hs as <-. destruct (Z.eqb_spec (connCount s) 0); [eapply (Hgo (set_mutex s false))|eapply (Hgo s)]; try reflexivity; try done; by cbn.
  - destruct (0 <? chan_closes s)%nat eqn:E; [|done]. apply Nat.ltb_lt in E. injection Hs as <-. eapply (Hgo (set_mutex s false)); try done. intros _. apply S4. lia.
  - done.
Qed.

Lemma sealed_step s o s' : server_ok s -> sealed s -> server_step s o = Some s' -> sealed s'.
Proof.
  intros Hok Hse Hs. unfold server_step in Hs. destruct (panicked s); [done|]. destruct o.
  - injection Hs as <-. destruct Hse. constructor; cbn; try done. by apply Forall_app_2; [|repeat constructor].
  - apply bind_Some in Hs as (l & Hl & Hs). by eapply sealed_serve.
  - apply bind_Some in Hs as (c & Hc & Hs). by eapply sealed_conn.
  - injection Hs as <-. destruct Hse. constructor; cbn; try done. by apply Forall_app_2; [|repeat constructor].
  - injection Hs as <-. destruct Hse. constructor; cbn; try done. by apply Forall_app_2; [|repeat constructor].
  - apply bind_Some in Hs as (c & Hc & Hs). by eapply sealed_caller.
Qed.
Lemma run_sealed s os s' : server_ok s -> sealed s -> run_http3 s os = Some s' -> sealed s'.
Proof.
  revert s. induction os as [|o os IH]; intros s Hok Hse Hr; cbn in Hr; [by injection Hr as <-|]. apply bind_Some in Hr as (s1 & Hs & Hr).
  apply (IH s1); [by eapply server_step_ok|by eapply sealed_step|done].
Qed.

(** The step that cancels the contexts is that of a call with the mutex. *)
Lemma cancelling_step s o s1 : server_ok s -> grace_done s = false -> server_step s o = Some s1 -> grace_done s1 = true ->
  panicked s = false /\ inited s = true /\ exists k c b, (c = ShutdownListeners \/ c = CloseListeners b) /\ serves s1 = serves s /\ conns s1 = conns s
    /\ chan_closes s1 = chan_closes s /\ connCount s1 = connCount s /\ callers s1 = <[k := c]> (callers s) /\ panicked s1 = panicked s.
Proof.
  intros Hok Hg Hs Hg1. unfold server_step in Hs. destruct (panicked s) eqn:Ep; [done|]. split; [done|]. destruct o; try (injection Hs as <-; cbn in Hg1; congruence).
  - apply bind_Some in Hs as (l & _ & Hs). unfold serve_next, start_listener in Hs.
    destruct (sl_phase l), (mutex s), (closed s), (sl_kind l), choice, (sl_open l); try done; injection Hs as <-; cbn in Hg1; congruence.
  - apply bind_Some in Hs as (c & _ & Hs). destruct c; cbn [conn_next] in Hs; try done; injection Hs as <-; cbn in Hg1; rewrite ?Hg in Hg1; cbn in Hg1; congruence.
  - apply bind_Some in Hs as (c & Hk & Hs).
    assert (c = ShutdownEnter \/ (exists b, c = CloseEnter b)) as Hc.
    { destruct c; try (by left); try (right; by eexists); exfalso; unfold caller_next in Hs; destruct choice, (connCount s =? 0), (0 <? chan_closes s)%nat; try done;
        injection Hs as <-; cbn in Hg1; congruence. }
    destruct Hc as [->|[b ->]]; cbn [caller_next cancel inited] in Hs; destruct (mutex s); try done; destruct (inited s) eqn:Ei; cbn [negb] in Hs; injection Hs as <-;
      try (cbn in Hg1; rewrite Ei in Hg1; congruence); (split; [done|]).
    + exists k, ShutdownListeners, false. split; [by left|]. by split_and!.
    + exists k, (CloseListeners b), b. split; [by right|]. by split_and!.
Qed.

(** C24: closing waits for every connection, unless one slips through.  Let the contexts of
the server be cancelled, by [Close] or by [Shutdown], at a moment at which no goroutine
is between its look at [graceCtx] and its access to [connCount].  Then, whatever
happens, the channel is closed once at most, so nothing panics, and whenever a [Close]
or a [Shutdown] has returned, other than because a listener did not close, no
connection is being handled any more. *)
Theorem close_waits os s0 o s1 os' s : run_http3 zero_server os = Some s0 -> grace_done s0 = false -> quiet s0 ->
  server_step s0 o = Some s1 -> grace_done s1 = true -> run_http3 s1 os' = Some s ->
  panicked s = false /\ (forall k c, callers s !! k = Some c -> over c = true -> connCount s = 0 /\ Forall (fun x => x <> Handling) (conns s)).
Proof.
  intros Hr Hg [Q1 Q2] Hs Hg1 Hr'. pose proof (run_http3_ok _ _ _ zero_server_ok Hr) as Hok. pose proof (server_step_ok _ _ _ Hok Hs) as Hok1.
  assert (sealed s1) as Hse.
  { destruct (cancelling_step s0 o s1 Hok Hg Hs Hg1) as (Hp & Hi & k & c & b & Hc & E1 & E2 & E3 & E4 & E5 & E6).
    assert (chan_closes s0 = 0%nat) as Hz by (destruct (chan_closes s0) eqn:E; [done|]; rewrite (so_chan s0 Hok) in Hg by lia; done).
    constructor; rewrite ?E1, ?E2, ?E3, ?E4, ?E5, ?E6, ?Q2, ?Hz; try done; [lia|lia|]. apply Forall_insert; [|by destruct Hc as [->| ->]].
    eapply Forall_impl; [|exact (so_over s0 Hok)]. intros x Hx Ho. destruct (Hx Ho) as [?|[_ ?]]; congruence. }
  pose proof (run_sealed _ _ _ Hok1 Hse Hr') as [_ _ _ _ S5 S6]. split; [done|]. intros k c Hk Ho.
  pose proof (proj1 (Forall_lookup _ _) S5 k c Hk Ho) as Hz. split; [done|]. apply Forall_lookup. intros j x Hj ->.
  pose proof (sum_lookup handling _ j _ Hj) as Hh. rewrite (so_count s (run_http3_ok _ _ _ Hok1 Hr')) in Hz. cbn in Hh. lia.
Qed.

(** ** Samples *)

(** A connection is accepted; the server is closed and waits for it. *)
Definition one_connection : list server_op :=
  [StartServe LocalListener; ServeStep 0 true; ServeStep 0 true; ServeStep 0 true; ServeStep 0 true; CallClose].
Definition closed_in_order : list server_op :=
  [CallerStep 0 true; CallerStep 0 true; ServeStep 0 false; ConnStep 0; ConnStep 0; CallerStep 0 true; ServeStep 0 true].
Definition waiting_server : http3_server := default zero_server (run_http3 zero_server one_connection).
Definition cancelled_server : http3_server := default zero_server (server_step waiting_server (CallerStep 0 true)).
Definition closed_server : http3_server := default zero_server (run_http3 cancelled_server closed_in_order).

Lemma close_waits_witness : panicked closed_server = false /\ connCount closed_server = 0 /\ finished closed_server.
Proof.
  destruct (close_waits one_connection waiting_server (CallerStep 0 true) cancelled_server closed_in_order closed_server) as [E1 E2].
  - vm_compute. reflexivity.
  - vm_compute. reflexivity.
  - split; [repeat constructor; vm_compute; discriminate|vm_compute; reflexivity].
  - vm_compute. reflexivity.
  - vm_compute. reflexivity.
  - vm_compute. reflexivity.
  - split; [exact E1|]. destruct (E2 0%nat (CallReturned (CloseError false))) as [E3 _]; [vm_compute; reflexivity|reflexivity|].
    split; [exact E3|]. vm_compute. repeat constructor.
Defined.

Lemma server_closes_witness : (exists o, due cancelled_server o) \/ finished cancelled_server.
Proof.
  apply (server_closes (one_connection ++ [CallerStep 0 true]) cancelled_server); [vm_compute; reflexivity|vm_compute; reflexivity|left; vm_compute; reflexivity].
Defined.
