(* ===== verification/Shutdown.v ===== *)
(** * Shutting the relay down

[Shutdown] of [internal/relay/server.go] with the [Close] it runs in a goroutine,
step by step over the flows of the proxy ([ProxyFlows]) and the goroutines of the
HTTP/3 server ([Http3Server]), and [logReceivePressure], which runs until [Close]
closes its channel.  Peers, the transport and the clock take their steps whenever they
like; a step that is due waits for none of them. *)

From stdpp Require Import base list numbers.
From Stdlib Require Import ZArith Lia.
From S2P Require Import Prelude.
From S2P Require Import Http3Server.
From S2P Require Import Sessions.
From S2P Require Import Startup.
From S2P Require Import DatagramBuffer.
From S2P Require Import ProxyFlows.

Local Open Scope Z_scope.

(** ** The pressure log *)

(** The six numbers of a line. *)
Record report := {
  rp_queuedBytes : Z;
  rp_peakBytes : Z;
  rp_full : Z;
  rp_budget : Z;
  rp_expired : Z;
  rp_rawPacketDrops : Z;
}.

(** The counters are [uint64]; so are their differences. *)
Definition pressure_report (previous now : Stats) : option report :=
  if negb (DroppedFull now =? DroppedFull previous) || negb (DroppedBudget now =? DroppedBudget previous)
     || negb (DroppedExpired now =? DroppedExpired previous) || negb (RawPacketDrops now =? RawPacketDrops previous) then
    Some {| rp_queuedBytes := QueuedBytes now; rp_peakBytes := PeakBytes now;
            rp_full := u64 (DroppedFull now - DroppedFull previous);
            rp_budget := u64 (DroppedBudget now - DroppedBudget previous);
            rp_expired := u64 (DroppedExpired now - DroppedExpired previous);
            rp_rawPacketDrops := u64 (RawPacketDrops now - RawPacketDrops previous) |}
  else None.

Inductive metrics_event := Tick (g : Globals) | ChannelClosed.

(** One line or none per event, until the channel is closed; the last component
says whether it returned. *)
Fixpoint logReceivePressure (previous : Stats) (events : list metrics_event) : list (option report) * bool :=
  match events with
  | [] => ([], false)
  | ChannelClosed :: _ => ([], true)
  | Tick g :: events =>
    let now := GlobalStats g in
    let '(reports, returned) := logReceivePressure now events in
    (pressure_report previous now :: reports, returned)
  end.

Definition reported (field : report -> Z) (reports : list (option report)) : Z :=
  fold_right (fun r n => match r with Some r => field r + n | None => n end) 0 reports.

Lemma u64_sum a b c : u64 (u64 (b - a) + u64 (c - b)) = u64 (c - a).
Proof. unfold u64. rewrite <- Z.add_mod by lia. f_equal. lia. Qed.

Definition last_stats (previous : Stats) (gs : list Globals) : Stats :=
  List.last (map GlobalStats gs) previous.

(** No line exactly if no drop was counted. *)
Lemma pressure_report_none previous now : pressure_report previous now = None <->
  DroppedFull now = DroppedFull previous /\ DroppedBudget now = DroppedBudget previous
  /\ DroppedExpired now = DroppedExpired previous /\ RawPacketDrops now = RawPacketDrops previous.
Proof.
  unfold pressure_report.
  destruct (DroppedFull now =? _) eqn:E1, (DroppedBudget now =? _) eqn:E2, (DroppedExpired now =? _) eqn:E3,
    (RawPacketDrops now =? _) eqn:E4; breflect; cbn; split; done || tauto.
Qed.

(** Over any run of ticks the reported differences of a counter add up to what it
counted. *)
Lemma reports_total (field : report -> Z) (counter : Stats -> Z) previous gs rest :
  (forall p n, match pressure_report p n with Some r => field r | None => 0 end = u64 (counter n - counter p)) ->
  u64 (reported field (fst (logReceivePressure previous (map Tick gs ++ ChannelClosed :: rest))))
  = u64 (counter (last_stats previous gs) - counter previous).
Proof.
  intros Hf. revert previous. induction gs as [|g gs IH]; intros previous.
  { cbn. by rewrite Z.sub_diag. }
  cbn [map app logReceivePressure]. specialize (IH (GlobalStats g)).
  destruct (logReceivePressure (GlobalStats g) _) as [reports ret]. cbn [fst] in *.
  assert (last_stats previous (g :: gs) = last_stats (GlobalStats g) gs) as ->.
  { unfold last_stats. cbn [map]. destruct (map GlobalStats gs) as [|x l]; [done|].
    revert x. clear. induction l as [|y l IHl]; intros x; [done|]. cbn. apply (IHl y). }
  rewrite <- (u64_sum (counter previous) (counter (GlobalStats g))), <- IH, <- Hf. cbn [reported fold_right].
  fold (reported field reports). unfold u64. destruct (pressure_report previous (GlobalStats g)).
  - by rewrite Zplus_mod_idemp_r.
  - by rewrite Z.add_0_l, Z.mod_mod.
Qed.

Lemma report_fields p n :
  match pressure_report p n with Some r => rp_full r | None => 0 end = u64 (DroppedFull n - DroppedFull p)
  /\ match pressure_report p n with Some r => rp_budget r | None => 0 end = u64 (DroppedBudget n - DroppedBudget p)
  /\ match pressure_report p n with Some r => rp_expired r | None => 0 end = u64 (DroppedExpired n - DroppedExpired p)
  /\ match pressure_report p n with Some r => rp_rawPacketDrops r | None => 0 end = u64 (RawPacketDrops n - RawPacketDrops p).
Proof.
  destruct (pressure_report p n) as [r|] eqn:E.
  - unfold pressure_report in E. destruct (_ || _); [|done]. injection E as <-. done.
  - apply pressure_report_none in E as (-> & -> & -> & ->). by rewrite !Z.sub_diag.
Qed.

(** The pressure log is exact and quiet.  At each tick it prints one line if
some drop counter has moved since the tick before, and none otherwise; until it
ends, the drops it reported of each kind add up (modulo 2^64) to the drops counted
between its start and the last tick; and it ends when [Close] closes the channel,
reporting nothing further. *)
Theorem pressure_accounting previous gs rest :
  let '(reports, returned) := logReceivePressure previous (map Tick gs ++ ChannelClosed :: rest) in
  let final := last_stats previous gs in
  returned = true /\ List.length reports = List.length gs
  /\ (forall i p g, (GlobalStats <$> gs) !! i = Some g -> (previous :: (GlobalStats <$> gs)) !! i = Some p ->
       reports !! i = Some (pressure_report p g))
  /\ (forall p n, pressure_report p n = None <->
       DroppedFull n = DroppedFull p /\ DroppedBudget n = DroppedBudget p
       /\ DroppedExpired n = DroppedExpired p /\ RawPacketDrops n = RawPacketDrops p)
  /\ u64 (reported rp_full reports) = u64 (DroppedFull final - DroppedFull previous)
  /\ u64 (reported rp_budget reports) = u64 (DroppedBudget final - DroppedBudget previous)
  /\ u64 (reported rp_expired reports) = u64 (DroppedExpired final - DroppedExpired previous)
  /\ u64 (reported rp_rawPacketDrops reports) = u64 (RawPacketDrops final - RawPacketDrops previous).
Proof.
  pose proof (reports_total rp_full DroppedFull previous gs rest (fun p n => proj1 (report_fields p n))) as H1.
  pose proof (reports_total rp_budget DroppedBudget previous gs rest (fun p n => proj1 (proj2 (report_fields p n)))) as H2.
  pose proof (reports_total rp_expired DroppedExpired previous gs rest (fun p n => proj1 (proj2 (proj2 (report_fields p n))))) as H3.
  pose proof (reports_total rp_rawPacketDrops RawPacketDrops previous gs rest (fun p n => proj2 (proj2 (proj2 (report_fields p n))))) as H4.
  assert (let '(reports, returned) := logReceivePressure previous (map Tick gs ++ ChannelClosed :: rest) in
    returned = true /\ List.length reports = List.length gs
    /\ forall i p g, (GlobalStats <$> gs) !! i = Some g -> (previous :: (GlobalStats <$> gs)) !! i = Some p ->
       reports !! i = Some (pressure_report p g)) as Hr.
  { clear. revert previous. induction gs as [|g gs IH]; intros previous; [done|]. cbn [map app logReceivePressure].
    specialize (IH (GlobalStats g)). destruct (logReceivePressure (GlobalStats g) _) as [reports ret].
    destruct IH as (-> & Hl & Hi). split_and!; [done|cbn; by rewrite Hl|]. intros [|i] p x Hx Hp; cbn in *; [congruence|auto]. }
  destruct (logReceivePressure _ _) as [reports returned]. cbn [fst] in *. destruct Hr as (? & ? & ?).
  split_and!; try done; apply pressure_report_none.
Qed.

(** ** Close and Shutdown *)

(** Where [Close] is: not called, called, waiting for the flows, waiting for
[http3.Server.Close], and so on. *)
Inductive close_phase := Serving | CloseCalled | WaitingFlows | HTTPClosing | TicketsClosing | UDPClosing | CloseDone.
#[export] Instance close_phase_eq_dec : EqDecision close_phase.
Proof. solve_decision. Defined.

Inductive shutdown_result := CloseResult | ContextError.

Record closing := mkClosing {
  cg_phase : close_phase;
  cg_proxy : Proxy;
  cg_sending : list nat;                 (** flows whose [proxyConnReceive] is in [SendDatagram] *)
  cg_http : http3_server;
  cg_released : list resource;           (** what [Close] has released *)
  cg_ctx_done : bool;                    (** the deadline of [Shutdown] has passed *)
  cg_returned : option shutdown_result;
}.

(** The relay after [Start]: one goroutine is about to run [Serve]. *)
Definition relay_serving : closing :=
  mkClosing Serving zero_proxy [] (set_serves zero_server [{| sl_kind := LocalListener; sl_phase := Starting; sl_open := false |}]) [] false None.

Inductive shutdown_op :=
| FlowOp (i : nat) (e : flow_event)
| NewFlow                   (** a request reaches [ProxyConnectedSocket] *)
| PacketRead (i : nat)      (** [conn.Read] returned a packet: [SendDatagram] is called *)
| SendReturns (i : nat)     (** the send queue has room, or the connection is lost *)
| H3Op (o : server_op)      (** a step of a goroutine of the HTTP/3 server *)
| ShutdownCalled
| DeadlinePasses
| CloseNext                 (** the goroutine running [Close] goes on *)
| ShutdownCloses            (** [Shutdown] receives from [done] *)
| ShutdownTimesOut.         (** [Shutdown] sees its context done *)

(** The steps of [Close], of [Shutdown] and of the flows they wait for. *)
Definition own (o : shutdown_op) : bool :=
  match o with
  | FlowOp _ PeerEnds | NewFlow | PacketRead _ | H3Op (StartServe _ | ServeStep _ _ | ConnStep _) | ShutdownCalled | DeadlinePasses => false
  | _ => true
  end.

Section Closing.
  Context (has_tickets : bool).

Definition set_phase (s : closing) (p : close_phase) (r : list resource) : closing :=
  mkClosing p (cg_proxy s) (cg_sending s) (cg_http s) (cg_released s ++ r) (cg_ctx_done s) (cg_returned s).
Definition set_proxy (s : closing) (p : Proxy) : closing :=
  mkClosing (cg_phase s) p (cg_sending s) (cg_http s) (cg_released s) (cg_ctx_done s) (cg_returned s).
Definition set_sending (s : closing) (l : list nat) : closing :=
  mkClosing (cg_phase s) (cg_proxy s) l (cg_http s) (cg_released s) (cg_ctx_done s) (cg_returned s).
Definition set_http (s : closing) (h : http3_server) : closing :=
  mkClosing (cg_phase s) (cg_proxy s) (cg_sending s) h (cg_released s) (cg_ctx_done s) (cg_returned s).
Definition set_returned (s : closing) (r : shutdown_result) : closing :=
  mkClosing (cg_phase s) (cg_proxy s) (cg_sending s) (cg_http s) (cg_released s) (cg_ctx_done s) (Some r).

(** The next step of [Close]: [metricsDone] and the proxy are closed; when no flow is
left [http3.Server.Close] is called; when that has returned, the ticket store and the
socket are closed. *)
Definition close_next (s : closing) : option closing :=
  match cg_phase s with
  | CloseCalled => Some (set_phase (set_proxy s (Proxy_Close (cg_proxy s))) WaitingFlows [MetricsDone])
  | WaitingFlows =>
    if close_returns (cg_proxy s) then h ← server_step (cg_http s) CallClose; Some (set_phase (set_http s h) HTTPClosing [Startup.ProxyFlows])
    else None
  | HTTPClosing =>
    match callers (cg_http s) !! 0%nat with Some (CallReturned _) => Some (set_phase s TicketsClosing [HTTPServer]) | _ => None end
  | TicketsClosing => Some (set_phase s UDPClosing (if has_tickets then [TicketStore] else []))
  | UDPClosing => Some (set_phase s CloseDone [UDPSocket])
  | Serving | CloseDone => None
  end.

Definition before_http (p : close_phase) : bool := match p with Serving | CloseCalled | WaitingFlows => true | _ => false end.
Definition before_close (p : close_phase) : bool := match p with Serving | CloseCalled => true | _ => false end.

(** [proxyConnReceive] cannot return while it is in [SendDatagram], which waits for
room in the queue ([datagramQueue.Add]) and does not look at the socket. *)
Definition in_send (s : closing) (i : nat) (e : flow_event) : bool :=
  match e with ReceiveEnds => bool_decide (i ∈ cg_sending s) | _ => false end.

(** A panic ends the process. *)
Definition shutdown_step (s : closing) (o : shutdown_op) : option closing :=
  if panicked (cg_http s) then None
  else match o with
  | FlowOp i e => if in_send s i e then None else set_proxy s <$> run_proxy (cg_proxy s) (FlowStep i e)
  | NewFlow => set_proxy s <$> run_proxy (cg_proxy s) StartFlow
  | PacketRead i =>
    f ← px_flows (cg_proxy s) !! i;
    if fl_receive f && negb (fl_conn_closed f) && bool_decide (i ∉ cg_sending s) then Some (set_sending s (i :: cg_sending s)) else None
  | SendReturns i => if bool_decide (i ∈ cg_sending s) then Some (set_sending s (List.filter (fun j => negb (j =? i)%nat) (cg_sending s))) else None
  | H3Op o => if (called o =? 0)%nat then set_http s <$> server_step (cg_http s) o else None
  | ShutdownCalled => match cg_phase s with Serving => Some (set_phase s CloseCalled []) | _ => None end
  | DeadlinePasses =>
    match cg_phase s with
    | Serving => None
    | _ => Some (mkClosing (cg_phase s) (cg_proxy s) (cg_sending s) (cg_http s) (cg_released s) true (cg_returned s))
    end
  | CloseNext => close_next s
  | ShutdownCloses =>
    match cg_returned s, cg_phase s with None, CloseDone => Some (set_returned s CloseResult) | _, _ => None end
  | ShutdownTimesOut =>
    match cg_returned s, cg_ctx_done s with None, true => Some (set_returned s ContextError) | _, _ => None end
  end.

Fixpoint run_shutdown (s : closing) (os : list shutdown_op) : option closing :=
  match os with [] => Some s | o :: os => s' ← shutdown_step s o; run_shutdown s' os end.

(** ** Measure *)

Definition flow_weight (f : flow) : nat :=
  Nat.b2n (fl_send f) + Nat.b2n (fl_receive f) + Nat.b2n (fl_skip f) + Nat.b2n (negb (fl_returned f)).
Definition flows_weight (l : list flow) : nat := sum_list_with flow_weight l.
Definition phase_weight (p : close_phase) : nat :=
  match p with
  | Serving => 10 | CloseCalled => 9 | WaitingFlows => 8 | HTTPClosing => 3 | TicketsClosing => 2 | UDPClosing => 1 | CloseDone => 0
  end.
Definition shutdown_weight (s : closing) : nat :=
  phase_weight (cg_phase s) + flows_weight (px_flows (cg_proxy s)) + List.length (cg_sending s)
  + sum_list_with caller_weight (callers (cg_http s)) + match cg_returned s with None => 1 | Some _ => 0 end.

(** A running flow whose stream reads fail is not waiting for the peer: the next
step of one of its goroutines is due, because what it blocks on has failed. *)
Definition forced (f : flow) (e : flow_event) : bool :=
  match e with
  | PeerEnds => false
  | SendEnds | SkipEnds => fl_read_ended f
  | ReceiveEnds => fl_conn_closed f
  | FlowReturns => true
  end.

Lemma flow_step_weight f e f' : flow_step f e = Some f' ->
  match e with PeerEnds => flow_weight f' = flow_weight f | _ => (flow_weight f' < flow_weight f)%nat end.
Proof.
  destruct f as [[] [] [] sc [] cc rg []], e; cbn; intros H; simplify_eq; unfold flow_weight; cbn; lia.
Qed.

Lemma flow_forced f : fl_read_ended f = true -> (fl_skip f = false -> fl_conn_closed f = true) -> fl_returned f = false ->
  exists e, forced f e = true /\ is_Some (flow_step f e).
Proof.
  intros Hr Hc Hn. destruct f as [s r k sc re cc rg rt]. cbn in *. subst re rt.
  destruct s; [exists SendEnds; cbn; eauto|]. destruct k; [exists SkipEnds; cbn; eauto|].
  destruct r; [exists ReceiveEnds; cbn; rewrite Hc by done; eauto|]. exists FlowReturns. cbn. eauto.
Qed.

Lemma flows_weight_insert l i f f' : l !! i = Some f ->
  (flows_weight (<[i := f']> l) + flow_weight f = flows_weight l + flow_weight f')%nat.
Proof.
  revert i. induction l as [|x l IH]; intros [|i] H; try done.
  - injection H as ->. change (flow_weight f' + flows_weight l + flow_weight f = flow_weight f + flows_weight l + flow_weight f')%nat. lia.
  - change (flow_weight x + flows_weight (<[i := f']> l) + flow_weight f = flow_weight x + flows_weight l + flow_weight f')%nat.
    specialize (IH i H). lia.
Qed.

Lemma flows_weight_bound c l : Forall (flow_ok c) l -> (Z.of_nat (flows_weight l) <= 4 * running l).
Proof.
  induction 1 as [|f l [_ Hst _ _ _] _ IH]; [done|]. rewrite running_cons.
  change (flows_weight (f :: l)) with (flow_weight f + flows_weight l)%nat. unfold is_running. destruct (fl_returned f) eqn:E.
  - destruct (Hst eq_refl) as (H1 & H2 & H3). assert (flow_weight f = 0%nat) by (unfold flow_weight; by rewrite H1, H2, H3, E).
    cbn [negb]. lia.
  - assert (flow_weight f <= 4)%nat by (unfold flow_weight; rewrite E; destruct (fl_send f), (fl_receive f), (fl_skip f); cbn; lia).
    cbn [negb]. lia.
Qed.

(** ** Invariant *)

(** What has been released when [Close] is in a phase. *)
Definition released_by (p : close_phase) : list resource :=
  match p with
  | Serving | CloseCalled => []
  | WaitingFlows => [MetricsDone]
  | HTTPClosing => [MetricsDone; Startup.ProxyFlows]
  | TicketsClosing => [MetricsDone; Startup.ProxyFlows; HTTPServer]
  | UDPClosing => [MetricsDone; Startup.ProxyFlows; HTTPServer] ++ (if has_tickets then [TicketStore] else [])
  | CloseDone => [MetricsDone; Startup.ProxyFlows; HTTPServer] ++ (if has_tickets then [TicketStore] else []) ++ [UDPSocket]
  end.

(** The relay calls [http3.Server.Close] once and never [http3.Server.Shutdown]. *)
Definition close_call (c : caller) : bool :=
  match c with ShutdownEnter | ShutdownListeners | ShutdownLoad | ShutdownWait => false | _ => true end.
Definition calls_ok (p : close_phase) (l : list caller) : Prop :=
  if before_http p then l = []
  else exists c, l = [c] /\ close_call c = true /\ (p <> HTTPClosing -> returned c = true).

Record closing_ok (s : closing) : Prop := {
  co_proxy : proxy_ok (cg_proxy s);
  co_closed : before_close (cg_phase s) = false -> px_closed (cg_proxy s) = true;
  co_flows : before_http (cg_phase s) = false -> px_refCount (cg_proxy s) = 0;
  co_http : server_ok (cg_http s);
  co_calls : calls_ok (cg_phase s) (callers (cg_http s));
  co_open : before_http (cg_phase s) = true -> close_done (cg_http s) = false;
  co_released : cg_released s = released_by (cg_phase s);
}.

Lemma relay_serving_ok : closing_ok relay_serving.
Proof. constructor; try done; try apply zero_proxy_ok. constructor; cbn; (done || lia || constructor). Qed.

(** A step of the HTTP/3 server moves one call on, or none. *)
Lemma caller_next_calls h k c choice h' : caller_next h k c choice = Some h' ->
  exists c', callers h' = <[k := c']> (callers h) /\ (caller_weight c' < caller_weight c)%nat
    /\ (close_call c = true -> close_call c' = true) /\ returned c = false.
Proof.
  intros H. destruct c; cbn [caller_next] in H;
    repeat match type of H with context [if ?b then _ else _] => destruct b end; try done;
    injection H as <-; (eexists; split; [reflexivity|]); (split; [cbn; lia|]); by split.
Qed.

Lemma server_step_calls h o h' : called o = 0%nat -> server_step h o = Some h' ->
  callers h' = callers h /\ close_done h' = close_done h /\ own (H3Op o) = false
  \/ exists k c c', callers h !! k = Some c /\ callers h' = <[k := c']> (callers h) /\ (caller_weight c' < caller_weight c)%nat
    /\ (close_call c = true -> close_call c' = true) /\ returned c = false.
Proof.
  intros Ho H. unfold server_step in H. destruct (panicked h); [done|]. destruct o as [|i choice|j| | |k choice]; try done.
  - left. apply bind_Some in H as (l & _ & H). unfold serve_next, start_listener in H.
    destruct (sl_phase l), (mutex h), (Http3Server.closed h), (sl_kind l), choice, (sl_open l); try done; by injection H as <-.
  - left. apply bind_Some in H as (c & _ & H). destruct c; cbn [conn_next] in H; try done; injection H as <-; [done|].
    cbn [set_conn_count grace_done]. by destruct (grace_done h).
  - right. apply bind_Some in H as (c & Hk & H). apply caller_next_calls in H as (c' & ?). by exists k, c, c'.
Qed.

Lemma calls_ok_step p h o h' : calls_ok p (callers h) -> called o = 0%nat -> server_step h o = Some h' -> calls_ok p (callers h').
Proof.
  intros Hc Ho H. destruct (server_step_calls _ _ _ Ho H) as [(-> & _)|(k & c & c' & Hk & -> & _ & Hcl & Hr)]; [done|].
  unfold calls_ok in *. destruct (before_http p); [by rewrite Hc in Hk|]. destruct Hc as (c0 & E & H1 & H2). rewrite E in *.
  destruct k as [|k]; [|done]. injection Hk as ->. exists c'. split_and!; [done|auto|]. intros Hp. specialize (H2 Hp). congruence.
Qed.

Lemma open_step p h o h' : calls_ok p (callers h) -> before_http p = true -> called o = 0%nat -> server_step h o = Some h' -> close_done h' = close_done h.
Proof.
  intros Hc Hp Ho H. unfold calls_ok in Hc. rewrite Hp in Hc.
  destruct (server_step_calls _ _ _ Ho H) as [(_ & ? & _)|(k & c & c' & Hk & _)]; [done|]. by rewrite Hc in Hk.
Qed.

Lemma run_proxy_closed p o p' : px_closed p = true -> run_proxy p o = Some p' -> px_closed p' = true.
Proof.
  intros Hc. destruct o as [| |i e]; cbn; [unfold ProxyConnectedSocket; rewrite Hc; by intros [= <-]|by intros [= <-]|].
  destruct (px_flows p !! i) as [f|]; [|done]. cbn. destruct (flow_step f e); [|done]. by intros [= <-].
Qed.

Lemma run_proxy_idle p o p' : px_closed p = true -> proxy_ok p -> px_refCount p = 0 ->
  run_proxy p o = Some p' -> o <> CloseProxy -> px_refCount p' = 0.
Proof.
  intros Hc Hok Hz Hr Hne. pose proof (run_proxy_ok _ _ _ Hok Hr) as [Hz' _]. destruct o as [| |i e]; cbn in Hr; [|done|].
  - unfold ProxyConnectedSocket in Hr. rewrite Hc in Hr. by injection Hr as <-.
  - destruct (px_flows p !! i) as [f|]; [|done]. cbn in Hr. destruct (flow_step f e); [|done]. injection Hr as <-.
    cbn [px_refCount px_flows] in *. assert (0 <= running (<[i := f0]> (px_flows p))) by apply len_nonneg. destruct e; lia.
Qed.

Lemma set_proxy_ok s o p' : closing_ok s -> run_proxy (cg_proxy s) o = Some p' -> o <> CloseProxy -> closing_ok (set_proxy s p').
Proof.
  intros [H1 H2 H3 H4 H5 H7 H6] Hr Hne. constructor; cbn; try done.
  - by eapply run_proxy_ok.
  - intros Hp. eapply run_proxy_closed; [by apply H2|done].
  - intros Hb. eapply run_proxy_idle; [apply H2|..]; eauto. by destruct (cg_phase s).
Qed.

Lemma close_next_ok s s' : closing_ok s -> panicked (cg_http s) = false -> close_next s = Some s' -> closing_ok s'.
Proof.
  intros [H1 H2 H3 H4 H5 H7 H6] Hp H. unfold close_next in H. destruct (cg_phase s) eqn:Ep; try done.
  - injection H as <-. constructor; cbn; try done; [by apply (run_proxy_ok (cg_proxy s) CloseProxy)|by rewrite H6].
  - destruct (close_returns (cg_proxy s)) eqn:Er; [|done]. apply bind_Some in H as (h & Hh & H). injection H as <-.
    unfold close_returns in Er. breflect. pose proof (server_step_ok _ _ _ H4 Hh) as Hok. unfold server_step in Hh. rewrite Hp in Hh. injection Hh as <-.
    constructor; cbn; try done; [|by rewrite H6]. cbn in H5 |- *. rewrite H5. by exists (CloseEnter false).
  - destruct H5 as (c & Ec & H5 & _). rewrite Ec in H. cbn in H. destruct c as [| | | | | | | |r]; try done. injection H as <-.
    constructor; cbn; try done; rewrite ?H6; auto. by exists (CallReturned r).
  - injection H as <-. destruct H5 as (c & ? & ? & Hr). constructor; cbn; try done; rewrite ?H6; auto. exists c. split_and!; auto.
  - injection H as <-. destruct H5 as (c & ? & ? & Hr). constructor; cbn; try done; rewrite ?H6; [auto..|exists c; split_and!; auto|].
    cbn. by destruct has_tickets.
Qed.

Lemma shutdown_step_ok s o s' : closing_ok s -> shutdown_step s o = Some s' -> closing_ok s'.
Proof.
  intros Hok H. unfold shutdown_step in H. destruct (panicked (cg_http s)) eqn:Epan; [done|]. destruct o as [i e| |i|i|o| | | | |].
  - destruct (in_send s i e); [done|]. apply fmap_Some in H as (p' & Hr & ->). by eapply set_proxy_ok.
  - apply fmap_Some in H as (p' & Hr & ->). by eapply set_proxy_ok.
  - apply bind_Some in H as (f & _ & H). destruct (_ && _); [|done]. injection H as <-. by destruct Hok.
  - case_bool_decide; [|done]. injection H as <-. by destruct Hok.
  - destruct (called o =? 0)%nat eqn:Eo; [|done]. apply Nat.eqb_eq in Eo. apply fmap_Some in H as (h & Hh & ->). destruct Hok.
    constructor; cbn; try done; [by eapply server_step_ok|by eapply calls_ok_step|].
    intros Hb. rewrite (open_step _ _ _ _ co_calls0 Hb Eo Hh). auto.
  - destruct (cg_phase s) eqn:Ep; try done. injection H as <-. destruct Hok as [H1 H2 H3 H4 H5 H7 H6]. rewrite Ep in *. constructor; cbn; try done. by rewrite H6.
  - destruct (cg_phase s) eqn:Ep; try done; injection H as <-; destruct Hok as [H1 H2 H3 H4 H5 H7 H6]; rewrite ?Ep in *; by constructor.
  - by eapply close_next_ok.
  - destruct (cg_returned s), (cg_phase s) eqn:Ep; try done. injection H as <-. destruct Hok. by constructor.
  - destruct (cg_returned s), (cg_ctx_done s); try done. injection H as <-. destruct Hok. by constructor.
Qed.

Lemma run_shutdown_ok s os s' : closing_ok s -> run_shutdown s os = Some s' -> closing_ok s'.
Proof.
  revert s. induction os as [|o os IH]; intros s Hok H; cbn in H; [by injection H as <-|].
  apply bind_Some in H as (s1 & Hs & H). eapply IH; [|done]. by eapply shutdown_step_ok.
Qed.

(** ** Steps left *)

Lemma flow_op_weight s i e s' : shutdown_step s (FlowOp i e) = Some s' ->
  cg_phase s' = cg_phase s /\ (Nat.b2n (own (FlowOp i e)) + shutdown_weight s' <= shutdown_weight s)%nat.
Proof.
  intros H. unfold shutdown_step in H. destruct (panicked (cg_http s)), (in_send s i e); try done.
  apply fmap_Some in H as (p' & Hr & ->). split; [done|]. cbn in Hr. destruct (px_flows (cg_proxy s) !! i) as [f|] eqn:Ei; [|done].
  cbn in Hr. destruct (flow_step f e) as [f'|] eqn:Ef; [|done]. injection Hr as <-. apply flow_step_weight in Ef.
  pose proof (flows_weight_insert _ _ _ f' Ei). unfold shutdown_weight. cbn [cg_phase cg_http cg_sending cg_proxy cg_returned set_proxy px_flows].
  destruct e; cbn [Nat.b2n own] in *; lia.
Qed.

Lemma http_op_weight s o s' : shutdown_step s (H3Op o) = Some s' ->
  cg_phase s' = cg_phase s /\ (Nat.b2n (own (H3Op o)) + shutdown_weight s' <= shutdown_weight s)%nat.
Proof.
  intros H. unfold shutdown_step in H. destruct (panicked (cg_http s)); [done|]. destruct (called o =? 0)%nat eqn:Eo; [|done].
  apply Nat.eqb_eq in Eo. apply fmap_Some in H as (h & Hh & ->). split; [done|]. unfold shutdown_weight. cbn [cg_phase cg_http cg_sending cg_proxy cg_returned set_http].
  destruct (server_step_calls _ _ _ Eo Hh) as [(-> & _ & ->)|(k & c & c' & Hk & -> & Hlt & _)]; [done|].
  pose proof (sum_insert caller_weight _ k c c' Hk). destruct (own (H3Op o)); cbn; lia.
Qed.

(** Once the proxy is closed nothing is read for a flow, and a request starts none. *)
Lemma flow_closed s i f : closing_ok s -> before_close (cg_phase s) = false -> px_flows (cg_proxy s) !! i = Some f -> fl_conn_closed f = true.
Proof.
  intros Hok Hp Hi. destruct (co_proxy s Hok) as [_ Hf]. rewrite Forall_lookup in Hf.
  by apply (fo_closed_socket _ _ (Hf i f Hi)), (co_closed s Hok).
Qed.

Lemma sent_shorter i l : i ∈ l -> (List.length (List.filter (fun j => negb (j =? i)%nat) l) < List.length l)%nat.
Proof.
  induction l as [|j l IH]; [by intros ?%elem_of_nil|]. intros [->|Hin]%elem_of_cons; cbn.
  - rewrite Nat.eqb_refl. cbn. match goal with |- context [List.filter ?p l] => pose proof (List.filter_length_le p l) end. lia.
  - specialize (IH Hin). destruct (negb _); cbn; lia.
Qed.

(** Every step of [Close], of [Shutdown] and of a flow brings the end nearer, and
nobody else can put it off once the proxy is closed. *)
Lemma shutdown_step_weight s o s' : closing_ok s -> before_close (cg_phase s) = false -> shutdown_step s o = Some s' ->
  before_close (cg_phase s') = false /\ (Nat.b2n (own o) + shutdown_weight s' <= shutdown_weight s)%nat.
Proof.
  intros Hok Hp H. destruct o as [i e| |i|i|o| | | | |].
  { apply flow_op_weight in H as [-> ?]. done. }
  4: { apply http_op_weight in H as [-> ?]. done. }
  all: unfold shutdown_step in H; destruct (panicked (cg_http s)) eqn:Epan; [done|]; unfold shutdown_weight.
  - apply fmap_Some in H as (p' & Hr & ->). split; [done|]. cbn in Hr. unfold ProxyConnectedSocket in Hr. rewrite (co_closed s Hok) in Hr by done.
    injection Hr as <-. cbn. unfold flows_weight. rewrite sum_list_with_app. cbn. lia.
  - apply bind_Some in H as (f & Hi & H). rewrite (flow_closed _ _ _ Hok Hp Hi), andb_false_r in H. done.
  - case_bool_decide as Hin; [|done]. injection H as <-. split; [done|]. apply sent_shorter in Hin. cbn [cg_phase cg_http cg_sending cg_proxy cg_returned set_sending own Nat.b2n]. lia.
  - by destruct (cg_phase s).
  - destruct (cg_phase s) eqn:Ep; try done; injection H as <-; cbn [cg_phase cg_http cg_sending cg_proxy cg_returned own Nat.b2n]; (split; [done|lia]).
  - unfold close_next in H. destruct (cg_phase s) eqn:Ep; try done.
    + destruct (close_returns _); [|done]. unfold server_step in H. rewrite Epan in H. injection H as <-. split; [done|]. cbn. rewrite sum_list_with_app. cbn. lia.
    + destruct (callers (cg_http s) !! 0%nat) as [[]|]; try done. injection H as <-. cbn. split; [done|lia].
    + injection H as <-. cbn. split; [done|lia].
    + injection H as <-. cbn. split; [done|lia].
  - destruct (cg_returned s), (cg_phase s) eqn:Ep; try done. injection H as <-. cbn. rewrite Ep. cbn. split; [done|lia].
  - destruct (cg_returned s), (cg_ctx_done s); try done. injection H as <-. cbn. split; [done|lia].
Qed.

Definition own_steps (os : list shutdown_op) : nat := List.length (List.filter own os).
Lemma run_shutdown_weight s os s' : closing_ok s -> before_close (cg_phase s) = false -> run_shutdown s os = Some s' ->
  before_close (cg_phase s') = false /\ (own_steps os + shutdown_weight s' <= shutdown_weight s)%nat.
Proof.
  revert s. induction os as [|o os IH]; intros s Hok Hp H; cbn in H; [by injection H as <-|].
  destruct (shutdown_step s o) as [s1|] eqn:Es; [|done]. cbn in H.
  destruct (shutdown_step_weight _ _ _ Hok Hp Es) as [Hp1 Hw]. apply shutdown_step_ok in Es; [|done].
  destruct (IH s1 Es Hp1 H) as [Hp' Hw']. split; [done|]. unfold own_steps in *. cbn [List.filter].
  destruct (own o); cbn [List.length Nat.b2n] in *; lia.
Qed.

(** What the HTTP/3 server does in a run. *)
Definition http_ops (os : list shutdown_op) : list server_op :=
  omap (fun o => match o with H3Op o => Some o | _ => None end) os.
Lemma run_shutdown_http s os s' : before_http (cg_phase s) = false -> run_shutdown s os = Some s' ->
  run_http3 (cg_http s) (http_ops os) = Some (cg_http s') /\ Forall (fun o => called o = 0%nat) (http_ops os).
Proof.
  revert s. induction os as [|o os IH]; intros s Hp H; cbn in H; [by injection H as <-|].
  apply bind_Some in H as (s1 & Hs & H). unfold shutdown_step in Hs. destruct (panicked (cg_http s)); [done|].
  assert (forall s2, s1 = s2 -> cg_http s2 = cg_http s -> before_http (cg_phase s2) = false ->
    (match o with H3Op _ => False | _ => True end) ->
    run_http3 (cg_http s) (http_ops (o :: os)) = Some (cg_http s') /\ Forall (fun o => called o = 0%nat) (http_ops (o :: os))) as Hsame.
  { intros s2 -> Eh Ep Ho. destruct (IH _ Ep H) as [H1 H2]. rewrite Eh in H1. destruct o; done. }
  destruct o as [i e| |i|i|o| | | | |].
  - destruct (in_send s i e); [done|]. apply fmap_Some in Hs as (p' & _ & ->). by eapply Hsame.
  - apply fmap_Some in Hs as (p' & _ & ->). by eapply Hsame.
  - apply bind_Some in Hs as (f & _ & Hs). destruct (_ && _); [|done]. injection Hs as <-. by eapply Hsame.
  - case_bool_decide; [|done]. injection Hs as <-. by eapply Hsame.
  - destruct (called o =? 0)%nat eqn:Eo; [|done]. apply Nat.eqb_eq in Eo. apply fmap_Some in Hs as (h & Hh & ->).
    destruct (IH (set_http s h) Hp H) as [H1 H2]. split; [|by constructor]. cbn. rewrite Hh. exact H1.
  - by destruct (cg_phase s).
  - destruct (cg_phase s) eqn:Ep; try done; injection Hs as <-; by eapply Hsame.
  - unfold close_next in Hs. destruct (cg_phase s) eqn:Ep; try done; [destruct (callers (cg_http s) !! 0%nat) as [[]|]; try done| |]; injection Hs as <-; by eapply Hsame.
  - destruct (cg_returned s), (cg_phase s) eqn:Ep; try done. injection Hs as <-. eapply Hsame; try done. by cbn; rewrite Ep.
  - destruct (cg_returned s), (cg_ctx_done s); try done. injection Hs as <-. by eapply Hsame.
Qed.

Lemma no_calls os : Forall (fun o => called o = 0%nat) os -> sum_list_with called os = 0%nat /\ goroutine_steps os = List.length os.
Proof.
  induction 1 as [|o os Ho _ [IH1 IH2]]; [done|]. unfold goroutine_steps in *. cbn [sum_list_with List.filter]. rewrite Ho. cbn. auto with lia.
Qed.

(** ** Steps that are due *)

(** Steps that do not wait for anybody. *)
Definition due (s : closing) (o : shutdown_op) : Prop :=
  is_Some (shutdown_step s o)
  /\ match o with
     | FlowOp i e => exists f, px_flows (cg_proxy s) !! i = Some f /\ forced f e = true
     | H3Op o => Http3Server.due (cg_http s) o
     | CloseNext | ShutdownCloses | ShutdownTimesOut => True
     | NewFlow | PacketRead _ | SendReturns _ | ShutdownCalled | DeadlinePasses => False
     end.

(** [Close] goes on, or the HTTP/3 server it closed does, or a packet of a flow waits
to be sent. *)
Definition goes_on (s : closing) : Prop :=
  (exists o, due s o /\ (own o = true \/ close_done (cg_http s) = true)) \/ exists i, is_Some (shutdown_step s (SendReturns i)).

Lemma flows_go_on s : closing_ok s -> panicked (cg_http s) = false -> px_closed (cg_proxy s) = true -> close_returns (cg_proxy s) = false -> goes_on s.
Proof.
  intros Hok Hpan Hc Er. destruct (co_proxy s Hok) as [Hr Hf]. unfold close_returns in Er. rewrite Hc in Er. cbn in Er. breflect.
  destruct (running_pos (px_flows (cg_proxy s))) as (i & f & Hi & Hret); [lia|].
  rewrite Forall_lookup in Hf. destruct (Hf i f Hi) as [_ _ Hsock Hread _].
  destruct (flow_forced f) as (e & He & [f' Hs]); [by destruct (Hread Hc); congruence|done|done|].
  destruct (in_send s i e) eqn:Ein.
  - right. exists i. destruct e; try done. unfold in_send in Ein. unfold shutdown_step. rewrite Hpan, Ein. by eexists.
  - left. exists (FlowOp i e). split; [|left; by destruct e]. split; [|by exists f].
    unfold shutdown_step. rewrite Hpan, Ein. cbn. rewrite Hi. cbn. rewrite Hs. by eexists.
Qed.

Lemma http_goes_on s : closing_ok s -> panicked (cg_http s) = false -> cg_phase s = HTTPClosing -> goes_on s.
Proof.
  intros Hok Hpan Ep. pose proof (co_calls s Hok) as Hcs. rewrite Ep in Hcs. destruct Hcs as (c & Ec & Hcl & _). pose proof (co_http s Hok) as Hh. left.
  assert (forall o, Http3Server.due (cg_http s) o -> due s (H3Op o)) as Hlift.
  { intros o [Hf [h Hs]]. split; [|by split; [|exists h]]. unfold shutdown_step. rewrite Hpan. destruct o; try done; cbn [called Nat.eqb]; rewrite Hs; by eexists. }
  pose proof (so_callers _ Hh) as Hcs. rewrite Ec in Hcs. apply Forall_cons_1 in Hcs as [Hc _].
  destruct (decide (returned c = true)) as [Hr|Hr].
  { exists CloseNext. split; [|by left]. split; [|done]. unfold shutdown_step, close_next. rewrite Hpan, Ep, Ec. by destruct c. }
  destruct (close_done (cg_http s)) eqn:Ed.
  { destruct (server_progress _ Hh Hpan (or_introl Ed)) as [[o Ho]|(_ & _ & Hfin)]; [exists (H3Op o); auto|].
    rewrite Ec in Hfin. apply Forall_cons_1 in Hfin as [? _]. done. }
  destruct c as [| | | |e|e|e f|e f|r]; try done.
  assert (mutex (cg_http s) = false) as Em.
  { pose proof (so_mutex _ Hh) as Hm. rewrite Ec in Hm. cbn in Hm. by destruct (mutex (cg_http s)). }
  exists (H3Op (CallerStep 0 true)). split; [|by left]. apply Hlift. split; [cbn; by rewrite Ec|].
  unfold server_step. rewrite Hpan, Ec. cbn. rewrite Em. by eexists.
Qed.

Lemma shutdown_progress s : closing_ok s -> panicked (cg_http s) = false -> before_close (cg_phase s) = false ->
  cg_phase s <> CloseDone \/ cg_returned s = None -> goes_on s.
Proof.
  intros Hok Hpan Hb Hn.
  assert (forall o, own o = true -> due s o -> goes_on s) as Hown by (intros o Ho Hd; left; exists o; auto).
  destruct (cg_phase s) eqn:Ep; try done.
  - destruct (close_returns (cg_proxy s)) eqn:Er; [|apply flows_go_on; try done; apply (co_closed s Hok); by rewrite Ep].
    apply (Hown CloseNext); [done|]. split; [|done]. unfold shutdown_step, close_next, server_step. rewrite Hpan, Ep, Er. by eexists.
  - by apply http_goes_on.
  - apply (Hown CloseNext); [done|]. split; [|done]. unfold shutdown_step, close_next. rewrite Hpan, Ep. by eexists.
  - apply (Hown CloseNext); [done|]. split; [|done]. unfold shutdown_step, close_next. rewrite Hpan, Ep. by eexists.
  - destruct Hn as [|Hn]; [done|]. apply (Hown ShutdownCloses); [done|]. split; [|done]. unfold shutdown_step. rewrite Hpan, Hn, Ep. by eexists.
Qed.

(** When no flow is counted every flow has returned. *)
Lemma none_running l : running l = 0 -> Forall (fun f => fl_returned f = true) l.
Proof.
  induction l as [|x l IH]; [done|]. rewrite running_cons. assert (0 <= running l) by apply len_nonneg.
  unfold is_running. destruct (fl_returned x) eqn:E; cbn [negb]; [|lia]. intros. constructor; [done|]. apply IH. lia.
Qed.

(** C23: Shutting down ends.  Take a relay that has served any connections and flows, let
[Shutdown] be called and the [Close] it runs begin, and let anything happen afterwards.
Unless two ends of connections have made the HTTP/3 server close its channel twice,
which ends the process ([shutdown_panics]):
- [Close], [Shutdown] and the flows they wait for take at most 9 steps, four for each
  flow that was running and one for each packet that was being sent; and from the moment
  [http3.Server.Close] cancels the contexts the other goroutines of that server take at
  most as many as [server_weight] says;
- until [Close] is done and [Shutdown] has returned, one of these steps can be taken
  without waiting for a peer (request handlers return once their connection is closed), or a flow is in [SendDatagram], which returns when the
  transport has room for the packet or gives the connection up.  So if it does one or
  the other and the scheduler is fair, [Close] ends and [Shutdown] returns;
- if its deadline passes first, [Shutdown] can return at once;
- when [Close] is done every flow has returned and every resource was closed, in the
  order of [Startup.Close]. *)
Theorem shutdown_completes before s0 os s :
  run_shutdown relay_serving before = Some s0 -> cg_phase s0 = CloseCalled -> run_shutdown s0 (CloseNext :: os) = Some s ->
  Z.of_nat (own_steps os) <= 9 + 4 * px_refCount (cg_proxy s0) + len (cg_sending s0)
  /\ (close_done (cg_http s) = true -> forall os' s', run_shutdown s os' = Some s' -> (List.length (http_ops os') <= server_weight (cg_http s))%nat)
  /\ (panicked (cg_http s) = false ->
      (cg_phase s <> CloseDone \/ cg_returned s = None -> goes_on s)
      /\ (cg_returned s = None -> cg_ctx_done s = true -> due s ShutdownTimesOut))
  /\ (cg_phase s = CloseDone -> Forall (fun f => fl_returned f = true) (px_flows (cg_proxy s))
      /\ forall ses, Sessions.closed ses = false -> cg_released s = snd (Startup.Close true has_tickets true ses)).
Proof.
  intros H0 Ep Hs. apply run_shutdown_ok in H0; [|apply relay_serving_ok]. cbn [run_shutdown] in Hs. apply bind_Some in Hs as (s1 & Hs1 & Hs).
  pose proof (shutdown_step_ok _ _ _ H0 Hs1) as Hok1. pose proof (run_shutdown_ok _ _ _ Hok1 Hs) as Hok.
  assert (s1 = set_phase (set_proxy s0 (Proxy_Close (cg_proxy s0))) WaitingFlows [MetricsDone]) as E1.
  { unfold shutdown_step, close_next in Hs1. rewrite Ep in Hs1. destruct (panicked _); [done|]. by injection Hs1 as <-. }
  destruct (run_shutdown_weight s1 os s Hok1 ltac:(by subst) Hs) as [Hb Hw]. split_and!.
  - destruct (co_proxy _ Hok1) as [Hr Hf]. apply flows_weight_bound in Hf. rewrite <- Hr in Hf.
    pose proof (co_calls _ Hok1) as Hc. unfold shutdown_weight in Hw. subst s1.
    cbn [set_phase set_proxy cg_phase cg_http cg_sending cg_returned cg_proxy phase_weight Proxy_Close px_refCount calls_ok before_http] in *.
    rewrite Hc in Hw. cbn [sum_list_with] in Hw. unfold len. destruct (cg_returned s0); lia.
  - intros Hd os' s' Hr.
    assert (before_http (cg_phase s) = false) as Hbh.
    { destruct (before_http (cg_phase s)) eqn:E; [|done]. rewrite (co_open s Hok E) in Hd. done. }
    destruct (run_shutdown_http _ _ _ Hbh Hr) as [Hr' Hf].
    pose proof (run_http3_weight _ _ _ (co_http s Hok) Hd Hr') as Hw'. destruct (no_calls _ Hf) as [E2 E3]. lia.
  - intros Hpan. split; [by apply shutdown_progress|]. intros Hn Hd. split; [|done]. unfold shutdown_step. rewrite Hpan, Hn, Hd. by eexists.
  - intros Hd. destruct Hok as [[Hr Hf] _ H3 _ _ _ H6]. rewrite Hd in *. split; [apply none_running; rewrite <- Hr; by apply H3|].
    intros ses Hc'. rewrite H6. unfold Startup.Close. by rewrite Hc'.
Qed.
End Closing.

(** ** Samples *)

(** One connection, two flows, a packet of the first one on its way. *)
Definition served_two : list shutdown_op :=
  [H3Op (ServeStep 0 true); H3Op (ServeStep 0 true); H3Op (ServeStep 0 true); H3Op (ServeStep 0 true);
   NewFlow; NewFlow; PacketRead 0; ShutdownCalled].
Definition flow_ends (i : nat) : list shutdown_op :=
  [FlowOp i SendEnds; FlowOp i SkipEnds; FlowOp i ReceiveEnds; FlowOp i FlowReturns].
Definition http_ends : list shutdown_op :=
  H3Op <$> [CallerStep 0 true; CallerStep 0 true; CallerStep 0 true; ServeStep 0 false; ConnStep 0; ConnStep 0; CallerStep 0 true].
Definition shutdown_sample : list shutdown_op :=
  NewFlow :: SendReturns 0 :: flow_ends 0 ++ flow_ends 1 ++ [CloseNext] ++ http_ends ++ [CloseNext; CloseNext; CloseNext; ShutdownCloses].
Definition shutdown_start : closing := default relay_serving (run_shutdown true relay_serving served_two).
Definition shutdown_final : closing := default relay_serving (run_shutdown true shutdown_start (CloseNext :: shutdown_sample)).

Lemma shutdown_completes_witness :
  run_shutdown true shutdown_start (CloseNext :: shutdown_sample) = Some shutdown_final
  /\ cg_returned shutdown_final = Some CloseResult
  /\ Forall (fun f => fl_returned f = true) (px_flows (cg_proxy shutdown_final)).
Proof.
  assert (run_shutdown true shutdown_start (CloseNext :: shutdown_sample) = Some shutdown_final) as Hs by (vm_compute; reflexivity).
  split; [exact Hs|]. split; [vm_compute; reflexivity|].
  apply (shutdown_completes true served_two shutdown_start shutdown_sample shutdown_final);
    [vm_compute; reflexivity|vm_compute; reflexivity|exact Hs|vm_compute; reflexivity].
Defined.

(** A flow in [SendDatagram] holds [Close] up although its socket is closed; [Shutdown]
returns when its deadline passes, with [Close] still waiting. *)
Example blocked_send : exists s, run_shutdown true shutdown_start (CloseNext :: FlowOp 0 SendEnds :: FlowOp 0 SkipEnds :: flow_ends 1) = Some s
  /\ shutdown_step true s (FlowOp 0 ReceiveEnds) = None /\ shutdown_step true s CloseNext = None
  /\ exists s', run_shutdown true s [DeadlinePasses; ShutdownTimesOut] = Some s' /\ cg_returned s' = Some ContextError /\ cg_phase s' = WaitingFlows.
Proof. eexists. split; [vm_compute; reflexivity|]. split; [done|]. split; [done|]. eexists. by vm_compute. Qed.

(** A connection accepted just before [Close], counted after the others are gone: the
process ends in [Shutdown], before the ticket store is closed. *)
Definition accepted_two : list shutdown_op :=
  (H3Op <$> [ServeStep 0 true; ServeStep 0 true; ServeStep 0 true; ServeStep 0 true; ServeStep 0 true; ServeStep 0 true])
  ++ [ShutdownCalled; CloseNext; CloseNext]
  ++ (H3Op <$> [CallerStep 0 true; CallerStep 0 true; CallerStep 0 true; ConnStep 0; ConnStep 0; CallerStep 0 true;
                ServeStep 0 true; ConnStep 1; ConnStep 1]).
Example shutdown_panics : exists s, run_shutdown true relay_serving accepted_two = Some s /\ panicked (cg_http s) = true
  /\ cg_released s = [MetricsDone; Startup.ProxyFlows] /\ forall o, shutdown_step true s o = None.
Proof. eexists. split; [vm_compute; reflexivity|]. split; [done|]. by split. Qed.
