(* ===== verification/Frames.v ===== *)
(** * QUIC frames

[third_party/quic-go/internal/wire]: the frames of QUIC, their encoding
([Append], [Length]), and the parsers behind [FrameParser]; ACK frames are in
[AckFrames].  The
DATAGRAM frame carries every packet of a tunnel.  A parser takes the bytes after
the frame type and returns the frame and the number of bytes it consumed. *)

From stdpp Require Import base list numbers.
From Stdlib Require Import ZArith Lia.
From S2P Require Import Prelude.
From S2P Require Import Quicvarint.

Local Open Scope Z_scope.

(** ** Data *)

Inductive StreamType := StreamTypeUni | StreamTypeBidi.
Definition MaxStreamCount : Z := 2 ^ 60.
Definition MaxByteCount : Z := 2 ^ 62 - 1.
Definition MaxConnIDLen : Z := 20.
Definition MinStreamFrameBufferSize : Z := 128.
Definition MaxPacketBufferSize : Z := 1452.

(** The frames, each with the fields of its struct.  Fields of type [uint64],
[StreamID], [ByteCount] and so on are integers; byte slices are lists. *)
Inductive Frame :=
| PingFrame
| ResetStreamFrame (StreamID ErrorCode FinalSize ReliableSize : Z)
| StopSendingFrame (StreamID ErrorCode : Z)
| CryptoFrame (Offset : Z) (Data : list Z)
| NewTokenFrame (Token : list Z)
| StreamFrame (StreamID Offset : Z) (Data : list Z) (Fin DataLenPresent : bool)
| MaxDataFrame (MaximumData : Z)
| MaxStreamDataFrame (StreamID MaximumStreamData : Z)
| MaxStreamsFrame (Type_ : StreamType) (MaxStreamNum : Z)
| DataBlockedFrame (MaximumData : Z)
| StreamDataBlockedFrame (StreamID MaximumStreamData : Z)
| StreamsBlockedFrame (Type_ : StreamType) (StreamLimit : Z)
| NewConnectionIDFrame (SequenceNumber RetirePriorTo : Z) (ConnectionID StatelessResetToken : list Z)
| RetireConnectionIDFrame (SequenceNumber : Z)
| PathChallengeFrame (Data : list Z)
| PathResponseFrame (Data : list Z)
| ConnectionCloseFrame (IsApplicationError : bool) (ErrorCode FrameType : Z) (ReasonPhrase : list Z)
| HandshakeDoneFrame
| AckFrequencyFrame (SequenceNumber AckElicitingThreshold RequestMaxAckDelay ReorderingThreshold : Z)
| ImmediateAckFrame
| DatagramFrame (DataLenPresent : bool) (Data : list Z).

(** ** Frame types: [frame_type.go] *)

Definition FrameTypePing : Z := 0x1.
Definition FrameTypeAck : Z := 0x2.
Definition FrameTypeAckECN : Z := 0x3.
Definition FrameTypeResetStream : Z := 0x4.
Definition FrameTypeStopSending : Z := 0x5.
Definition FrameTypeCrypto : Z := 0x6.
Definition FrameTypeNewToken : Z := 0x7.
Definition FrameTypeMaxData : Z := 0x10.
Definition FrameTypeMaxStreamData : Z := 0x11.
Definition FrameTypeBidiMaxStreams : Z := 0x12.
Definition FrameTypeUniMaxStreams : Z := 0x13.
Definition FrameTypeDataBlocked : Z := 0x14.
Definition FrameTypeStreamDataBlocked : Z := 0x15.
Definition FrameTypeBidiStreamBlocked : Z := 0x16.
Definition FrameTypeUniStreamBlocked : Z := 0x17.
Definition FrameTypeNewConnectionID : Z := 0x18.
Definition FrameTypeRetireConnectionID : Z := 0x19.
Definition FrameTypePathChallenge : Z := 0x1a.
Definition FrameTypePathResponse : Z := 0x1b.
Definition FrameTypeConnectionClose : Z := 0x1c.
Definition FrameTypeApplicationClose : Z := 0x1d.
Definition FrameTypeHandshakeDone : Z := 0x1e.
Definition FrameTypeImmediateAck : Z := 0x1f.
Definition FrameTypeResetStreamAt : Z := 0x24.
Definition FrameTypeDatagramNoLength : Z := 0x30.
Definition FrameTypeDatagramWithLength : Z := 0x31.
Definition FrameTypeAckFrequency : Z := 0xaf.

Definition IsStreamFrameType (t : Z) : bool := (0x8 <=? t) && (t <=? 0xf).
Definition isValidRFC9000 (t : Z) : bool := t <=? 0x1e.
Definition IsAckFrameType (t : Z) : bool := (t =? FrameTypeAck) || (t =? FrameTypeAckECN).
Definition IsDatagramFrameType (t : Z) : bool := (t =? FrameTypeDatagramNoLength) || (t =? FrameTypeDatagramWithLength).

Inductive EncryptionLevel := EncryptionInitial | EncryptionHandshake | Encryption0RTT | Encryption1RTT.
Definition isAllowedAtEncLevel (t : Z) (encLevel : EncryptionLevel) : bool :=
  match encLevel with
  | EncryptionInitial | EncryptionHandshake =>
    (t =? FrameTypeCrypto) || IsAckFrameType t || (t =? FrameTypeConnectionClose) || (t =? FrameTypePing)
  | Encryption0RTT =>
    negb ((t =? FrameTypeCrypto) || IsAckFrameType t || (t =? FrameTypeConnectionClose) || (t =? FrameTypeNewToken)
          || (t =? FrameTypePathResponse) || (t =? FrameTypeRetireConnectionID))
  | Encryption1RTT => true
  end.

Definition IsProbingFrame (f : Frame) : bool :=
  match f with PathChallengeFrame _ | PathResponseFrame _ | NewConnectionIDFrame _ _ _ _ => true | _ => false end.
Definition IsProbingFrameType (t : Z) : bool :=
  (t =? FrameTypePathChallenge) || (t =? FrameTypePathResponse) || (t =? FrameTypeNewConnectionID).

(** ** Encoding *)

(** A varint above [2^62-1] panics; two frames refuse to be written. *)
Inductive append_error := VarintPanic | EmptyStreamFrame | InvalidConnectionIDLen.

Definition append_varint (b : list Z) (i : Z) : result append_error (list Z) :=
  match Quicvarint.Append b i with Some b => Ok b | None => Err VarintPanic end.

Definition Append (f : Frame) (b : list Z) : result append_error (list Z) :=
  match f with
  | PingFrame => Ok (b ++ [FrameTypePing])
  | ResetStreamFrame sid code final reliable =>
    let? b := append_varint b (if reliable =? 0 then FrameTypeResetStream else FrameTypeResetStreamAt) in
    let? b := append_varint b sid in
    let? b := append_varint b code in
    let? b := append_varint b final in
    if reliable >? 0 then append_varint b reliable else Ok b
  | StopSendingFrame sid code =>
    let? b := append_varint (b ++ [FrameTypeStopSending]) sid in append_varint b code
  | CryptoFrame offset data =>
    let? b := append_varint (b ++ [FrameTypeCrypto]) offset in
    let? b := append_varint b (len data) in Ok (b ++ data)
  | NewTokenFrame token => let? b := append_varint (b ++ [FrameTypeNewToken]) (len token) in Ok (b ++ token)
  | StreamFrame sid offset data fin present =>
    if (len data =? 0) && negb fin then Err EmptyStreamFrame
    else
      let typ := 0x8 in
      let typ := if fin then Z.lxor typ 1 else typ in
      let typ := if present then Z.lxor typ 2 else typ in
      let typ := if negb (offset =? 0) then Z.lxor typ 4 else typ in
      let? b := append_varint (b ++ [typ]) sid in
      let? b := if negb (offset =? 0) then append_varint b offset else Ok b in
      let? b := if present then append_varint b (len data) else Ok b in
      Ok (b ++ data)
  | MaxDataFrame n => append_varint (b ++ [FrameTypeMaxData]) n
  | MaxStreamDataFrame sid n =>
    let? b := append_varint (b ++ [FrameTypeMaxStreamData]) sid in append_varint b n
  | MaxStreamsFrame t n =>
    append_varint (b ++ [match t with StreamTypeBidi => FrameTypeBidiMaxStreams | StreamTypeUni => FrameTypeUniMaxStreams end]) n
  | DataBlockedFrame n => append_varint (b ++ [FrameTypeDataBlocked]) n
  | StreamDataBlockedFrame sid n => let? b := append_varint (b ++ [0x15]) sid in append_varint b n
  | StreamsBlockedFrame t n =>
    append_varint (b ++ [match t with StreamTypeBidi => FrameTypeBidiStreamBlocked | StreamTypeUni => FrameTypeUniStreamBlocked end]) n
  | NewConnectionIDFrame seq ret cid token =>
    let? b := append_varint (b ++ [FrameTypeNewConnectionID]) seq in
    let? b := append_varint b ret in
    if len cid >? MaxConnIDLen then Err InvalidConnectionIDLen
    else Ok (b ++ [u8 (len cid)] ++ cid ++ token)
  | RetireConnectionIDFrame seq => append_varint (b ++ [FrameTypeRetireConnectionID]) seq
  | PathChallengeFrame data => Ok (b ++ [FrameTypePathChallenge] ++ data)
  | PathResponseFrame data => Ok (b ++ [FrameTypePathResponse] ++ data)
  | ConnectionCloseFrame app code ft reason =>
    let? b := append_varint (b ++ [if app then FrameTypeApplicationClose else FrameTypeConnectionClose]) code in
    let? b := if negb app then append_varint b ft else Ok b in
    let? b := append_varint b (len reason) in Ok (b ++ reason)
  | HandshakeDoneFrame => Ok (b ++ [FrameTypeHandshakeDone])
  | AckFrequencyFrame seq threshold delay reordering =>
    let? b := append_varint b FrameTypeAckFrequency in
    let? b := append_varint b seq in
    let? b := append_varint b threshold in
    let? b := append_varint b (Z.quot delay 1000) in
    append_varint b reordering
  | ImmediateAckFrame => append_varint b FrameTypeImmediateAck
  | DatagramFrame present data =>
    let typ := if present then Z.lxor 0x30 1 else 0x30 in
    let? b := if present then append_varint (b ++ [typ]) (len data) else Ok (b ++ [typ]) in
    Ok (b ++ data)
  end.

(** [Length]; [None] is the panic of [quicvarint.Len]. *)
Definition Length (f : Frame) : option Z :=
  match f with
  | PingFrame | HandshakeDoneFrame => Some 1
  | ResetStreamFrame sid code final reliable =>
    r ← (if reliable >? 0 then Len reliable else Some 0);
    s ← Len sid; c ← Len code; n ← Len final; Some (1 + r + s + c + n)
  | StopSendingFrame a b | MaxStreamDataFrame a b | StreamDataBlockedFrame a b =>
    x ← Len a; y ← Len b; Some (1 + (x + y))
  | CryptoFrame offset data => x ← Len offset; y ← Len (len data); Some (1 + x + y + len data)
  | NewTokenFrame token => x ← Len (len token); Some (1 + (x + len token))
  | StreamFrame sid offset data fin present =>
    x ← Len sid;
    y ← (if negb (offset =? 0) then Len offset else Some 0);
    z ← (if present then Len (len data) else Some 0);
    Some (1 + x + y + z + len data)
  | MaxDataFrame a | MaxStreamsFrame _ a | DataBlockedFrame a | StreamsBlockedFrame _ a | RetireConnectionIDFrame a =>
    x ← Len a; Some (1 + x)
  | NewConnectionIDFrame seq ret cid _ => x ← Len seq; y ← Len ret; Some (1 + (x + y + 1 + len cid) + 16)
  | PathChallengeFrame _ | PathResponseFrame _ => Some (1 + 8)
  | ConnectionCloseFrame app code ft reason =>
    x ← Len code; y ← Len (len reason);
    z ← (if negb app then Len ft else Some 0); Some (1 + (x + y) + len reason + z)
  | AckFrequencyFrame seq threshold delay reordering =>
    a ← Len seq; b ← Len threshold; c ← Len (Z.quot delay 1000); d ← Len reordering; Some (2 + a + b + c + d)
  | ImmediateAckFrame => Len FrameTypeImmediateAck
  | DatagramFrame present data =>
    x ← (if present then Len (len data) else Some 0); Some (1 + len data + x)
  end.

(** ** Parsing *)

Inductive frame_error :=
| FrameEOF
| TooManyStreams
| ReliableSizeTooLarge
| EmptyToken
| RetireTooLarge
| ZeroLengthConnectionID
| BadConnectionIDLen
| OffsetOverflow
| InvalidAckRanges
| UnknownFrameType
| NotAllowedAtLevel
| OutOfFuel.

(** A varint and the bytes after it.  [io.ErrUnexpectedEOF] becomes [io.EOF]. *)
Definition varint (b : list Z) : result frame_error (Z * list Z) :=
  match Parse b with
  | Err _ => Err FrameEOF
  | Ok (v, l) => Ok (v, drop (Z.to_nat l) b)
  end.

(** [b[:n]] and [b[n:]], if there are that many bytes. *)
Definition take_bytes (n : Z) (b : list Z) : result frame_error (list Z * list Z) :=
  if n >? len b then Err FrameEOF else Ok (take (Z.to_nat n) b, drop (Z.to_nat n) b).

(** [startLen - len(b)] at the end of a parser. *)
Definition counted (start : list Z) (r : result frame_error (Frame * list Z)) : result frame_error (Frame * Z) :=
  let? (f, rest) := r in Ok (f, len start - len rest).

Definition parseResetStreamFrame (b : list Z) (isResetStreamAt : bool) : result frame_error (Frame * Z) :=
  counted b (
    let? (streamID, b) := varint b in
    let? (errorCode, b) := varint b in
    let? (finalSize, b) := varint b in
    let? (reliableSize, b) := if isResetStreamAt then varint b else Ok (0, b) in
    if reliableSize >? finalSize then Err ReliableSizeTooLarge
    else Ok (ResetStreamFrame streamID errorCode finalSize reliableSize, b)).

Definition parseStopSendingFrame (b : list Z) : result frame_error (Frame * Z) :=
  counted b (let? (streamID, b) := varint b in let? (errorCode, b) := varint b in
             Ok (StopSendingFrame streamID errorCode, b)).

Definition parseCryptoFrame (b : list Z) : result frame_error (Frame * Z) :=
  counted b (let? (offset, b) := varint b in let? (dataLen, b) := varint b in
             let? (data, b) := take_bytes dataLen b in Ok (CryptoFrame offset data, b)).

Definition parseNewTokenFrame (b : list Z) : result frame_error (Frame * Z) :=
  counted b (let? (tokenLen, b) := varint b in
             if tokenLen =? 0 then Err EmptyToken
             else let? (token, b) := take_bytes tokenLen b in Ok (NewTokenFrame token, b)).

(** [ParseStreamFrame]; large frames use a buffer of the maximum packet size. *)
Definition ParseStreamFrame (b : list Z) (typ : Z) : result frame_error (Frame * Z) :=
  let hasOffset := Z.land typ 4 >? 0 in
  let fin := Z.land typ 1 >? 0 in
  let hasDataLen := Z.land typ 2 >? 0 in
  counted b (
    let? (streamID, b) := varint b in
    let? (offset, b) := if hasOffset then varint b else Ok (0, b) in
    let? (dataLen, b) :=
      if hasDataLen then
        let? (dataLen, b) := varint b in
        if dataLen >? len b then Err FrameEOF else Ok (dataLen, b)
      else Ok (len b, b) in
    if negb (dataLen <? MinStreamFrameBufferSize) && (dataLen >? MaxPacketBufferSize) then Err FrameEOF
    else
      let data := take (Z.to_nat dataLen) b in
      if offset + len data >? MaxByteCount then Err OffsetOverflow
      else Ok (StreamFrame streamID offset data fin hasDataLen, drop (Z.to_nat dataLen) b)).

Definition parseMaxDataFrame (b : list Z) : result frame_error (Frame * Z) :=
  counted b (let? (n, b) := varint b in Ok (MaxDataFrame n, b)).
Definition parseMaxStreamDataFrame (b : list Z) : result frame_error (Frame * Z) :=
  counted b (let? (sid, b) := varint b in let? (n, b) := varint b in Ok (MaxStreamDataFrame sid n, b)).
Definition parseMaxStreamsFrame (b : list Z) (typ : Z) : result frame_error (Frame * Z) :=
  let t := if typ =? FrameTypeBidiMaxStreams then StreamTypeBidi else StreamTypeUni in
  counted b (let? (n, b) := varint b in
             if n >? MaxStreamCount then Err TooManyStreams else Ok (MaxStreamsFrame t n, b)).
Definition parseDataBlockedFrame (b : list Z) : result frame_error (Frame * Z) :=
  counted b (let? (n, b) := varint b in Ok (DataBlockedFrame n, b)).
Definition parseStreamDataBlockedFrame (b : list Z) : result frame_error (Frame * Z) :=
  counted b (let? (sid, b) := varint b in let? (n, b) := varint b in Ok (StreamDataBlockedFrame sid n, b)).
Definition parseStreamsBlockedFrame (b : list Z) (typ : Z) : result frame_error (Frame * Z) :=
  let t := if typ =? FrameTypeBidiStreamBlocked then StreamTypeBidi else StreamTypeUni in
  counted b (let? (n, b) := varint b in
             if n >? MaxStreamCount then Err TooManyStreams else Ok (StreamsBlockedFrame t n, b)).

Definition parseNewConnectionIDFrame (b : list Z) : result frame_error (Frame * Z) :=
  counted b (
    let? (seq, b) := varint b in
    let? (ret, b) := varint b in
    if ret >? seq then Err RetireTooLarge
    else match b with
    | [] => Err FrameEOF
    | connIDLen :: b =>
      if connIDLen =? 0 then Err ZeroLengthConnectionID
      else if connIDLen >? MaxConnIDLen then Err BadConnectionIDLen
      else
        let? (cid, b) := take_bytes connIDLen b in
        let? (token, b) := take_bytes 16 b in
        Ok (NewConnectionIDFrame seq ret cid token, b)
    end).

Definition parseRetireConnectionIDFrame (b : list Z) : result frame_error (Frame * Z) :=
  counted b (let? (seq, b) := varint b in Ok (RetireConnectionIDFrame seq, b)).
Definition parsePathChallengeFrame (b : list Z) : result frame_error (Frame * Z) :=
  counted b (let? (data, b) := take_bytes 8 b in Ok (PathChallengeFrame data, b)).
Definition parsePathResponseFrame (b : list Z) : result frame_error (Frame * Z) :=
  counted b (let? (data, b) := take_bytes 8 b in Ok (PathResponseFrame data, b)).

Definition parseConnectionCloseFrame (b : list Z) (typ : Z) : result frame_error (Frame * Z) :=
  let app := typ =? FrameTypeApplicationClose in
  counted b (
    let? (code, b) := varint b in
    let? (ft, b) := if negb app then varint b else Ok (0, b) in
    let? (reasonPhraseLen, b) := varint b in
    let? (reason, b) := take_bytes reasonPhraseLen b in
    Ok (ConnectionCloseFrame app code ft reason, b)).

(** [time.Duration(mad) * time.Microsecond], cut if it became negative. *)
Definition max_ack_delay (mad : Z) : Z :=
  let d := i64 (i64 mad * 1000) in if d <? 0 then 2 ^ 63 - 1 else d.
Definition parseAckFrequencyFrame (b : list Z) : result frame_error (Frame * Z) :=
  counted b (
    let? (seq, b) := varint b in
    let? (aeth, b) := varint b in
    let? (mad, b) := varint b in
    let? (rth, b) := varint b in
    Ok (AckFrequencyFrame seq aeth (max_ack_delay mad) rth, b)).

Definition parseDatagramFrame (b : list Z) (typ : Z) : result frame_error (Frame * Z) :=
  let present := Z.land typ 1 >? 0 in
  counted b (
    let? (length, b) :=
      if present then
        let? (length, b) := varint b in if length >? len b then Err FrameEOF else Ok (length, b)
      else Ok (len b, b) in
    Ok (DatagramFrame present (take (Z.to_nat length) b), drop (Z.to_nat length) b)).

(** ** [FrameParser]: [frame_parser.go] *)

Record FrameParser := {
  ackDelayExponent : Z;
  supportsDatagrams : bool;
  supportsResetStreamAt : bool;
  supportsAckFrequency : bool;
}.
Definition NewFrameParser (datagrams resetStreamAt ackFrequency : bool) : FrameParser :=
  {| ackDelayExponent := 0; supportsDatagrams := datagrams; supportsResetStreamAt := resetStreamAt;
     supportsAckFrequency := ackFrequency |}.
Definition SetAckDelayExponent (p : FrameParser) (exp : Z) : FrameParser :=
  {| ackDelayExponent := exp; supportsDatagrams := supportsDatagrams p;
     supportsResetStreamAt := supportsResetStreamAt p; supportsAckFrequency := supportsAckFrequency p |}.

Definition valid_type (p : FrameParser) (ft : Z) : bool :=
  isValidRFC9000 ft || (supportsDatagrams p && IsDatagramFrameType ft)
  || (supportsResetStreamAt p && (ft =? FrameTypeResetStreamAt))
  || (supportsAckFrequency p && ((ft =? FrameTypeAckFrequency) || (ft =? FrameTypeImmediateAck))).

(** [ParseType] skips PADDING; [None] is [io.EOF], everything was padding.  Every
round consumes a byte, so the length of the input bounds them. *)
Fixpoint ParseType_loop (fuel : nat) (p : FrameParser) (b : list Z) (level : EncryptionLevel) (parsed : Z)
  : result frame_error (option Z * Z) :=
  match fuel with
  | O => Err OutOfFuel
  | S fuel =>
    match b with
    | [] => Ok (None, parsed)
    | _ =>
      match Parse b with
      | Err _ => Err FrameEOF
      | Ok (typ, l) =>
        let rest := drop (Z.to_nat l) b in
        if typ =? 0 then ParseType_loop fuel p rest level (parsed + l)
        else if negb (valid_type p typ) then Err UnknownFrameType
        else if negb (isAllowedAtEncLevel typ level) then Err NotAllowedAtLevel
        else Ok (Some typ, parsed + l)
      end
    end
  end.
Definition ParseType (p : FrameParser) (b : list Z) (level : EncryptionLevel) : result frame_error (option Z * Z) :=
  ParseType_loop (S (length b)) p b level 0.

Definition ParseLessCommonFrame (frameType : Z) (data : list Z) : result frame_error (Frame * Z) :=
  if frameType =? FrameTypePing then Ok (PingFrame, 0)
  else if frameType =? FrameTypeResetStream then parseResetStreamFrame data false
  else if frameType =? FrameTypeStopSending then parseStopSendingFrame data
  else if frameType =? FrameTypeCrypto then parseCryptoFrame data
  else if frameType =? FrameTypeNewToken then parseNewTokenFrame data
  else if frameType =? FrameTypeMaxData then parseMaxDataFrame data
  else if frameType =? FrameTypeMaxStreamData then parseMaxStreamDataFrame data
  else if (frameType =? FrameTypeBidiMaxStreams) || (frameType =? FrameTypeUniMaxStreams)
  then parseMaxStreamsFrame data frameType
  else if frameType =? FrameTypeDataBlocked then parseDataBlockedFrame data
  else if frameType =? FrameTypeStreamDataBlocked then parseStreamDataBlockedFrame data
  else if (frameType =? FrameTypeBidiStreamBlocked) || (frameType =? FrameTypeUniStreamBlocked)
  then parseStreamsBlockedFrame data frameType
  else if frameType =? FrameTypeNewConnectionID then parseNewConnectionIDFrame data
  else if frameType =? FrameTypeRetireConnectionID then parseRetireConnectionIDFrame data
  else if frameType =? FrameTypePathChallenge then parsePathChallengeFrame data
  else if frameType =? FrameTypePathResponse then parsePathResponseFrame data
  else if (frameType =? FrameTypeConnectionClose) || (frameType =? FrameTypeApplicationClose)
  then parseConnectionCloseFrame data frameType
  else if frameType =? FrameTypeHandshakeDone then Ok (HandshakeDoneFrame, 0)
  else if frameType =? FrameTypeResetStreamAt then parseResetStreamFrame data true
  else if frameType =? FrameTypeAckFrequency then parseAckFrequencyFrame data
  else if frameType =? FrameTypeImmediateAck then Ok (ImmediateAckFrame, 0)
  else Err UnknownFrameType.

(** The dispatch of the caller ([Conn.handleFrames]): STREAM and DATAGRAM frames
have parsers of their own, like ACK. *)
Definition parse_frame (frameType : Z) (data : list Z) : result frame_error (Frame * Z) :=
  if IsStreamFrameType frameType then ParseStreamFrame data frameType
  else if IsDatagramFrameType frameType then parseDatagramFrame data frameType
  else ParseLessCommonFrame frameType data.

(** ** Round trip *)

Definition frame_type (f : Frame) : Z :=
  match f with
  | PingFrame => FrameTypePing
  | ResetStreamFrame _ _ _ r => if r =? 0 then FrameTypeResetStream else FrameTypeResetStreamAt
  | StopSendingFrame _ _ => FrameTypeStopSending
  | CryptoFrame _ _ => FrameTypeCrypto
  | NewTokenFrame _ => FrameTypeNewToken
  | StreamFrame _ offset _ fin present =>
    8 + (if fin then 1 else 0) + (if present then 2 else 0) + (if offset =? 0 then 0 else 4)
  | MaxDataFrame _ => FrameTypeMaxData
  | MaxStreamDataFrame _ _ => FrameTypeMaxStreamData
  | MaxStreamsFrame StreamTypeBidi _ => FrameTypeBidiMaxStreams
  | MaxStreamsFrame StreamTypeUni _ => FrameTypeUniMaxStreams
  | DataBlockedFrame _ => FrameTypeDataBlocked
  | StreamDataBlockedFrame _ _ => FrameTypeStreamDataBlocked
  | StreamsBlockedFrame StreamTypeBidi _ => FrameTypeBidiStreamBlocked
  | StreamsBlockedFrame StreamTypeUni _ => FrameTypeUniStreamBlocked
  | NewConnectionIDFrame _ _ _ _ => FrameTypeNewConnectionID
  | RetireConnectionIDFrame _ => FrameTypeRetireConnectionID
  | PathChallengeFrame _ => FrameTypePathChallenge
  | PathResponseFrame _ => FrameTypePathResponse
  | ConnectionCloseFrame app _ _ _ => if app then FrameTypeApplicationClose else FrameTypeConnectionClose
  | HandshakeDoneFrame => FrameTypeHandshakeDone
  | AckFrequencyFrame _ _ _ _ => FrameTypeAckFrequency
  | ImmediateAckFrame => FrameTypeImmediateAck
  | DatagramFrame present _ => if present then FrameTypeDatagramWithLength else FrameTypeDatagramNoLength
  end.

(** What follows the type. *)
Definition frame_body (f : Frame) : list Z :=
  match f with
  | PingFrame | HandshakeDoneFrame | ImmediateAckFrame => []
  | ResetStreamFrame s c n r => venc s ++ venc c ++ venc n ++ (if r =? 0 then [] else venc r)
  | StopSendingFrame a b | MaxStreamDataFrame a b | StreamDataBlockedFrame a b => venc a ++ venc b
  | CryptoFrame o d => venc o ++ venc (len d) ++ d
  | NewTokenFrame d => venc (len d) ++ d
  | StreamFrame s o d _ p => venc s ++ (if o =? 0 then [] else venc o) ++ (if p then venc (len d) else []) ++ d
  | MaxDataFrame n | MaxStreamsFrame _ n | DataBlockedFrame n | StreamsBlockedFrame _ n | RetireConnectionIDFrame n => venc n
  | NewConnectionIDFrame s r c t => venc s ++ venc r ++ len c :: c ++ t
  | PathChallengeFrame d | PathResponseFrame d => d
  | ConnectionCloseFrame app c ft reason => venc c ++ (if app then [] else venc ft) ++ venc (len reason) ++ reason
  | AckFrequencyFrame s t d r => venc s ++ venc t ++ venc (Z.quot d 1000) ++ venc r
  | DatagramFrame p d => (if p then venc (len d) else []) ++ d
  end.

(** Frames that can be written: fields in their ranges; a frame without a length
must be the last of its packet. *)
Definition frame_wf (f : Frame) (suffix : list Z) : Prop :=
  match f with
  | PingFrame | HandshakeDoneFrame | ImmediateAckFrame => True
  | ResetStreamFrame s c n r => is_varint s /\ is_varint c /\ is_varint n /\ 0 <= r <= n
  | StopSendingFrame a b | MaxStreamDataFrame a b | StreamDataBlockedFrame a b => is_varint a /\ is_varint b
  | CryptoFrame o d => is_varint o /\ is_varint (len d) /\ is_bytes d
  | NewTokenFrame d => is_varint (len d) /\ d <> [] /\ is_bytes d
  | StreamFrame s o d fin p =>
    is_varint s /\ 0 <= o /\ o + len d <= MaxByteCount /\ len d <= MaxPacketBufferSize /\ is_bytes d
    /\ (d = [] -> fin = true) /\ (p = false -> suffix = [])
  | MaxDataFrame n | DataBlockedFrame n | RetireConnectionIDFrame n => is_varint n
  | MaxStreamsFrame _ n | StreamsBlockedFrame _ n => 0 <= n <= MaxStreamCount
  | NewConnectionIDFrame s r c t =>
    is_varint s /\ 0 <= r <= s /\ 1 <= len c <= MaxConnIDLen /\ len t = 16 /\ is_bytes c /\ is_bytes t
  | PathChallengeFrame d | PathResponseFrame d => len d = 8 /\ is_bytes d
  | ConnectionCloseFrame app c ft reason =>
    is_varint c /\ (if app then ft = 0 else is_varint ft) /\ is_varint (len reason) /\ is_bytes reason
  | AckFrequencyFrame s t d r => is_varint s /\ is_varint t /\ is_varint r /\ 0 <= d < 2 ^ 63 /\ d mod 1000 = 0
  | DatagramFrame p d => is_varint (len d) /\ is_bytes d /\ (p = false -> suffix = [])
  end.

Lemma append_varint_venc b i : is_varint i -> append_varint b i = Ok (b ++ venc i).
Proof. intros Hi. unfold append_varint. by rewrite Append_venc. Qed.

Lemma varint_venc i s : is_varint i -> is_bytes s -> varint (venc i ++ s) = Ok (i, s).
Proof.
  intros Hi Hs. unfold varint. rewrite Parse_venc by done. unfold vlen, len. by rewrite Nat2Z.id, drop_app_length.
Qed.

Lemma varint_venc_end i : is_varint i -> varint (venc i) = Ok (i, []).
Proof. intros Hi. rewrite <- (app_nil_r (venc i)). apply varint_venc; [done|constructor]. Qed.

Lemma take_bytes_app d s : take_bytes (len d) (d ++ s) = Ok (d, s).
Proof.
  unfold take_bytes. rewrite len_app. replace (len d >? len d + len s) with false.
  - unfold len. by rewrite Nat2Z.id, take_app_length, drop_app_length.
  - symmetry. rewrite Z.gtb_ltb, Z.ltb_ge. pose proof (len_nonneg s). lia.
Qed.

Lemma counted_ok b s f : counted (b ++ s) (Ok (f, s)) = Ok (f, len b).
Proof. unfold counted. cbn. rewrite len_app. do 2 f_equal. lia. Qed.

Lemma small_varint n : 0 <= n <= 2 ^ 61 -> is_varint n.
Proof. unfold is_varint, maxVarInt8. lia. Qed.

(** Side conditions: ranges of varints. *)
Ltac in_range := first [ assumption | apply small_varint; lia | unfold is_varint, maxVarInt8 in *; lia ].

Lemma venc_small n : 0 <= n <= 63 -> venc n = [n].
Proof.
  intros H. unfold venc, Quicvarint.Append, maxVarInt1. rewrite (proj2 (Z.leb_le n 63)) by lia. cbn.
  by rewrite u8_small by (split; lia).
Qed.

Lemma frame_type_varint f : is_varint (frame_type f).
Proof.
  apply small_varint. destruct f; cbn [frame_type]; try (unfold FrameTypePing; lia);
    repeat match goal with
    | |- context [match ?x with StreamTypeUni => _ | StreamTypeBidi => _ end] => destruct x
    | |- context [if ?b then _ else _] => destruct b
    end; by vm_compute.
Qed.

(** Run the encoder: each step appends one more encoding. *)
Ltac run_append :=
  cbn [result_bind]; repeat (rewrite append_varint_venc by in_range; cbn [result_bind]);
  rewrite <- ?app_assoc; reflexivity.

Lemma stream_type_bits (fin present offset : bool) :
  (if offset then Z.lxor (if present then Z.lxor (if fin then Z.lxor 8 1 else 8) 2 else (if fin then Z.lxor 8 1 else 8)) 4
   else (if present then Z.lxor (if fin then Z.lxor 8 1 else 8) 2 else (if fin then Z.lxor 8 1 else 8)))
  = 8 + (if fin then 1 else 0) + (if present then 2 else 0) + (if offset then 4 else 0).
Proof. by destruct fin, present, offset. Qed.

Lemma Append_frame f suffix b : frame_wf f suffix -> Append f b = Ok (b ++ venc (frame_type f) ++ frame_body f).
Proof.
  intros Hwf. destruct f as [|s c n r|s c|o d|d|s o d fin p|n|s n|t n|n|s n|t n|s r c t|n|d|d|app c ft reason| |s t d r| |p d];
    cbn [frame_wf Append frame_type frame_body] in *;
    try (destruct_and?; rewrite venc_small by (by vm_compute); run_append).
  - destruct_and!. destruct (Z.eqb_spec r 0) as [->|Hr]; cbn [Z.gtb Z.compare];
      [|rewrite (proj2 (Z.gtb_lt r 0)) by lia];
      repeat (rewrite append_varint_venc by (in_range || (apply small_varint; by vm_compute)); cbn [result_bind]);
      rewrite <- ?app_assoc, ?app_nil_r; reflexivity.
  - destruct Hwf as (Hs & Ho & Hsum & Hmax & Hb & Hfin & _).
    assert ((len d =? 0) && negb fin = false) as ->.
    { destruct (Z.eqb_spec (len d) 0) as [E|]; [|done]. destruct d; [by rewrite Hfin|].
      rewrite len_cons in E. pose proof (len_nonneg d). lia. }
    cbv zeta. rewrite venc_small by (destruct fin, p, (o =? 0); lia).
    pose proof (stream_type_bits fin p (negb (o =? 0))) as Ht. cbv zeta in Ht.
    replace (8 + (if fin then 1 else 0) + (if p then 2 else 0) + (if o =? 0 then 0 else 4))
      with (8 + (if fin then 1 else 0) + (if p then 2 else 0) + (if negb (o =? 0) then 4 else 0)) by (by destruct (o =? 0)).
    rewrite <- Ht. clear Ht. unfold MaxByteCount, MaxPacketBufferSize in *.
    destruct (o =? 0) eqn:Eo, p; cbn [negb]; breflect; pose proof (len_nonneg d); run_append.
  - rewrite venc_small by (by destruct t). destruct t; rewrite append_varint_venc by (unfold MaxStreamCount in *; in_range);
      by rewrite <- app_assoc.
  - rewrite venc_small by (by destruct t). destruct t; rewrite append_varint_venc by (unfold MaxStreamCount in *; in_range);
      by rewrite <- app_assoc.
  - destruct_and!. rewrite venc_small by (by vm_compute). repeat (rewrite append_varint_venc by in_range; cbn [result_bind]).
    rewrite Z.gtb_ltb, (proj2 (Z.ltb_ge _ _)) by lia. rewrite u8_small by (unfold is_byte, MaxConnIDLen in *; lia).
    by rewrite <- ?app_assoc.
  - destruct_and!. rewrite venc_small by (by destruct app). destruct app; cbn [negb]; run_append.
  - destruct_and!. assert (is_varint (Z.quot d 1000)) by (apply small_varint; rewrite Z.quot_div_nonneg by lia; dlia).
    rewrite (append_varint_venc b FrameTypeAckFrequency (frame_type_varint (AckFrequencyFrame 0 0 0 0))). cbn [result_bind].
    repeat (rewrite append_varint_venc by in_range; cbn [result_bind]). by rewrite <- ?app_assoc.
  - destruct_and!. rewrite venc_small by (by destruct p). destruct p; cbn [result_bind]; [run_append|]. by rewrite <- app_assoc.
Qed.

(** Sizes of concatenated encodings. *)
Ltac sizes :=
  cbn [mbind option_bind]; repeat (rewrite Len_vlen by in_range; cbn [mbind option_bind]);
  f_equal; unfold vlen; rewrite ?app_nil_r; repeat first [rewrite len_app | rewrite len_cons]; change (len (@nil Z)) with 0; try lia.

Lemma Length_frame f suffix : frame_wf f suffix -> Length f = Some (len (venc (frame_type f) ++ frame_body f)).
Proof.
  intros Hwf. destruct f as [|s c n r|s c|o d|d|s o d fin p|n|s n|t n|n|s n|t n|s r c t|n|d|d|app c ft reason| |s t d r| |p d];
    cbn [frame_wf Length frame_type frame_body] in *;
    try (destruct_and?; rewrite venc_small by (by vm_compute); sizes; fail).
  - destruct_and!. destruct (Z.eqb_spec r 0) as [->|Hr]; [|rewrite (proj2 (Z.gtb_lt r 0)) by lia];
      rewrite venc_small by (by vm_compute); cbn [Z.gtb Z.compare]; sizes.
  - destruct Hwf as (Hs & Ho & Hsum & Hmax & Hb & Hfin & _). pose proof (len_nonneg d).
    rewrite venc_small by (destruct fin, p, (o =? 0); lia). unfold MaxByteCount in *.
    destruct (o =? 0) eqn:Eo, p; cbn [negb]; breflect; sizes.
  - rewrite venc_small by (by destruct t). unfold MaxStreamCount in *. sizes.
  - rewrite venc_small by (by destruct t). unfold MaxStreamCount in *. sizes.
  - rewrite venc_small by (by destruct app). destruct app; destruct_and!; cbn [negb]; sizes.
  - destruct_and!. assert (is_varint (Z.quot d 1000)) by (apply small_varint; rewrite Z.quot_div_nonneg by lia; dlia).
    change (venc FrameTypeAckFrequency) with [0x40; 0xaf]. sizes.
  - rewrite venc_small by (by destruct p). destruct p; destruct_and!; sizes.
Qed.

(** Run a parser over encodings. *)
Ltac run_parse :=
  rewrite <- ?app_assoc;
  repeat (first [ rewrite varint_venc by (in_range || solve_bytes) | rewrite take_bytes_app ]; cbn [result_bind]).

Lemma counted_to b f n s : len b = n + len s -> counted b (Ok (f, s)) = Ok (f, n).
Proof. intros H. unfold counted. cbn. do 2 f_equal. lia. Qed.

Ltac end_parse := apply counted_to; unfold vlen; repeat first [rewrite len_app | rewrite len_cons]; change (len (@nil Z)) with 0; lia.

Lemma parse_stream s o d fin p suffix : frame_wf (StreamFrame s o d fin p) suffix -> is_bytes suffix ->
  ParseStreamFrame (frame_body (StreamFrame s o d fin p) ++ suffix) (frame_type (StreamFrame s o d fin p))
  = Ok (StreamFrame s o d fin p, len (frame_body (StreamFrame s o d fin p))).
Proof.
  intros (Hs & Ho & Hsum & Hmax & Hb & Hfin & Hp) Hsuf. pose proof (len_nonneg d) as Hd.
  set (t := frame_type _). cbn [frame_body] in *. unfold ParseStreamFrame.
  assert ((Z.land t 4 >? 0) = negb (o =? 0)) as -> by (unfold t; cbn [frame_type]; by destruct fin, p, (o =? 0)).
  assert ((Z.land t 1 >? 0) = fin) as -> by (unfold t; cbn [frame_type]; by destruct fin, p, (o =? 0)).
  assert ((Z.land t 2 >? 0) = p) as -> by (unfold t; cbn [frame_type]; by destruct fin, p, (o =? 0)). clear t. cbv zeta.
  unfold MaxByteCount, MaxPacketBufferSize in *. rewrite <- !app_assoc.
  rewrite varint_venc; [|done|destruct (o =? 0), p; cbn [app]; solve_bytes]. cbn [result_bind].
  assert ((if negb (o =? 0)
           then varint ((if o =? 0 then [] else venc o) ++ (if p then venc (len d) else []) ++ d ++ suffix)
           else Ok (0, (if o =? 0 then [] else venc o) ++ (if p then venc (len d) else []) ++ d ++ suffix))
          = Ok (o, (if p then venc (len d) else []) ++ d ++ suffix)) as ->.
  { destruct (Z.eqb_spec o 0) as [->|]; cbn [negb app]; [done|].
    apply varint_venc; [in_range|destruct p; cbn [app]; solve_bytes]. }
  cbn [result_bind].
  assert ((if p then let? (dataLen, b) := varint ((if p then venc (len d) else []) ++ d ++ suffix) in
                     if dataLen >? len b then Err FrameEOF else Ok (dataLen, b)
           else Ok (len ((if p then venc (len d) else []) ++ d ++ suffix), (if p then venc (len d) else []) ++ d ++ suffix))
          = Ok (len d, d ++ suffix)) as ->.
  { destruct p; [|by rewrite Hp, app_nil_r]. rewrite varint_venc by (in_range || solve_bytes). cbn [result_bind].
    rewrite len_app. pose proof (len_nonneg suffix). split_if; [breflect; lia|done]. }
  cbn [result_bind]. replace (negb _ && (len d >? 1452)) with false.
  2:{ symmetry. apply andb_false_iff. right. rewrite Z.gtb_ltb, Z.ltb_ge. lia. }
  assert (Z.to_nat (len d) = length d) as -> by (unfold len; lia). rewrite take_app_length, drop_app_length.
  replace (o + len d >? 2 ^ 62 - 1) with false by (symmetry; rewrite Z.gtb_ltb, Z.ltb_ge; lia).
  end_parse.
Qed.

Lemma max_ack_delay_exact d : 0 <= d < 2 ^ 63 -> d mod 1000 = 0 -> max_ack_delay (Z.quot d 1000) = d.
Proof.
  intros Hd Hm. rewrite Z.quot_div_nonneg by lia. unfold max_ack_delay, i64.
  rewrite (Z.mod_small (d / 1000 + 2 ^ 63)) by dlia.
  replace ((d / 1000 + 2 ^ 63 - 2 ^ 63) * 1000) with d by dlia. rewrite Z.mod_small by lia.
  cbv zeta. split_if; breflect; lia.
Qed.

Lemma parse_datagram p d suffix : frame_wf (DatagramFrame p d) suffix -> is_bytes suffix ->
  parseDatagramFrame (frame_body (DatagramFrame p d) ++ suffix) (frame_type (DatagramFrame p d))
  = Ok (DatagramFrame p d, len (frame_body (DatagramFrame p d))).
Proof.
  intros (Hl & Hb & Hp) Hs. unfold parseDatagramFrame. cbn [frame_body frame_type].
  replace (Z.land _ 1 >? 0) with p by (by destruct p). cbv zeta. destruct p.
  - rewrite <- app_assoc, varint_venc by (done || solve_bytes). cbn [result_bind]. rewrite len_app.
    replace (len d >? len d + len suffix) with false
      by (symmetry; rewrite Z.gtb_ltb, Z.ltb_ge; pose proof (len_nonneg suffix); lia). cbn [result_bind].
    assert (Z.to_nat (len d) = length d) as -> by (unfold len; lia). rewrite take_app_length, drop_app_length. end_parse.
  - rewrite Hp by done. cbn [app]. rewrite app_nil_r. cbn [result_bind].
    assert (Z.to_nat (len d) = length d) as -> by (unfold len; lia). rewrite firstn_all, drop_all. end_parse.
Qed.

Lemma take_bytes_n n d s : len d = n -> take_bytes n (d ++ s) = Ok (d, s).
Proof. intros <-. apply take_bytes_app. Qed.

(** Parsing what was encoded, whatever follows. *)
Definition parses (f : Frame) : Prop := forall suffix, frame_wf f suffix -> is_bytes suffix ->
  ParseLessCommonFrame (frame_type f) (frame_body f ++ suffix) = Ok (f, len (frame_body f)).

Lemma parse_reset s c n r : parses (ResetStreamFrame s c n r).
Proof.
  intros suffix (Hs & Hc & Hn & Hr) Hsuf. unfold frame_type, frame_body. destruct (Z.eqb_spec r 0) as [->|Hr0];
    [change (ParseLessCommonFrame FrameTypeResetStream) with (fun b => parseResetStreamFrame b false)
    |change (ParseLessCommonFrame FrameTypeResetStreamAt) with (fun b => parseResetStreamFrame b true)];
    unfold parseResetStreamFrame; cbn [app]; run_parse; rewrite Z.gtb_ltb, (proj2 (Z.ltb_ge _ _)) by lia; end_parse.
Qed.

Lemma parse_token d : parses (NewTokenFrame d).
Proof.
  intros suffix (Hl & Hne & Hb) Hsuf. change (ParseLessCommonFrame _) with parseNewTokenFrame.
  unfold parseNewTokenFrame, frame_body. run_parse.
  destruct (Z.eqb_spec (len d) 0) as [E|]; [destruct d; [done|rewrite len_cons in E; pose proof (len_nonneg d); lia]|].
  run_parse. end_parse.
Qed.

(** The two frames that carry a stream count. *)
Lemma parse_count n suffix g : 0 <= n <= MaxStreamCount -> is_bytes suffix ->
  counted (venc n ++ suffix) (let? (n, b) := varint (venc n ++ suffix) in
    if n >? MaxStreamCount then Err TooManyStreams else Ok (g n, b)) = Ok (g n, len (venc n)).
Proof.
  intros Hn Hs. assert (is_varint n) by (unfold MaxStreamCount in *; in_range). run_parse.
  rewrite Z.gtb_ltb, (proj2 (Z.ltb_ge _ _)) by lia. end_parse.
Qed.

Lemma parse_max_streams t n : parses (MaxStreamsFrame t n).
Proof. intros suffix Hn Hs. destruct t; exact (parse_count n suffix _ Hn Hs). Qed.
Lemma parse_streams_blocked t n : parses (StreamsBlockedFrame t n).
Proof. intros suffix Hn Hs. destruct t; exact (parse_count n suffix _ Hn Hs). Qed.

Lemma parse_connection_id s r c t : parses (NewConnectionIDFrame s r c t).
Proof.
  intros suffix (Hv & Hr & Hc & Ht & Hcb & Htb) Hsuf. change (ParseLessCommonFrame _) with parseNewConnectionIDFrame.
  unfold parseNewConnectionIDFrame, frame_body, MaxConnIDLen in *. assert (is_varint r) by in_range.
  assert (is_bytes (len c :: c ++ t ++ suffix)) by solve_bytes.
  rewrite <- !app_assoc. cbn [app]. rewrite <- !app_assoc.
  do 2 (rewrite varint_venc by (done || solve_bytes); cbn [result_bind]).
  rewrite Z.gtb_ltb, (proj2 (Z.ltb_ge _ _)) by lia. rewrite (proj2 (Z.eqb_neq _ _)) by lia.
  rewrite Z.gtb_ltb, (proj2 (Z.ltb_ge _ _)) by lia. rewrite take_bytes_app. cbn [result_bind].
  rewrite take_bytes_n by done. cbn [result_bind]. end_parse.
Qed.

Lemma parse_close ap c ft reason : parses (ConnectionCloseFrame ap c ft reason).
Proof.
  intros suffix (Hc & Hft & Hl & Hb) Hsuf. destruct ap;
    [change (ParseLessCommonFrame _) with (fun b => parseConnectionCloseFrame b FrameTypeApplicationClose); subst ft
    |change (ParseLessCommonFrame _) with (fun b => parseConnectionCloseFrame b FrameTypeConnectionClose)];
    unfold parseConnectionCloseFrame, frame_body;
    [change (FrameTypeApplicationClose =? FrameTypeApplicationClose) with true
    |change (FrameTypeConnectionClose =? FrameTypeApplicationClose) with false];
    cbn [negb app]; cbv beta zeta; run_parse; end_parse.
Qed.

Lemma parse_ack_frequency s t d r : parses (AckFrequencyFrame s t d r).
Proof.
  intros suffix Hwf Hsuf. cbn in Hwf. destruct Hwf as (Hs & Ht & Hr & Hd & Hm).
  assert (is_varint (Z.quot d 1000)) by (apply small_varint; rewrite Z.quot_div_nonneg by lia; dlia).
  change (ParseLessCommonFrame _) with parseAckFrequencyFrame. unfold parseAckFrequencyFrame, frame_body. run_parse.
  rewrite max_ack_delay_exact by done. end_parse.
Qed.

(** The frames made of varints and one byte string. *)
Ltac parse_plain p := change (ParseLessCommonFrame _) with p; unfold p, frame_body; run_parse; end_parse.

Lemma parse_less_common f : IsStreamFrameType (frame_type f) = false -> IsDatagramFrameType (frame_type f) = false ->
  parses f.
Proof.
  intros Ht1 Ht2. destruct f as [|s c n r|s c|o d|d|s o d fin p|n|s n|t n|n|s n|t n|s r c t|n|d|d|ap c ft reason| |s t d r| |p d];
    auto using parse_reset, parse_token, parse_max_streams, parse_streams_blocked, parse_connection_id, parse_close, parse_ack_frequency;
    intros suffix Hwf Hsuf; cbn [frame_wf] in Hwf; destruct_and?; try reflexivity.
  - parse_plain parseStopSendingFrame.
  - parse_plain parseCryptoFrame.
  - exfalso. revert Ht1. unfold frame_type. by destruct fin, p, (o =? 0).
  - parse_plain parseMaxDataFrame.
  - parse_plain parseMaxStreamDataFrame.
  - parse_plain parseDataBlockedFrame.
  - parse_plain parseStreamDataBlockedFrame.
  - parse_plain parseRetireConnectionIDFrame.
  - change (ParseLessCommonFrame _) with parsePathChallengeFrame.
    unfold parsePathChallengeFrame, frame_body. rewrite take_bytes_n by done. cbn [result_bind]. end_parse.
  - change (ParseLessCommonFrame _) with parsePathResponseFrame.
    unfold parsePathResponseFrame, frame_body. rewrite take_bytes_n by done. cbn [result_bind]. end_parse.
  - exfalso. revert Ht2. by destruct p.
Qed.

Lemma parse_frame_body f suffix : frame_wf f suffix -> is_bytes suffix ->
  parse_frame (frame_type f) (frame_body f ++ suffix) = Ok (f, len (frame_body f)).
Proof.
  intros Hwf Hs. unfold parse_frame. destruct (IsStreamFrameType (frame_type f)) eqn:E1.
  - destruct f as [|s c n r|s c|o d|d|s o d fin p|n|s n|[] n|n|s n|[] n|s r c t|n|d|d|[] c ft reason| |s t d r| |[] d];
      try done; [|by apply parse_stream]. cbn in E1. by destruct (r =? 0).
  - destruct (IsDatagramFrameType (frame_type f)) eqn:E2; [|by apply parse_less_common].
    destruct f as [|s c n r|s c|o d|d|s o d fin p|n|s n|[] n|n|s n|[] n|s r c t|n|d|d|[] c ft reason| |s t d r| |p d];
      try done; [exfalso; revert E2; unfold frame_type; by destruct (r =? 0)
                |exfalso; revert E1; unfold frame_type; by destruct fin, p, (o =? 0)|by apply parse_datagram].
Qed.

Lemma Parse_zero s : is_bytes s -> Parse (0 :: s) = Ok (0, 1).
Proof. intros Hs. exact (Parse_venc 0 s ltac:(by apply small_varint) Hs). Qed.

Lemma ParseType_padding p k t rest level fuel parsed : (k < fuel)%nat -> is_bytes rest -> is_varint t -> t <> 0 ->
  valid_type p t = true -> isAllowedAtEncLevel t level = true ->
  ParseType_loop fuel p (replicate k 0 ++ venc t ++ rest) level parsed = Ok (Some t, parsed + Z.of_nat k + vlen t).
Proof.
  revert fuel parsed. induction k as [|k IH]; intros fuel parsed Hf Hb Ht Ht0 Hv Ha; (destruct fuel; [lia|]); cbn [replicate app ParseType_loop].
  - rewrite Parse_venc by done. rewrite (proj2 (Z.eqb_neq t 0) Ht0), Hv, Ha. cbn [negb].
    pose proof (vlen_range t Ht) as Hl. unfold vlen in Hl. destruct (venc t ++ rest) eqn:E.
    + apply app_eq_nil in E as [E _]. rewrite E in Hl. unfold len in Hl. cbn in Hl. lia.
    + do 2 f_equal. lia.
  - assert (is_bytes (replicate k 0 ++ venc t ++ rest)) as Hb'.
    { apply Forall_app_2; [apply Forall_replicate; by vm_compute|solve_bytes]. }
    rewrite Parse_zero by done. cbn [Z.eqb]. rewrite IH by (done || lia). do 2 f_equal. lia.
Qed.

(** Every round of [ParseType] consumes a byte. *)
Lemma ParseType_total p b level fuel parsed : is_bytes b -> (length b < fuel)%nat ->
  ParseType_loop fuel p b level parsed <> Err OutOfFuel.
Proof.
  revert b parsed. induction fuel as [|fuel IH]; intros b parsed Hb Hf; [lia|]. cbn [ParseType_loop].
  destruct b as [|x b]; [done|]. destruct (Parse (x :: b)) as [[v l]|e] eqn:E; [|done]. cbv zeta.
  destruct (Parse_ok _ _ _ Hb E) as [_ Hl]. repeat split_if; try done. apply IH; [by apply Forall_drop|].
  rewrite length_drop. unfold len in Hl. cbn in *. lia.
Qed.

(** Every frame survives the wire.  A well-formed frame is written without an
error, in exactly [Length] bytes; behind any amount of padding its type is found,
if the peer may send it at that level, and parsing what follows the type, with
whatever comes after the frame, gives back the frame and the number of bytes it
took.  Finding a type ends on every input. *)
Theorem frame_roundtrip f suffix k p level b :
  frame_wf f suffix -> is_bytes suffix ->
  valid_type p (frame_type f) = true -> isAllowedAtEncLevel (frame_type f) level = true ->
  exists body,
    Append f b = Ok (b ++ venc (frame_type f) ++ body)
    /\ Length f = Some (vlen (frame_type f) + len body)
    /\ ParseType p (replicate k 0 ++ venc (frame_type f) ++ body ++ suffix) level
       = Ok (Some (frame_type f), Z.of_nat k + vlen (frame_type f))
    /\ parse_frame (frame_type f) (body ++ suffix) = Ok (f, len body)
    /\ (is_bytes b -> ParseType p b level <> Err OutOfFuel).
Proof.
  intros Hwf Hs Hv Ha. exists (frame_body f). split_and!.
  - by eapply Append_frame.
  - rewrite (Length_frame f suffix Hwf), len_app. done.
  - assert (is_bytes (frame_body f)) as Hb.
    { destruct f; cbn in *; destruct_and?; repeat match goal with |- context [if ?b then _ else _] => destruct b end; solve_bytes.
      unfold is_byte, MaxConnIDLen in *. lia. }
    unfold ParseType. rewrite (ParseType_padding p k (frame_type f)); [by rewrite Z.add_0_l| |solve_bytes|apply frame_type_varint| |done|done].
    + rewrite length_app, length_replicate. lia.
    + destruct f as [|s c n r|s c|o d|d|s o d fin pr|n|s n|[] n|n|s n|[] n|s r c t|n|d|d|[] c ft reason| |s t d r| |[] d]; try done; cbn;
        [by destruct (r =? 0)|destruct fin, pr, (o =? 0); lia].
  - by apply parse_frame_body.
  - intros Hb. apply ParseType_total; [done|lia].
Qed.

Lemma frame_roundtrip_witness :
  exists body, Append (DatagramFrame true [0; 1; 2]) [9] = Ok ([9] ++ venc 0x31 ++ body)
    /\ parse_frame 0x31 (body ++ [7]) = Ok (DatagramFrame true [0; 1; 2], len body).
Proof.
  destruct (frame_roundtrip (DatagramFrame true [0; 1; 2]) [7] 2 (NewFrameParser true false false) Encryption1RTT [9])
    as (body & H1 & _ & _ & H4 & _).
  - split; [vm_compute; split; discriminate|]. split; [repeat constructor; discriminate|discriminate].
  - repeat constructor; discriminate.
  - vm_compute. reflexivity.
  - reflexivity.
  - exists body. exact (conj H1 H4).
Defined.
