(* ===== verification/FrameSplit.v ===== *)
(** * Fitting frames into packets

[MaxDataLen] of STREAM, CRYPTO and DATAGRAM frames and [MaybeSplitOffFrame] of
STREAM and CRYPTO frames ([third_party/quic-go/internal/wire/stream_frame.go],
[crypto_frame.go], [datagram_frame.go]): how much data a frame may carry in a
given space, and how a frame that is too large is cut. *)

From stdpp Require Import base list numbers.
From Stdlib Require Import ZArith Lia.
From S2P Require Import Prelude.
From S2P Require Import Quicvarint.
From S2P Require Import Frames.

Local Open Scope Z_scope.

(** ** The code *)

(** The end of each [MaxDataLen]: pretend the length takes one byte, and give up
one byte of data if it takes two.  [None] is a panic of [quicvarint.Len]. *)
Definition fit (headerLen maxSize : Z) (present : bool) : option Z :=
  if headerLen >? maxSize then Some 0
  else
    let maxDataLen := maxSize - headerLen in
    if present then l ← Len maxDataLen; Some (if negb (l =? 1) then maxDataLen - 1 else maxDataLen)
    else Some maxDataLen.

Definition stream_MaxDataLen (StreamID Offset : Z) (DataLenPresent : bool) (maxSize : Z) : option Z :=
  s ← Len StreamID;
  o ← (if negb (Offset =? 0) then Len Offset else Some 0);
  fit (1 + s + o + (if DataLenPresent then 1 else 0)) maxSize DataLenPresent.
Definition crypto_MaxDataLen (Offset maxSize : Z) : option Z :=
  o ← Len Offset; fit (1 + o + 1) maxSize true.
Definition datagram_MaxDataLen (DataLenPresent : bool) (maxSize : Z) : option Z :=
  fit (1 + (if DataLenPresent then 1 else 0)) maxSize DataLenPresent.

(** [MaybeSplitOffFrame]: the frame split off, if any, whether splitting was
required, and what is left of the frame.  [None] is a panic: the data left over
is put into a buffer of the maximum packet size. *)
Definition stream_MaybeSplitOffFrame (StreamID Offset : Z) (Data : list Z) (Fin DataLenPresent : bool) (maxSize : Z)
  : option (option Frame * bool * Frame) :=
  let f := StreamFrame StreamID Offset Data Fin DataLenPresent in
  l ← Length f;
  if maxSize >=? l then Some (None, false, f)
  else
    n ← stream_MaxDataLen StreamID Offset DataLenPresent maxSize;
    if n =? 0 then Some (None, true, f)
    else if (len Data - n <? 0) || (len Data - n >? MaxPacketBufferSize) then None
    else Some (Some (StreamFrame StreamID Offset (take (Z.to_nat n) Data) false DataLenPresent), true,
               StreamFrame StreamID (Offset + n) (drop (Z.to_nat n) Data) Fin DataLenPresent).

Definition crypto_MaybeSplitOffFrame (Offset : Z) (Data : list Z) (maxSize : Z) : option (option Frame * bool * Frame) :=
  let f := CryptoFrame Offset Data in
  l ← Length f;
  if l <=? maxSize then Some (None, false, f)
  else
    n ← crypto_MaxDataLen Offset maxSize;
    if n =? 0 then Some (None, true, f)
    else if len Data - n <? 0 then None
    else Some (Some (CryptoFrame Offset (take (Z.to_nat n) Data)), true,
               CryptoFrame (Offset + n) (drop (Z.to_nat n) Data)).

(** ** Arithmetic of the length field *)

Definition length_field (present : bool) (n : Z) : Z := if present then vlen n else 0.

Lemma vlen_1 n : 0 <= n <= 63 -> vlen n = 1.
Proof. intros H. unfold vlen. by rewrite venc_small. Qed.
Lemma vlen_2 n : 64 <= n <= 16383 -> vlen n = 2.
Proof.
  intros H. assert (is_varint n) as Hn by (apply small_varint; lia). pose proof (Len_vlen n Hn) as E.
  revert E. unfold Len, maxVarInt1, maxVarInt2. rewrite (proj2 (Z.leb_gt n 63)), (proj2 (Z.leb_le n 16383)) by lia. by intros [= <-].
Qed.
Lemma vlen_large n : 64 <= n -> is_varint n -> vlen n <> 1.
Proof.
  intros H Hn E. pose proof (Len_vlen n Hn) as El. rewrite E in El.
  revert El. unfold Len, maxVarInt1, maxVarInt2, maxVarInt4, maxVarInt8. rewrite (proj2 (Z.leb_gt n 63)) by lia.
  by repeat split_if.
Qed.

(** [fit] leaves room for exactly as much data as fits: what it allows fits, and
data that does not fit is longer than it allows. *)
Lemma fit_spec header maxSize (present : bool) : 0 <= header -> 0 <= maxSize <= 2 ^ 60 ->
  let h := header + (if present then 1 else 0) in
  exists n, fit h maxSize present = Some n /\ 0 <= n
    /\ (n = 0 -> maxSize < h + 1)
    /\ (forall m, 0 < n -> 0 <= m <= n -> m <= 16383 -> header + length_field present m + m <= maxSize)
    /\ (forall m, 0 <= m <= 16383 -> maxSize < header + length_field present m + m -> n < m \/ n = 0).
Proof.
  intros Hh Hm h. unfold fit. destruct (h >? maxSize) eqn:E; breflect.
  { exists 0. split_and!; [done|lia..]. }
  destruct present; unfold length_field, h in *; cbn [mbind option_bind].
  - assert (is_varint (maxSize - (header + 1))) as Hv by (apply small_varint; lia).
    rewrite Len_vlen by done. cbn [mbind option_bind].
    destruct (decide (maxSize - (header + 1) <= 63)) as [Hs|Hs].
    + rewrite vlen_1 by lia. cbn [Z.eqb negb Pos.eqb]. eexists. split; [done|]. split_and!; [lia|lia|..].
      * intros m _ Hm1 _. rewrite vlen_1 by lia. lia.
      * intros m Hm1 Hm2. destruct (decide (m <= 63)); [rewrite vlen_1 in Hm2 by lia|]; lia.
    + rewrite (proj2 (Z.eqb_neq _ 1)) by (apply vlen_large; [lia|done]). cbn [negb]. eexists. split; [done|].
      split_and!; [lia|lia|..].
      * intros m _ Hm1 Hm2. destruct (decide (m <= 63)); [rewrite vlen_1 by lia|rewrite vlen_2 by lia]; lia.
      * intros m Hm1 Hm2. destruct (decide (m <= 63)); [rewrite vlen_1 in Hm2 by lia|rewrite vlen_2 in Hm2 by lia]; lia.
  - eexists. split; [done|]. split_and!; [lia|lia|..]; intros; lia.
Qed.

(** ** Splitting *)

(** Bytes of a frame before its length field. *)
Definition stream_header (StreamID Offset : Z) : Z := 1 + vlen StreamID + (if negb (Offset =? 0) then vlen Offset else 0).

Lemma stream_Length s o d fin p : is_varint s -> is_varint o -> is_varint (len d) ->
  Length (StreamFrame s o d fin p) = Some (stream_header s o + length_field p (len d) + len d).
Proof.
  intros Hs Ho Hd. unfold stream_header, length_field. cbn [Length]. rewrite Len_vlen by done. cbn [mbind option_bind].
  destruct (o =? 0), p; cbn [negb]; rewrite ?Len_vlen by done; cbn [mbind option_bind]; f_equal; lia.
Qed.

Lemma stream_MaxDataLen_fit s o p maxSize : is_varint s -> is_varint o ->
  stream_MaxDataLen s o p maxSize = fit (stream_header s o + (if p then 1 else 0)) maxSize p.
Proof.
  intros Hs Ho. unfold stream_MaxDataLen, stream_header. rewrite Len_vlen by done. cbn [mbind option_bind].
  destruct (o =? 0); cbn [negb]; rewrite ?Len_vlen by done; cbn [mbind option_bind]; done.
Qed.

Lemma header_nonneg s o : is_varint s -> is_varint o -> 0 <= stream_header s o.
Proof.
  intros Hs Ho. unfold stream_header. pose proof (vlen_range s Hs). pose proof (vlen_range o Ho). destruct (negb _); lia.
Qed.

(** The outcome of splitting a frame with [data], where [mk off d last] is the
frame for a part of the data and [size] its length. *)
Definition split_outcome (mk : Z -> list Z -> bool -> Frame) (offset : Z) (data : list Z) (maxSize : Z)
  (r : option (option Frame * bool * Frame)) : Prop :=
  match r with
  | Some (None, false, rest) => rest = mk offset data true /\ exists l, Length rest = Some l /\ l <= maxSize
  | Some (None, true, rest) =>
    rest = mk offset data true
    /\ forall x last, exists l, Length (mk offset [x] last) = Some l /\ maxSize < l
  | Some (Some first, true, rest) =>
    exists d1 d2, data = d1 ++ d2 /\ d1 <> [] /\ d2 <> []
      /\ first = mk offset d1 false /\ rest = mk (offset + len d1) d2 true
      /\ exists l, Length first = Some l /\ l <= maxSize
  | _ => False
  end.

Lemma take_drop_parts {A} (n : Z) (d : list A) : 0 < n < len d ->
  d = take (Z.to_nat n) d ++ drop (Z.to_nat n) d /\ take (Z.to_nat n) d <> [] /\ drop (Z.to_nat n) d <> []
  /\ len (take (Z.to_nat n) d) = n.
Proof.
  unfold len. intros Hn. split; [by rewrite take_drop|]. rewrite length_take.
  split_and!; [| |lia]; intros E; apply (f_equal length) in E; rewrite ?length_take, ?length_drop in E; cbn in E; lia.
Qed.

Lemma stream_split s o d fin p maxSize : is_varint s -> 0 <= o <= MaxByteCount -> len d <= MaxPacketBufferSize ->
  0 <= maxSize <= 2 ^ 60 ->
  split_outcome (fun off part last => StreamFrame s off part (if last then fin else false) p) o d maxSize
    (stream_MaybeSplitOffFrame s o d fin p maxSize).
Proof.
  intros Hs Ho Hd Hm. unfold MaxByteCount, MaxPacketBufferSize in *. pose proof (len_nonneg d) as Hd0.
  assert (is_varint o) as Hov by in_range. assert (is_varint (len d)) as Hdv by in_range.
  pose proof (header_nonneg s o Hs Hov) as Hh.
  unfold stream_MaybeSplitOffFrame. rewrite stream_Length by done. cbn [mbind option_bind].
  destruct (maxSize >=? _) eqn:E; breflect; [split; [done|]; eexists; split; [by apply stream_Length|lia]|].
  rewrite stream_MaxDataLen_fit by done.
  destruct (fit_spec (stream_header s o) maxSize p Hh Hm) as (n & -> & Hn & H0 & Hfit & Hno). cbn [mbind option_bind].
  destruct (Z.eqb_spec n 0) as [->|Hne].
  - split; [done|]. intros x last. eexists. split; [apply stream_Length; [done|done|by apply small_varint]|].
    unfold length_field. destruct p; rewrite ?(vlen_1 (len [x])) by (by vm_compute); change (len [x]) with 1; specialize (H0 eq_refl); lia.
  - destruct (Hno (len d) ltac:(lia) E) as [Hlt|]; [|lia].
    destruct (take_drop_parts n d ltac:(lia)) as (Hd1 & Hd2 & Hd3 & Hlen).
    replace ((len d - n <? 0) || (len d - n >? MaxPacketBufferSize)) with false.
    2:{ symmetry. apply orb_false_iff. rewrite Z.gtb_ltb, !Z.ltb_ge. unfold MaxPacketBufferSize. lia. }
    exists (take (Z.to_nat n) d), (drop (Z.to_nat n) d). rewrite Hlen. split_and!; try done.
    eexists. split; [apply stream_Length; [done|done|rewrite Hlen; in_range]|]. rewrite Hlen. apply Hfit; lia.
Qed.

Lemma crypto_split o d maxSize : 0 <= o <= MaxByteCount -> len d <= MaxPacketBufferSize -> 0 <= maxSize <= 2 ^ 60 ->
  split_outcome (fun off part _ => CryptoFrame off part) o d maxSize (crypto_MaybeSplitOffFrame o d maxSize).
Proof.
  intros Ho Hd Hm. unfold MaxByteCount, MaxPacketBufferSize in *. pose proof (len_nonneg d) as Hd0.
  assert (is_varint o) as Hov by in_range. assert (is_varint (len d)) as Hdv by in_range.
  assert (HL : forall off d', is_varint off -> is_varint (len d') ->
    Length (CryptoFrame off d') = Some (1 + vlen off + length_field true (len d') + len d')).
  { intros off d' H1 H2. cbn [Length]. by rewrite !Len_vlen by done. }
  pose proof (vlen_range o Hov). unfold crypto_MaybeSplitOffFrame. rewrite HL by done. cbn [mbind option_bind].
  destruct (_ <=? maxSize) eqn:E; breflect; [split; [done|]; eexists; split; [by apply HL|lia]|].
  unfold crypto_MaxDataLen. rewrite Len_vlen by done. cbn [mbind option_bind].
  destruct (fit_spec (1 + vlen o) maxSize true ltac:(lia) Hm) as (n & -> & Hn & H0 & Hfit & Hno). cbn [mbind option_bind].
  destruct (Z.eqb_spec n 0) as [->|Hne].
  - split; [done|]. intros x last. eexists. split; [apply HL; [done|by apply small_varint]|].
    unfold length_field. rewrite (vlen_1 (len [x])) by (by vm_compute). change (len [x]) with 1. specialize (H0 eq_refl). lia.
  - destruct (Hno (len d) ltac:(lia) ltac:(lia)) as [Hlt|]; [|lia].
    destruct (take_drop_parts n d ltac:(lia)) as (Hd1 & Hd2 & Hd3 & Hlen).
    rewrite (proj2 (Z.ltb_ge _ _)) by lia. exists (take (Z.to_nat n) d), (drop (Z.to_nat n) d). rewrite Hlen.
    split_and!; try done. eexists. split; [apply HL; [done|rewrite Hlen; in_range]|]. rewrite Hlen. apply Hfit; lia.
Qed.

(** Cutting a STREAM or CRYPTO frame to fit never panics and loses nothing.
Either the frame fits and is left alone, or not even one byte of data would fit
and it is left alone, or it becomes two frames with data in both: the first one
fits and does not end the stream, the second one continues exactly where the
first ends and keeps the FIN. *)
Theorem split_correct s o d fin p maxSize :
  is_varint s -> 0 <= o <= MaxByteCount -> len d <= MaxPacketBufferSize -> 0 <= maxSize <= 2 ^ 60 ->
  split_outcome (fun off part last => StreamFrame s off part (if last then fin else false) p) o d maxSize
    (stream_MaybeSplitOffFrame s o d fin p maxSize)
  /\ split_outcome (fun off part _ => CryptoFrame off part) o d maxSize (crypto_MaybeSplitOffFrame o d maxSize).
Proof. intros. split; [by apply stream_split|by apply crypto_split]. Qed.

Lemma split_correct_witness :
  split_outcome (fun off part last => StreamFrame 4 off part (if last then true else false) true) 100 (replicate 200 7) 80
    (stream_MaybeSplitOffFrame 4 100 (replicate 200 7) true true 80).
Proof.
  apply (split_correct 4 100 (replicate 200 7) true true 80); vm_compute; try split; discriminate.
Defined.

(** [DatagramFrame.MaxDataLen]: the largest payload that fits, for sizes a packet
can have. *)
Lemma datagram_fits p maxSize : 0 <= maxSize <= MaxPacketBufferSize -> exists n, datagram_MaxDataLen p maxSize = Some n
  /\ forall d, len d <= n -> 0 < n -> exists l, Length (DatagramFrame p d) = Some l /\ l <= maxSize.
Proof.
  intros Hm. unfold MaxPacketBufferSize in *. destruct (fit_spec 1 maxSize p ltac:(lia) ltac:(lia)) as (n & Hn & Hn0 & _ & Hfit & _).
  exists n. split; [exact Hn|]. intros d Hd Hpos. pose proof (len_nonneg d).
  assert (len d <= 16383) as Hl.
  { assert (1 + length_field p 0 + 0 <= maxSize) by (apply Hfit; lia). unfold fit in Hn.
    destruct (1 + _ >? maxSize); [injection Hn as <-; lia|]. destruct p; cbn in Hn; [|injection Hn as <-; lia].
    destruct (Len _); cbn in Hn; [|done]. injection Hn as <-. destruct (negb _); lia. }
  assert (is_varint (len d)) as Hv by in_range.
  specialize (Hfit (len d) Hpos ltac:(lia) Hl). unfold length_field in Hfit. cbn [Length].
  destruct p; [rewrite Len_vlen by done|]; cbn [mbind option_bind]; eexists; (split; [reflexivity|lia]).
Qed.
