(* ===== verification/StreamPool.v ===== *)
(** * The pool of STREAM frames

[third_party/quic-go/internal/wire/pool.go] and the part of [stream_frame.go] that
works on shared buffers: frames taken from the pool and put back, and
[MaybeSplitOffFrame], which swaps the buffers of two frames and copies between
them.  The store has the frame objects and the buffers behind their slices, so that
aliasing is visible; the theorems show that there is none, that [putStreamFrame]
never panics, and that splitting in place does what [FrameSplit] defines on values. *)

From stdpp Require Import base gmap list numbers.
From Stdlib Require Import ZArith Lia.
From S2P Require Import Prelude.
From S2P Require Import Quicvarint.
From S2P Require Import Frames.
From S2P Require Import FrameSplit.

Local Open Scope Z_scope.

(** A [StreamFrame] object: [Data] is a slice of the buffer [sf_buf] from its start. *)
Record stream_object := {
  sf_StreamID : Z;
  sf_Offset : Z;
  sf_Fin : bool;
  sf_DataLenPresent : bool;
  sf_buf : nat;
  sf_len : Z;
  sf_cap : Z;
  sf_fromPool : bool;
}.

Record pool_store := {
  objects : gmap nat stream_object;
  buffers : gmap nat (list Z);
  pooled : list nat;
  next_object : nat;
  next_buffer : nat;
}.
Definition empty_store : pool_store := {| objects := ∅; buffers := ∅; pooled := []; next_object := 0; next_buffer := 0 |}.

Definition set_object (s : pool_store) (id : nat) (f : stream_object) : pool_store :=
  {| objects := <[id := f]> (objects s); buffers := buffers s; pooled := pooled s; next_object := next_object s; next_buffer := next_buffer s |}.
Definition set_buffer (s : pool_store) (b : nat) (bytes : list Z) : pool_store :=
  {| objects := objects s; buffers := <[b := bytes]> (buffers s); pooled := pooled s; next_object := next_object s; next_buffer := next_buffer s |}.
Definition set_pooled (s : pool_store) (p : list nat) : pool_store :=
  {| objects := objects s; buffers := buffers s; pooled := p; next_object := next_object s; next_buffer := next_buffer s |}.

(** A new object with a new buffer. *)
Definition new_object (s : pool_store) (bytes : list Z) (f : nat -> stream_object) : nat * pool_store :=
  (next_object s,
   {| objects := <[next_object s := f (next_buffer s)]> (objects s); buffers := <[next_buffer s := bytes]> (buffers s); pooled := pooled s;
      next_object := S (next_object s); next_buffer := S (next_buffer s) |}).

(** [sync.Pool.Get]: one of the pooled frames, or [New]. *)
Definition GetStreamFrame (choice : option nat) (s : pool_store) : nat * pool_store :=
  match i ← choice; id ← pooled s !! i; Some (i, id) with
  | Some (i, id) => (id, set_pooled s (delete i (pooled s)))
  | None =>
    new_object s (replicate (Z.to_nat MaxPacketBufferSize) 0) (fun b =>
      {| sf_StreamID := 0; sf_Offset := 0; sf_Fin := false; sf_DataLenPresent := false; sf_buf := b; sf_len := 0;
         sf_cap := MaxPacketBufferSize; sf_fromPool := true |})
  end.

(** [putStreamFrame]; [None] is its panic, or a frame that does not exist. *)
Definition putStreamFrame (id : nat) (s : pool_store) : option pool_store :=
  f ← objects s !! id;
  if negb (sf_fromPool f) then Some s
  else if negb (sf_cap f =? MaxPacketBufferSize) then None
  else Some (set_pooled s (id :: pooled s)).

(** [copy] to the start of a buffer. *)
Definition copy_to (src dst : list Z) : list Z := src ++ drop (length src) dst.

(** The bytes of a frame, and the frame as a value. *)
Definition data (s : pool_store) (f : stream_object) : list Z := take (Z.to_nat (sf_len f)) (default [] (buffers s !! sf_buf f)).
Definition value (s : pool_store) (id : nat) : option Frame :=
  f ← objects s !! id; Some (StreamFrame (sf_StreamID f) (sf_Offset f) (data s f) (sf_Fin f) (sf_DataLenPresent f)).

(** Filling a frame that was taken from the pool: [f.Data = f.Data[:n]] and [copy];
[None] if the slice is too short. *)
Definition fill (id : nat) (StreamID Offset : Z) (Fin DataLenPresent : bool) (bytes : list Z) (s : pool_store) : option pool_store :=
  f ← objects s !! id;
  if len bytes >? sf_cap f then None
  else Some (set_buffer
    (set_object s id {| sf_StreamID := StreamID; sf_Offset := Offset; sf_Fin := Fin; sf_DataLenPresent := DataLenPresent; sf_buf := sf_buf f;
                        sf_len := len bytes; sf_cap := sf_cap f; sf_fromPool := sf_fromPool f |})
    (sf_buf f) (copy_to bytes (default [] (buffers s !! sf_buf f)))).

(** The end of [ParseStreamFrame]: where the data of a received frame goes. *)
Definition receive_frame (StreamID Offset : Z) (Fin DataLenPresent : bool) (bytes : list Z) (choice : option nat) (s : pool_store) : option nat * pool_store :=
  if len bytes <? MinStreamFrameBufferSize then
    let '(id, s) := new_object s bytes (fun b =>
      {| sf_StreamID := StreamID; sf_Offset := Offset; sf_Fin := Fin; sf_DataLenPresent := DataLenPresent; sf_buf := b; sf_len := len bytes;
         sf_cap := len bytes; sf_fromPool := false |}) in
    (Some id, s)
  else
    let '(id, s) := GetStreamFrame choice s in
    match fill id StreamID Offset Fin DataLenPresent bytes s with
    | None => (None, s)
    | Some s => (Some id, s)
    end.

(** [MaybeSplitOffFrame]: the new frame, whether splitting was required, and the
store.  [None] is a panic. *)
Definition MaybeSplitOffFrame (id : nat) (maxSize : Z) (choice : option nat) (s : pool_store) : option (option nat * bool * pool_store) :=
  f ← objects s !! id;
  frame ← value s id;
  l ← Length frame;
  if maxSize >=? l then Some (None, false, s)
  else
    n ← stream_MaxDataLen (sf_StreamID f) (sf_Offset f) (sf_DataLenPresent f) maxSize;
    if n =? 0 then Some (None, true, s)
    else
      let '(new, s) := GetStreamFrame choice s in
      g ← objects s !! new;
      if (sf_len f - n <? 0) || (sf_len f - n >? sf_cap g) then None
      else
        let bytes := drop (Z.to_nat n) (data s f) in
        let s := set_buffer s (sf_buf g) (copy_to bytes (default [] (buffers s !! sf_buf g))) in
        let s := set_object s new
          {| sf_StreamID := sf_StreamID f; sf_Offset := sf_Offset f; sf_Fin := false; sf_DataLenPresent := sf_DataLenPresent f;
             sf_buf := sf_buf f; sf_len := n; sf_cap := sf_cap f; sf_fromPool := sf_fromPool f |} in
        let s := set_object s id
          {| sf_StreamID := sf_StreamID f; sf_Offset := sf_Offset f + n; sf_Fin := sf_Fin f; sf_DataLenPresent := sf_DataLenPresent f;
             sf_buf := sf_buf g; sf_len := sf_len f - n; sf_cap := sf_cap g; sf_fromPool := sf_fromPool g |} in
        Some (Some new, true, s).

(** ** No aliasing *)

Record object_ok (s : pool_store) (id : nat) (f : stream_object) : Prop := {
  oo_id : (id < next_object s)%nat;
  oo_buf : (sf_buf f < next_buffer s)%nat;
  oo_len : 0 <= sf_len f <= sf_cap f;
  oo_bytes : exists b, buffers s !! sf_buf f = Some b /\ len b = sf_cap f;
  oo_pool : sf_fromPool f = true -> sf_cap f = MaxPacketBufferSize;
}.
Record store_ok (s : pool_store) : Prop := {
  so_objects : map_Forall (object_ok s) (objects s);
  so_alias : forall i j f g, objects s !! i = Some f -> objects s !! j = Some g -> sf_buf f = sf_buf g -> i = j;
  so_once : NoDup (pooled s);
  so_pooled : forall id, id ∈ pooled s -> exists f, objects s !! id = Some f /\ sf_fromPool f = true;
}.

(** The frames that somebody holds keep their values. *)
Definition others_kept (s s' : pool_store) (touched : list nat) : Prop :=
  forall j, is_Some (objects s !! j) -> j ∉ pooled s -> j ∉ touched -> value s' j = value s j /\ j ∉ pooled s'.

Lemma empty_store_ok : store_ok empty_store.
Proof. constructor; [apply map_Forall_empty|done|constructor|]. intros id Hid. by apply elem_of_nil in Hid. Qed.

Lemma new_object_ok s bytes f : store_ok s -> sf_buf (f (next_buffer s)) = next_buffer s -> 0 <= sf_len (f (next_buffer s)) <= sf_cap (f (next_buffer s)) ->
  len bytes = sf_cap (f (next_buffer s)) -> (sf_fromPool (f (next_buffer s)) = true -> sf_cap (f (next_buffer s)) = MaxPacketBufferSize) ->
  let '(id, s') := new_object s bytes f in
  store_ok s' /\ objects s !! id = None /\ objects s' !! id = Some (f (next_buffer s)) /\ buffers s' !! next_buffer s = Some bytes
  /\ pooled s' = pooled s /\ id ∉ pooled s /\ forall j, is_Some (objects s !! j) -> objects s' !! j = objects s !! j /\ value s' j = value s j.
Proof.
  intros [Ho Ha Hn Hp] Hb Hl Hc Hm. unfold new_object. set (o := f (next_buffer s)) in *.
  assert (objects s !! next_object s = None) as Hfresh.
  { destruct (objects s !! next_object s) as [g|] eqn:E; [|done]. destruct (Ho _ _ E) as [Hid _ _ _ _]. lia. }
  assert (forall j g, objects s !! j = Some g -> j <> next_object s /\ sf_buf g <> next_buffer s) as Hold.
  { intros j g Hg. destruct (Ho _ _ Hg) as [H1 H2 _ _ _]. lia. }
  split; [constructor; cbn [objects buffers pooled next_object next_buffer]|cbn [objects buffers pooled]].
  - apply map_Forall_insert_2.
    + constructor; cbn; [lia|lia|done| |done]. exists bytes. rewrite Hb, lookup_insert_eq. done.
    + intros j g Hg. destruct (Ho _ _ Hg) as [H1 H2 H3 (b & H4 & H5) H6]. destruct (Hold _ _ Hg) as [_ Hne].
      constructor; cbn; [lia|lia|done| |done]. exists b. by rewrite lookup_insert_ne.
  - intros i j g1 g2 Hi Hj E. destruct (decide (i = next_object s)) as [->|Hi'], (decide (j = next_object s)) as [->|Hj']; [done| | |].
    + rewrite lookup_insert_eq in Hi. rewrite lookup_insert_ne in Hj by done. injection Hi as <-. destruct (Hold _ _ Hj) as [_ Hne]. congruence.
    + rewrite lookup_insert_eq in Hj. rewrite lookup_insert_ne in Hi by done. injection Hj as <-. destruct (Hold _ _ Hi) as [_ Hne]. congruence.
    + rewrite lookup_insert_ne in Hi, Hj by done. by apply (Ha i j g1 g2).
  - done.
  - intros id Hid. destruct (Hp id Hid) as (g & Hg & Hf). exists g. split; [|done]. rewrite lookup_insert_ne; [done|]. destruct (Hold _ _ Hg). congruence.
  - split; [done|]. rewrite !lookup_insert_eq. do 3 (split; [done|]). split.
    + intros Hid. destruct (Hp _ Hid) as (g & Hg & _). congruence.
    + intros j [g Hg]. destruct (Hold _ _ Hg) as [H1 H2]. unfold value, data. cbn. rewrite lookup_insert_ne by congruence. rewrite Hg. cbn.
      by rewrite lookup_insert_ne by congruence.
Qed.

Lemma NoDup_delete (l : list nat) i x : NoDup l -> l !! i = Some x -> NoDup (delete i l) /\ x ∉ delete i l /\ forall y, y ∈ delete i l -> y ∈ l.
Proof.
  intros Hn Hx. pose proof (delete_Permutation l i x Hx) as Hp. rewrite Hp in Hn. apply list.NoDup_cons in Hn as [H1 H2].
  split; [done|]. split; [done|]. intros y Hy. rewrite Hp. by constructor.
Qed.

Lemma Get_ok choice s : store_ok s ->
  let '(id, s') := GetStreamFrame choice s in
  store_ok s' /\ (id ∈ pooled s \/ objects s !! id = None) /\ id ∉ pooled s' /\ (forall j, j ∈ pooled s' -> j ∈ pooled s)
  /\ (exists g, objects s' !! id = Some g /\ sf_fromPool g = true)
  /\ forall j, is_Some (objects s !! j) -> objects s' !! j = objects s !! j /\ value s' j = value s j.
Proof.
  intros Hs. unfold GetStreamFrame. destruct (i ← choice; id ← pooled s !! i; Some (i, id)) as [[i id]|] eqn:E.
  - destruct choice as [i'|]; [|done]. cbn in E. destruct (pooled s !! i') as [id'|] eqn:Ep; [|done]. injection E as <- <-.
    destruct Hs as [Ho Ha Hn Hp]. destruct (NoDup_delete _ _ _ Hn Ep) as (N1 & N2 & N3). apply list_elem_of_lookup_2 in Ep as Hin.
    split; [constructor; cbn; [|done|done|auto]|].
    { intros j f Hj. destruct (Ho j f Hj). by constructor. }
    split; [by left|]. split; [done|]. split; [done|]. split; [|done]. destruct (Hp _ Hin) as (g & Hg & Hf). by exists g.
  - pose proof (new_object_ok s (replicate (Z.to_nat MaxPacketBufferSize) 0) (fun b =>
      {| sf_StreamID := 0; sf_Offset := 0; sf_Fin := false; sf_DataLenPresent := false; sf_buf := b; sf_len := 0;
         sf_cap := MaxPacketBufferSize; sf_fromPool := true |}) Hs eq_refl) as Hnew.
    destruct (new_object _ _ _) as [id s']. destruct Hnew as (K1 & K2 & K3 & K4 & K5 & K6 & K7); try done.
    split; [done|]. split; [by right|]. rewrite K5. do 2 (split; [done|]). split; [by eexists|done].
Qed.

Lemma put_ok id s f : store_ok s -> objects s !! id = Some f -> id ∉ pooled s ->
  exists s', putStreamFrame id s = Some s' /\ store_ok s' /\ others_kept s s' [id].
Proof.
  intros [Ho Ha Hn Hp] Hf Hid. unfold putStreamFrame. rewrite Hf. cbn [mbind option_bind]. destruct (sf_fromPool f) eqn:Ef; cbn [negb].
  - destruct (Ho _ _ Hf) as [_ _ _ _ Hc]. rewrite Hc by done. rewrite Z.eqb_refl. cbn [negb]. eexists. split; [done|]. split.
    + constructor; cbn; [|done|by apply list.NoDup_cons|].
      * intros j g Hj. destruct (Ho j g Hj). by constructor.
      * intros j [->|Hj]%elem_of_cons; [by exists f|by apply Hp].
    + intros j _ Hj Ht. cbn. split; [done|]. set_solver.
  - exists s. split; [done|]. split; [done|]. by intros j _ Hj _.
Qed.

Lemma len_copy src dst : len src <= len dst -> len (copy_to src dst) = len dst.
Proof. intros Hl. unfold copy_to, len in *. rewrite length_app, length_drop. lia. Qed.
Lemma take_copy src dst : take (length src) (copy_to src dst) = src.
Proof. apply take_app_length. Qed.

(** Writing to the buffer of one object, keeping its capacity. *)
Lemma write_ok s id f g bytes : store_ok s -> objects s !! id = Some f -> sf_buf g = sf_buf f -> sf_cap g = sf_cap f -> sf_fromPool g = sf_fromPool f ->
  sf_len g = len bytes -> len bytes <= sf_cap f ->
  let s' := set_buffer (set_object s id g) (sf_buf f) (copy_to bytes (default [] (buffers s !! sf_buf f))) in
  store_ok s' /\ data s' g = bytes /\ forall j, j <> id -> value s' j = value s j.
Proof.
  intros [Ho Ha Hn Hp] Hf Hb Hc Hpf Hl Hfit s'. destruct (Ho _ _ Hf) as [F1 F2 F3 (b & Eb & Lb) F5].
  assert (forall j h, objects s !! j = Some h -> j <> id -> sf_buf h <> sf_buf f) as Hne.
  { intros j h Hj Hjd E. apply Hjd. by apply (Ha j id h f). }
  split; [constructor|split]; unfold s'; cbn.
  - apply map_Forall_insert_2.
    + constructor; cbn; rewrite ?Hb, ?Hc, ?Hpf, ?Hl; [done|done|pose proof (len_nonneg bytes); lia| |done].
      exists (copy_to bytes b). rewrite lookup_insert_eq, Eb. split; [done|]. cbn. rewrite len_copy; lia.
    + intros j h Hj. destruct (Ho j h Hj) as [J1 J2 J3 (bj & J4 & J5) J6]. constructor; cbn; try done.
      destruct (decide (sf_buf h = sf_buf f)) as [E|E].
      * assert (j = id) as -> by by apply (Ha j id h f). rewrite Hf in Hj. injection Hj as <-. exists (copy_to bytes b).
        rewrite lookup_insert_eq, Eb. split; [done|]. cbn. rewrite len_copy; lia.
      * exists bj. by rewrite lookup_insert_ne.
  - intros i j h1 h2 Hi Hj E.
    destruct (decide (i = id)) as [->|Hi'], (decide (j = id)) as [->|Hj']; [done| | |];
      rewrite ?lookup_insert_eq in *; rewrite ?lookup_insert_ne in * by done; simplify_eq.
    + destruct (Hne j h2 Hj Hj'). congruence.
    + destruct (Hne i h1 Hi Hi'). congruence.
    + by apply (Ha i j h1 h2).
  - done.
  - intros j Hj. destruct (Hp j Hj) as (h & Hh & Hfp). destruct (decide (j = id)) as [->|Hjd].
    + exists g. rewrite lookup_insert_eq. split; [done|]. congruence.
    + exists h. by rewrite lookup_insert_ne.
  - unfold data. cbn. rewrite Hb, lookup_insert_eq, Hl. cbn. unfold len. rewrite Nat2Z.id. apply take_copy.
  - intros j Hjd. unfold value, data. cbn. rewrite lookup_insert_ne by done. destruct (objects s !! j) as [h|] eqn:Eh; [|done]. cbn.
    by rewrite lookup_insert_ne by (symmetry; by apply (Hne j)).
Qed.

Lemma receive_frame_ok StreamID Offset Fin DataLenPresent bytes choice s : store_ok s ->
  let '(r, s') := receive_frame StreamID Offset Fin DataLenPresent bytes choice s in
  store_ok s' /\ others_kept s s' []
  /\ match r with
     | None => MaxPacketBufferSize < len bytes
     | Some id => value s' id = Some (StreamFrame StreamID Offset bytes Fin DataLenPresent) /\ id ∉ pooled s' /\ (id ∈ pooled s \/ objects s !! id = None)
     end.
Proof.
  intros Hs. unfold receive_frame. pose proof (len_nonneg bytes) as Hl. split_if.
  - pose proof (new_object_ok s bytes (fun b =>
      {| sf_StreamID := StreamID; sf_Offset := Offset; sf_Fin := Fin; sf_DataLenPresent := DataLenPresent; sf_buf := b; sf_len := len bytes;
         sf_cap := len bytes; sf_fromPool := false |}) Hs eq_refl) as Hnew.
    destruct (new_object _ _ _) as [id s']. destruct Hnew as (K1 & K2 & K3 & K4 & K5 & K6 & K7); [cbn; lia|done|done|].
    split; [done|]. split; [intros j Hj Hp _; rewrite K5; split; [by apply K7|done]|]. rewrite K5. split; [|split; [done|by right]].
    unfold value, data. rewrite K3. cbn. rewrite K4. cbn. unfold len. by rewrite Nat2Z.id, firstn_all.
  - pose proof (Get_ok choice s Hs) as Hget. destruct (GetStreamFrame choice s) as [id s1].
    destruct Hget as (K1 & K2 & K3 & K4 & (g & K5 & K6) & K7). unfold fill. rewrite K5. cbn [mbind option_bind].
    destruct (so_objects _ K1 _ _ K5) as [_ _ _ _ Hc]. rewrite (Hc K6). destruct (len bytes >? MaxPacketBufferSize) eqn:Eg.
    + split; [done|]. split; [|breflect; lia]. intros j Hj Hp _. split; [by apply K7|auto].
    + breflect. set (g' := {| sf_StreamID := StreamID |}).
      destruct (write_ok s1 id g g' bytes K1 K5) as (W1 & W2 & W3); try done; [cbn; by rewrite Hc|rewrite Hc by done; lia|].
      split; [done|]. split; [|split; [|done]].
      * intros j Hj Hp _. split; [|cbn; auto]. rewrite W3; [by apply K7|]. intros ->. destruct K2 as [K2|K2]; [done|]. rewrite K2 in Hj. by destruct Hj.
      * unfold value at 1. cbn [set_buffer set_object objects]. rewrite lookup_insert_eq. cbn [mbind option_bind].
        change (data _ g') with (data (set_buffer (set_object s1 id g') (sf_buf g) (copy_to bytes (default [] (buffers s1 !! sf_buf g)))) g'). by rewrite W2.
Qed.

(** Two objects exchange their buffers. *)
Lemma swap_ok s i j f g f' g' : store_ok s -> objects s !! i = Some f -> objects s !! j = Some g -> i <> j -> i ∉ pooled s -> j ∉ pooled s ->
  sf_buf f' = sf_buf g -> sf_cap f' = sf_cap g -> sf_fromPool f' = sf_fromPool g -> 0 <= sf_len f' <= sf_cap g ->
  sf_buf g' = sf_buf f -> sf_cap g' = sf_cap f -> sf_fromPool g' = sf_fromPool f -> 0 <= sf_len g' <= sf_cap f ->
  let s' := set_object (set_object s j g') i f' in
  store_ok s' /\ forall k, k <> i -> k <> j -> value s' k = value s k.
Proof.
  intros [Ho Ha Hn Hp] Hf Hg Hij Hi Hj B1 C1 P1 L1 B2 C2 P2 L2 s'. destruct (Ho _ _ Hf) as [F1 F2 F3 F4 F5], (Ho _ _ Hg) as [G1 G2 G3 G4 G5].
  assert (forall k h, objects s' !! k = Some h -> exists k0 h0, objects s !! k0 = Some h0 /\ sf_buf h = sf_buf h0
    /\ k0 = (if decide (k = i) then j else if decide (k = j) then i else k)) as Hback.
  { intros k h Hk. unfold s' in Hk. cbn in Hk. destruct (decide (k = i)) as [->|Hki].
    - rewrite lookup_insert_eq in Hk. injection Hk as <-. by exists j, g.
    - rewrite lookup_insert_ne in Hk by done. destruct (decide (k = j)) as [->|Hkj].
      + rewrite lookup_insert_eq in Hk. injection Hk as <-. by exists i, f.
      + rewrite lookup_insert_ne in Hk by done. by exists k, h. }
  split; [constructor|]; unfold s'; cbn.
  - apply map_Forall_insert_2; [|apply map_Forall_insert_2].
    + constructor; cbn; rewrite ?B1, ?C1, ?P1; done.
    + constructor; cbn; rewrite ?B2, ?C2, ?P2; done.
    + intros k h Hk. destruct (Ho k h Hk). by constructor.
  - intros k1 k2 h1 h2 H1 H2 E. destruct (Hback k1 h1 H1) as (a1 & x1 & A1 & E1 & D1), (Hback k2 h2 H2) as (a2 & x2 & A2 & E2 & D2).
    assert (a1 = a2) as E12 by (apply (Ha a1 a2 x1 x2); congruence). subst a1 a2. repeat case_decide; congruence.
  - done.
  - intros k Hk. destruct (Hp k Hk) as (h & Hh & Hhp). exists h. by rewrite !lookup_insert_ne by (intros ->; done).
  - intros k Hki Hkj. unfold value, data. cbn. by rewrite !lookup_insert_ne by done.
Qed.

Lemma len_data s id f : store_ok s -> objects s !! id = Some f -> len (data s f) = sf_len f.
Proof.
  intros Hs Hf. destruct (so_objects _ Hs _ _ Hf) as [_ _ Hl (b & Hb & Hlen) _]. unfold data. rewrite Hb. cbn. unfold len in *. rewrite length_take. lia.
Qed.

Lemma MaxDataLen_nonneg StreamID Offset present maxSize n : stream_MaxDataLen StreamID Offset present maxSize = Some n -> 0 <= n.
Proof.
  unfold stream_MaxDataLen. destruct (Len StreamID); [|done]. cbn [mbind option_bind]. destruct (if negb _ then Len _ else _); [|done]. cbn [mbind option_bind].
  unfold fit. split_if; [by intros [= <-]|]. breflect. set (d := maxSize - _). assert (0 <= d) as Hd by (unfold d; lia).
  destruct present; [|intros [= <-]; done]. destruct (decide (d = 0)) as [->|Hne]; [cbn; by intros [= <-]|].
  destruct (Len d) as [x|]; [|done]. cbn [mbind option_bind]. split_if; intros [= <-]; lia.
Qed.

(** The stores before and after a split at [n]. *)
Lemma split_store s id new f g n : store_ok s -> objects s !! id = Some f -> objects s !! new = Some g -> new <> id -> id ∉ pooled s -> new ∉ pooled s ->
  sf_cap g = MaxPacketBufferSize -> 0 <= n <= sf_len f -> sf_len f - n <= MaxPacketBufferSize ->
  let bytes := drop (Z.to_nat n) (data s f) in
  let s' := set_object (set_object (set_buffer s (sf_buf g) (copy_to bytes (default [] (buffers s !! sf_buf g)))) new
      {| sf_StreamID := sf_StreamID f; sf_Offset := sf_Offset f; sf_Fin := false; sf_DataLenPresent := sf_DataLenPresent f;
         sf_buf := sf_buf f; sf_len := n; sf_cap := sf_cap f; sf_fromPool := sf_fromPool f |}) id
      {| sf_StreamID := sf_StreamID f; sf_Offset := sf_Offset f + n; sf_Fin := sf_Fin f; sf_DataLenPresent := sf_DataLenPresent f;
         sf_buf := sf_buf g; sf_len := sf_len f - n; sf_cap := MaxPacketBufferSize; sf_fromPool := sf_fromPool g |} in
  store_ok s'
  /\ value s' id = Some (StreamFrame (sf_StreamID f) (sf_Offset f + n) bytes (sf_Fin f) (sf_DataLenPresent f))
  /\ value s' new = Some (StreamFrame (sf_StreamID f) (sf_Offset f) (take (Z.to_nat n) (data s f)) false (sf_DataLenPresent f))
  /\ forall j, j <> id -> j <> new -> value s' j = value s j.
Proof.
  intros Hs Hf Hg Hne Hid Hnew Hc Hn Hfit bytes s'. set (f' := {| sf_Offset := sf_Offset f + n |}) in s'. set (g' := {| sf_Fin := false |}) in s'.
  pose proof (len_data s id f Hs Hf) as Hlen. destruct (so_objects _ Hs _ _ Hf) as [_ _ Lf (b & Eb & Lb) _].
  assert (len bytes = sf_len f - n) as Lbytes by (unfold bytes, len in *; rewrite length_drop; lia).
  set (g2 := {| sf_StreamID := 0; sf_Offset := 0; sf_Fin := false; sf_DataLenPresent := false; sf_buf := sf_buf g; sf_len := len bytes;
                sf_cap := sf_cap g; sf_fromPool := sf_fromPool g |}).
  destruct (write_ok s new g g2 bytes Hs Hg) as (W1 & W2 & W3); try done; [lia|]. set (s2 := set_buffer _ _ _) in W1, W2, W3.
  assert (s' = set_object (set_object s2 new g') id f') as Es.
  { unfold s', s2, set_object, set_buffer. cbn. by rewrite insert_insert_eq. }
  assert (objects s2 !! id = Some f) as Hf2 by (cbn; by rewrite lookup_insert_ne).
  assert (objects s2 !! new = Some g2) as Hg2 by (cbn; by rewrite lookup_insert_eq).
  destruct (swap_ok s2 id new f g2 f' g' W1 Hf2 Hg2) as [S1 S2]; try done; [cbn; lia|cbn; lia|]. rewrite <- Es in S1, S2.
  split; [done|]. assert (sf_buf f <> sf_buf g) as Hbuf.
  { intros E. apply Hne. symmetry. by apply (so_alias _ Hs id new f g). }
  split; [|split].
  - unfold value. rewrite Es. cbn [set_object objects]. rewrite lookup_insert_eq. cbn [mbind option_bind].
    replace (data _ f') with (data s2 g2); [by rewrite W2|]. unfold data. cbn. by rewrite Lbytes.
  - unfold value. rewrite Es. cbn [set_object objects]. rewrite lookup_insert_ne, lookup_insert_eq by done. cbn [mbind option_bind].
    do 2 f_equal. unfold data. cbn. rewrite lookup_insert_ne by done. rewrite Eb. cbn. rewrite take_take. f_equal. lia.
  - intros j Hj1 Hj2. rewrite S2 by done. by apply W3.
Qed.

(** Splitting in place refines splitting of values. *)
Lemma split_refines id f maxSize choice s : store_ok s -> objects s !! id = Some f -> id ∉ pooled s ->
  match stream_MaybeSplitOffFrame (sf_StreamID f) (sf_Offset f) (data s f) (sf_Fin f) (sf_DataLenPresent f) maxSize with
  | None => MaybeSplitOffFrame id maxSize choice s = None
  | Some (part, required, rest) =>
    exists new s', MaybeSplitOffFrame id maxSize choice s = Some (new, required, s') /\ store_ok s' /\ value s' id = Some rest /\ id ∉ pooled s'
      /\ others_kept s s' [id]
      /\ match part, new with
         | None, None => s' = s
         | Some p, Some n => value s' n = Some p /\ n ∉ pooled s' /\ n <> id /\ (n ∈ pooled s \/ objects s !! n = None)
         | _, _ => False
         end
  end.
Proof.
  intros Hs Hf Hid. unfold stream_MaybeSplitOffFrame, MaybeSplitOffFrame. rewrite Hf. cbn [mbind option_bind].
  assert (value s id = Some (StreamFrame (sf_StreamID f) (sf_Offset f) (data s f) (sf_Fin f) (sf_DataLenPresent f))) as Hval
    by (unfold value; by rewrite Hf). rewrite Hval. cbn [mbind option_bind].
  destruct (Length _) as [l|]; [|done]. cbn [mbind option_bind].
  assert (others_kept s s [id]) as Hsame by (by intros j _ Hj _).
  split_if; [exists None, s; done|].
  destruct (stream_MaxDataLen _ _ _ maxSize) as [n|] eqn:En; [|done]. cbn [mbind option_bind]. split_if; [exists None, s; done|].
  rewrite (len_data s id f Hs Hf).
  pose proof (Get_ok choice s Hs) as Hget. destruct (GetStreamFrame choice s) as [new s1]. destruct Hget as (K1 & K2 & K3 & K4 & (g & K5 & K6) & K7).
  rewrite K5. cbn [mbind option_bind]. destruct (so_objects _ K1 _ _ K5) as [_ _ _ _ Hc]. rewrite (Hc K6).
  destruct ((sf_len f - n <? 0) || (sf_len f - n >? MaxPacketBufferSize)) eqn:Er; [done|].
  apply orb_false_iff in Er as [Er1 Er2]. breflect. pose proof (MaxDataLen_nonneg _ _ _ _ _ En) as Hn0.
  assert (new <> id) as Hne by (intros ->; destruct K2 as [K2|K2]; [done|congruence]).
  destruct (K7 id ltac:(by eexists)) as [K8 K9]. rewrite Hf in K8.
  assert (data s1 f = data s f) as Ed by (unfold value in K9; rewrite K8, Hf in K9; cbn in K9; by injection K9).
  destruct (split_store s1 id new f g n K1 K8 K5 Hne ltac:(by intros Hin; apply Hid, K4) K3 (Hc K6) ltac:(lia) ltac:(lia))
    as (S1 & S2 & S3 & S4). rewrite Ed in *.
  eexists (Some new), _. split; [reflexivity|]. split; [exact S1|]. split; [exact S2|]. split; [by intros Hin; apply Hid, K4|].
  split; [|split; [exact S3|split; [exact K3|done]]]. intros j Hj Hp Ht. split; [|by intros Hin; apply Hp, K4].
  rewrite S4; [by apply K7|set_solver|]. intros ->. destruct K2 as [K2|K2]; [done|]. rewrite K2 in Hj. by destruct Hj.
Qed.

(** ** Any sequence of calls *)

Inductive pool_op :=
| Receive (StreamID Offset : Z) (Fin DataLenPresent : bool) (bytes : list Z) (choice : option nat)
| Split (id : nat) (maxSize : Z) (choice : option nat)
| PutBack (id : nat).

Definition run_pool (op : pool_op) (s : pool_store) : option pool_store :=
  match op with
  | Receive StreamID Offset Fin DataLenPresent bytes choice => Some (snd (receive_frame StreamID Offset Fin DataLenPresent bytes choice s))
  | Split id maxSize choice => '(_, s) ← MaybeSplitOffFrame id maxSize choice s; Some s
  | PutBack id => putStreamFrame id s
  end.

(** The callers use a frame until they put it back, and split frames that fit a packet. *)
Definition held (s : pool_store) (id : nat) (f : stream_object) : Prop := objects s !! id = Some f /\ id ∉ pooled s.
Definition pool_allowed (s : pool_store) (op : pool_op) : Prop :=
  match op with
  | Receive _ _ _ _ _ _ => True
  | Split id maxSize _ => exists f, held s id f /\ is_varint (sf_StreamID f) /\ 0 <= sf_Offset f <= MaxByteCount
      /\ sf_len f <= MaxPacketBufferSize /\ 0 <= maxSize <= 2 ^ 60
  | PutBack id => exists f, held s id f
  end.
Definition operand (op : pool_op) : list nat :=
  match op with
  | Receive _ _ _ _ _ _ => []
  | Split id _ _ | PutBack id => [id]
  end.

Inductive pool_reaches : pool_store -> Prop :=
| pool_start : pool_reaches empty_store
| pool_next s op s' : pool_reaches s -> pool_allowed s op -> run_pool op s = Some s' -> pool_reaches s'.

Lemma run_pool_ok s op : store_ok s -> pool_allowed s op -> exists s', run_pool op s = Some s' /\ store_ok s' /\ others_kept s s' (operand op).
Proof.
  intros Hs Ha. destruct op as [StreamID Offset Fin present bytes choice|id maxSize choice|id]; cbn [run_pool operand].
  - pose proof (receive_frame_ok StreamID Offset Fin present bytes choice s Hs) as Hr. destruct (receive_frame _ _ _ _ _ _ s) as [r s'].
    destruct Hr as (H1 & H2 & _). by exists s'.
  - destruct Ha as (f & [Hf Hid] & Hv & Ho & Hl & Hm). pose proof (split_refines id f maxSize choice s Hs Hf Hid) as Hr.
    pose proof (stream_split (sf_StreamID f) (sf_Offset f) (data s f) (sf_Fin f) (sf_DataLenPresent f) maxSize Hv Ho) as Hsp.
    rewrite (len_data s id f Hs Hf) in Hsp. specialize (Hsp Hl Hm). unfold split_outcome in Hsp.
    destruct (stream_MaybeSplitOffFrame _ _ _ _ _ maxSize) as [[[part required] rest]|]; [|done].
    destruct Hr as (new & s' & -> & H1 & _ & _ & H2 & _). by exists s'.
  - destruct Ha as (f & Hf & Hid). by apply (put_ok id s f).
Qed.

(** Whatever frames are received, split and put back in whatever order: no call
panics, no two frames share a buffer, and no call changes a frame that somebody
else holds. *)
Theorem stream_pool_safe s op : pool_reaches s -> pool_allowed s op ->
  store_ok s /\ exists s', run_pool op s = Some s' /\ others_kept s s' (operand op).
Proof.
  intros Hr Ha. assert (store_ok s) as Hs.
  { clear Ha op. induction Hr as [|s op s' _ IH Ha Hrun]; [apply empty_store_ok|].
    destruct (run_pool_ok s op IH Ha) as (s2 & E & Hok & _). rewrite E in Hrun. by injection Hrun as <-. }
  split; [done|]. destruct (run_pool_ok s op Hs Ha) as (s' & E & _ & Hk). by exists s'.
Qed.

(** A received frame of 200 bytes is split, the parts go back to the pool and are
used again. *)
Example pool_sample :
  let s1 := snd (receive_frame 4 0 true true (replicate 200 7) None empty_store) in
  match MaybeSplitOffFrame 0 100 None s1 with
  | Some (Some 1%nat, true, s2) =>
    value s2 1 = Some (StreamFrame 4 0 (replicate 96 7) false true) /\ value s2 0 = Some (StreamFrame 4 96 (replicate 104 7) true true)
    /\ match putStreamFrame 1 s2 with
       | Some s3 => fst (GetStreamFrame (Some 0%nat) s3) = 1%nat /\ fst (GetStreamFrame None s3) = 2%nat
       | None => False
       end
  | _ => False
  end.
Proof. vm_compute. repeat split. Qed.
