(* ===== verification/AckFrames.v ===== *)
(** * ACK frames

[ack_frame.go], [ack_range.go] and [FrameParser.ParseAckFrame] of
[third_party/quic-go/internal/wire]: the ranges of acknowledged packets, their
encoding and its limits, the parser with its one reused frame, and the search for a
packet number.  An index out of range, and a varint that is too large, panic:
[None]. *)

From stdpp Require Import base list numbers.
From Stdlib Require Import ZArith Lia.
From S2P Require Import Prelude.
From S2P Require Import Quicvarint.
From S2P Require Import Frames.

Local Open Scope Z_scope.

(** ** Data *)

Record AckRange := {
  Smallest : Z;
  Largest : Z;
}.
Definition AckRange_Len (r : AckRange) : Z := Largest r - Smallest r + 1.

(** The highest range goes first. *)
Record AckFrame := {
  AckRanges : list AckRange;
  DelayTime : Z;
  ECT0 : Z;
  ECT1 : Z;
  ECNCE : Z;
}.

Definition MaxNumAckRanges : Z := 64.
Definition AckDelayExponent : Z := 3.
Definition DefaultAckDelayExponent : Z := 3.

Definition with_ranges (f : AckFrame) (rs : list AckRange) : AckFrame :=
  {| AckRanges := rs; DelayTime := DelayTime f; ECT0 := ECT0 f; ECT1 := ECT1 f; ECNCE := ECNCE f |}.

Definition ack_Reset (f : AckFrame) : AckFrame :=
  {| AckRanges := []; DelayTime := 0; ECT0 := 0; ECT1 := 0; ECNCE := 0 |}.

Definition HasMissingRanges (f : AckFrame) : bool := len (AckRanges f) >? 1.
Definition LargestAcked (f : AckFrame) : option Z := r ← head (AckRanges f); Some (Largest r).
Definition LowestAcked (f : AckFrame) : option Z := r ← list.last (AckRanges f); Some (Smallest r).

(** ** Validity *)

Fixpoint ranges_descend (last_ : AckRange) (rs : list AckRange) : bool :=
  match rs with
  | [] => true
  | r :: rs =>
    if Smallest last_ <=? Smallest r then false
    else if Smallest last_ <=? Largest r + 1 then false
    else ranges_descend r rs
  end.

Definition validateAckRanges (f : AckFrame) : bool :=
  match AckRanges f with
  | [] => false
  | r :: rs =>
    if negb (forallb (fun r => negb (Smallest r >? Largest r)) (r :: rs)) then false
    else ranges_descend r rs
  end.

(** ** Searching *)

(** [sort.Search]: the loop keeps [i <= j]; every round halves the interval, so
the length bounds them. *)
Fixpoint search_loop (fuel : nat) (f : nat -> bool) (i j : nat) : nat :=
  match fuel with
  | O => i
  | S fuel =>
    if (i <? j)%nat then
      let h := Nat.div2 (i + j) in
      if f h then search_loop fuel f i h else search_loop fuel f (S h) j
    else i
  end.
Definition sort_Search (n : nat) (f : nat -> bool) : nat := search_loop n f 0 n.

Definition AcksPacket (f : AckFrame) (p : Z) : option bool :=
  lowest ← LowestAcked f;
  largest ← LargestAcked f;
  if (p <? lowest) || (p >? largest) then Some false
  else
    let i := sort_Search (length (AckRanges f))
               (fun i => match AckRanges f !! i with Some r => p >=? Smallest r | None => false end) in
    r ← AckRanges f !! i;
    Some (p <=? Largest r).

(** ** Encoding *)

Definition encodeAckDelay (delay : Z) : Z := u64 (Z.quot delay (1000 * 2 ^ AckDelayExponent)).

Definition encodeAckRange (rs : list AckRange) (i : nat) : option (Z * Z) :=
  match i with
  | O => r ← rs !! 0%nat; Some (0, u64 (Largest r - Smallest r))
  | S j =>
    prev ← rs !! j;
    r ← rs !! i;
    Some (u64 (Smallest prev - Largest r - 2), u64 (Largest r - Smallest r))
  end.

Definition hasECN (f : AckFrame) : bool := (ECT0 f >? 0) || (ECT1 f >? 0) || (ECNCE f >? 0).
Definition num_ranges (f : AckFrame) : nat := Nat.min (length (AckRanges f)) (Z.to_nat MaxNumAckRanges).

Fixpoint append_ranges (rs : list AckRange) (is_ : list nat) (b : list Z) : option (list Z) :=
  match is_ with
  | [] => Some b
  | i :: is_ =>
    '(gap, l) ← encodeAckRange rs i;
    b ← Quicvarint.Append b gap;
    b ← Quicvarint.Append b l;
    append_ranges rs is_ b
  end.

Definition ack_Append (f : AckFrame) (b : list Z) : option (list Z) :=
  let b := b ++ [if hasECN f then FrameTypeAckECN else FrameTypeAck] in
  largest ← LargestAcked f;
  b ← Quicvarint.Append b (u64 largest);
  b ← Quicvarint.Append b (encodeAckDelay (DelayTime f));
  let numRanges := num_ranges f in
  b ← Quicvarint.Append b (u64 (Z.of_nat numRanges - 1));
  '(_, firstRange) ← encodeAckRange (AckRanges f) 0;
  b ← Quicvarint.Append b firstRange;
  b ← append_ranges (AckRanges f) (seq 1 (numRanges - 1)) b;
  if hasECN f then
    b ← Quicvarint.Append b (ECT0 f);
    b ← Quicvarint.Append b (ECT1 f);
    Quicvarint.Append b (ECNCE f)
  else Some b.

(** The bytes of range [i]. *)
Definition range_len (rs : list AckRange) (i : nat) : option Z :=
  '(gap, l) ← encodeAckRange rs i; x ← Len gap; y ← Len l; Some (x + y).
Definition ecn_len (f : AckFrame) : option Z :=
  if hasECN f then x ← Len (ECT0 f); y ← Len (ECT1 f); z ← Len (ECNCE f); Some (x + y + z) else Some 0.

Fixpoint sum_ranges (rs : list AckRange) (is_ : list nat) (length : Z) : option Z :=
  match is_ with
  | [] => Some length
  | i :: is_ => l ← range_len rs i; sum_ranges rs is_ (length + l)
  end.

Definition ack_Length (f : AckFrame) : option Z :=
  first ← AckRanges f !! 0%nat;
  x ← Len (u64 (Largest first)); y ← Len (encodeAckDelay (DelayTime f));
  z ← Len (u64 (Largest first - Smallest first));
  length ← sum_ranges (AckRanges f) (seq 1 (num_ranges f - 1)) (1 + x + y + 1 + z);
  e ← ecn_len f;
  Some (length + e).

(** The slow path of [numEncodableAckRanges]: the first range that does not fit. *)
Fixpoint ranges_fitting (rs : list AckRange) (is_ : list nat) (maxSize length : Z) (numRanges : nat) : option nat :=
  match is_ with
  | [] => Some numRanges
  | i :: is_ =>
    l ← range_len rs i;
    if length + l >? maxSize then Some i
    else ranges_fitting rs is_ maxSize (length + l) numRanges
  end.

Definition numEncodableAckRanges (f : AckFrame) (maxSize : Z) : option nat :=
  let length := 1 + 8 + 8 + 1 + 8 in
  let length := if hasECN f then length + (8 + 8 + 8) else length in
  let numRanges := num_ranges f in
  let length := length + 2 * 8 * (Z.of_nat numRanges - 1) in
  if length <=? maxSize then Some numRanges
  else
    largest ← LargestAcked f;
    x ← Len (u64 largest); y ← Len (encodeAckDelay (DelayTime f));
    '(_, firstRange) ← encodeAckRange (AckRanges f) 0;
    z ← Len firstRange;
    e ← ecn_len f;
    ranges_fitting (AckRanges f) (seq 1 (numRanges - 1)) maxSize (1 + x + y + 1 + z + e) numRanges.

Definition Truncate (f : AckFrame) (maxSize : Z) : option AckFrame :=
  n ← numEncodableAckRanges f maxSize; Some (with_ranges f (take n (AckRanges f))).

(** ** Parsing *)

(** [time.Duration(delay*1<<ackDelayExponent) * time.Microsecond], cut if it
became negative. *)
Definition ack_delay (delay exponent : Z) : Z :=
  let d := i64 (i64 (u64 (Z.shiftl delay exponent)) * 1000) in
  if d <? 0 then 2 ^ 63 - 1 else d.

(** The loop over the other ranges appends to the frame as it goes; a round
consumes at least two bytes. *)
Fixpoint ack_loop (fuel : nat) (numBlocks smallest : Z) (b : list Z) (rs : list AckRange)
  : list AckRange * result frame_error (list Z) :=
  if numBlocks =? 0 then (rs, Ok b)
  else match fuel with
  | O => (rs, Err OutOfFuel)
  | S fuel =>
    match varint b with
    | Err e => (rs, Err e)
    | Ok (gap, b) =>
      if smallest <? gap + 2 then (rs, Err InvalidAckRanges)
      else
        let largest := smallest - gap - 2 in
        match varint b with
        | Err e => (rs, Err e)
        | Ok (ackBlock, b) =>
          if ackBlock >? largest then (rs, Err InvalidAckRanges)
          else
            let smallest := largest - ackBlock in
            ack_loop fuel (numBlocks - 1) smallest b (rs ++ [{| Smallest := smallest; Largest := largest |}])
        end
    end
  end.

Definition set_delay (f : AckFrame) (d : Z) : AckFrame :=
  {| AckRanges := AckRanges f; DelayTime := d; ECT0 := ECT0 f; ECT1 := ECT1 f; ECNCE := ECNCE f |}.
Definition set_ecn (f : AckFrame) (a b c : Z) : AckFrame :=
  {| AckRanges := AckRanges f; DelayTime := DelayTime f; ECT0 := a; ECT1 := b; ECNCE := c |}.

(** The three ECN counts; a frame cut short keeps those it had. *)
Definition parse_ecn (f : AckFrame) (b : list Z) : AckFrame * result frame_error (list Z) :=
  match varint b with
  | Err e => (f, Err e)
  | Ok (ect0, b) =>
    let f := set_ecn f ect0 (ECT1 f) (ECNCE f) in
    match varint b with
    | Err e => (f, Err e)
    | Ok (ect1, b) =>
      let f := set_ecn f ect0 ect1 (ECNCE f) in
      match varint b with
      | Err e => (f, Err e)
      | Ok (ecnce, b) => (set_ecn f ect0 ect1 ecnce, Ok b)
      end
    end
  end.

(** [parseAckFrame] fills the frame it is given; on success the bytes consumed. *)
Definition parseAckFrame (f : AckFrame) (b : list Z) (typ exponent : Z) : AckFrame * result frame_error Z :=
  let start := b in
  match varint b with
  | Err e => (f, Err e)
  | Ok (largestAcked, b) =>
    match varint b with
    | Err e => (f, Err e)
    | Ok (delay, b) =>
      let f := set_delay f (ack_delay delay exponent) in
      match varint b with
      | Err e => (f, Err e)
      | Ok (numBlocks, b) =>
        match varint b with
        | Err e => (f, Err e)
        | Ok (ackBlock, b) =>
          if ackBlock >? largestAcked then (f, Err InvalidAckRanges)
          else
            let smallest := largestAcked - ackBlock in
            let rs := AckRanges f ++ [{| Smallest := smallest; Largest := largestAcked |}] in
            match ack_loop (S (length b)) numBlocks smallest b rs with
            | (rs, Err e) => (with_ranges f rs, Err e)
            | (rs, Ok b) =>
              let f := with_ranges f rs in
              if negb (validateAckRanges f) then (f, Err InvalidAckRanges)
              else if typ =? FrameTypeAckECN then
                match parse_ecn f b with
                | (f, Err e) => (f, Err e)
                | (f, Ok b) => (f, Ok (len start - len b))
                end
              else (f, Ok (len start - len b))
            end
        end
      end
    end
  end.

(** The parser and the ACK frame it uses over and over. *)
Record AckParser := {
  ap_parser : FrameParser;
  ap_ackFrame : AckFrame;
}.

(** [FrameParser.ParseAckFrame]: what it returns is the parser's own frame. *)
Definition ParseAckFrame (p : AckParser) (typ : Z) (data : list Z) (level : EncryptionLevel)
  : AckParser * result frame_error (AckFrame * Z) :=
  let exponent := match level with
                  | Encryption1RTT => ackDelayExponent (ap_parser p)
                  | _ => DefaultAckDelayExponent
                  end in
  match parseAckFrame (ack_Reset (ap_ackFrame p)) data typ exponent with
  | (f, Err e) => ({| ap_parser := ap_parser p; ap_ackFrame := f |}, Err e)
  | (f, Ok n) => ({| ap_parser := ap_parser p; ap_ackFrame := f |}, Ok (f, n))
  end.

Definition sample_ack : AckFrame :=
  {| AckRanges := [{| Smallest := 90; Largest := 100 |}; {| Smallest := 5; Largest := 70 |}];
     DelayTime := 16000; ECT0 := 1; ECT1 := 0; ECNCE := 2 |}.
Example ack_sample :
  match ack_Append sample_ack [] with
  | Some (t :: b) =>
    t = 3 /\ ack_Length sample_ack = Some (1 + len b)
    /\ parseAckFrame (ack_Reset sample_ack) (b ++ [7]) t 3 = (sample_ack, Ok (len b))
  | _ => False
  end
  /\ AcksPacket sample_ack 70 = Some true /\ AcksPacket sample_ack 71 = Some false.
Proof. vm_compute. auto. Qed.

(** ** Ordered ranges *)

(** Each range lies, with a gap, below [s] and below the ranges before it. *)
Fixpoint chain (s : Z) (rs : list AckRange) : Prop :=
  match rs with
  | [] => True
  | r :: rs => Smallest r <= Largest r /\ Largest r + 1 < s /\ chain (Smallest r) rs
  end.
Definition valid_ranges (rs : list AckRange) : Prop :=
  match rs with
  | [] => False
  | r :: rs => Smallest r <= Largest r /\ chain (Smallest r) rs
  end.

Lemma ranges_descend_chain r rs : forallb (fun r => negb (Smallest r >? Largest r)) rs = true ->
  ranges_descend r rs = true <-> chain (Smallest r) rs.
Proof.
  revert r. induction rs as [|x rs IH]; intros r Hv; [done|]. cbn in *. apply andb_true_iff in Hv as [Hx Hv]. breflect.
  destruct (Smallest r <=? Smallest x) eqn:E1; breflect; [split; [done|lia]|].
  destruct (Smallest r <=? Largest x + 1) eqn:E2; breflect; [split; [done|lia]|]. rewrite IH by done.
  split; [intros H; split_and!; [lia..|done]|by intros (_ & _ & H)].
Qed.

Lemma chain_valid s rs : chain s rs -> forallb (fun r => negb (Smallest r >? Largest r)) rs = true.
Proof.
  revert s. induction rs as [|r rs IH]; intros s; [done|]. intros (H1 & _ & H2). cbn. rewrite (IH _ H2), andb_true_r.
  rewrite negb_true_iff, Z.gtb_ltb, Z.ltb_ge. done.
Qed.

Lemma validate_valid f : validateAckRanges f = true <-> valid_ranges (AckRanges f).
Proof.
  unfold validateAckRanges, valid_ranges. destruct (AckRanges f) as [|r rs]; [done|]. cbn [forallb].
  destruct (negb (Smallest r >? Largest r)) eqn:E1; cbn [andb]; breflect; [|split; [done|lia]].
  destruct (forallb _ rs) eqn:E2; cbn [negb].
  - rewrite ranges_descend_chain by done. split; [by split|by intros [_ ?]].
  - split; [done|]. intros [_ H]. apply chain_valid in H. congruence.
Qed.

Lemma chain_lookup s rs i r : chain s rs -> rs !! i = Some r -> Smallest r <= Largest r /\ Largest r + 1 < s.
Proof.
  revert s i. induction rs as [|x rs IH]; intros s i; [done|]. intros (H1 & H2 & H3). destruct i as [|i]; [intros [= ->]; done|].
  intros Hr. destruct (IH _ _ H3 Hr). lia.
Qed.

Lemma valid_lookup rs i r : valid_ranges rs -> rs !! i = Some r -> Smallest r <= Largest r.
Proof.
  destruct rs as [|x rs]; [done|]. intros [H1 H2]. destruct i as [|i]; [by intros [= ->]|]. intros Hr. by eapply chain_lookup.
Qed.

Lemma valid_tail r rs : valid_ranges (r :: rs) -> rs <> [] -> valid_ranges rs.
Proof. destruct rs as [|x rs]; [done|]. by intros (_ & H1 & _ & H2) _. Qed.

(** A later range is below an earlier one. *)
Lemma valid_below rs i j a b : valid_ranges rs -> rs !! i = Some a -> rs !! j = Some b -> (i < j)%nat -> Largest b + 1 < Smallest a.
Proof.
  revert i j. induction rs as [|r rs IH]; intros i j Hv; [done|]. intros Hi Hj Hij.
  destruct j as [|j]; [lia|]. cbn in Hj. destruct i as [|i].
  - injection Hi as ->. destruct Hv as [_ Hc]. by destruct (chain_lookup _ _ _ _ Hc Hj).
  - apply (IH i j); [|done..|lia]. apply (valid_tail r); [done|]. by intros ->.
Qed.

(** ** The search *)

Lemma search_loop_spec fuel f n i j : (j - i <= fuel)%nat -> (i <= j <= n)%nat ->
  (forall a b, (a <= b < n)%nat -> f a = true -> f b = true) ->
  (forall k, (k < i)%nat -> f k = false) -> ((j < n)%nat -> f j = true) ->
  let r := search_loop fuel f i j in (r <= n)%nat /\ (forall k, (k < r)%nat -> f k = false) /\ ((r < n)%nat -> f r = true).
Proof.
  intros Hf Hij Hm. revert i j Hf Hij. induction fuel as [|fuel IH]; intros i j Hf Hij Hlo Hhi; cbn [search_loop]; cbv zeta.
  { assert (i = j) as -> by lia. split_and!; [lia|done|done]. }
  destruct (Nat.ltb_spec i j); [|assert (i = j) as -> by lia; split_and!; [lia|done|done]].
  assert (i <= Nat.div2 (i + j) < j)%nat as Hh
    by (pose proof (Nat.div2_odd (i + j)) as Hd; destruct (Nat.odd (i + j)); cbn [Nat.b2n] in Hd; lia).
  destruct (f (Nat.div2 (i + j))) eqn:E; apply IH; try lia; try done.
  intros k Hk. destruct (f k) eqn:Ek; [|done]. rewrite (Hm k (Nat.div2 (i + j))) in E; [done|lia|done].
Qed.

(** Searching for a packet number finds the range that holds it. *)
Lemma AcksPacket_correct f p : validateAckRanges f = true ->
  AcksPacket f p = Some (existsb (fun r => (Smallest r <=? p) && (p <=? Largest r)) (AckRanges f)).
Proof.
  rewrite validate_valid. set (rs := AckRanges f). intros Hv.
  assert (forall i r, rs !! i = Some r -> Smallest r <= p <= Largest r ->
    existsb (fun r => (Smallest r <=? p) && (p <=? Largest r)) rs = true) as Hyes.
  { intros i r Hi Hp. apply existsb_exists. exists r. split; [apply list_elem_of_In; by eapply list_elem_of_lookup_2|].
    apply andb_true_iff. lia. }
  assert ((forall i r, rs !! i = Some r -> ~ Smallest r <= p <= Largest r) ->
    existsb (fun r => (Smallest r <=? p) && (p <=? Largest r)) rs = false) as Hno.
  { intros H. destruct (existsb _ rs) eqn:E; [|done]. apply existsb_exists in E as (r & Hr & Hp). breflect.
    apply list_elem_of_In, list_elem_of_lookup in Hr as [i Hi]. by destruct (H i r Hi). }
  destruct rs as [|r0 rest] eqn:Ers; [done|]. rewrite <- Ers in *.
  assert (exists z, list.last rs = Some z /\ rs !! (length rs - 1)%nat = Some z) as (z & Hz & Hz').
  { rewrite last_lookup, <- Nat.sub_1_r, Ers. cbn. rewrite Nat.sub_0_r.
    destruct (lookup_lt_is_Some_2 (r0 :: rest) (length rest)) as [z ?]; [cbn; lia|]. eauto. }
  assert (rs !! 0%nat = Some r0) as H0 by by rewrite Ers.
  unfold AcksPacket, LowestAcked, LargestAcked. fold rs. rewrite Hz, Ers. cbn [mbind option_bind head]. rewrite <- Ers.
  destruct (_ || _) eqn:Eo.
  - rewrite Hno; [done|]. intros i r Hi Hp. apply orb_true_iff in Eo. rewrite Z.gtb_ltb in Eo.
    assert (i < length rs)%nat by by eapply lookup_lt_Some.
    destruct Eo as [Eo|Eo]; breflect.
    + destruct (decide (i = length rs - 1)%nat) as [->|]; [rewrite Hi in Hz'; simplify_eq; lia|].
      pose proof (valid_below _ _ _ _ _ Hv Hi Hz' ltac:(lia)). pose proof (valid_lookup _ _ _ Hv Hz'). lia.
    + destruct (decide (i = 0)%nat) as [->|]; [rewrite Hi in H0; simplify_eq; lia|].
      pose proof (valid_below _ _ _ _ _ Hv H0 Hi ltac:(lia)). pose proof (valid_lookup _ _ _ Hv H0). lia.
  - apply orb_false_iff in Eo as [Eo1 Eo2]. breflect.
    cbv zeta. set (g := fun i => match rs !! i with Some r => p >=? Smallest r | None => false end). destruct (search_loop_spec (length rs) g (length rs) 0 (length rs)) as (S1 & S2 & S3); try lia; try done.
    { unfold g. intros a b Hab. destruct (rs !! a) as [x|] eqn:Ea; [|done]. destruct (lookup_lt_is_Some_2 rs b) as [y Ey]; [lia|].
      rewrite Ey, !Z.geb_leb, !Z.leb_le. intros Hx. destruct (decide (a = b)) as [->|]; [congruence|].
      pose proof (valid_below _ _ _ _ _ Hv Ea Ey ltac:(lia)). pose proof (valid_lookup _ _ _ Hv Ey). lia. }
    fold (sort_Search (length rs) g) in S1, S2, S3. set (i := sort_Search (length rs) g) in *.
    assert (i < length rs)%nat as Hi.
    { destruct (decide (i < length rs)%nat) as [|Hge]; [done|]. exfalso.
      assert (g (length rs - 1)%nat = false) as Hg by (apply S2; rewrite Ers in *; cbn in *; lia).
      unfold g in Hg. rewrite Hz', Z.geb_leb in Hg. breflect. lia. }
    specialize (S3 Hi). unfold g in S3. destruct (rs !! i) as [r|] eqn:Er; [|done]. cbn. rewrite Z.geb_leb in S3. breflect. f_equal.
    destruct (p <=? Largest r) eqn:El; breflect; symmetry; [by apply (Hyes i r)|]. apply Hno. intros j x Hj Hp.
    destruct (Nat.lt_trichotomy i j) as [Hlt|[<-|Hgt]].
    + pose proof (valid_below _ _ _ _ _ Hv Er Hj Hlt). lia.
    + rewrite Er in Hj. simplify_eq. lia.
    + specialize (S2 j Hgt). unfold g in S2. rewrite Hj, Z.geb_leb in S2. breflect. lia.
Qed.

(** ** Encoding *)

(** The ranges below [s] on the wire. *)
Fixpoint enc_ranges (s : Z) (rs : list AckRange) : list Z :=
  match rs with
  | [] => []
  | r :: rs => venc (s - Largest r - 2) ++ venc (Largest r - Smallest r) ++ enc_ranges (Smallest r) rs
  end.

(** Packet numbers are those of QUIC. *)
Definition numbers_ok (rs : list AckRange) : Prop := Forall (fun r => is_varint (Smallest r) /\ is_varint (Largest r)) rs.

Lemma u64_varint x : is_varint x -> u64 x = x.
Proof. intros. apply u64_small. unfold is_varint, is_u64, maxVarInt8 in *. lia. Qed.

Lemma encodeAckRange_next pre r x rs : numbers_ok (pre ++ r :: x :: rs) -> chain (Smallest r) (x :: rs) ->
  encodeAckRange (pre ++ r :: x :: rs) (S (length pre)) = Some (Smallest r - Largest x - 2, Largest x - Smallest x)
  /\ is_varint (Smallest r - Largest x - 2) /\ is_varint (Largest x - Smallest x).
Proof.
  intros Hn (H1 & H2 & _). apply Forall_app in Hn as [_ Hn]. apply Forall_cons_iff in Hn as [[] Hn]. apply Forall_cons_iff in Hn as [[] _].
  assert (is_varint (Smallest r - Largest x - 2)) by (unfold is_varint, maxVarInt8 in *; lia).
  assert (is_varint (Largest x - Smallest x)) by (unfold is_varint, maxVarInt8 in *; lia).
  split; [|done]. cbn [encodeAckRange]. rewrite (list_lookup_middle pre (x :: rs) r (length pre)) by done.
  replace (pre ++ r :: x :: rs) with ((pre ++ [r]) ++ x :: rs) by by rewrite <- app_assoc.
  rewrite (list_lookup_middle (pre ++ [r]) rs x (S (length pre))) by (rewrite length_app; cbn; lia).
  cbn [mbind option_bind]. by rewrite !u64_varint.
Qed.

Lemma append_ranges_enc pre r rs n b : (n <= length rs)%nat -> numbers_ok (pre ++ r :: rs) -> chain (Smallest r) rs ->
  append_ranges (pre ++ r :: rs) (seq (S (length pre)) n) b = Some (b ++ enc_ranges (Smallest r) (take n rs)).
Proof.
  revert pre r rs b. induction n as [|n IH]; intros pre r rs b Hn Hok Hc; [cbn; by rewrite app_nil_r|].
  destruct rs as [|x rs]; [cbn in Hn; lia|]. cbn [seq append_ranges take].
  destruct (encodeAckRange_next pre r x rs Hok Hc) as (-> & V1 & V2). cbn [mbind option_bind].
  do 2 (rewrite Append_venc by done; cbn [mbind option_bind]).
  replace (pre ++ r :: x :: rs) with ((pre ++ [r]) ++ x :: rs) in * by by rewrite <- app_assoc.
  replace (S (S (length pre))) with (S (length (pre ++ [r]))) by (rewrite length_app; cbn; lia).
  rewrite IH; [|cbn in Hn; lia|done|apply Hc]. cbn [enc_ranges]. by rewrite <- !app_assoc.
Qed.

Lemma sum_ranges_enc pre r rs n z : (n <= length rs)%nat -> numbers_ok (pre ++ r :: rs) -> chain (Smallest r) rs ->
  sum_ranges (pre ++ r :: rs) (seq (S (length pre)) n) z = Some (z + len (enc_ranges (Smallest r) (take n rs))).
Proof.
  revert pre r rs z. induction n as [|n IH]; intros pre r rs z Hn Hok Hc; [rewrite take_0; cbn [seq sum_ranges enc_ranges]; change (len (@nil Z)) with 0; f_equal; lia|].
  destruct rs as [|x rs]; [cbn in Hn; lia|]. cbn [seq sum_ranges take]. unfold range_len.
  destruct (encodeAckRange_next pre r x rs Hok Hc) as (-> & V1 & V2). cbn [mbind option_bind].
  do 2 (rewrite Len_vlen by done; cbn [mbind option_bind]).
  replace (pre ++ r :: x :: rs) with ((pre ++ [r]) ++ x :: rs) in * by by rewrite <- app_assoc.
  replace (S (S (length pre))) with (S (length (pre ++ [r]))) by (rewrite length_app; cbn; lia).
  rewrite IH; [|cbn in Hn; lia|done|apply Hc]. cbn [enc_ranges]. rewrite !len_app. unfold vlen. f_equal. lia.
Qed.

Lemma enc_ranges_bytes s rs : is_bytes (enc_ranges s rs).
Proof. revert s. induction rs as [|r rs IH]; intros s; cbn; [constructor|]. repeat (apply Forall_app; split); try apply venc_bytes. apply IH. Qed.

(** Parsing gives the ranges back. *)
Lemma ack_loop_enc fuel s rs suffix acc : (length rs <= fuel)%nat -> s <= maxVarInt8 -> numbers_ok rs -> chain s rs ->
  is_bytes suffix -> ack_loop fuel (len rs) s (enc_ranges s rs ++ suffix) acc = (acc ++ rs, Ok suffix).
Proof.
  intros Hf Hs Hn Hc Hb. revert fuel s acc Hf Hs Hc. induction Hn as [|r rs [H1 H2] _ IH]; intros fuel s acc Hf Hs Hc.
  { destruct fuel; cbn; by rewrite app_nil_r. }
  destruct fuel as [|fuel]; [cbn in Hf; lia|]. destruct Hc as (C1 & C2 & C3). unfold is_varint in H1, H2. rewrite len_cons. pose proof (len_nonneg rs).
  cbn [ack_loop]. rewrite (proj2 (Z.eqb_neq _ _)) by lia. cbn [enc_ranges]. rewrite <- !app_assoc.
  assert (is_bytes (enc_ranges (Smallest r) rs ++ suffix)) as Hb' by (apply Forall_app; split; [apply enc_ranges_bytes|done]).
  rewrite varint_venc; [|unfold is_varint, maxVarInt8 in *; lia|apply Forall_app; split; [apply venc_bytes|done]].
  rewrite (proj2 (Z.ltb_ge _ _)) by lia. rewrite varint_venc; [|unfold is_varint, maxVarInt8 in *; lia|done].
  replace (Largest r - Smallest r >? s - (s - Largest r - 2) - 2) with false by (symmetry; rewrite Z.gtb_ltb, Z.ltb_ge; lia).
  replace (1 + len rs - 1) with (len rs) by lia. cbv zeta.
  replace (s - (s - Largest r - 2) - 2 - (Largest r - Smallest r)) with (Smallest r) by lia.
  replace (s - (s - Largest r - 2) - 2) with (Largest r) by lia.
  rewrite IH; [|cbn in Hf; lia|lia|done]. rewrite <- app_assoc. by destruct r.
Qed.

(** Frames that QUIC builds. *)
Record ack_wf (f : AckFrame) : Prop := {
  wf_ranges : valid_ranges (AckRanges f);
  wf_numbers : numbers_ok (AckRanges f);
  wf_delay : 0 <= DelayTime f < 2 ^ 63;
  wf_ecn : is_varint (ECT0 f) /\ is_varint (ECT1 f) /\ is_varint (ECNCE f);
}.

Definition ack_type (f : AckFrame) : Z := if hasECN f then FrameTypeAckECN else FrameTypeAck.
Definition ecn_bytes (f : AckFrame) : list Z :=
  if hasECN f then venc (ECT0 f) ++ venc (ECT1 f) ++ venc (ECNCE f) else [].

(** What follows the type, for the ranges [r :: rs]. *)
Definition ack_body (f : AckFrame) (r : AckRange) (rs : list AckRange) : list Z :=
  venc (Largest r) ++ venc (DelayTime f / 8000) ++ venc (len rs) ++ venc (Largest r - Smallest r)
  ++ enc_ranges (Smallest r) rs ++ ecn_bytes f.

(** What the peer learns: at most 64 ranges, and the delay in units of 8 us. *)
Definition received_ack (f : AckFrame) : AckFrame :=
  {| AckRanges := take 64 (AckRanges f); DelayTime := DelayTime f / 8000 * 8000;
     ECT0 := ECT0 f; ECT1 := ECT1 f; ECNCE := ECNCE f |}.

Lemma encodeAckDelay_div d : 0 <= d < 2 ^ 63 -> encodeAckDelay d = d / 8000 /\ is_varint (d / 8000).
Proof.
  intros Hd. unfold encodeAckDelay. change (1000 * 2 ^ AckDelayExponent) with 8000. rewrite Z.quot_div_nonneg by lia.
  assert (is_varint (d / 8000)) as Hv by (unfold is_varint, maxVarInt8; split; [apply Z.div_pos; lia|apply Z.lt_succ_r, Z.div_lt_upper_bound; lia]).
  split; [by apply u64_varint|done].
Qed.

Lemma ack_delay_back d : 0 <= d < 2 ^ 63 -> ack_delay (d / 8000) 3 = d / 8000 * 8000.
Proof.
  intros Hd. unfold ack_delay. rewrite Z.shiftl_mul_pow2 by lia. change (2 ^ 3) with 8.
  pose proof (Z.mul_div_le d 8000 ltac:(lia)). pose proof (Z.div_pos d 8000 ltac:(lia) ltac:(lia)).
  assert (u64 (d / 8000 * 8) = d / 8000 * 8) as -> by (apply u64_small; unfold is_u64; lia).
  assert (forall x, 0 <= x < 2 ^ 63 -> i64 x = x) as Hi.
  { intros x Hx. unfold i64. rewrite (Z.mod_small (x + 2 ^ 63)) by lia. lia. }
  rewrite !Hi by (rewrite ?Hi; lia). rewrite (proj2 (Z.ltb_ge _ _)) by lia. lia.
Qed.

Lemma num_ranges_cons f r rs : AckRanges f = r :: rs -> num_ranges f = S (Nat.min (length rs) 63).
Proof. intros E. unfold num_ranges. rewrite E. change (Z.to_nat MaxNumAckRanges) with 64%nat. cbn [length]. lia. Qed.

Lemma take_min {A} (l : list A) n : take (Nat.min (length l) n) l = take n l.
Proof. destruct (decide (length l <= n)%nat); [rewrite Nat.min_l by lia; by rewrite !take_ge by lia|by rewrite Nat.min_r by lia]. Qed.

Lemma hasECN_none f : ack_wf f -> hasECN f = false -> ECT0 f = 0 /\ ECT1 f = 0 /\ ECNCE f = 0.
Proof.
  intros [_ _ _ (E0 & E1 & E2)] H. unfold hasECN in H. apply orb_false_iff in H as [[H0 H1]%orb_false_iff H2].
  unfold is_varint in *. breflect. lia.
Qed.

Section Encode.
  Context (f : AckFrame) (r : AckRange) (rs : list AckRange).
  Context (Hwf : ack_wf f) (Hrs : AckRanges f = r :: rs).

Lemma first_range : is_varint (Smallest r) /\ is_varint (Largest r) /\ is_varint (Largest r - Smallest r)
  /\ chain (Smallest r) rs /\ numbers_ok (r :: rs).
Proof.
  destruct Hwf as [Hv Hn _ _]. rewrite Hrs in *. destruct Hv as [H1 H2]. pose proof Hn as Hn'. apply Forall_cons_iff in Hn' as [[H3 H4] _].
  split_and!; try done; unfold is_varint in *; lia.
Qed.

Lemma ack_Append_body b : ack_Append f b = Some (b ++ ack_type f :: ack_body f r (take 63 rs)).
Proof.
  destruct first_range as (V1 & V2 & V3 & Hc & Hn). destruct Hwf as [_ _ Hd (E0 & E1 & E2)].
  destruct (encodeAckDelay_div _ Hd) as [Ed Vd]. unfold ack_Append, LargestAcked. rewrite Hrs. cbn [head mbind option_bind].
  rewrite (u64_varint (Largest r)), Append_venc by done. cbn [mbind option_bind]. rewrite Ed, Append_venc by done. cbn [mbind option_bind].
  rewrite (num_ranges_cons f r rs Hrs). cbv zeta. replace (Z.of_nat (S (Nat.min (length rs) 63)) - 1) with (len (take 63 rs))
    by (unfold len; rewrite length_take; lia).
  assert (is_varint (len (take 63 rs))) as Vn by (unfold is_varint, maxVarInt8, len; rewrite length_take; lia).
  rewrite (u64_varint (len (take 63 rs))), Append_venc by done. cbn [mbind option_bind encodeAckRange lookup list_lookup].
  rewrite u64_varint, Append_venc by done. cbn [mbind option_bind]. replace (S (Nat.min (length rs) 63) - 1)%nat with (Nat.min (length rs) 63) by lia.
  rewrite (append_ranges_enc [] r rs) by (done || lia). cbn [mbind option_bind]. rewrite take_min. unfold ack_body, ecn_bytes, ack_type.
  destruct (hasECN f); [do 3 (rewrite Append_venc by done; cbn [mbind option_bind])|]; rewrite <- ?app_assoc, ?app_nil_r; done.
Qed.

Lemma len_ecn : ecn_len f = Some (len (ecn_bytes f)).
Proof.
  destruct Hwf as [_ _ _ (E0 & E1 & E2)]. unfold ecn_len, ecn_bytes. destruct (hasECN f); [|done].
  rewrite !Len_vlen by done. cbn [mbind option_bind]. rewrite !len_app. unfold vlen. f_equal. lia.
Qed.

(** The number of bytes with [n] further ranges. *)
Definition ack_size (n : nat) : Z :=
  1 + vlen (Largest r) + vlen (DelayTime f / 8000) + 1 + vlen (Largest r - Smallest r)
  + len (enc_ranges (Smallest r) (take n rs)) + len (ecn_bytes f).

Lemma ack_Length_size : ack_Length f = Some (ack_size 63).
Proof.
  destruct first_range as (V1 & V2 & V3 & Hc & Hn). destruct (encodeAckDelay_div _ (wf_delay f Hwf)) as [Ed Vd].
  unfold ack_Length. rewrite Hrs. cbn [lookup list_lookup mbind option_bind].
  rewrite !u64_varint, !Len_vlen by done. cbn [mbind option_bind]. rewrite Ed, Len_vlen by done. cbn [mbind option_bind].
  rewrite (num_ranges_cons f r rs Hrs). replace (S (Nat.min (length rs) 63) - 1)%nat with (Nat.min (length rs) 63) by lia.
  rewrite Len_vlen by done. cbn [mbind option_bind].
  rewrite (sum_ranges_enc [] r rs) by (done || lia). cbn [mbind option_bind]. rewrite len_ecn. cbn [mbind option_bind].
  unfold ack_size. by rewrite take_min.
Qed.

Lemma len_ack_body : 1 + len (ack_body f r (take 63 rs)) = ack_size 63.
Proof.
  unfold ack_body, ack_size, vlen. rewrite !len_app. rewrite (venc_small (len (take 63 rs))).
  - change (len [len (take 63 rs)]) with 1. lia.
  - unfold len. rewrite length_take. lia.
Qed.

End Encode.

(** ** Parsing *)

Lemma chain_take s rs n : chain s rs -> chain s (take n rs).
Proof.
  revert s n. induction rs as [|r rs IH]; intros s n; [by rewrite take_nil|]. destruct n as [|n]; [done|].
  intros (H1 & H2 & H3). cbn. split_and!; try done. by apply IH.
Qed.

(** A range takes between one and sixteen bytes. *)
Lemma enc_ranges_size s rs : s <= maxVarInt8 -> numbers_ok rs -> chain s rs -> len rs <= len (enc_ranges s rs) <= 16 * len rs.
Proof.
  intros Hs Hn. revert s Hs. induction Hn as [|r rs [H1 H2] _ IH]; intros s Hs; [done|]. intros (C1 & C2 & C3). cbn [enc_ranges].
  unfold is_varint in *. rewrite !len_app, len_cons. specialize (IH (Smallest r) ltac:(lia) C3).
  pose proof (vlen_range (s - Largest r - 2) ltac:(unfold is_varint; lia)) as L1.
  pose proof (vlen_range (Largest r - Smallest r) ltac:(unfold is_varint; lia)) as L2. unfold vlen in *. lia.
Qed.

Lemma parse_ack_body f r rs g suffix : ack_wf f -> AckRanges f = r :: rs -> is_bytes suffix ->
  parseAckFrame (ack_Reset g) (ack_body f r (take 63 rs) ++ suffix) (ack_type f) 3
  = (received_ack f, Ok (len (ack_body f r (take 63 rs)))).
Proof.
  intros Hwf Hrs Hb. destruct (first_range f r rs Hwf Hrs) as (V1 & V2 & V3 & Hc & Hn).
  destruct (encodeAckDelay_div _ (wf_delay f Hwf)) as [_ Vd]. pose proof (wf_ecn f Hwf) as (E0 & E1 & E2).
  set (rs' := take 63 rs). assert (is_varint (len rs')) as Vn by (unfold rs', is_varint, maxVarInt8, len; rewrite length_take; lia).
  assert (chain (Smallest r) rs') as Hc' by by apply chain_take.
  assert (numbers_ok rs') as Hn' by (apply Forall_cons_iff in Hn as [_ Hn]; by apply Forall_take).
  assert (is_bytes (ecn_bytes f)) as Hecn by (unfold ecn_bytes; destruct (hasECN f); [repeat (apply Forall_app; split); apply venc_bytes|constructor]).
  assert (is_bytes (ecn_bytes f ++ suffix)) as Hb1 by by apply Forall_app.
  assert (is_bytes (enc_ranges (Smallest r) rs' ++ ecn_bytes f ++ suffix)) as Hb2 by (apply Forall_app; split; [apply enc_ranges_bytes|done]).
  assert (forall z b, is_bytes b -> is_bytes (venc z ++ b)) as Hv by (intros; apply Forall_app; split; [apply venc_bytes|done]).
  unfold parseAckFrame. set (body := ack_body f r rs'). assert (body ++ suffix = venc (Largest r) ++ venc (DelayTime f / 8000) ++ venc (len rs')
    ++ venc (Largest r - Smallest r) ++ enc_ranges (Smallest r) rs' ++ ecn_bytes f ++ suffix) as Eb
    by (unfold body, ack_body; by rewrite <- !app_assoc).
  rewrite Eb at 1. do 4 (rewrite varint_venc by auto). cbv zeta.
  replace (Largest r - Smallest r >? Largest r) with false by (symmetry; rewrite Z.gtb_ltb, Z.ltb_ge; unfold is_varint in *; lia).
  replace (Largest r - (Largest r - Smallest r)) with (Smallest r) by lia.
  rewrite ack_loop_enc; [|pose proof (enc_ranges_size (Smallest r) rs' ltac:(unfold is_varint in *; lia) Hn' Hc'); rewrite length_app; unfold len in *; lia|unfold is_varint in *; lia|done..].
  rewrite ack_delay_back by apply Hwf. cbn [AckRanges set_delay ack_Reset app].
  assert ({| Smallest := Smallest r; Largest := Largest r |} = r) as -> by by destruct r.
  rewrite (proj2 (validate_valid _)).
  2:{ cbn. split; [|done]. destruct Hwf as [Hvr _ _ _]. rewrite Hrs in Hvr. apply Hvr. }
  cbn [negb]. unfold ack_type, received_ack. rewrite Hrs. cbn [take]. fold rs'.
  assert (forall z, len (body ++ suffix) - z = len body + len suffix - z) as Hl by (intros; rewrite len_app; lia).
  unfold ecn_bytes in *. destruct (hasECN f) eqn:Eh.
  - change (FrameTypeAckECN =? FrameTypeAckECN) with true. unfold parse_ecn. rewrite <- !app_assoc.
    do 3 (rewrite varint_venc by auto). rewrite Hl. cbn. do 2 f_equal. lia.
  - change (FrameTypeAck =? FrameTypeAckECN) with false. destruct (hasECN_none f Hwf Eh) as (-> & -> & ->). cbn [app]. rewrite Hl.
    cbn. do 2 f_equal. lia.
Qed.

(** Whatever arrives: the ranges that are accepted are ordered, and the loop ends. *)
Lemma varint_ok b v b' : is_bytes b -> varint b = Ok (v, b') -> is_varint v /\ is_bytes b' /\ (length b' < length b)%nat.
Proof.
  intros Hb. unfold varint. destruct (Parse b) as [[w l]|e] eqn:E; [|done]. intros [= <- <-].
  destruct (Parse_ok _ _ _ Hb E) as [Hv Hl]. split_and!; [done|by apply Forall_drop|]. rewrite length_drop. unfold len in Hl. lia.
Qed.

Lemma ack_loop_sound fuel n s b acc : is_bytes b -> (length b < fuel)%nat -> is_varint s ->
  let '(rs, r) := ack_loop fuel n s b acc in
  r <> Err OutOfFuel /\ exists more, rs = acc ++ more /\ chain s more /\ numbers_ok more.
Proof.
  revert n s b acc. induction fuel as [|fuel IH]; intros n s b acc Hb Hf Hs; [lia|]. cbn [ack_loop].
  assert (forall e, e <> OutOfFuel -> Err e <> @Err _ (list Z) OutOfFuel
    /\ exists more, acc = acc ++ more /\ chain s more /\ numbers_ok more) as Hstop
    by (intros e He; split; [congruence|]; exists []; rewrite app_nil_r; repeat split; constructor).
  destruct (n =? 0); [split; [done|]; exists []; rewrite app_nil_r; repeat split; constructor|].
  destruct (varint b) as [[gap b1]|e] eqn:E1; cycle 1.
  { apply Hstop. unfold varint in E1. destruct (Parse b) as [[]|]; congruence. }
  destruct (varint_ok _ _ _ Hb E1) as (V1 & B1 & L1). destruct (s <? gap + 2) eqn:C1; [by apply Hstop|]. cbv zeta.
  destruct (varint b1) as [[blk b2]|e] eqn:E2; cycle 1.
  { apply Hstop. unfold varint in E2. destruct (Parse b1) as [[]|]; congruence. }
  destruct (varint_ok _ _ _ B1 E2) as (V2 & B2 & L2). destruct (blk >? s - gap - 2) eqn:C2; [by apply Hstop|]. breflect.
  set (x := {| Smallest := s - gap - 2 - blk; Largest := s - gap - 2 |}).
  specialize (IH (n - 1) (s - gap - 2 - blk) b2 (acc ++ [x]) B2 ltac:(lia) ltac:(unfold is_varint in *; lia)).
  destruct (ack_loop _ _ _ _ _) as [rs r]. destruct IH as (H1 & more & -> & H2 & H3). split; [done|].
  exists (x :: more). rewrite <- app_assoc. split; [done|]. unfold is_varint in *. split.
  - cbn. split_and!; (lia || done).
  - constructor; [cbn; unfold is_varint; lia|done].
Qed.

(** The check after the loop never refuses what the loop built. *)
Lemma parseAckFrame_sound g b typ exponent : is_bytes b ->
  let '(f, r) := parseAckFrame (ack_Reset g) b typ exponent in
  r <> Err OutOfFuel /\ (is_ok r = true -> valid_ranges (AckRanges f) /\ numbers_ok (AckRanges f) /\ validateAckRanges f = true).
Proof.
  intros Hb. assert (forall b e, varint b = Err e -> @Err _ Z e <> Err OutOfFuel) as Hv
    by (intros b0 e; unfold varint; destruct (Parse b0) as [[]|]; congruence).
  unfold parseAckFrame. destruct (varint b) as [[la b1]|e] eqn:E1; [|split; [by eapply Hv|done]].
  destruct (varint_ok _ _ _ Hb E1) as (V1 & B1 & _).
  destruct (varint b1) as [[dl b2]|e] eqn:E2; [|split; [by eapply Hv|done]]. destruct (varint_ok _ _ _ B1 E2) as (_ & B2 & _). cbv zeta.
  destruct (varint b2) as [[nb b3]|e] eqn:E3; [|split; [by eapply Hv|done]]. destruct (varint_ok _ _ _ B2 E3) as (_ & B3 & _).
  destruct (varint b3) as [[ab b4]|e] eqn:E4; [|split; [by eapply Hv|done]]. destruct (varint_ok _ _ _ B3 E4) as (V4 & B4 & _).
  destruct (ab >? la) eqn:C; [done|]. breflect. set (r0 := {| Smallest := la - ab; Largest := la |}).
  pose proof (ack_loop_sound (S (length b4)) nb (la - ab) b4 [r0] B4 ltac:(lia) ltac:(unfold is_varint in *; lia)) as Hl.
  cbn [AckRanges set_delay ack_Reset app]. destruct (ack_loop _ _ _ _ _) as [rs [b5|e]]; destruct Hl as (H1 & more & -> & H2 & H3).
  2:{ split; [congruence|done]. }
  assert (valid_ranges (r0 :: more) /\ numbers_ok (r0 :: more)) as [Hok Hnum].
  { split; [split; [cbn; unfold is_varint in *; lia|done]|]. constructor; [cbn; unfold is_varint in *; lia|done]. }
  set (f := with_ranges _ ([r0] ++ more)). rewrite (proj2 (validate_valid f) Hok). cbn [negb].
  assert (forall f', AckRanges f' = r0 :: more -> valid_ranges (AckRanges f') /\ numbers_ok (AckRanges f') /\ validateAckRanges f' = true) as Hfin
    by (intros f' Ef; rewrite validate_valid, Ef; done).
  destruct (typ =? FrameTypeAckECN); [|split; [done|intros _; by apply Hfin]]. unfold parse_ecn.
  destruct (varint b5) as [[? b6]|] eqn:E5; [|split; [by eapply Hv|done]].
  destruct (varint b6) as [[? b7]|] eqn:E6; [|split; [by eapply Hv|done]].
  destruct (varint b7) as [[? b8]|] eqn:E7; [|split; [by eapply Hv|done]]. split; [done|intros _; by apply Hfin].
Qed.

(** ** Truncation *)

Lemma ranges_fitting_spec pre r rs n maxSize z : (n <= length rs)%nat -> numbers_ok (pre ++ r :: rs) -> chain (Smallest r) rs ->
  z <= maxSize ->
  exists m, ranges_fitting (pre ++ r :: rs) (seq (S (length pre)) n) maxSize z (S (length pre) + n) = Some (S (length pre) + m)%nat
    /\ (m <= n)%nat /\ z + len (enc_ranges (Smallest r) (take m rs)) <= maxSize
    /\ ((m < n)%nat -> maxSize < z + len (enc_ranges (Smallest r) (take (S m) rs))).
Proof.
  revert pre r rs z. induction n as [|n IH]; intros pre r rs z Hn Hok Hc Hz.
  { exists 0%nat. rewrite take_0. cbn [seq ranges_fitting enc_ranges]. change (len (@nil Z)) with 0. split_and!; (done || lia). }
  destruct rs as [|x rs]; [cbn in Hn; lia|]. cbn [seq ranges_fitting]. unfold range_len.
  destruct (encodeAckRange_next pre r x rs Hok Hc) as (-> & V1 & V2). cbn [mbind option_bind].
  do 2 (rewrite Len_vlen by done; cbn [mbind option_bind]).
  destruct (_ >? maxSize) eqn:E; breflect.
  - exists 0%nat. rewrite take_0. cbn [take enc_ranges]. rewrite firstn_O. cbn [enc_ranges]. change (len (@nil Z)) with 0.
    rewrite !len_app. change (len (@nil Z)) with 0. unfold vlen in E. split_and!; [f_equal; lia|lia..].
  - replace (pre ++ r :: x :: rs) with ((pre ++ [r]) ++ x :: rs) in * by by rewrite <- app_assoc.
    replace (S (S (length pre))) with (S (length (pre ++ [r]))) by (rewrite length_app; cbn; lia).
    replace (S (length pre) + S n)%nat with (S (length (pre ++ [r])) + n)%nat by (rewrite length_app; cbn; lia).
    destruct (IH (pre ++ [r]) x rs (z + (vlen (Smallest r - Largest x - 2) + vlen (Largest x - Smallest x)))) as (m & -> & H1 & H2 & H3);
      [cbn in Hn; lia|done|apply Hc|lia|].
    exists (S m). cbn [take enc_ranges] in *. rewrite !len_app. unfold vlen in *.
    split_and!; [f_equal; rewrite length_app; cbn; lia|lia|lia|]. intros Hm. specialize (H3 ltac:(lia)). lia.
Qed.

Section Truncation.
  Context (f : AckFrame) (r : AckRange) (rs : list AckRange).
  Context (Hwf : ack_wf f) (Hrs : AckRanges f = r :: rs).

(** The frame with its first range and [n] more. *)
Definition keep (n : nat) : AckFrame := with_ranges f (r :: take n rs).

Lemma keep_wf n : ack_wf (keep n).
Proof.
  destruct Hwf as [Hv Hn Hd He]. rewrite Hrs in *. destruct Hv as [H1 H2]. apply Forall_cons_iff in Hn as [H3 H4].
  constructor; cbn; try done.
  - split; [done|]. by apply chain_take.
  - constructor; [done|]. by apply Forall_take.
Qed.

Lemma keep_Length n : (n <= 63)%nat -> ack_Length (keep n) = Some (ack_size f r rs n).
Proof.
  intros Hn. rewrite (ack_Length_size (keep n) r (take n rs) (keep_wf n) eq_refl). unfold ack_size. cbn.
  by rewrite take_take, Nat.min_r by lia.
Qed.

Lemma ack_size_bound n : (n <= length rs)%nat ->
  ack_size f r rs n <= 1 + 8 + 8 + 1 + 8 + 16 * Z.of_nat n + (if hasECN f then 24 else 0).
Proof.
  intros Hn. destruct (first_range f r rs Hwf Hrs) as (V1 & V2 & V3 & Hc & Hnum). destruct (encodeAckDelay_div _ (wf_delay f Hwf)) as [_ Vd].
  pose proof (wf_ecn f Hwf) as (E0 & E1 & E2). apply Forall_cons_iff in Hnum as [_ Hnum].
  pose proof (enc_ranges_size (Smallest r) (take n rs) ltac:(unfold is_varint in *; lia) (Forall_take _ _ _ Hnum) (chain_take _ _ n Hc)) as Hr.
  unfold len in Hr at 2 4. rewrite length_take, Nat.min_l in Hr by done.
  pose proof (vlen_range _ V2). pose proof (vlen_range _ V3). pose proof (vlen_range _ Vd).
  pose proof (vlen_range _ E0). pose proof (vlen_range _ E1). pose proof (vlen_range _ E2).
  unfold ack_size, ecn_bytes. destruct (hasECN f); [rewrite !len_app; unfold vlen in *; lia|change (len (@nil Z)) with 0; lia].
Qed.

(** [Truncate] keeps the longest prefix that fits. *)
Lemma Truncate_spec maxSize : ack_size f r rs 0 <= maxSize ->
  exists m, Truncate f maxSize = Some (keep m) /\ (m <= Nat.min (length rs) 63)%nat
    /\ ack_size f r rs m <= maxSize
    /\ ((m < Nat.min (length rs) 63)%nat -> maxSize < ack_size f r rs (S m)).
Proof.
  intros Hmin. destruct (first_range f r rs Hwf Hrs) as (V1 & V2 & V3 & Hc & Hnum). destruct (encodeAckDelay_div _ (wf_delay f Hwf)) as [Ed Vd].
  set (n := Nat.min (length rs) 63).
  assert (forall m, (m <= n)%nat -> take (S m) (AckRanges f) = r :: take m rs) as Htk by (intros; by rewrite Hrs).
  unfold Truncate, numEncodableAckRanges. cbv zeta. rewrite (num_ranges_cons f r rs Hrs). fold n.
  pose proof (ack_size_bound n ltac:(lia)) as Hb. destruct (_ <=? maxSize) eqn:E; breflect.
  - exists n. cbn [mbind option_bind]. rewrite Htk by done. split_and!; [done|lia| |lia]. destruct (hasECN f); lia.
  - unfold LargestAcked. rewrite Hrs. cbn [head mbind option_bind]. rewrite (u64_varint (Largest r)), (Len_vlen (Largest r)) by done.
    cbn [mbind option_bind]. rewrite Ed, (Len_vlen (DelayTime f / 8000)) by done. cbn [mbind option_bind encodeAckRange lookup list_lookup].
    rewrite (u64_varint (Largest r - Smallest r)), (Len_vlen (Largest r - Smallest r)) by done. cbn [mbind option_bind].
    rewrite (len_ecn f Hwf). cbn [mbind option_bind]. rewrite Nat.sub_1_r. cbn [Nat.pred].
    set (z := 1 + vlen (Largest r) + vlen (DelayTime f / 8000) + 1 + vlen (Largest r - Smallest r) + len (ecn_bytes f)).
    assert (forall k, z + len (enc_ranges (Smallest r) (take k rs)) = ack_size f r rs k) as Hz by (intros; unfold z, ack_size; lia).
    assert (z <= maxSize) as Hz0 by (rewrite <- Hz, take_0 in Hmin; cbn [enc_ranges] in Hmin; change (len (@nil Z)) with 0 in Hmin; lia).
    destruct (ranges_fitting_spec [] r rs n maxSize z ltac:(lia) Hnum Hc Hz0) as (m & Hf & H1 & H2 & H3). cbn [app length Nat.add] in Hf.
    rewrite Hf. cbn [mbind option_bind]. exists m. rewrite !Hz in *. done.
Qed.

End Truncation.

(** ACK frames do what their users rely on: a packet number is found exactly when
some range holds it; whatever bytes arrive, what the parser accepts is an ordered,
disjoint list of ranges of packet numbers, and it always ends; and a frame that is
cut to a size fits it, keeps the newest ranges, and keeps as many as fit. *)
Theorem ack_frames_sound :
  (forall f p, validateAckRanges f = true ->
     AcksPacket f p = Some (existsb (fun r => (Smallest r <=? p) && (p <=? Largest r)) (AckRanges f)))
  /\ (forall p typ data level, is_bytes data ->
       let '(p', r) := ParseAckFrame p typ data level in
       r <> Err OutOfFuel
       /\ forall f n, r = Ok (f, n) -> f = ap_ackFrame p' /\ validateAckRanges f = true /\ numbers_ok (AckRanges f))
  /\ (forall f r rs maxSize, ack_wf f -> AckRanges f = r :: rs -> ack_size f r rs 0 <= maxSize ->
       exists m n, Truncate f maxSize = Some (keep f r rs m) /\ (m <= 63)%nat
         /\ ack_Length (keep f r rs m) = Some n /\ n <= maxSize
         /\ ((m < Nat.min (length rs) 63)%nat -> exists n', ack_Length (keep f r rs (S m)) = Some n' /\ maxSize < n')).
Proof.
  split; [apply AcksPacket_correct|]. split.
  - intros p typ data level Hb. unfold ParseAckFrame. set (e := match level with Encryption1RTT => _ | _ => _ end).
    pose proof (parseAckFrame_sound (ap_ackFrame p) data typ e Hb) as H. destruct (parseAckFrame _ _ _ _) as [f [n|err]].
    + destruct H as [_ H]. destruct (H eq_refl) as (H1 & H2 & H3). split; [done|]. by intros f' n' [= <- <-].
    + destruct H as [H _]. split; [congruence|done].
  - intros f r rs maxSize Hwf Hrs Hmin. destruct (Truncate_spec f r rs Hwf Hrs maxSize Hmin) as (m & H1 & H2 & H3 & H4).
    exists m, (ack_size f r rs m). rewrite (keep_Length f r rs Hwf Hrs) by lia. split_and!; try done; [lia|].
    intros Hm. exists (ack_size f r rs (S m)). rewrite (keep_Length f r rs Hwf Hrs) by lia. auto.
Qed.

(** The delay field can wrap to a small value instead of a negative one. *)
Example ack_delay_wraps : ack_delay (2 ^ 61) 3 = 0.
Proof. reflexivity. Qed.

Lemma ack_body_bytes f r rs : is_bytes (ack_body f r rs).
Proof.
  unfold ack_body, ecn_bytes. repeat (apply Forall_app; split); try apply venc_bytes; [apply enc_ranges_bytes|].
  destruct (hasECN f); [repeat (apply Forall_app; split); apply venc_bytes|constructor].
Qed.

(** ** Every frame *)

(** A frame of either kind, with its type, what may follow it, and what the peer
gets back from parsing the bytes after the type. *)
Inductive any_frame :=
| Plain (f : Frame)
| Ack (f : AckFrame).

Definition any_wf (x : any_frame) (suffix : list Z) : Prop :=
  match x with Plain f => frame_wf f suffix | Ack f => ack_wf f end.
Definition any_type (x : any_frame) : Z :=
  match x with Plain f => frame_type f | Ack f => ack_type f end.
Definition any_Append (x : any_frame) (b : list Z) : option (list Z) :=
  match x with
  | Plain f => match Append f b with Ok b => Some b | Err _ => None end
  | Ack f => ack_Append f b
  end.
Definition any_Length (x : any_frame) : option Z :=
  match x with Plain f => Length f | Ack f => ack_Length f end.
(** The dispatch of [handleFrames]. *)
Definition any_parse (p : AckParser) (typ : Z) (data : list Z) (level : EncryptionLevel)
  : result frame_error (any_frame * Z) :=
  if IsAckFrameType typ then let? (f, n) := snd (ParseAckFrame p typ data level) in Ok (Ack f, n)
  else let? (f, n) := parse_frame typ data in Ok (Plain f, n).
Definition any_received (x : any_frame) : any_frame :=
  match x with Plain f => Plain f | Ack f => Ack (received_ack f) end.

Lemma plain_not_ack f : IsAckFrameType (frame_type f) = false.
Proof.
  destruct f as [|s c n r|s c|o d|d|s o d fin pr|n|s n|[] n|n|s n|[] n|s r c t|n|d|d|[] c ft reason| |s t d r| |[] d]; try done; cbn;
    [by destruct (r =? 0)|by destruct fin, pr, (o =? 0)].
Qed.

Lemma ack_exponent p level : level <> Encryption1RTT \/ ackDelayExponent (ap_parser p) = 3 ->
  match level with Encryption1RTT => ackDelayExponent (ap_parser p) | _ => DefaultAckDelayExponent end = 3.
Proof. destruct level; intros [|]; done. Qed.

(** C40: Every frame survives the wire.  A well-formed frame, ACK frames included,
is written without an error or a panic, in exactly [Length] bytes; behind any
amount of padding its type is found, if the peer may send it at that level; and
parsing what follows the type, with whatever comes after the frame and whatever the
parser parsed before, gives back the frame and the number of bytes it took.  Of an
ACK frame the first 64 ranges come back, the ECN counts, and the delay in units of
eight microseconds.  Finding a type ends on every input. *)
Theorem wire_roundtrip x suffix k p level b :
  any_wf x suffix -> is_bytes suffix ->
  valid_type (ap_parser p) (any_type x) = true -> isAllowedAtEncLevel (any_type x) level = true ->
  level <> Encryption1RTT \/ ackDelayExponent (ap_parser p) = 3 ->
  exists body,
    any_Append x b = Some (b ++ venc (any_type x) ++ body)
    /\ any_Length x = Some (vlen (any_type x) + len body)
    /\ ParseType (ap_parser p) (replicate k 0 ++ venc (any_type x) ++ body ++ suffix) level
       = Ok (Some (any_type x), Z.of_nat k + vlen (any_type x))
    /\ any_parse p (any_type x) (body ++ suffix) level = Ok (any_received x, len body)
    /\ (is_bytes b -> ParseType (ap_parser p) b level <> Err OutOfFuel).
Proof.
  intros Hwf Hs Hv Ha He. destruct x as [f|f]; cbn [any_wf any_type any_Append any_Length any_received] in *.
  - destruct (frame_roundtrip f suffix k (ap_parser p) level b Hwf Hs Hv Ha) as (body & H1 & H2 & H3 & H4 & H5).
    exists body. rewrite H1. split_and!; try done. unfold any_parse. by rewrite plain_not_ack, H4.
  - destruct (AckRanges f) as [|r rs] eqn:Er; [by destruct Hwf as [Hr _ _ _]; rewrite Er in Hr|].
    assert (ack_type f = 2 \/ ack_type f = 3) as Ht by (unfold ack_type; destruct (hasECN f); auto).
    assert (venc (ack_type f) = [ack_type f]) as Evt by (apply venc_small; lia).
    pose proof (ack_body_bytes f r (take 63 rs)) as Hb. exists (ack_body f r (take 63 rs)).
    assert (vlen (ack_type f) = 1) as Evl by (unfold vlen; by rewrite Evt). split_and!.
    + rewrite (ack_Append_body f r rs Hwf Er), Evt. done.
    + rewrite (ack_Length_size f r rs Hwf Er), <- (len_ack_body f r rs), Evl. done.
    + unfold ParseType. rewrite (ParseType_padding (ap_parser p) k (ack_type f)); [by rewrite Z.add_0_l| |by apply Forall_app|apply small_varint; lia|lia|done|done].
      rewrite length_app, length_replicate. lia.
    + unfold any_parse. replace (IsAckFrameType (ack_type f)) with true by (by destruct Ht as [-> | ->]).
      unfold ParseAckFrame. rewrite ack_exponent by done. by rewrite (parse_ack_body f r rs _ suffix Hwf Er Hs).
    + intros Hbb. apply ParseType_total; [done|lia].
Qed.

Lemma sample_ack_wf : ack_wf sample_ack.
Proof.
  constructor.
  - cbn. lia.
  - apply Forall_cons_iff. split; [cbn; unfold is_varint, maxVarInt8; lia|].
    apply Forall_cons_iff. split; [cbn; unfold is_varint, maxVarInt8; lia|constructor].
  - cbn. lia.
  - cbn. unfold is_varint, maxVarInt8. lia.
Qed.

Definition fresh_parser : AckParser :=
  {| ap_parser := SetAckDelayExponent (NewFrameParser true false false) 3; ap_ackFrame := sample_ack |}.

Lemma wire_roundtrip_witness :
  (exists body, any_Append (Ack sample_ack) [9] = Some ([9] ++ venc 3 ++ body)
     /\ any_parse fresh_parser 3 (body ++ [7]) Encryption1RTT = Ok (Ack sample_ack, len body))
  /\ exists body, any_parse fresh_parser 0x31 (body ++ [7]) Encryption1RTT = Ok (Plain (DatagramFrame true [0; 1; 2]), len body).
Proof.
  assert (is_bytes [7]) as H7 by (repeat constructor; discriminate). split.
  - destruct (wire_roundtrip (Ack sample_ack) [7] 2 fresh_parser Encryption1RTT [9]) as (body & H1 & _ & _ & H4 & _).
    + exact sample_ack_wf.
    + exact H7.
    + reflexivity.
    + reflexivity.
    + right. reflexivity.
    + exists body. split; [exact H1|exact H4].
  - destruct (wire_roundtrip (Plain (DatagramFrame true [0; 1; 2])) [7] 0 fresh_parser Encryption1RTT []) as (body & _ & _ & _ & H4 & _).
    + split; [vm_compute; split; discriminate|]. split; [repeat constructor; discriminate|discriminate].
    + exact H7.
    + reflexivity.
    + reflexivity.
    + right. reflexivity.
    + exists body. exact H4.
Defined.
