(* ===== verification/Priority.v ===== *)
(** * Request priorities

[third_party/quic-go/http3/priority.go]: the Priority field value of a request or
of a PRIORITY_UPDATE frame.  The loop of [parsePriority] over the indices of the
value computes what a reference over its members defines, for every string of
bytes, without an index out of range. *)

From stdpp Require Import base list numbers.
From Stdlib Require Import ZArith Lia String.
From S2P Require Import Prelude.
From S2P Require Import GoStrings.

Local Open Scope Z_scope.

(** ** parsePriority *)

Definition defaultPriorityUrgency : Z := 3.

(** [strings.Cut] at a byte. *)
Fixpoint Cut (s : gostring) (sep : Z) : gostring * gostring * bool :=
  match s with
  | [] => ([], [], false)
  | x :: s =>
    if x =? sep then ([], s, true)
    else let '(before, after, found) := Cut s sep in (x :: before, after, found)
  end.

(** The body of the first case; [None] returns both defaults. *)
Definition one_member (text : gostring) (urgency : Z) (incremental : bool) : option (Z * bool) :=
  let '(member, _, _) := Cut (TrimSpace text) 59 in
  let '(key, item, hasValue) := Cut member 61 in
  if same key [] || hasValue && same item [] then None
  else if same key [117] then
    match item with
    | [d] => if hasValue && (48 <=? d) && (d <=? 55) then Some (d - 48, incremental) else Some (urgency, incremental)
    | _ => Some (urgency, incremental)
    end
  else if same key [105] then
    if negb hasValue || same item [63; 49] then Some (urgency, true)
    else if same item [63; 48] then Some (urgency, false)
    else Some (urgency, incremental)
  else Some (urgency, incremental).

(** [value[i]] and [value[start:i]]; [None] is a panic. *)
Definition at_index (value : gostring) (i : Z) : option Z := if i <? 0 then None else value !! Z.to_nat i.
Definition slice (value : gostring) (start i : Z) : option gostring :=
  if (0 <=? start) && (start <=? i) && (i <=? len value) then Some (take (Z.to_nat (i - start)) (drop (Z.to_nat start) value)) else None.

Fixpoint priority_loop (fuel : nat) (value : gostring) (i start : Z) (inString escapes : bool) (urgency : Z) (incremental : bool)
  : option (Z * bool) :=
  match fuel with
  | O => None
  | S fuel =>
    if negb (i <=? len value) then Some (if inString then (defaultPriorityUrgency, false) else (urgency, incremental))
    else
      ends ← (if i =? len value then Some true else if inString then Some false else c ← at_index value i; Some (c =? 44));
      if (ends : bool) then
        text ← slice value start i;
        match one_member text urgency incremental with
        | None => Some (defaultPriorityUrgency, false)
        | Some (urgency, incremental) => priority_loop fuel value (i + 1) (i + 1) inString escapes urgency incremental
        end
      else
        c ← at_index value i;
        if escapes && (c =? 92) then priority_loop fuel value (i + 1 + 1) start inString escapes urgency incremental
        else if c =? 34 then
          let inString := negb inString in
          escapes ← (if inString then if i =? 0 then Some true else p ← at_index value (i - 1); Some (negb (p =? 37)) else Some false);
          priority_loop fuel value (i + 1) start inString escapes urgency incremental
        else priority_loop fuel value (i + 1) start inString escapes urgency incremental
  end.

(** Every round advances, so that there are at most [len value + 1] of them and the
last test. *)
Definition parsePriority (value : gostring) : option (Z * bool) :=
  priority_loop (S (S (List.length value))) value 0 0 false false defaultPriorityUrgency false.

(** ** What a priority means *)

(** Outside of strings, in a string, in a display string ([%] before its quote),
where a backslash is a character like any other. *)
Inductive quoting := Plain | Quoted | Display.

(** The members of a list, split at the commas outside of strings; [None] if a
string does not end.  [prev] is the byte before and [w] the member so far. *)
Fixpoint members (q : quoting) (prev : Z) (w s : gostring) {struct s} : option (list gostring) :=
  match s with
  | [] => match q with Plain => Some [w] | _ => None end
  | x :: s' =>
    match q with
    | Plain =>
      if x =? 44 then ms ← members Plain x [] s'; Some (w :: ms)
      else members (if x =? 34 then if prev =? 37 then Display else Quoted else Plain) x (w ++ [x]) s'
    | Display => members (if x =? 34 then Plain else Display) x (w ++ [x]) s'
    | Quoted =>
      if x =? 92 then match s' with [] => None | y :: s'' => members Quoted y (w ++ [x; y]) s'' end
      else members (if x =? 34 then Plain else Quoted) x (w ++ [x]) s'
    end
  end.

Fixpoint fold_members (ms : list gostring) (urgency : Z) (incremental : bool) : Z * bool :=
  match ms with
  | [] => (urgency, incremental)
  | m :: ms =>
    match one_member m urgency incremental with
    | None => (defaultPriorityUrgency, false)
    | Some (urgency, incremental) => fold_members ms urgency incremental
    end
  end.

Definition priority_of (value : gostring) : Z * bool :=
  match members Plain 0 [] value with
  | None => (defaultPriorityUrgency, false)
  | Some ms => fold_members ms defaultPriorityUrgency false
  end.

Example parse_urgent : parsePriority (str "u=5, i"%string) = Some (5, true). Proof. reflexivity. Qed.
Example parse_param : parsePriority (str "u=1;x=2,i=?0, a=%x"%string) = Some (1, false). Proof. reflexivity. Qed.
Example parse_bad : parsePriority (str "u=1,,i"%string) = Some (3, false). Proof. reflexivity. Qed.

(** ** The loop and the reference *)

Definition in_string (q : quoting) : bool := match q with Plain => false | _ => true end.
Definition has_escapes (q : quoting) : bool := match q with Quoted => true | _ => false end.

Lemma at_index_app pre x s : at_index (pre ++ x :: s) (len pre) = Some x.
Proof. unfold at_index, len. rewrite (proj2 (Z.ltb_ge _ _)) by lia. by rewrite Nat2Z.id, list_lookup_middle. Qed.
Lemma slice_app pre w s : slice (pre ++ w ++ s) (len pre) (len pre + len w) = Some w.
Proof.
  unfold slice. pose proof (len_nonneg pre). pose proof (len_nonneg w). pose proof (len_nonneg s). rewrite !len_app, !(proj2 (Z.leb_le _ _)) by lia.
  cbn [andb]. unfold len. rewrite Nat2Z.id, drop_app_length. replace (Z.to_nat _) with (List.length w) by lia. by rewrite take_app_length.
Qed.

(** The byte before position [len pre]; any byte but [%] will do at the start. *)
Definition prev_of (pre : gostring) (prev : Z) : Prop :=
  match list.last pre with Some p => prev = p | None => prev = 0 end.
Lemma prev_of_snoc pre x : prev_of (pre ++ [x]) x.
Proof. unfold prev_of. by rewrite list.last_snoc. Qed.
Lemma prev_of_escapes pre prev x s : prev_of pre prev ->
  (if len pre =? 0 then Some true else p ← at_index (pre ++ x :: s) (len pre - 1); Some (negb (p =? 37))) = Some (negb (prev =? 37)).
Proof.
  unfold prev_of. destruct pre as [|p pre _] using rev_ind; [by intros ->|]. rewrite list.last_snoc. intros ->.
  rewrite len_app. change (len [p]) with 1. pose proof (len_nonneg pre). rewrite (proj2 (Z.eqb_neq _ _)) by lia.
  replace (len pre + 1 - 1) with (len pre) by lia. rewrite <- app_assoc. cbn [app]. by rewrite at_index_app.
Qed.

Lemma priority_loop_members fuel q prev pre w s urgency incremental :
  prev_of (pre ++ w) prev -> (S (List.length s) < fuel)%nat ->
  priority_loop fuel (pre ++ w ++ s) (len pre + len w) (len pre) (in_string q) (has_escapes q) urgency incremental
  = Some (match members q prev w s with None => (defaultPriorityUrgency, false) | Some ms => fold_members ms urgency incremental end).
Proof.
  revert q prev pre w s urgency incremental. induction fuel as [|fuel IH]; intros q prev pre w s u inc Hp Hf; [lia|].
  cbn [priority_loop]. destruct s as [|x s].
  { replace (len (pre ++ w ++ [])) with (len pre + len w) by (rewrite !len_app, len_nil; lia). rewrite Z.leb_refl, Z.eqb_refl. cbn [negb mbind option_bind].
    rewrite slice_app. cbn [mbind option_bind members].
    assert (forall u inc, priority_loop fuel (pre ++ w ++ []) (len pre + len w + 1) (len pre + len w + 1) (in_string q) (has_escapes q) u inc
      = Some (if in_string q then (defaultPriorityUrgency, false) else (u, inc))) as Hend.
    { intros u' inc'. destruct fuel; [cbn in Hf; lia|]. cbn [priority_loop]. rewrite !len_app, len_nil, (proj2 (Z.leb_gt _ _)) by lia. done. }
    destruct (one_member w u inc) as [[u' inc']|] eqn:Em; [rewrite Hend|]; destruct q; cbn; by rewrite ?Em. }
  assert (len pre + len w = len (pre ++ w)) as El by by rewrite len_app.
  assert (pre ++ w ++ x :: s = (pre ++ w) ++ x :: s) as Ea by by rewrite app_assoc.
  assert (at_index (pre ++ w ++ x :: s) (len pre + len w) = Some x) as Eat by (rewrite El, Ea; apply at_index_app).
  assert (len pre + len w < len (pre ++ w ++ x :: s)) as Hin by (rewrite !len_app, len_cons; pose proof (len_nonneg s); lia).
  rewrite (proj2 (Z.leb_le (len pre + len w) _)), (proj2 (Z.eqb_neq (len pre + len w) (len (pre ++ w ++ x :: s)))) by lia.
  assert (forall q', priority_loop fuel (pre ++ w ++ x :: s) (len pre + len w + 1) (len pre) (in_string q') (has_escapes q') u inc
    = Some (match members q' x (w ++ [x]) s with None => (defaultPriorityUrgency, false) | Some ms => fold_members ms u inc end)) as Hnext.
  { intros q'. specialize (IH q' x pre (w ++ [x]) s u inc). rewrite len_app, <- (app_assoc w) in IH. change (len [x]) with 1 in IH.
    rewrite Z.add_assoc in IH. apply IH; [rewrite app_assoc; apply prev_of_snoc|cbn in Hf; lia]. }
  cbn [negb]. destruct q; cbn [in_string has_escapes members]; rewrite Eat; cbn [mbind option_bind andb].
  - destruct (x =? 44) eqn:E44.
    + rewrite slice_app. cbn [mbind option_bind].
      destruct (one_member w u inc) as [[u' inc']|] eqn:Em.
      * specialize (IH Plain x ((pre ++ w) ++ [x]) [] s u' inc'). rewrite !len_app, len_nil, Z.add_0_r in IH. change (len [x]) with 1 in IH.
        rewrite <- !app_assoc in IH. cbn [app in_string has_escapes] in IH. rewrite IH; [|rewrite app_assoc; apply prev_of_snoc|cbn in Hf; lia].
        destruct (members Plain x [] s); cbn; by rewrite ?Em.
      * destruct (members Plain x [] s); cbn; by rewrite ?Em.
    + destruct (x =? 34) eqn:E34; [|apply (Hnext Plain)]. cbn [negb]. rewrite El, Ea, (prev_of_escapes _ prev) by done. cbn [mbind option_bind].
      rewrite <- El, <- Ea. destruct (prev =? 37); [apply (Hnext Display)|apply (Hnext Quoted)].
  - destruct (x =? 92) eqn:E92.
    + destruct s as [|y s].
      { destruct fuel; [cbn in Hf; lia|]. cbn [priority_loop]. rewrite !len_app, len_cons, len_nil, (proj2 (Z.leb_gt _ _)) by lia. done. }
      specialize (IH Quoted y pre (w ++ [x; y]) s u inc). rewrite len_app, <- (app_assoc w) in IH. change (len [x; y]) with 2 in IH.
      replace (len pre + len w + 1 + 1) with (len pre + (len w + 2)) by lia. apply IH; [|cbn in Hf; lia].
      change [x; y] with ([x] ++ [y]). rewrite !app_assoc. apply prev_of_snoc.
    + destruct (x =? 34); [apply (Hnext Plain)|apply (Hnext Quoted)].
  - destruct (x =? 34); [apply (Hnext Plain)|apply (Hnext Display)].
Qed.

(** The loop never fails and computes the reference. *)
Theorem parsePriority_reference value : parsePriority value = Some (priority_of value).
Proof. apply (priority_loop_members _ Plain 0 [] [] value); [done|lia]. Qed.

Lemma one_member_urgency text u inc u' inc' : one_member text u inc = Some (u', inc') -> 0 <= u <= 7 -> 0 <= u' <= 7.
Proof.
  unfold one_member. destruct (Cut _ 59) as [[m a] f]. destruct (Cut m 61) as [[key item] has]. split_if; [done|]. split_if.
  - destruct item as [|d [|]]; [by intros [= <- <-]| |by intros [= <- <-]]. destruct (has && _ && _) eqn:E; [|by intros [= <- <-]].
    intros [= <- <-] _. lia.
  - repeat split_if; intros [= <- <-]; done.
Qed.
Lemma fold_members_urgency ms u inc : 0 <= u <= 7 -> 0 <= fst (fold_members ms u inc) <= 7.
Proof.
  revert u inc. induction ms as [|m ms IH]; intros u inc Hu; [done|]. cbn [fold_members].
  destruct (one_member m u inc) as [[u' inc']|] eqn:E; [|done]. apply IH. by eapply one_member_urgency.
Qed.

(** An urgency is between 0 and 7. *)
Lemma priority_of_urgency value : 0 <= fst (priority_of value) <= 7.
Proof. unfold priority_of. destruct (members _ _ _ _); [by apply fold_members_urgency|done]. Qed.
