(* ===== verification/ControlStream.v ===== *)
(** * HTTP/3 control streams

[third_party/quic-go/http3]: the frames of a control stream and their parser
([frames.go]), the SETTINGS that agree on datagrams and extended CONNECT, and what
a connection does with the unidirectional streams of its peer ([conn.go], with the
continuations of [server_conn.go] and [client.go]).  A stream is the bytes still to
come and the error it ends with; no events are logged. *)

From stdpp Require Import base gmap list numbers.
From Stdlib Require Import ZArith Lia.
From S2P Require Import Prelude.
From S2P Require Import Quicvarint.
From S2P Require Import Priority.

Local Open Scope Z_scope.

(** ** Frames *)

(** [MaxFieldSectionSize] is -1 if it is not set. *)
Record settingsFrame := {
  MaxFieldSectionSize : Z;
  Datagram : bool;
  ExtendedConnect : bool;
  Other : gmap Z Z;
}.

Inductive h3_frame :=
| dataFrame (Length : Z)
| headersFrame (Length headerLen : Z)
| SettingsFrame (s : settingsFrame)
| goAwayFrame (StreamID : Z)
| priorityUpdateFrame (ElementID : Z) (PriorityFieldValue : list Z).

Inductive h3_error :=
| H3IO (e : io_error)
| UnexpectedSettingsSize
| DuplicateSetting
| InvalidSetting
| InconsistentGoAway
| UnexpectedPrioritySize
| PriorityUpdateForPush
| ReservedFrame.

Definition settingMaxFieldSectionSize : Z := 0x6.
Definition settingExtendedConnect : Z := 0x8.
Definition settingDatagram : Z := 0x33.
Definition maxSettingsFrameSize : Z := 8192.
Definition maxPriorityUpdateFrameSize : Z := 4096.

(** ** Reading *)

(** A varint, and the stream after it. *)
Definition read_varint (r : reader) : result h3_error Z * reader :=
  match Quicvarint.Read r with
  | (Ok v, r) => (Ok v, r)
  | (Err e, r) => (Err (H3IO e), r)
  end.

(** [io.ReadFull] into a buffer of [l] bytes; the callers turn
[io.ErrUnexpectedEOF] into [io.EOF]. *)
Definition read_full (l : Z) (r : reader) : result h3_error (list Z) * reader :=
  if l <=? len (rd_avail r) then
    (Ok (take (Z.to_nat l) (rd_avail r)), mkReader (drop (Z.to_nat l) (rd_avail r)) (rd_end r))
  else (Err (H3IO (if bool_decide (rd_end r = ErrUnexpectedEOF) then EOF else rd_end r)), mkReader [] (rd_end r)).

(** [io.CopyN(io.Discard, r, l)]. *)
Definition skip (l : Z) (r : reader) : result h3_error unit * reader :=
  if l <=? len (rd_avail r) then (Ok tt, mkReader (drop (Z.to_nat l) (rd_avail r)) (rd_end r))
  else (Err (H3IO (rd_end r)), mkReader [] (rd_end r)).

(** ** SETTINGS *)

Record settings_seen := {
  seen_max : bool;
  seen_connect : bool;
  seen_datagram : bool;
}.

Definition one_setting (id val : Z) (f : settingsFrame) (seen : settings_seen)
  : result h3_error (settingsFrame * settings_seen) :=
  if id =? settingMaxFieldSectionSize then
    if seen_max seen then Err DuplicateSetting
    else Ok ({| MaxFieldSectionSize := i64 val; Datagram := Datagram f; ExtendedConnect := ExtendedConnect f; Other := Other f |},
             {| seen_max := true; seen_connect := seen_connect seen; seen_datagram := seen_datagram seen |})
  else if id =? settingExtendedConnect then
    if seen_connect seen then Err DuplicateSetting
    else if negb (val =? 0) && negb (val =? 1) then Err InvalidSetting
    else Ok ({| MaxFieldSectionSize := MaxFieldSectionSize f; Datagram := Datagram f; ExtendedConnect := val =? 1; Other := Other f |},
             {| seen_max := seen_max seen; seen_connect := true; seen_datagram := seen_datagram seen |})
  else if id =? settingDatagram then
    if seen_datagram seen then Err DuplicateSetting
    else if negb (val =? 0) && negb (val =? 1) then Err InvalidSetting
    else Ok ({| MaxFieldSectionSize := MaxFieldSectionSize f; Datagram := val =? 1; ExtendedConnect := ExtendedConnect f; Other := Other f |},
             {| seen_max := seen_max seen; seen_connect := seen_connect seen; seen_datagram := true |})
  else match Other f !! id with
  | Some _ => Err DuplicateSetting
  | None =>
    Ok ({| MaxFieldSectionSize := MaxFieldSectionSize f; Datagram := Datagram f; ExtendedConnect := ExtendedConnect f;
           Other := <[id := val]> (Other f) |}, seen)
  end.

(** The loop over the payload; every round takes two bytes at least, so that the
length of the payload is enough fuel. *)
Fixpoint settings_loop (fuel : nat) (b : reader) (f : settingsFrame) (seen : settings_seen) : result h3_error settingsFrame :=
  match rd_avail b with
  | [] => Ok f
  | _ =>
    match fuel with
    | O => Err (H3IO ErrUnexpectedEOF)
    | S fuel =>
      match read_varint b with
      | (Err e, _) => Err e
      | (Ok id, b) =>
        match read_varint b with
        | (Err e, _) => Err e
        | (Ok val, b) => let? (f, seen) := one_setting id val f seen in settings_loop fuel b f seen
        end
      end
    end
  end.

Definition no_settings : settingsFrame :=
  {| MaxFieldSectionSize := -1; Datagram := false; ExtendedConnect := false; Other := ∅ |}.
Definition none_seen : settings_seen := {| seen_max := false; seen_connect := false; seen_datagram := false |}.

Definition parseSettingsFrame (r : reader) (l : Z) : result h3_error h3_frame * reader :=
  if l >? maxSettingsFrameSize then (Err UnexpectedSettingsSize, r)
  else match read_full l r with
  | (Err e, r) => (Err e, r)
  | (Ok buf, r) =>
    (let? f := settings_loop (length buf) (mkReader buf EOF) no_settings none_seen in Ok (SettingsFrame f), r)
  end.

(** [settingsFrame.Append]; [order1] and [order2] are the orders in which the two
loops visit [Other].  [None] is a panic. *)
Fixpoint others_len (order : list (Z * Z)) (l : Z) : option Z :=
  match order with
  | [] => Some l
  | (id, val) :: order => x ← Len id; y ← Len val; others_len order (l + (x + y))
  end.
Fixpoint append_pairs (b : list Z) (ps : list (Z * Z)) : option (list Z) :=
  match ps with
  | [] => Some b
  | (id, val) :: ps => b ← Quicvarint.Append b id; b ← Quicvarint.Append b val; append_pairs b ps
  end.

(** The settings the frame names itself. *)
Definition max_pairs (f : settingsFrame) : list (Z * Z) :=
  if MaxFieldSectionSize f >=? 0 then [(settingMaxFieldSectionSize, MaxFieldSectionSize f)] else [].
Definition known_pairs (f : settingsFrame) : list (Z * Z) :=
  max_pairs f ++ (if Datagram f then [(settingDatagram, 1)] else []) ++ (if ExtendedConnect f then [(settingExtendedConnect, 1)] else []).

Definition settings_Append (f : settingsFrame) (order1 order2 : list (Z * Z)) (b : list Z) : option (list Z) :=
  b ← Quicvarint.Append b 0x4;
  l ← others_len (max_pairs f) 0;
  l ← others_len order1 l;
  l ← (if Datagram f then x ← Len settingDatagram; y ← Len 1; Some (l + (x + y)) else Some l);
  l ← (if ExtendedConnect f then x ← Len settingExtendedConnect; y ← Len 1; Some (l + (x + y)) else Some l);
  b ← Quicvarint.Append b (u64 l);
  b ← append_pairs b (known_pairs f);
  append_pairs b order2.

(** ** The other frames *)

Definition parseGoAwayFrame (r : reader) (l : Z) : result h3_error h3_frame * reader :=
  match read_varint r with
  | (Err e, r') => (Err e, r')
  | (Ok id, r') =>
    if negb (len (rd_avail r) - len (rd_avail r') =? l) then (Err InconsistentGoAway, r')
    else (Ok (goAwayFrame id), r')
  end.
Definition goaway_Append (id : Z) (b : list Z) : option (list Z) :=
  b ← Quicvarint.Append b 0x7; n ← Len id; b ← Quicvarint.Append b n; Quicvarint.Append b id.

Definition parsePriorityUpdateFrame (r : reader) (l : Z) : result h3_error h3_frame * reader :=
  if l >? maxPriorityUpdateFrameSize then (Err UnexpectedPrioritySize, r)
  else match read_full l r with
  | (Err e, r) => (Err e, r)
  | (Ok buf, r) =>
    match Parse buf with
    | Err e => (Err (H3IO e), r)
    | Ok (id, n) => (Ok (priorityUpdateFrame id (drop (Z.to_nat n) buf)), r)
    end
  end.

Definition data_Append (n : Z) (b : list Z) : option (list Z) := b ← Quicvarint.Append b 0x0; Quicvarint.Append b n.
Definition headers_Append (n : Z) (b : list Z) : option (list Z) := b ← Quicvarint.Append b 0x1; Quicvarint.Append b n.

(** [frameParser.ParseNext].  Frames without a meaning here are skipped; each has a
byte at least, so the length of the stream bounds the rounds, and [None], out of
fuel, never happens.  A reserved type also closes the connection, with
[H3_FRAME_UNEXPECTED]. *)
Fixpoint parse_next (fuel : nat) (r : reader) : option (result h3_error h3_frame * reader) :=
  match fuel with
  | O => None
  | S fuel =>
    match read_varint r with
    | (Err e, r') => Some (Err e, r')
    | (Ok t, r1) =>
      match read_varint r1 with
      | (Err e, r') => Some (Err e, r')
      | (Ok l, r2) =>
        if t =? 0x0 then Some (Ok (dataFrame l), r2)
        else if t =? 0x1 then Some (Ok (headersFrame l (len (rd_avail r) - len (rd_avail r2))), r2)
        else if t =? 0x4 then Some (parseSettingsFrame r2 l)
        else if t =? 0x7 then Some (parseGoAwayFrame r2 l)
        else if t =? 0xf0700 then Some (parsePriorityUpdateFrame r2 l)
        else if t =? 0xf0701 then Some (Err PriorityUpdateForPush, r2)
        else if (t =? 0x2) || (t =? 0x6) || (t =? 0x8) || (t =? 0x9) then Some (Err ReservedFrame, r2)
        else match skip l r2 with
        | (Err e, r') => Some (Err e, r')
        | (Ok _, r') => parse_next fuel r'
        end
      end
    end
  end.
Definition ParseNext (r : reader) : option (result h3_error h3_frame * reader) := parse_next (S (length (rd_avail r))) r.

(** ** A connection and the streams of its peer *)

Definition streamTypeControlStream : Z := 0.
Definition streamTypePushStream : Z := 1.
Definition streamTypeQPACKEncoderStream : Z := 2.
Definition streamTypeQPACKDecoderStream : Z := 3.

Definition ErrCodeNoError : Z := 0x100.
Definition ErrCodeStreamCreationError : Z := 0x103.
Definition ErrCodeClosedCriticalStream : Z := 0x104.
Definition ErrCodeFrameUnexpected : Z := 0x105.
Definition ErrCodeFrameError : Z := 0x106.
Definition ErrCodeIDError : Z := 0x108.
Definition ErrCodeSettingsError : Z := 0x109.
Definition ErrCodeMissingSettings : Z := 0x10a.

Record Settings := {
  EnableDatagrams : bool;
  EnableExtendedConnect : bool;
  OtherSettings : gmap Z Z;
}.

(** The fields of [rawConn] that these functions use; [closes] are the codes of
the calls of [CloseWithError], of which the first takes effect. *)
Record h3_conn := {
  isServer : bool;
  enableDatagrams : bool;
  rcvdControlStr : bool;
  rcvdQPACKEncoderStr : bool;
  rcvdQPACKDecoderStr : bool;
  settings : option Settings;
  receivedSettings : bool;      (** the channel is closed *)
  receiving : nat;              (** goroutines in [receiveDatagrams] *)
  cancelled : nat;              (** streams whose reading was cancelled *)
  priorityUpdates : list (Z * (Z * bool));  (** calls of [UpdateStreamPriority] *)
  maxStreamID : option Z;       (** of a client, after a GOAWAY *)
  closes : list Z;
}.

Definition newRawConn (server datagrams : bool) : h3_conn :=
  {| isServer := server; enableDatagrams := datagrams; rcvdControlStr := false; rcvdQPACKEncoderStr := false;
     rcvdQPACKDecoderStr := false; settings := None; receivedSettings := false; receiving := 0; cancelled := 0;
     priorityUpdates := []; maxStreamID := None; closes := [] |}.

Definition CloseWithError (c : h3_conn) (code : Z) : h3_conn :=
  {| isServer := isServer c; enableDatagrams := enableDatagrams c; rcvdControlStr := rcvdControlStr c;
     rcvdQPACKEncoderStr := rcvdQPACKEncoderStr c; rcvdQPACKDecoderStr := rcvdQPACKDecoderStr c; settings := settings c;
     receivedSettings := receivedSettings c; receiving := receiving c; cancelled := cancelled c;
     priorityUpdates := priorityUpdates c; maxStreamID := maxStreamID c; closes := closes c ++ [code] |}.
Definition set_rcvd (c : h3_conn) (control encoder decoder : bool) : h3_conn :=
  {| isServer := isServer c; enableDatagrams := enableDatagrams c; rcvdControlStr := control;
     rcvdQPACKEncoderStr := encoder; rcvdQPACKDecoderStr := decoder; settings := settings c;
     receivedSettings := receivedSettings c; receiving := receiving c; cancelled := cancelled c;
     priorityUpdates := priorityUpdates c; maxStreamID := maxStreamID c; closes := closes c |}.
Definition cancel_read (c : h3_conn) : h3_conn :=
  {| isServer := isServer c; enableDatagrams := enableDatagrams c; rcvdControlStr := rcvdControlStr c;
     rcvdQPACKEncoderStr := rcvdQPACKEncoderStr c; rcvdQPACKDecoderStr := rcvdQPACKDecoderStr c; settings := settings c;
     receivedSettings := receivedSettings c; receiving := receiving c; cancelled := S (cancelled c);
     priorityUpdates := priorityUpdates c; maxStreamID := maxStreamID c; closes := closes c |}.
Definition set_settings (c : h3_conn) (s : Settings) : h3_conn :=
  {| isServer := isServer c; enableDatagrams := enableDatagrams c; rcvdControlStr := rcvdControlStr c;
     rcvdQPACKEncoderStr := rcvdQPACKEncoderStr c; rcvdQPACKDecoderStr := rcvdQPACKDecoderStr c; settings := Some s;
     receivedSettings := true; receiving := receiving c; cancelled := cancelled c;
     priorityUpdates := priorityUpdates c; maxStreamID := maxStreamID c; closes := closes c |}.
Definition start_receiving (c : h3_conn) : h3_conn :=
  {| isServer := isServer c; enableDatagrams := enableDatagrams c; rcvdControlStr := rcvdControlStr c;
     rcvdQPACKEncoderStr := rcvdQPACKEncoderStr c; rcvdQPACKDecoderStr := rcvdQPACKDecoderStr c; settings := settings c;
     receivedSettings := receivedSettings c; receiving := S (receiving c); cancelled := cancelled c;
     priorityUpdates := priorityUpdates c; maxStreamID := maxStreamID c; closes := closes c |}.
Definition add_priority (c : h3_conn) (id urgency : Z) (incremental : bool) : h3_conn :=
  {| isServer := isServer c; enableDatagrams := enableDatagrams c; rcvdControlStr := rcvdControlStr c;
     rcvdQPACKEncoderStr := rcvdQPACKEncoderStr c; rcvdQPACKDecoderStr := rcvdQPACKDecoderStr c; settings := settings c;
     receivedSettings := receivedSettings c; receiving := receiving c; cancelled := cancelled c;
     priorityUpdates := priorityUpdates c ++ [(id, (urgency, incremental))]; maxStreamID := maxStreamID c; closes := closes c |}.
Definition set_maxStreamID (c : h3_conn) (id : Z) : h3_conn :=
  {| isServer := isServer c; enableDatagrams := enableDatagrams c; rcvdControlStr := rcvdControlStr c;
     rcvdQPACKEncoderStr := rcvdQPACKEncoderStr c; rcvdQPACKDecoderStr := rcvdQPACKDecoderStr c; settings := settings c;
     receivedSettings := receivedSettings c; receiving := receiving c; cancelled := cancelled c;
     priorityUpdates := priorityUpdates c; maxStreamID := Some id; closes := closes c |}.

(** A stream that was reset ends with an [ErrIO]; so does one of a connection that
is gone, where closing it has no effect any more.  [push] is the code for a
PRIORITY_UPDATE of a push stream. *)
Definition parse_failure (push : Z) (e : h3_error) : Z :=
  match e with
  | PriorityUpdateForPush => push
  | H3IO EOF | H3IO (ErrIO _) => ErrCodeClosedCriticalStream
  | _ => ErrCodeFrameError
  end.
(** The parser's own call of [closeConn]. *)
Definition parser_closes (c : h3_conn) (e : h3_error) : h3_conn :=
  match e with
  | ReservedFrame => CloseWithError c ErrCodeFrameUnexpected
  | _ => c
  end.

(** [RawServerConn.handleControlStream]; [priorityAware] is set with the first
update. *)
Fixpoint server_control (fuel : nat) (c : h3_conn) (r : reader) : option h3_conn :=
  match fuel with
  | O => None
  | S fuel =>
    '(f, r) ← ParseNext r;
    match f with
    | Err e => Some (CloseWithError (parser_closes c e) (parse_failure ErrCodeIDError e))
    | Ok (priorityUpdateFrame id value) =>
      if negb (id mod 4 =? 0) then Some (CloseWithError c ErrCodeIDError)
      else '(urgency, incremental) ← parsePriority value; server_control fuel (add_priority c id urgency incremental) r
    | Ok (goAwayFrame _) => server_control fuel c r
    | Ok _ => Some (CloseWithError c ErrCodeFrameUnexpected)
    end
  end.

(** [ClientConn.handleControlStream]; [active] says whether requests are active
when a GOAWAY was read, given the bytes behind it. *)
Fixpoint client_control (fuel : nat) (active : nat -> bool) (c : h3_conn) (r : reader) : option h3_conn :=
  match fuel with
  | O => None
  | S fuel =>
    '(f, r) ← ParseNext r;
    match f with
    | Err e => Some (CloseWithError (parser_closes c e) (parse_failure ErrCodeFrameUnexpected e))
    | Ok (goAwayFrame id) =>
      if negb (id mod 4 =? 0) then Some (CloseWithError c ErrCodeIDError)
      else if match maxStreamID c with Some m => id >? m | None => false end then Some (CloseWithError c ErrCodeIDError)
      else
        let c := set_maxStreamID c id in
        if negb (active (length (rd_avail r))) then Some (CloseWithError c ErrCodeNoError) else client_control fuel active c r
    | Ok _ => Some (CloseWithError c ErrCodeFrameUnexpected)
    end
  end.

(** What the rest of the world decides: QUIC's datagram support of the peer, and
whether requests are active. *)
Record h3_env := {
  SupportsDatagrams_Remote : bool;
  requests_active : nat -> bool;
}.

(** [rawConn.handleControlStream]; [None] is the panic of closing a closed channel. *)
Definition handleControlStream (env : h3_env) (c : h3_conn) (r : reader) : option h3_conn :=
  '(f, r) ← ParseNext r;
  match f with
  | Err e => Some (CloseWithError (parser_closes c e) (parse_failure ErrCodeMissingSettings e))
  | Ok (SettingsFrame sf) =>
    if receivedSettings c then None
    else
      let c := set_settings c {| EnableDatagrams := Datagram sf; EnableExtendedConnect := ExtendedConnect sf; OtherSettings := Other sf |} in
      let continue c :=
        let fuel := S (length (rd_avail r)) in
        if isServer c then server_control fuel c r else client_control fuel (requests_active env) c r in
      if Datagram sf then
        if enableDatagrams c && negb (SupportsDatagrams_Remote env) then Some (CloseWithError c ErrCodeSettingsError)
        else continue (start_receiving c)
      else continue c
  | Ok _ => Some (CloseWithError c ErrCodeMissingSettings)
  end.

(** [rawConn.handleUnidirectionalStream]: the compare-and-swaps let one stream of
each kind through. *)
Definition handleUnidirectionalStream (env : h3_env) (c : h3_conn) (str : reader) : option h3_conn :=
  match Quicvarint.Read str with
  | (Err _, _) => Some c
  | (Ok streamType, r) =>
    if streamType =? streamTypeControlStream then
      if rcvdControlStr c then Some (CloseWithError c ErrCodeStreamCreationError)
      else handleControlStream env (set_rcvd c true (rcvdQPACKEncoderStr c) (rcvdQPACKDecoderStr c)) r
    else if streamType =? streamTypeQPACKEncoderStream then
      Some (if rcvdQPACKEncoderStr c then CloseWithError c ErrCodeStreamCreationError
            else set_rcvd c (rcvdControlStr c) true (rcvdQPACKDecoderStr c))
    else if streamType =? streamTypeQPACKDecoderStream then
      Some (if rcvdQPACKDecoderStr c then CloseWithError c ErrCodeStreamCreationError
            else set_rcvd c (rcvdControlStr c) (rcvdQPACKEncoderStr c) true)
    else if streamType =? streamTypePushStream then
      Some (CloseWithError c (if isServer c then ErrCodeStreamCreationError else ErrCodeIDError))
    else Some (cancel_read c)
  end.

(** [openControlStream]: the bytes written on the new stream. *)
Definition openControlStream (f : settingsFrame) (order1 order2 : list (Z * Z)) : option (list Z) :=
  b ← Quicvarint.Append [] streamTypeControlStream; settings_Append f order1 order2 b.

(** The settings a server and a client announce. *)
Definition DefaultMaxHeaderBytes : Z := 1048576.
Definition Server_maxHeaderBytes (MaxHeaderBytes : Z) : Z := if MaxHeaderBytes <=? 0 then DefaultMaxHeaderBytes else MaxHeaderBytes.
Definition Server_settings (MaxHeaderBytes : Z) (EnableDatagrams : bool) (AdditionalSettings : gmap Z Z) : settingsFrame :=
  {| MaxFieldSectionSize := Server_maxHeaderBytes MaxHeaderBytes; Datagram := EnableDatagrams; ExtendedConnect := true; Other := AdditionalSettings |}.
Definition defaultMaxResponseHeaderBytes : Z := 10485760.
Definition client_settings (maxResponseHeaderBytes : Z) (enableDatagrams : bool) (additionalSettings : gmap Z Z) : settingsFrame :=
  {| MaxFieldSectionSize := if maxResponseHeaderBytes <=? 0 then defaultMaxResponseHeaderBytes else maxResponseHeaderBytes;
     Datagram := enableDatagrams; ExtendedConnect := false; Other := additionalSettings |}.

(** ** The parser ends, on every stream of bytes *)

Definition shorter (r' r : reader) : Prop :=
  is_bytes (rd_avail r') /\ (length (rd_avail r') < length (rd_avail r))%nat /\ rd_end r' = rd_end r.

Lemma read_varint_ok r v r' : is_bytes (rd_avail r) -> read_varint r = (Ok v, r') -> is_varint v /\ shorter r' r.
Proof.
  destruct r as [b e]. intros Hb. unfold read_varint. pose proof (Read_as_Parse b e Hb) as H. cbn in Hb.
  destruct (Parse b) as [[w n]|].
  - destruct H as (H1 & H2 & ->). intros [= <- <-]. split; [done|]. unfold shorter. cbn. split_and!; [by apply Forall_drop| |done].
    rewrite length_drop. unfold len in H2. lia.
  - rewrite H. done.
Qed.

Lemma skip_ok l r r' : is_bytes (rd_avail r) -> skip l r = (Ok tt, r') ->
  is_bytes (rd_avail r') /\ (length (rd_avail r') <= length (rd_avail r))%nat /\ rd_end r' = rd_end r.
Proof.
  intros Hb. unfold skip. destruct (_ <=? _); [|done]. intros [= <-]. cbn. split_and!; [by apply Forall_drop| |done].
  rewrite length_drop. lia.
Qed.

Lemma read_full_ok l r buf r' : is_bytes (rd_avail r) -> read_full l r = (Ok buf, r') ->
  is_bytes (rd_avail r') /\ (length (rd_avail r') <= length (rd_avail r))%nat /\ rd_end r' = rd_end r.
Proof.
  intros Hb. unfold read_full. destruct (_ <=? _); [|done]. intros [= <- <-]. cbn. split_and!; [by apply Forall_drop| |done].
  rewrite length_drop. lia.
Qed.

Lemma parse_next_ok fuel r : is_bytes (rd_avail r) -> (length (rd_avail r) < fuel)%nat ->
  exists f r', parse_next fuel r = Some (f, r') /\ forall x, f = Ok x -> shorter r' r.
Proof.
  revert r. induction fuel as [|fuel IH]; intros r Hb Hf; [lia|]. cbn [parse_next].
  destruct (read_varint r) as [[t|e] r1] eqn:E1; [|by eexists _, _].
  destruct (read_varint_ok _ _ _ Hb E1) as [_ (B1 & L1 & N1)].
  destruct (read_varint r1) as [[l|e] r2] eqn:E2; [|by eexists _, _].
  destruct (read_varint_ok _ _ _ B1 E2) as [_ (B2 & L2 & N2)].
  assert (shorter r2 r) as H2 by (split_and!; [done|lia|congruence]).
  assert (forall r', is_bytes (rd_avail r') /\ (length (rd_avail r') <= length (rd_avail r2))%nat /\ rd_end r' = rd_end r2 -> shorter r' r) as Hlate
    by (intros r' (A1 & A2 & A3); split_and!; [done|lia|congruence]).
  split_if; [by eexists _, _|]. split_if; [by eexists _, _|]. split_if.
  { eexists _, _. split; [f_equal; apply surjective_pairing|]. unfold parseSettingsFrame. split_if; [done|].
    destruct (read_full l r2) as [[buf|] r'] eqn:Ef; [|done]. cbn. intros x _. by eapply Hlate, read_full_ok. }
  split_if.
  { eexists _, _. split; [f_equal; apply surjective_pairing|]. unfold parseGoAwayFrame.
    destruct (read_varint r2) as [[id|] r'] eqn:Ef; [|done]. destruct (read_varint_ok _ _ _ B2 Ef) as [_ (A1 & A2 & A3)].
    split_if; [done|]. intros x _. apply Hlate. split_and!; [done|cbn; lia|done]. }
  split_if.
  { eexists _, _. split; [f_equal; apply surjective_pairing|]. unfold parsePriorityUpdateFrame. split_if; [done|].
    destruct (read_full l r2) as [[buf|] r'] eqn:Ef; [|done]. destruct (Parse buf) as [[id n]|]; [|done]. cbn. intros x _.
    by eapply Hlate, read_full_ok. }
  split_if; [by eexists _, _|]. split_if; [by eexists _, _|].
  destruct (skip l r2) as [[[]|] r3] eqn:E3; [|by eexists _, _]. destruct (skip_ok _ _ _ B2 E3) as (B3 & L3 & N3).
  destruct (IH r3 B3 ltac:(lia)) as (f & r' & -> & Hs). exists f, r'. split; [done|]. intros x Hx. specialize (Hs x Hx).
  apply Hlate. destruct Hs as (A1 & A2 & A3). split_and!; [done|lia|congruence].
Qed.

Lemma ParseNext_ok r : is_bytes (rd_avail r) -> exists f r', ParseNext r = Some (f, r') /\ forall x, f = Ok x -> shorter r' r.
Proof. intros Hb. apply parse_next_ok; [done|lia]. Qed.

(** The settings loop ends before its fuel does. *)
Lemma settings_loop_fuel fuel b f seen : is_bytes (rd_avail b) -> (length (rd_avail b) <= fuel)%nat ->
  settings_loop fuel b f seen = settings_loop (length (rd_avail b)) b f seen.
Proof.
  remember (length (rd_avail b)) as n eqn:En. revert b f seen fuel En. induction (lt_wf n) as [n _ IH]. intros b f seen fuel En Hb Hf.
  destruct (rd_avail b) as [|x rest] eqn:Eb; [destruct fuel, n; cbn; by rewrite Eb|].
  destruct fuel as [|fuel]; [cbn in En; lia|]. destruct n as [|n]; [done|]. cbn [settings_loop]. rewrite Eb.
  destruct (read_varint b) as [[id|] b1] eqn:E1; [|done].
  destruct (read_varint_ok b id b1 ltac:(by rewrite Eb) E1) as [_ (B1 & L1 & _)].
  destruct (read_varint b1) as [[val|] b2] eqn:E2; [|done]. destruct (read_varint_ok _ _ _ B1 E2) as [_ (B2 & L2 & _)].
  destruct (one_setting id val f seen) as [[f' seen']|]; [|done]. cbn [result_bind]. rewrite Eb in L1. cbn in *.
  rewrite (IH (length (rd_avail b2))) by (done || lia). symmetry. apply IH; (done || lia).
Qed.

(** ** A connection never panics *)

(** Priorities are set for request streams, within their range. *)
Definition update_ok (p : Z * (Z * bool)) : Prop := fst p mod 4 = 0 /\ 0 <= fst (snd p) <= 7.

(** What a stream that is handled does not change, and what follows from it. *)
Definition same_negotiation (c c' : h3_conn) : Prop :=
  isServer c' = isServer c /\ rcvdControlStr c' = rcvdControlStr c /\ settings c' = settings c
  /\ receivedSettings c' = receivedSettings c /\ receiving c' = receiving c
  /\ (Forall update_ok (priorityUpdates c) -> Forall update_ok (priorityUpdates c')) /\ exists more, closes c' = closes c ++ more.

Lemma same_negotiation_refl c : same_negotiation c c.
Proof. do 5 (split; [done|]). split; [done|]. exists []. by rewrite app_nil_r. Qed.
(** A change of other fields. *)
Ltac other_fields := do 6 (split; [done|]); exists []; by rewrite app_nil_r.

Lemma same_negotiation_trans c1 c2 c3 : same_negotiation c1 c2 -> same_negotiation c2 c3 -> same_negotiation c1 c3.
Proof.
  intros (A1 & A2 & A3 & A4 & A5 & Ap & m1 & A6) (B1 & B2 & B3 & B4 & B5 & Bp & m2 & B6).
  do 5 (split; [congruence|]). split; [auto|]. exists (m1 ++ m2). by rewrite B6, A6, app_assoc.
Qed.
Lemma same_negotiation_close c code : same_negotiation c (CloseWithError c code).
Proof. do 6 (split; [done|]). by exists [code]. Qed.
Lemma same_negotiation_failure c e code : same_negotiation c (CloseWithError (parser_closes c e) code).
Proof. eapply same_negotiation_trans; [|apply same_negotiation_close]. destruct e; try apply same_negotiation_refl. apply same_negotiation_close. Qed.

Lemma server_control_total fuel c r : is_bytes (rd_avail r) -> (length (rd_avail r) < fuel)%nat ->
  exists c', server_control fuel c r = Some c' /\ same_negotiation c c'.
Proof.
  revert c r. induction fuel as [|fuel IH]; intros c r Hb Hf; [lia|]. cbn [server_control].
  destruct (ParseNext_ok r Hb) as (f & r' & -> & Hs). cbn [mbind option_bind].
  destruct f as [fr|e]; [|eexists; split; [done|apply same_negotiation_failure]]. destruct (Hs fr eq_refl) as (B' & L' & _).
  destruct fr as [n|n h|s|id|id v]; try (eexists; split; [done|apply same_negotiation_close]).
  - destruct (IH c r' B' ltac:(lia)) as (c' & -> & H). by exists c'.
  - split_if; [eexists; split; [done|apply same_negotiation_close]|].
    rewrite parsePriority_reference. cbn [mbind option_bind]. pose proof (priority_of_urgency v) as Hu. destruct (priority_of v) as [u inc].
    destruct (IH (add_priority c id u inc) r' B' ltac:(lia)) as (c' & -> & H). exists c'. split; [done|].
    eapply same_negotiation_trans; [|exact H]. do 5 (split; [done|]). split; [|exists []; by rewrite app_nil_r].
    intros Hok. apply Forall_app. split; [done|]. repeat constructor; cbn in *; lia.
Qed.

Lemma client_control_total fuel active c r : is_bytes (rd_avail r) -> (length (rd_avail r) < fuel)%nat ->
  exists c', client_control fuel active c r = Some c' /\ same_negotiation c c'.
Proof.
  revert c r. induction fuel as [|fuel IH]; intros c r Hb Hf; [lia|]. cbn [client_control].
  destruct (ParseNext_ok r Hb) as (f & r' & -> & Hs). cbn [mbind option_bind].
  destruct f as [fr|e]; [|eexists; split; [done|apply same_negotiation_failure]]. destruct (Hs fr eq_refl) as (B' & L' & _).
  destruct fr as [n|n h|s|id|id v]; try (eexists; split; [done|apply same_negotiation_close]).
  do 2 (split_if; [eexists; split; [done|apply same_negotiation_close]|]). cbv zeta.
  assert (same_negotiation c (set_maxStreamID c id)) as Hm by other_fields.
  split_if; [eexists; split; [done|]; eapply same_negotiation_trans; [exact Hm|apply same_negotiation_close]|].
  destruct (IH (set_maxStreamID c id) r' B' ltac:(lia)) as (c' & -> & H). exists c'. split; [done|].
  exact (same_negotiation_trans _ _ _ Hm H).
Qed.

(** What the connection keeps true of its negotiation. *)
Record h3_ok (c : h3_conn) : Prop := {
  ok_channel : receivedSettings c = true <-> is_Some (settings c);
  ok_control : receivedSettings c = true -> rcvdControlStr c = true;
  ok_receiving : receiving c = match settings c with Some s => if EnableDatagrams s then receiving c else 0%nat | None => 0%nat end;
  ok_one : (receiving c <= 1)%nat;
  ok_updates : Forall update_ok (priorityUpdates c);
}.

Lemma same_ok c c' : same_negotiation c c' -> h3_ok c -> h3_ok c'.
Proof. intros (A1 & A2 & A3 & A4 & A5 & Ap & _) [H1 H2 H3 H4 H5]. constructor; rewrite ?A2, ?A3, ?A4, ?A5; auto. Qed.

Lemma handleControlStream_ok env c r : is_bytes (rd_avail r) -> h3_ok c -> receivedSettings c = false ->
  rcvdControlStr c = true -> exists c', handleControlStream env c r = Some c' /\ h3_ok c' /\ rcvdControlStr c' = true.
Proof.
  intros Hb Hok Hrs Hrc. unfold handleControlStream. destruct (ParseNext_ok r Hb) as (f & r' & -> & Hs). cbn [mbind option_bind].
  assert (settings c = None) as Hset.
  { destruct Hok as [H1 _ _ _ _]. destruct (settings c); [|done]. rewrite (proj2 H1) in Hrs; [done|by eexists]. }
  assert (receiving c = 0%nat) as Hre by (destruct Hok as [_ _ H3 _ _]; by rewrite Hset in H3).
  assert (forall c', same_negotiation c c' -> exists c'', Some c' = Some c'' /\ h3_ok c'' /\ rcvdControlStr c'' = true) as Hsame.
  { intros c' H. exists c'. split; [done|]. split; [by eapply same_ok|]. destruct H as (_ & -> & _). done. }
  destruct f as [fr|e]; [|apply Hsame, same_negotiation_failure]. destruct (Hs fr eq_refl) as (B' & L' & _).
  destruct fr as [n|n h|sf|id|id v]; try apply Hsame, same_negotiation_close.
  rewrite Hrs. cbv zeta. set (c1 := set_settings _ _).
  assert (forall c2, h3_ok c2 -> rcvdControlStr c2 = true ->
    exists c', (if isServer c2 then server_control (S (length (rd_avail r'))) c2 r'
                else client_control (S (length (rd_avail r'))) (requests_active env) c2 r') = Some c'
      /\ h3_ok c' /\ rcvdControlStr c' = true) as Hcont.
  { intros c2 Hok2 Hr2. destruct (isServer c2).
    - destruct (server_control_total (S (length (rd_avail r'))) c2 r' B' ltac:(lia)) as (c' & -> & H). exists c'. split; [done|].
      split; [by eapply same_ok|]. destruct H as (_ & -> & _). done.
    - destruct (client_control_total (S (length (rd_avail r'))) (requests_active env) c2 r' B' ltac:(lia)) as (c' & -> & H). exists c'. split; [done|].
      split; [by eapply same_ok|]. destruct H as (_ & -> & _). done. }
  assert (h3_ok c1) as Hok1.
  { unfold c1. constructor; cbn; [split; [by eexists|done]|done|rewrite Hre; by destruct (Datagram sf)|rewrite Hre; lia|by destruct Hok]. }
  destruct (Datagram sf) eqn:Ed; [|by apply Hcont].
  split_if; [eexists; split; [done|]; split; [by eapply same_ok; [apply same_negotiation_close|]|done]|].
  apply Hcont; [|done]. unfold c1. constructor; cbn; [split; [by eexists|done]|done|done|rewrite Hre; lia|by destruct Hok].
Qed.

Lemma handleUni_ok env c r : is_bytes (rd_avail r) -> h3_ok c ->
  exists c', handleUnidirectionalStream env c r = Some c' /\ h3_ok c' /\ (rcvdControlStr c = true -> rcvdControlStr c' = true).
Proof.
  intros Hb Hok. unfold handleUnidirectionalStream. pose proof (Read_as_Parse _ (rd_end r) Hb) as Hp. destruct r as [b e]. cbn [rd_avail rd_end] in *.
  destruct (Parse b) as [[t n]|].
  2:{ rewrite Hp. by exists c. }
  destruct Hp as (_ & _ & ->). set (r' := mkReader _ _). assert (is_bytes (rd_avail r')) as Hb' by by apply Forall_drop.
  assert (forall c', same_negotiation c c' -> exists c'', Some c' = Some c'' /\ h3_ok c'' /\ (rcvdControlStr c = true -> rcvdControlStr c'' = true)) as Hsame.
  { intros c' H. exists c'. split; [done|]. split; [by eapply same_ok|]. destruct H as (_ & -> & _). done. }
  split_if.
  { destruct (rcvdControlStr c) eqn:Ec; [apply Hsame, same_negotiation_close|].
    assert (receivedSettings c = false) as Hrs.
    { destruct (receivedSettings c) eqn:E; [|done]. destruct Hok as [_ H2 _ _ _]. rewrite H2 in Ec; done. }
    destruct (handleControlStream_ok env (set_rcvd c true (rcvdQPACKEncoderStr c) (rcvdQPACKDecoderStr c)) r' Hb') as (c' & -> & H1 & H2); try done.
    - destruct Hok. by constructor.
    - by exists c'. }
  split_if; [destruct (rcvdQPACKEncoderStr c); apply Hsame; [apply same_negotiation_close|other_fields]|].
  split_if; [destruct (rcvdQPACKDecoderStr c); apply Hsame; [apply same_negotiation_close|other_fields]|].
  split_if; [apply Hsame, same_negotiation_close|]. apply Hsame. other_fields.
Qed.

(** The streams of the peer, in the order they are accepted. *)
Fixpoint handle_streams (env : h3_env) (c : h3_conn) (streams : list reader) : option h3_conn :=
  match streams with
  | [] => Some c
  | s :: streams => c ← handleUnidirectionalStream env c s; handle_streams env c streams
  end.

Lemma handle_streams_ok env c streams : Forall (fun s => is_bytes (rd_avail s)) streams -> h3_ok c ->
  exists c', handle_streams env c streams = Some c' /\ h3_ok c'.
Proof.
  intros Hb. revert c. induction Hb as [|s streams Hs _ IH]; intros c Hok; [by exists c|]. cbn.
  destruct (handleUni_ok env c s Hs Hok) as (c' & -> & Hok' & _). cbn. by apply IH.
Qed.

(** ** SETTINGS survive the wire *)

Fixpoint pairs_enc (ps : list (Z * Z)) : list Z :=
  match ps with
  | [] => []
  | (id, val) :: ps => venc id ++ venc val ++ pairs_enc ps
  end.
Definition pairs_ok (ps : list (Z * Z)) : Prop := Forall (fun p => is_varint (fst p) /\ is_varint (snd p)) ps.

Lemma pairs_enc_bytes ps : is_bytes (pairs_enc ps).
Proof. induction ps as [|[id val] ps IH]; cbn; [constructor|]. repeat (apply Forall_app; split); try apply venc_bytes. done. Qed.
Lemma pairs_enc_app ps qs : pairs_enc (ps ++ qs) = pairs_enc ps ++ pairs_enc qs.
Proof. induction ps as [|[id val] ps IH]; cbn; [done|]. by rewrite IH, <- !app_assoc. Qed.
Lemma pairs_enc_perm ps qs : ps ≡ₚ qs -> len (pairs_enc ps) = len (pairs_enc qs).
Proof. induction 1 as [|[] ? ? _ IH|[] [] ?|? ? ? _ IH1 _ IH2]; cbn [pairs_enc]; rewrite ?len_app; lia. Qed.

Lemma append_pairs_enc b ps : pairs_ok ps -> append_pairs b ps = Some (b ++ pairs_enc ps).
Proof.
  intros Hp. revert b. induction Hp as [|[id val] ps [H1 H2] _ IH]; intros b; cbn [append_pairs pairs_enc]; [by rewrite app_nil_r|].
  do 2 (rewrite Append_venc by done; cbn [mbind option_bind]). rewrite IH. by rewrite <- !app_assoc.
Qed.
Lemma others_len_enc ps l : pairs_ok ps -> others_len ps l = Some (l + len (pairs_enc ps)).
Proof.
  intros Hp. revert l. induction Hp as [|[id val] ps [H1 H2] _ IH]; intros l; cbn [others_len pairs_enc];
    [change (len (@nil Z)) with 0; f_equal; lia|].
  do 2 (rewrite Len_vlen by done; cbn [mbind option_bind]). rewrite IH, !len_app. unfold vlen. f_equal. lia.
Qed.

(** The loop applies the settings one by one. *)
Fixpoint apply_pairs (ps : list (Z * Z)) (f : settingsFrame) (seen : settings_seen) : result h3_error (settingsFrame * settings_seen) :=
  match ps with
  | [] => Ok (f, seen)
  | (id, val) :: ps => let? (f, seen) := one_setting id val f seen in apply_pairs ps f seen
  end.

Lemma apply_pairs_app ps qs f seen :
  apply_pairs (ps ++ qs) f seen = let? (f, seen) := apply_pairs ps f seen in apply_pairs qs f seen.
Proof.
  revert f seen. induction ps as [|[id val] ps IH]; intros f seen; [done|]. cbn [app apply_pairs].
  destruct (one_setting id val f seen) as [[f' seen']|]; cbn [result_bind]; [apply IH|done].
Qed.

Lemma settings_loop_pairs fuel ps f seen : pairs_ok ps -> (length ps <= fuel)%nat ->
  settings_loop fuel (mkReader (pairs_enc ps) EOF) f seen = let? (f, _) := apply_pairs ps f seen in Ok f.
Proof.
  intros Hp. revert fuel f seen. induction Hp as [|[id val] ps [H1 H2] _ IH]; intros fuel f seen Hf; [by destruct fuel|].
  destruct fuel as [|fuel]; [cbn in Hf; lia|]. cbn [settings_loop rd_avail pairs_enc apply_pairs]. cbn [fst snd] in H1, H2.
  pose proof (vlen_range id H1) as Hl. unfold vlen in Hl. destruct (venc id ++ venc val ++ pairs_enc ps) as [|x rest] eqn:E.
  { apply app_eq_nil in E as [E _]. rewrite E in Hl. change (len (@nil Z)) with 0 in Hl. lia. }
  rewrite <- E. unfold read_varint.
  rewrite Read_venc by (done || (apply Forall_app; split; [apply venc_bytes|apply pairs_enc_bytes])).
  rewrite Read_venc by (done || apply pairs_enc_bytes).
  destruct (one_setting id val f seen) as [[f' seen']|]; cbn [result_bind]; [|done]. apply IH. cbn in Hf. lia.
Qed.

(** Settings a peer can announce. *)
Record settings_wf (f : settingsFrame) : Prop := {
  wf_max : MaxFieldSectionSize f = -1 \/ is_varint (MaxFieldSectionSize f);
  wf_other : map_Forall (fun id val => is_varint id /\ is_varint val
    /\ id <> settingMaxFieldSectionSize /\ id <> settingExtendedConnect /\ id <> settingDatagram) (Other f);
}.

Lemma apply_known f : MaxFieldSectionSize f = -1 \/ is_varint (MaxFieldSectionSize f) ->
  exists seen, apply_pairs (known_pairs f) no_settings none_seen
    = Ok ({| MaxFieldSectionSize := MaxFieldSectionSize f; Datagram := Datagram f; ExtendedConnect := ExtendedConnect f; Other := ∅ |}, seen).
Proof.
  intros Hm. unfold known_pairs, max_pairs. assert (forall x, is_varint x -> i64 x = x) as Hi.
  { intros x Hx. unfold i64. unfold is_varint, maxVarInt8 in Hx. rewrite Z.mod_small by lia. lia. }
  destruct f as [m d x o]. cbn in *. destruct Hm as [-> | Hm].
  - destruct d, x; cbn; by eexists.
  - rewrite Z.geb_leb, (proj2 (Z.leb_le 0 m)) by (unfold is_varint in Hm; lia). destruct d, x; cbn; rewrite Hi by done; by eexists.
Qed.

Lemma apply_others ps f seen :
  Forall (fun p => fst p <> settingMaxFieldSectionSize /\ fst p <> settingExtendedConnect /\ fst p <> settingDatagram) ps ->
  NoDup (map fst ps) -> Forall (fun p => Other f !! fst p = None) ps ->
  exists o, apply_pairs ps f seen
    = Ok ({| MaxFieldSectionSize := MaxFieldSectionSize f; Datagram := Datagram f; ExtendedConnect := ExtendedConnect f; Other := o |}, seen)
    /\ o = list_to_map ps ∪ Other f.
Proof.
  intros Hs. revert f. induction Hs as [|[id val] ps (H1 & H2 & H3) _ IH]; intros f Hnd Hfr; cbn [apply_pairs].
  { exists (Other f). split; [by destruct f|]. cbn. by rewrite (left_id_L ∅ (∪)). }
  cbn [fst snd map] in *. apply list.NoDup_cons in Hnd as [Hn Hnd]. apply Forall_cons_iff in Hfr as [Hf Hfr]. cbn in Hf.
  unfold one_setting. rewrite !(proj2 (Z.eqb_neq _ _)) by done. rewrite Hf. cbn [result_bind].
  destruct (IH {| MaxFieldSectionSize := MaxFieldSectionSize f; Datagram := Datagram f; ExtendedConnect := ExtendedConnect f;
                  Other := <[id := val]> (Other f) |}) as (o & -> & ->); [done| |].
  - apply Forall_forall. intros [i v] Hin. cbn. rewrite Forall_forall in Hfr. rewrite lookup_insert_ne; [by apply (Hfr (i, v))|].
    intros <-. apply Hn. apply list_elem_of_In, in_map_iff. exists (id, v). split; [done|]. exact Hin.
  - eexists. split; [done|]. cbn. rewrite <- insert_union_r by (by apply not_elem_of_list_to_map_1). by rewrite insert_union_l.
Qed.

Section Wire.
  Context (f : settingsFrame) (order1 order2 : list (Z * Z)).
  Context (Hwf : settings_wf f) (Ho1 : order1 ≡ₚ map_to_list (Other f)) (Ho2 : order2 ≡ₚ map_to_list (Other f)).

Definition settings_payload : list Z := pairs_enc (known_pairs f ++ order2).

Lemma order_ok order : order ≡ₚ map_to_list (Other f) -> pairs_ok order.
Proof.
  intros Ho. apply Forall_forall. intros [id val] Hin%list_elem_of_In. rewrite Ho, elem_of_map_to_list in Hin. by destruct (wf_other f Hwf id val Hin) as (H1 & H2 & _).
Qed.

Lemma known_ok : pairs_ok (known_pairs f).
Proof.
  unfold known_pairs, max_pairs. assert (is_varint 1 /\ is_varint settingDatagram /\ is_varint settingExtendedConnect /\ is_varint settingMaxFieldSectionSize) as (H1 & H2 & H3 & H4)
    by (repeat split; discriminate).
  apply Forall_app. split; [|apply Forall_app; split].
  - destruct (_ >=? 0) eqn:E; [|constructor]. constructor; [|constructor]. split; [done|]. cbn. destruct (wf_max f Hwf) as [Hm|Hm]; [|done].
    rewrite Hm in E. discriminate E.
  - destruct (Datagram f); repeat constructor; discriminate.
  - destruct (ExtendedConnect f); repeat constructor; discriminate.
Qed.

Lemma settings_Append_enc b : len settings_payload <= maxSettingsFrameSize ->
  settings_Append f order1 order2 b = Some (b ++ venc 4 ++ venc (len settings_payload) ++ settings_payload).
Proof.
  intros Hl. unfold settings_Append. rewrite Append_venc by (split; discriminate). cbn [mbind option_bind].
  pose proof known_ok as Hk. unfold known_pairs in Hk. apply Forall_app in Hk as [Hmx _].
  rewrite others_len_enc by done. cbn [mbind option_bind]. rewrite (others_len_enc order1) by by apply order_ok. cbn [mbind option_bind].
  set (l0 := 0 + len (pairs_enc (max_pairs f)) + len (pairs_enc order1)).
  assert (exists l, (l1 ← (if Datagram f then x ← Len settingDatagram; y ← Len 1; Some (l0 + (x + y)) else Some l0);
    (if ExtendedConnect f then x ← Len settingExtendedConnect; y ← Len 1; Some (l1 + (x + y)) else Some l1)) = Some l
    /\ l = len settings_payload) as (l & Hll & El).
  { unfold settings_payload, known_pairs. rewrite !pairs_enc_app, !len_app, <- (pairs_enc_perm order1 order2) by (by rewrite Ho1, Ho2).
    destruct (Datagram f), (ExtendedConnect f); (eexists; split; [reflexivity|]); unfold l0; cbn -[pairs_enc max_pairs];
      change (len (pairs_enc [(settingDatagram, 1)])) with 2; change (len (pairs_enc [(settingExtendedConnect, 1)])) with 2;
      change (len (pairs_enc [])) with 0; lia. }
  destruct (if Datagram f then _ else _) as [l1|]; [|done]. cbn [mbind option_bind] in *. rewrite Hll. cbn [mbind option_bind]. rewrite El.
  pose proof (len_nonneg settings_payload). unfold maxSettingsFrameSize in Hl.
  assert (is_varint (len settings_payload)) as Hv by (unfold is_varint, maxVarInt8; lia).
  rewrite u64_small by (unfold is_u64; lia). rewrite Append_venc by done. cbn [mbind option_bind].
  rewrite append_pairs_enc by apply known_ok. cbn [mbind option_bind]. rewrite append_pairs_enc by by apply order_ok.
  unfold settings_payload. by rewrite pairs_enc_app, <- !app_assoc.
Qed.

Lemma settings_parse fuel : (length (known_pairs f ++ order2) <= fuel)%nat ->
  settings_loop fuel (mkReader settings_payload EOF) no_settings none_seen = Ok f.
Proof.
  intros Hf. unfold settings_payload. rewrite settings_loop_pairs; [|apply Forall_app; split; [apply known_ok|by apply order_ok]|done].
  rewrite apply_pairs_app. destruct (apply_known f (wf_max f Hwf)) as [seen ->]. cbn [result_bind].
  destruct (apply_others order2 {| MaxFieldSectionSize := MaxFieldSectionSize f; Datagram := Datagram f; ExtendedConnect := ExtendedConnect f; Other := ∅ |} seen)
    as (o & -> & ->).
  - apply Forall_forall. intros [id val] Hin%list_elem_of_In. rewrite Ho2, elem_of_map_to_list in Hin. by destruct (wf_other f Hwf id val Hin) as (_ & _ & H).
  - rewrite Ho2. apply NoDup_fst_map_to_list.
  - apply Forall_forall. intros p _. apply lookup_empty.
  - cbn. rewrite (right_id_L ∅ (∪)), (list_to_map_proper order2 (map_to_list (Other f))), list_to_map_to_list; [by destruct f| |done].
    rewrite Ho2. apply NoDup_fst_map_to_list.
Qed.

Lemma length_pairs_enc ps : pairs_ok ps -> (length ps <= length (pairs_enc ps))%nat.
Proof.
  induction 1 as [|[id val] ps [H1 H2] _ IH]; cbn; [lia|]. rewrite !length_app. pose proof (vlen_range id H1) as Hv. unfold vlen, len in Hv. cbn in *. lia.
Qed.

(** The peer's parser gives the settings back and stops right behind them. *)
Lemma ParseNext_settings rest e : len settings_payload <= maxSettingsFrameSize -> is_bytes rest ->
  ParseNext (mkReader (venc 4 ++ venc (len settings_payload) ++ settings_payload ++ rest) e) = Some (Ok (SettingsFrame f), mkReader rest e).
Proof.
  intros Hl Hr. pose proof (len_nonneg settings_payload) as Hnn. unfold maxSettingsFrameSize in Hl.
  assert (is_varint (len settings_payload)) as Hv by (unfold is_varint, maxVarInt8; lia).
  assert (is_bytes (settings_payload ++ rest)) as Hb by (apply Forall_app; split; [apply pairs_enc_bytes|done]).
  unfold ParseNext. cbn [parse_next]. unfold read_varint at 1.
  rewrite Read_venc; [|split; discriminate|apply Forall_app; split; [apply venc_bytes|done]]. unfold read_varint.
  rewrite Read_venc by done. change (4 =? 0) with false. change (4 =? 1) with false. change (4 =? 4) with true. cbn iota.
  unfold parseSettingsFrame. replace (len settings_payload >? maxSettingsFrameSize) with false by (symmetry; rewrite Z.gtb_ltb, Z.ltb_ge; done).
  unfold read_full. cbn [rd_avail rd_end]. rewrite len_app. pose proof (len_nonneg rest). rewrite (proj2 (Z.leb_le _ _)) by lia.
  replace (Z.to_nat (len settings_payload)) with (length settings_payload) by (unfold len; lia).
  rewrite take_app_length, drop_app_length. rewrite settings_parse; [done|].
  apply length_pairs_enc. apply Forall_app; split; [apply known_ok|by apply order_ok].
Qed.

End Wire.

(** ** Negotiation *)

(** A stream behind the control stream leaves the negotiation alone. *)
Lemma handleUni_settled env c r : rcvdControlStr c = true ->
  forall c', handleUnidirectionalStream env c r = Some c' -> same_negotiation c c'.
Proof.
  intros Hc c'. unfold handleUnidirectionalStream. destruct (Quicvarint.Read r) as [[t|] r']; [|intros [= <-]; apply same_negotiation_refl].
  rewrite Hc. split_if; [intros [= <-]; apply same_negotiation_close|].
  split_if; [destruct (rcvdQPACKEncoderStr c); intros [= <-]; [apply same_negotiation_close|other_fields]|].
  split_if; [destruct (rcvdQPACKDecoderStr c); intros [= <-]; [apply same_negotiation_close|other_fields]|].
  split_if; intros [= <-]; [apply same_negotiation_close|other_fields].
Qed.
Lemma handle_streams_settled env c streams c' : rcvdControlStr c = true -> handle_streams env c streams = Some c' -> same_negotiation c c'.
Proof.
  revert c. induction streams as [|s streams IH]; intros c Hc; cbn; [intros [= <-]; apply same_negotiation_refl|].
  destruct (handleUnidirectionalStream env c s) as [c1|] eqn:E; [|done]. cbn. intros H. apply handleUni_settled in E; [|done].
  eapply same_negotiation_trans; [exact E|]. apply IH; [|done]. destruct E as (_ & -> & _). done.
Qed.

(** What a connection has learnt from the settings [f]. *)
Definition learnt (env : h3_env) (c : h3_conn) (f : settingsFrame) (c' : h3_conn) : Prop :=
  let refused := Datagram f && enableDatagrams c && negb (SupportsDatagrams_Remote env) in
  settings c' = Some {| EnableDatagrams := Datagram f; EnableExtendedConnect := ExtendedConnect f; OtherSettings := Other f |}
  /\ receivedSettings c' = true /\ rcvdControlStr c' = true
  /\ receiving c' = (if Datagram f && negb refused then 1 else 0)%nat
  /\ (refused = true -> ErrCodeSettingsError ∈ closes c').

Lemma learnt_same env c f c1 c2 : learnt env c f c1 -> same_negotiation c1 c2 -> learnt env c f c2.
Proof.
  intros (H1 & H2 & H3 & H4 & H5) (_ & A2 & A3 & A4 & A5 & _ & m & A6). unfold learnt. rewrite A2, A3, A4, A5, A6.
  do 4 (split; [done|]). intros Hr. apply elem_of_app. left. by apply H5.
Qed.

Lemma control_continues env c c1 r : is_bytes (rd_avail r) ->
  exists c', (if isServer c then server_control (S (length (rd_avail r))) c1 r
              else client_control (S (length (rd_avail r))) (requests_active env) c1 r) = Some c' /\ same_negotiation c1 c'.
Proof. intros Hb. destruct (isServer c); [apply server_control_total|apply client_control_total]; (done || lia). Qed.

Lemma control_bytes f order2 rest : is_bytes rest ->
  is_bytes (venc 4 ++ venc (len (settings_payload f order2)) ++ settings_payload f order2 ++ rest).
Proof.
  intros Hr. apply Forall_app. split; [apply venc_bytes|]. apply Forall_app. split; [apply venc_bytes|].
  apply Forall_app. split; [apply pairs_enc_bytes|done].
Qed.

Lemma control_stream_learnt env c f order2 rest e :
  settings_wf f -> order2 ≡ₚ map_to_list (Other f) -> len (settings_payload f order2) <= maxSettingsFrameSize ->
  is_bytes rest -> h3_ok c -> rcvdControlStr c = false ->
  exists c', handleUnidirectionalStream env c
      (mkReader (venc 0 ++ venc 4 ++ venc (len (settings_payload f order2)) ++ settings_payload f order2 ++ rest) e) = Some c'
    /\ learnt env c f c'.
Proof.
  intros Hwf Ho Hl Hr [K1 K2 K3 K4 K5] Hc. assert (receivedSettings c = false) as Hrs.
  { destruct (receivedSettings c); [|done]. by rewrite K2 in Hc. }
  assert (settings c = None) as Hset.
  { destruct (settings c); [|done]. rewrite (proj2 K1) in Hrs; [done|by eexists]. }
  rewrite Hset in K3. unfold handleUnidirectionalStream. rewrite Read_venc.
  2: by split; discriminate.
  2: by apply control_bytes.
  change (0 =? streamTypeControlStream) with true. cbn iota. rewrite Hc. unfold handleControlStream.
  rewrite (ParseNext_settings f order2 order2) by done. cbn [mbind option_bind]. cbn [receivedSettings set_rcvd]. rewrite Hrs.
  set (c1 := set_settings _ _). unfold learnt.
  destruct (Datagram f) eqn:Ed; cbn [andb].
  - change (enableDatagrams c1) with (enableDatagrams c).
    destruct (enableDatagrams c && negb (SupportsDatagrams_Remote env)) eqn:Ee.
    + eexists. split; [done|]. unfold c1. cbn. do 4 (split; [by rewrite ?Ed|]). intros _. apply elem_of_app. right. by constructor.
    + destruct (control_continues env c1 (start_receiving c1) (mkReader rest e) Hr) as (c' & Hc' & _ & A2 & A3 & A4 & A5 & _).
      exists c'. split; [exact Hc'|]. rewrite A2, A3, A4, A5. unfold c1. cbn. by rewrite K3, ?Ed, ?Ee.
  - destruct (control_continues env c1 c1 (mkReader rest e) Hr) as (c' & Hc' & _ & A2 & A3 & A4 & A5 & _).
    exists c'. split; [exact Hc'|]. rewrite A2, A3, A4, A5. unfold c1. cbn. by rewrite K3, ?Ed, ?Ee.
Qed.

Lemma newRawConn_ok server datagrams : h3_ok (newRawConn server datagrams).
Proof. constructor; cbn; [split; [done|by intros [? ?]]|done|done|lia|constructor]. Qed.

(** C39: HTTP/3 control streams.  Whatever bytes a peer sends on whatever sequence
of unidirectional streams, handling them ends without a panic: the settings are
published at most once, at most one goroutine receives datagrams, and only
request streams get a priority, between 0 and 7.  And the ends agree: behind any
streams without a control stream, the stream [openControlStream] opens for the
settings [f] makes the peer learn exactly [f], whatever follows on it and on later
streams; datagrams are then received if [f] announces them, unless QUIC has no
datagrams, where the connection is closed with [H3_SETTINGS_ERROR]. *)
Theorem control_streams_agree env server datagrams streams f order1 order2 rest e later :
  let all_bytes := Forall (fun s => is_bytes (rd_avail s)) in
  all_bytes streams -> settings_wf f ->
  order1 ≡ₚ map_to_list (Other f) -> order2 ≡ₚ map_to_list (Other f) ->
  len (settings_payload f order2) <= maxSettingsFrameSize -> is_bytes rest -> all_bytes later ->
  exists c b, handle_streams env (newRawConn server datagrams) streams = Some c /\ h3_ok c
    /\ openControlStream f order1 order2 = Some b
    /\ (rcvdControlStr c = false ->
        exists c', handle_streams env c (mkReader (b ++ rest) e :: later) = Some c' /\ h3_ok c' /\ learnt env c f c').
Proof.
  intros all_bytes Hs Hwf Ho1 Ho2 Hl Hr Hlater.
  destruct (handle_streams_ok env _ streams Hs (newRawConn_ok server datagrams)) as (c & Hc & Hok).
  exists c, (venc 0 ++ venc 4 ++ venc (len (settings_payload f order2)) ++ settings_payload f order2). do 2 (split; [done|]).
  split. { unfold openControlStream. rewrite Append_venc by (by split; discriminate). cbn [mbind option_bind]. by apply settings_Append_enc. }
  intros Hrc. rewrite <- !app_assoc. destruct (control_stream_learnt env c f order2 rest e Hwf Ho2 Hl Hr Hok Hrc) as (c1 & H1 & Hlearnt).
  cbn [handle_streams]. destruct (handleUni_ok env c (mkReader (venc 0 ++ venc 4 ++ venc (len (settings_payload f order2)) ++ settings_payload f order2 ++ rest) e))
    as (c1' & H1' & Hok1 & _); [|done|].
  { apply Forall_app. split; [apply venc_bytes|by apply control_bytes]. }
  rewrite H1 in H1'. injection H1' as <-. rewrite H1. cbn [mbind option_bind].
  destruct (handle_streams_ok env c1 later Hlater Hok1) as (c2 & H2 & Hok2). exists c2. do 2 (split; [done|]).
  eapply learnt_same; [exact Hlearnt|]. eapply handle_streams_settled; [|exact H2]. by destruct Hlearnt as (_ & _ & -> & _).
Qed.

(** A client and the relay's settings, after a QPACK stream and before a GOAWAY and
a second control stream. *)
Lemma control_streams_agree_witness :
  let env := {| SupportsDatagrams_Remote := true; requests_active := fun _ => true |} in
  let f := Server_settings 8192 true ∅ in
  option_map rcvdControlStr (handle_streams env (newRawConn false true) [mkReader [2] EOF]) = Some false
  /\ exists c b, handle_streams env (newRawConn false true) [mkReader [2] EOF] = Some c /\ h3_ok c
    /\ openControlStream f [] [] = Some b
    /\ (rcvdControlStr c = false ->
        exists c', handle_streams env c [mkReader (b ++ [7; 1; 0]) EOF; mkReader [0; 4; 0] EOF] = Some c' /\ h3_ok c' /\ learnt env c f c').
Proof.
  split; [reflexivity|].
  apply (control_streams_agree {| SupportsDatagrams_Remote := true; requests_active := fun _ => true |} false true [mkReader [2] EOF]
           (Server_settings 8192 true ∅) [] [] [7; 1; 0] EOF [mkReader [0; 4; 0] EOF]).
  - repeat constructor; discriminate.
  - constructor; [right; split; discriminate|apply map_Forall_empty].
  - reflexivity.
  - reflexivity.
  - discriminate.
  - repeat constructor; discriminate.
  - repeat constructor; discriminate.
Defined.

Example relay_stream :
  openControlStream (Server_settings 8192 true ∅) [] [] = Some [0; 4; 7; 6; 0x60; 0; 0x33; 1; 8; 1].
Proof. reflexivity. Qed.

(** The relay enables datagrams ([internal/relay/server.go]) and so does its client
([internal/masque/client.go]): whatever else arrives on the control streams, the
client learns that it may send CONNECT-UDP requests and datagrams, and both ends
receive datagrams. *)
Theorem relay_negotiates env rest1 rest2 e1 e2 :
  SupportsDatagrams_Remote env = true -> is_bytes rest1 -> is_bytes rest2 ->
  exists b1 b2 relay client,
    openControlStream (Server_settings 8192 true ∅) [] [] = Some b1
    /\ handleUnidirectionalStream env (newRawConn false true) (mkReader (b1 ++ rest1) e1) = Some client
    /\ settings client = Some {| EnableDatagrams := true; EnableExtendedConnect := true; OtherSettings := ∅ |} /\ receiving client = 1%nat
    /\ openControlStream (client_settings 0 true ∅) [] [] = Some b2
    /\ handleUnidirectionalStream env (newRawConn true true) (mkReader (b2 ++ rest2) e2) = Some relay
    /\ settings relay = Some {| EnableDatagrams := true; EnableExtendedConnect := false; OtherSettings := ∅ |} /\ receiving relay = 1%nat.
Proof.
  intros He H1 H2. assert (forall f, MaxFieldSectionSize f = 8192 \/ MaxFieldSectionSize f = defaultMaxResponseHeaderBytes -> Other f = ∅ -> settings_wf f) as Hwf.
  { intros f Hm Ho. constructor; [right; destruct Hm as [-> | ->]; split; discriminate|rewrite Ho; apply map_Forall_empty]. }
  destruct (control_stream_learnt env (newRawConn false true) (Server_settings 8192 true ∅) [] rest1 e1) as (client & Hc & Lc);
    [apply Hwf; [by left|done]|reflexivity|discriminate|done|apply newRawConn_ok|done|].
  destruct (control_stream_learnt env (newRawConn true true) (client_settings 0 true ∅) [] rest2 e2) as (relay & Hr & Lr);
    [apply Hwf; [by right|done]|reflexivity|discriminate|done|apply newRawConn_ok|done|].
  unfold learnt in Lc, Lr. cbn in Lc, Lr. rewrite He in Lc, Lr. destruct Lc as (Lc1 & _ & _ & Lc2 & _), Lr as (Lr1 & _ & _ & Lr2 & _).
  eexists _, _, relay, client. split; [reflexivity|]. split; [exact Hc|]. do 2 (split; [done|]).
  split; [reflexivity|]. split; [exact Hr|]. done.
Qed.

(** A payload that ends inside of a setting is read to its end, and the connection
is closed as if the stream had ended. *)
Example settings_cut_short :
  ParseNext (mkReader [4; 1; 0x33; 9; 9] EOF) = Some (Err (H3IO EOF), mkReader [9; 9] EOF)
  /\ parse_failure ErrCodeMissingSettings (H3IO EOF) = ErrCodeClosedCriticalStream.
Proof. split; reflexivity. Qed.
