(* ===== verification/Headers.v ===== *)
(** * HTTP/3 header fields

[third_party/quic-go/http3/headers.go] and the request half of [request_writer.go]:
which field lists are requests and responses, and the list a client writes for a
request.  QPACK and [golang.org/x/net/http/httpguts] are other packages and enter
as the classes [Qpack] and [Httpguts]; of [net/url] only the fields that are set
here are spelled out. *)

From stdpp Require Import base gmap list numbers.
From Stdlib Require Import ZArith Lia String.
From S2P Require Import Prelude.
From S2P Require Import GoStrings.

Local Open Scope Z_scope.

(** ** Parameters *)

(** A [qpack.HeaderField]. *)
Definition field : Type := gostring * gostring.

(** What a decoder yields: fields, and whether they end with [io.EOF]. *)
Definition decoded : Type := list field * bool.

Class Qpack := {
  qpack_Encode : list field -> list Z;
  qpack_Decode : list Z -> decoded;
  IsPseudo : gostring -> bool;
}.

Class Httpguts := {
  ValidHeaderFieldName : gostring -> bool;
  ValidHeaderFieldValue : gostring -> bool;
  ValidTrailerHeader : gostring -> bool;
  all_tokens : gostring -> bool;               (** [strings.IndexFunc(s, isNotToken) == -1] *)
  PunycodeHostPort : gostring -> option gostring;
  ValidHostHeader : gostring -> bool;
  unicode_ToLower : gostring -> gostring;      (** of strings that are not ASCII *)
  unicode_EqualFold : gostring -> gostring -> bool;
}.

(** A [url.URL]: two of its fields, and the others. *)
Class UrlLib := {
  url_rest : Type;
  path_only : gostring -> url_rest;            (** [url.URL{Path: p}] *)
  ParseRequestURI : gostring -> option (gostring * gostring * url_rest);
  RequestURI_of : gostring -> gostring -> url_rest -> gostring;
  String_of : gostring -> gostring -> url_rest -> gostring;
}.
Record URL `{UrlLib} := {
  u_Scheme : gostring;
  u_Host : gostring;
  u_rest : url_rest;
}.
Definition URL_RequestURI `{UrlLib} (u : URL) : gostring := RequestURI_of (u_Scheme u) (u_Host u) (u_rest u).
Definition URL_String `{UrlLib} (u : URL) : gostring := String_of (u_Scheme u) (u_Host u) (u_rest u).

(** ** strings and net/textproto *)

Definition is_ascii (s : gostring) : bool := forallb (fun c => c <? 128) s.
Definition lower (c : Z) : Z := if (65 <=? c) && (c <=? 90) then c + 32 else c.
Definition upper (c : Z) : Z := if (97 <=? c) && (c <=? 122) then c - 32 else c.
Definition ToLower `{Httpguts} (s : gostring) : gostring := if is_ascii s then map lower s else unicode_ToLower s.
Definition EqualFold `{Httpguts} (s t : gostring) : bool :=
  if is_ascii s && is_ascii t then same (map lower s) (map lower t) else unicode_EqualFold s t.

(** Token characters: [validHeaderFieldByte]. *)
Definition token_byte (c : Z) : bool :=
  is_digit c || ((65 <=? c) && (c <=? 90)) || ((97 <=? c) && (c <=? 122)) || contains_byte (str "!#$%&'*+-.^_`|~") c.

Fixpoint canonical (up : bool) (s : gostring) : gostring :=
  match s with
  | [] => []
  | c :: s => (if up then upper c else lower c) :: canonical (c =? 45) s
  end.
Definition CanonicalMIMEHeaderKey (s : gostring) : gostring := if forallb token_byte s then canonical true s else s.

(** [http.Header]; a nil value is an empty list. *)
Abbreviation header_map := (gmap gostring (list gostring)).
Definition Header_Add (h : header_map) (f : field) : header_map :=
  let k := CanonicalMIMEHeaderKey (fst f) in <[k := default [] (h !! k) ++ [snd f]]> h.
Definition Header_Set (h : header_map) (k v : gostring) : header_map := <[CanonicalMIMEHeaderKey k := [v]]> h.
Definition Header_Get (h : header_map) (k : gostring) : gostring :=
  match h !! CanonicalMIMEHeaderKey k with
  | Some (v :: _) => v
  | _ => []
  end.
Definition has (h : header_map) (k : gostring) : bool := bool_decide (is_Some (h !! k)).

(** ** parseHeaders *)

Inductive header_error :=
| QpackError | HeaderTooLarge
| NotLowerCase | InvalidValue
| PseudoAfterRegular | UnknownPseudo | DuplicatePseudo | InvalidRequestPseudo | InvalidResponsePseudo
| InvalidName | ConnectionHeader | InvalidTE | ContradictingLengths | InvalidContentLength
| EmptyMethod | InvalidMethod | TooManyHosts | HostMismatch | UserInfo
| InvalidProtocol | ExtendedConnectIncomplete | ConnectMalformed | PathOrAuthorityEmpty | UnexpectedProtocol
| InvalidURI | MissingStatus | InvalidStatus | PseudoInTrailer | InvalidTrailer.

Record header := {
  h_Path : gostring;
  h_Method : gostring;
  h_Authority : gostring;
  h_Scheme : gostring;
  h_Status : gostring;
  h_Protocol : gostring;
  h_ContentLength : Z;
  h_Headers : header_map;
}.

(** The variables of the loop. *)
Record parse_state := {
  hdr : header;
  sizeLimit : Z;
  readFirstRegularHeader : bool;
  readContentLength : bool;
  hasMethod : bool;
  hasStatus : bool;
  contentLengthStr : gostring;
}.

Definition cPath := str ":path".
Definition cMethod := str ":method".
Definition cAuthority := str ":authority".
Definition cProtocol := str ":protocol".
Definition cScheme := str ":scheme".
Definition cStatus := str ":status".

Definition invalidHeaderFields : list gostring :=
  [str "connection"; str "keep-alive"; str "proxy-connection"; str "transfer-encoding"; str "upgrade"].

Definition field_size (f : field) : Z := len (fst f) + len (snd f) + 32.

Section Parse.
  Context `{Httpguts, Qpack}.

Definition validateHeaderFieldNameAndValue (f : field) : result header_error unit :=
  if negb (same (ToLower (fst f)) (fst f)) then Err NotLowerCase
  else if negb (ValidHeaderFieldValue (snd f)) then Err InvalidValue
  else Ok tt.

Definition validateRegularHeaderField (f : field) : result header_error unit :=
  if negb (ValidHeaderFieldName (fst f)) then Err InvalidName
  else if existsb (same (fst f)) invalidHeaderFields then Err ConnectionHeader
  else if same (fst f) (str "te") && negb (same (snd f) (str "trailers")) then Err InvalidTE
  else Ok tt.

Definition validateTrailerHeaderField (f : field) : result header_error unit :=
  let? _ := validateRegularHeaderField f in
  if negb (ValidTrailerHeader (fst f)) then Err InvalidTrailer else Ok tt.

(** The switch over the pseudo-headers: the header, whether the name was seen
before, whether it belongs to responses, and the two flags. *)
Definition pseudo_field (h : header) (hasMethod hasStatus : bool) (f : field) : result header_error (header * bool * bool * bool * bool) :=
  let '(name, value) := f in
  let seen := has (h_Headers h) name in
  let headers := <[name := []]> (h_Headers h) in
  if same name cPath then
    Ok ({| h_Path := value; h_Method := h_Method h; h_Authority := h_Authority h; h_Scheme := h_Scheme h; h_Status := h_Status h;
           h_Protocol := h_Protocol h; h_ContentLength := h_ContentLength h; h_Headers := headers |}, seen, false, hasMethod, hasStatus)
  else if same name cMethod then
    Ok ({| h_Path := h_Path h; h_Method := value; h_Authority := h_Authority h; h_Scheme := h_Scheme h; h_Status := h_Status h;
           h_Protocol := h_Protocol h; h_ContentLength := h_ContentLength h; h_Headers := h_Headers h |}, hasMethod, false, true, hasStatus)
  else if same name cAuthority then
    Ok ({| h_Path := h_Path h; h_Method := h_Method h; h_Authority := value; h_Scheme := h_Scheme h; h_Status := h_Status h;
           h_Protocol := h_Protocol h; h_ContentLength := h_ContentLength h; h_Headers := headers |}, seen, false, hasMethod, hasStatus)
  else if same name cProtocol then
    Ok ({| h_Path := h_Path h; h_Method := h_Method h; h_Authority := h_Authority h; h_Scheme := h_Scheme h; h_Status := h_Status h;
           h_Protocol := value; h_ContentLength := h_ContentLength h; h_Headers := headers |}, seen, false, hasMethod, hasStatus)
  else if same name cScheme then
    Ok ({| h_Path := h_Path h; h_Method := h_Method h; h_Authority := h_Authority h; h_Scheme := ToLower value; h_Status := h_Status h;
           h_Protocol := h_Protocol h; h_ContentLength := h_ContentLength h; h_Headers := headers |}, seen, false, hasMethod, hasStatus)
  else if same name cStatus then
    Ok ({| h_Path := h_Path h; h_Method := h_Method h; h_Authority := h_Authority h; h_Scheme := h_Scheme h; h_Status := value;
           h_Protocol := h_Protocol h; h_ContentLength := h_ContentLength h; h_Headers := h_Headers h |}, hasStatus, true, hasMethod, true)
  else Err UnknownPseudo.

(** One round of the loop. *)
Definition parse_field (isRequest : bool) (st : parse_state) (f : field) : result header_error parse_state :=
  let limit := sizeLimit st - field_size f in
  if limit <? 0 then Err HeaderTooLarge
  else
    let? _ := validateHeaderFieldNameAndValue f in
    if IsPseudo (fst f) then
      if readFirstRegularHeader st then Err PseudoAfterRegular
      else
        let? (h, isDuplicatePseudoHeader, isResponsePseudoHeader, hm, hs) := pseudo_field (hdr st) (hasMethod st) (hasStatus st) f in
        if (isDuplicatePseudoHeader : bool) then Err DuplicatePseudo
        else if isRequest && isResponsePseudoHeader then Err InvalidRequestPseudo
        else if negb isRequest && negb isResponsePseudoHeader then Err InvalidResponsePseudo
        else Ok {| hdr := h; sizeLimit := limit; readFirstRegularHeader := false; readContentLength := readContentLength st;
                   hasMethod := hm; hasStatus := hs; contentLengthStr := contentLengthStr st |}
    else
      let? _ := validateRegularHeaderField f in
      if same (fst f) (str "content-length") then
        if readContentLength st && negb (same (contentLengthStr st) (snd f)) then Err ContradictingLengths
        else Ok {| hdr := hdr st; sizeLimit := limit; readFirstRegularHeader := true; readContentLength := true;
                   hasMethod := hasMethod st; hasStatus := hasStatus st; contentLengthStr := snd f |}
      else
        let h := hdr st in
        Ok {| hdr := {| h_Path := h_Path h; h_Method := h_Method h; h_Authority := h_Authority h; h_Scheme := h_Scheme h;
                        h_Status := h_Status h; h_Protocol := h_Protocol h; h_ContentLength := h_ContentLength h;
                        h_Headers := Header_Add (h_Headers h) f |};
              sizeLimit := limit; readFirstRegularHeader := true; readContentLength := readContentLength st;
              hasMethod := hasMethod st; hasStatus := hasStatus st; contentLengthStr := contentLengthStr st |}.

Fixpoint parse_fields (isRequest : bool) (st : parse_state) (fs : list field) : result header_error parse_state :=
  match fs with
  | [] => Ok st
  | f :: fs => let? st := parse_field isRequest st f in parse_fields isRequest st fs
  end.

Definition no_header : header :=
  {| h_Path := []; h_Method := []; h_Authority := []; h_Scheme := []; h_Status := []; h_Protocol := []; h_ContentLength := 0; h_Headers := ∅ |}.
Definition start_parse (limit : Z) : parse_state :=
  {| hdr := no_header; sizeLimit := limit; readFirstRegularHeader := false; readContentLength := false; hasMethod := false;
     hasStatus := false; contentLengthStr := [] |}.

Definition with_length (h : header) (n : Z) (headers : header_map) : header :=
  {| h_Path := h_Path h; h_Method := h_Method h; h_Authority := h_Authority h; h_Scheme := h_Scheme h; h_Status := h_Status h;
     h_Protocol := h_Protocol h; h_ContentLength := n; h_Headers := headers |}.

Definition parseHeaders (d : decoded) (isRequest : bool) (limit : Z) : result header_error header :=
  let? st := parse_fields isRequest (start_parse limit) (fst d) in
  if negb (snd d) then Err QpackError
  else if same (contentLengthStr st) [] then Ok (with_length (hdr st) (-1) (h_Headers (hdr st)))
  else match ParseUint 63 (contentLengthStr st) with
  | None => Err InvalidContentLength
  | Some cl => Ok (with_length (hdr st) cl (Header_Set (h_Headers (hdr st)) (str "Content-Length") (contentLengthStr st)))
  end.

(** ** parseTrailers *)

Fixpoint trailer_fields (limit : Z) (h : header_map) (fs : list field) : result header_error header_map :=
  match fs with
  | [] => Ok h
  | f :: fs =>
    let limit := limit - field_size f in
    if limit <? 0 then Err HeaderTooLarge
    else
      let? _ := validateHeaderFieldNameAndValue f in
      if IsPseudo (fst f) then Err PseudoInTrailer
      else
        let? _ := validateTrailerHeaderField f in
        trailer_fields limit (Header_Add h f) fs
  end.
Definition parseTrailers (d : decoded) (limit : Z) : result header_error header_map :=
  let? h := trailer_fields limit ∅ (fst d) in
  if negb (snd d) then Err QpackError else Ok h.

End Parse.

(** ** Requests and responses *)

Record http_Request `{UrlLib} := {
  q_Method : gostring;
  q_URL : URL;
  q_Proto : gostring;
  q_Header : header_map;
  q_Trailer : option (gset gostring);     (** announced keys; [None] is nil *)
  q_ContentLength : Z;
  q_Host : gostring;
  q_RequestURI : gostring;
}.

Definition CONNECT : gostring := str "CONNECT".

(** [textproto.TrimString]: ASCII space, tab, line feed and carriage return. *)
Definition is_ascii_space (c : Z) : bool := (c =? 32) || (c =? 9) || (c =? 10) || (c =? 13).
Definition TrimString (s : gostring) : gostring := drop_while_right is_ascii_space (drop_while is_ascii_space s).

(** The announced trailers, and the header without them. *)
Definition extractAnnouncedTrailers (h : header_map) : option (gset gostring) * header_map :=
  match h !! str "Trailer" with
  | None => (None, h)
  | Some raw =>
    (Some (list_to_set (flat_map (fun v => map (fun k => CanonicalMIMEHeaderKey (TrimString k)) (Split v 44)) raw)),
     delete (str "Trailer") h)
  end.

Section Messages.
  Context `{Httpguts, Qpack, UrlLib}.

Definition validMethod (method : gostring) : bool := negb (same method []) && all_tokens method.
Definition validExtendedConnectProtocol (protocol : gostring) : bool := ValidHeaderFieldName protocol.
Definition is_http (scheme : gostring) : bool := same scheme (str "http") || same scheme (str "https").

(** The checks of [requestFromHeaders] on what [parseHeaders] found: the authority
the request is for, and whether it is an extended CONNECT. *)
Definition check_request (h : header) (headers : header_map) (hasPath hasAuthority hasScheme hasProtocol : bool)
  : result header_error (gostring * bool) :=
  if same (h_Method h) [] then Err EmptyMethod
  else if negb (validMethod (h_Method h)) then Err InvalidMethod
  else
    let hosts := default [] (headers !! str "Host") in
    if len hosts >? 1 then Err TooManyHosts
    else
      let host := Header_Get headers (str "Host") in
      if hasAuthority && (len hosts >? 0) && negb (same (h_Authority h) host) then Err HostMismatch
      else
        let isConnect := same (h_Method h) CONNECT in
        let authority := if negb isConnect && negb hasAuthority && is_http (h_Scheme h) then host else h_Authority h in
        if contains_byte authority 64 && is_http (h_Scheme h) then Err UserInfo
        else
          let isExtendedConnected := isConnect && negb (same (h_Protocol h) []) in
          let? _ :=
            (if isExtendedConnected then
               if negb (validExtendedConnectProtocol (h_Protocol h)) then Err InvalidProtocol
               else if same (h_Scheme h) [] || same (h_Path h) [] || same authority [] then Err ExtendedConnectIncomplete
               else Ok tt
             else if isConnect then
               if hasScheme || hasPath || same authority [] then Err ConnectMalformed else Ok tt
             else if same (h_Path h) [] || same authority [] then Err PathOrAuthorityEmpty
             else Ok tt) in
          if negb isExtendedConnected && hasProtocol then Err UnexpectedProtocol
          else Ok (authority, isExtendedConnected).

(** The rest of the URL. *)
Definition request_url (h : header) (isConnect isExtendedConnected : bool) : option url_rest :=
  if isConnect && negb isExtendedConnected then Some (path_only (h_Path h))
  else option_map snd (ParseRequestURI (h_Path h)).

Definition join_cookies (headers : header_map) : header_map :=
  match headers !! str "Cookie" with
  | Some (v :: vs) => Header_Set headers (str "Cookie") (Join (v :: vs) (str "; "))
  | _ => headers
  end.

Definition requestFromHeaders (d : decoded) (limit : Z) : result header_error http_Request :=
  let? h := parseHeaders d true limit in
  let headers := delete cProtocol (delete cScheme (delete cAuthority (delete cPath (h_Headers h)))) in
  let? (authority, isExtendedConnected) :=
    check_request h headers (has (h_Headers h) cPath) (has (h_Headers h) cAuthority) (has (h_Headers h) cScheme) (has (h_Headers h) cProtocol) in
  let headers := join_cookies headers in
  let isConnect := same (h_Method h) CONNECT in
  match request_url h isConnect isExtendedConnected with
  | None => Err InvalidURI
  | Some rest =>
    let '(trailer, headers) := extractAnnouncedTrailers headers in
    Ok {| q_Method := h_Method h; q_URL := {| u_Scheme := h_Scheme h; u_Host := authority; u_rest := rest |};
          q_Proto := if isExtendedConnected then h_Protocol h else str "HTTP/3.0";
          q_Header := headers; q_Trailer := trailer; q_ContentLength := h_ContentLength h;
          q_Host := authority; q_RequestURI := if isConnect then authority else h_Path h |}
  end.

(** The status, and the fields of a response that [updateResponseFromHeaders] sets. *)
Record http_Response := {
  s_StatusCode : Z;
  s_Header : header_map;
  s_Trailer : option (gset gostring);
  s_ContentLength : Z;
}.
Definition updateResponseFromHeaders (d : decoded) (limit : Z) : result header_error http_Response :=
  let? h := parseHeaders d false limit in
  if same (h_Status h) [] then Err MissingStatus
  else
    let '(trailer, headers) := extractAnnouncedTrailers (h_Headers h) in
    match ParseInt64 (h_Status h) with
    | None => Err InvalidStatus
    | Some status => Ok {| s_StatusCode := status; s_Header := headers; s_Trailer := trailer; s_ContentLength := h_ContentLength h |}
    end.

(** ** The fields of a request *)

Definition isExtendedConnectRequest (q : http_Request) : bool :=
  same (q_Method q) CONNECT && negb (same (q_Proto q) []) && negb (same (q_Proto q) (str "HTTP/1.1")).
Definition validPseudoPath (v : gostring) : bool := match v with 47 :: _ => true | _ => same v (str "*") end.
Definition TrimPrefix (s p : gostring) : gostring := if HasPrefix s p then drop (List.length p) s else s.

Definition shouldSendReqContentLength (method : gostring) (contentLength : Z) : bool :=
  if contentLength >? 0 then true
  else if contentLength <? 0 then false
  else same method (str "POST") || same method (str "PUT") || same method (str "PATCH").
(** [bodyNil]: the request has no body. *)
Definition actualContentLength (bodyNil : bool) (contentLength : Z) : Z :=
  if bodyNil then 0 else if negb (contentLength =? 0) then contentLength else -1.

Definition defaultUserAgent : gostring := str "quic-go HTTP/3".

Inductive write_error := InvalidHost | InvalidHostHeader | InvalidReqProtocol | InvalidReqPath | InvalidReqHeader.

Definition request_path (q : http_Request) (host : gostring) (isExtendedConnect : bool) : result write_error gostring :=
  if negb (same (q_Method q) CONNECT) || isExtendedConnect then
    let path := URL_RequestURI (q_URL q) in
    if validPseudoPath path then Ok path
    else
      let path := TrimPrefix path (u_Scheme (q_URL q) ++ str "://" ++ host) in
      if validPseudoPath path then Ok path else Err InvalidReqPath
  else Ok [].

(** The headers of one key that are sent, and whether the key is User-Agent. *)
Definition skipped_keys : list gostring :=
  [str "host"; str "content-length"; str "connection"; str "proxy-connection"; str "transfer-encoding"; str "upgrade"; str "keep-alive"].
Definition sent_values (k : gostring) (vv : list gostring) : list gostring :=
  if existsb (EqualFold k) skipped_keys then []
  else if EqualFold k (str "user-agent") then
    match vv with
    | [] => []
    | v :: _ => if same v [] then [] else [v]
    end
  else vv.
Definition is_user_agent (k : gostring) : bool := negb (existsb (EqualFold k) skipped_keys) && EqualFold k (str "user-agent").

(** [enumerateHeaders]; [order] is the order in which the loop visits the headers. *)
Definition enumerateHeaders (q : http_Request) (order : list (gostring * list gostring)) (host path trailers : gostring)
  (contentLength : Z) (addGzipHeader : bool) : list field :=
  let isExtendedConnect := isExtendedConnectRequest q in
  ([(str ":authority", host); (str ":method", q_Method q)]
   ++ (if negb (same (q_Method q) CONNECT) || isExtendedConnect then [(str ":path", path); (str ":scheme", u_Scheme (q_URL q))] else [])
   ++ (if isExtendedConnect then [(str ":protocol", q_Proto q)] else [])
   ++ (if same trailers [] then [] else [(str "trailer", trailers)])
   ++ flat_map (fun kv => map (pair (fst kv)) (sent_values (fst kv) (snd kv))) order
   ++ (if shouldSendReqContentLength (q_Method q) contentLength then [(str "content-length", FormatInt contentLength)] else [])
   ++ (if addGzipHeader then [(str "accept-encoding", str "gzip")] else [])
   ++ (if existsb (fun kv => is_user_agent (fst kv)) order then [] else [(str "user-agent", defaultUserAgent)]))%list.

Definition encodeHeaders (q : http_Request) (order : list (gostring * list gostring)) (addGzipHeader : bool) (trailers : gostring)
  (contentLength : Z) : result write_error (list field) :=
  match PunycodeHostPort (if same (q_Host q) [] then u_Host (q_URL q) else q_Host q) with
  | None => Err InvalidHost
  | Some host =>
    if negb (ValidHostHeader host) then Err InvalidHostHeader
    else
      let isExtendedConnect := isExtendedConnectRequest q in
      if isExtendedConnect && negb (validExtendedConnectProtocol (q_Proto q)) then Err InvalidReqProtocol
      else
        let? path := request_path q host isExtendedConnect in
        if negb (forallb (fun kv => ValidHeaderFieldName (fst kv) && forallb ValidHeaderFieldValue (snd kv)) order) then Err InvalidReqHeader
        else Ok (map (fun f => (ToLower (fst f), snd f)) (enumerateHeaders q order host path trailers contentLength addGzipHeader))
  end.

End Messages.

(** ** Which lists [parseHeaders] accepts for a request *)

Definition request_names : list gostring := [cPath; cMethod; cAuthority; cProtocol; cScheme].

Fixpoint value_of (k : gostring) (fs : list field) : gostring :=
  match fs with
  | [] => []
  | f :: fs => if same (fst f) k then snd f else value_of k fs
  end.
Fixpoint total_size (fs : list field) : Z :=
  match fs with
  | [] => 0
  | f :: fs => field_size f + total_size fs
  end.
Definition is_length (f : field) : bool := same (fst f) (str "content-length").
Definition lengths (rs : list field) : list gostring := map snd (List.filter is_length rs).
Definition regular_headers (h : header_map) (rs : list field) : header_map :=
  foldl Header_Add h (List.filter (fun f => negb (is_length f)) rs).
(** The keys with nil values that stand for the pseudo-headers. *)
Definition pseudo_keys (ps : list field) : header_map :=
  foldl (fun h f => if same (fst f) cMethod then h else <[fst f := []]> h) ∅ ps.

(** Comparisons of constants. *)
Ltac known_names :=
  repeat match goal with
  | |- context [same ?a ?b] =>
    let r := eval vm_compute in (same a b) in
    match r with true => idtac | false => idtac end; change (same a b) with r; cbn iota
  end.

Section Accepted.
  Context `{Httpguts, Qpack}.

Definition pseudo_ok (f : field) : Prop :=
  IsPseudo (fst f) = true /\ validateHeaderFieldNameAndValue f = Ok tt /\ fst f ∈ request_names.
Definition regular_ok (f : field) : Prop :=
  IsPseudo (fst f) = false /\ validateHeaderFieldNameAndValue f = Ok tt /\ validateRegularHeaderField f = Ok tt.

(** Pseudo-headers [ps], each at most once, before the regular fields [rs]. *)
Record request_fields (limit : Z) (ps rs : list field) : Prop := {
  rf_pseudo : Forall pseudo_ok ps;
  rf_once : NoDup (map fst ps);
  rf_regular : Forall regular_ok rs;
  rf_size : total_size (ps ++ rs) <= limit;
  rf_lengths : forall v w, v ∈ lengths rs -> w ∈ lengths rs -> v = w;
}.

Definition header_of (ps rs : list field) : header :=
  {| h_Path := value_of cPath ps; h_Method := value_of cMethod ps; h_Authority := value_of cAuthority ps;
     h_Scheme := if bool_decide (cScheme ∈ map fst ps) then ToLower (value_of cScheme ps) else []; h_Status := [];
     h_Protocol := value_of cProtocol ps; h_ContentLength := 0; h_Headers := regular_headers (pseudo_keys ps) rs |}.
Definition state_of (limit : Z) (ps rs : list field) : parse_state :=
  {| hdr := header_of ps rs; sizeLimit := limit - total_size (ps ++ rs); readFirstRegularHeader := negb (bool_decide (rs = []));
     readContentLength := negb (bool_decide (lengths rs = [])); hasMethod := bool_decide (cMethod ∈ map fst ps); hasStatus := false;
     contentLengthStr := default [] (list.last (lengths rs)) |}.

Lemma total_size_app fs gs : total_size (fs ++ gs) = total_size fs + total_size gs.
Proof. induction fs as [|f fs IH]; cbn [total_size app]; lia. Qed.
Lemma field_size_pos f : 32 <= field_size f.
Proof. unfold field_size. pose proof (len_nonneg (fst f)). pose proof (len_nonneg (snd f)). lia. Qed.
Lemma total_size_nonneg fs : 0 <= total_size fs.
Proof. induction fs as [|f fs IH]; cbn [total_size]; [lia|]. pose proof (field_size_pos f). lia. Qed.

Lemma value_of_snoc k ps f : fst f ∉ map fst ps -> value_of k (ps ++ [f]) = if same (fst f) k then snd f else value_of k ps.
Proof.
  induction ps as [|p ps IH]; cbn [value_of app map]; intros Hn; [done|]. apply not_elem_of_cons in Hn as [H1 H2].
  destruct (same_spec (fst p) k) as [<-|]; [|by apply IH]. destruct (same_spec (fst f) (fst p)); [done|done].
Qed.
Lemma pseudo_keys_snoc ps f : pseudo_keys (ps ++ [f]) = if same (fst f) cMethod then pseudo_keys ps else <[fst f := []]> (pseudo_keys ps).
Proof. unfold pseudo_keys. by rewrite foldl_app. Qed.
Lemma pseudo_keys_lookup ps k : pseudo_keys ps !! k = if bool_decide (k ∈ map fst ps /\ k <> cMethod) then Some [] else None.
Proof.
  induction ps as [|f ps IH] using rev_ind; [by rewrite bool_decide_eq_false_2 by set_solver|].
  rewrite pseudo_keys_snoc, map_app. cbn [map]. destruct (same_spec (fst f) cMethod) as [Em|Em].
  - rewrite IH. erewrite bool_decide_ext; [reflexivity|]. set_solver.
  - destruct (decide (fst f = k)) as [<-|Hk].
    + rewrite lookup_insert_eq, bool_decide_eq_true_2; [done|]. set_solver.
    + rewrite lookup_insert_ne, IH by done. erewrite bool_decide_ext; [reflexivity|]. set_solver.
Qed.

Lemma request_fields_prefix limit ps rs rs' : request_fields limit ps (rs ++ rs') -> request_fields limit ps rs.
Proof.
  intros [H1 H2 H3 H4 H5]. apply Forall_app in H3 as [H3 _]. constructor; try done.
  - rewrite !total_size_app in *. pose proof (total_size_nonneg rs'). lia.
  - intros v w Hv Hw. unfold lengths in *. rewrite filter_app, map_app in H5. apply H5; apply elem_of_app; by left.
Qed.
Lemma request_fields_pseudo limit ps ps' rs : request_fields limit (ps ++ ps') rs -> request_fields limit ps [].
Proof.
  intros [H1 H2 H3 H4 H5]. apply Forall_app in H1 as [H1 _]. rewrite map_app in H2. apply list.NoDup_app in H2 as [H2 _].
  constructor; [done|done|constructor| |].
  - rewrite !total_size_app in *. pose proof (total_size_nonneg ps'). pose proof (total_size_nonneg rs). cbn. lia.
  - intros v w Hv. by apply elem_of_nil in Hv.
Qed.

Lemma names_snoc k (ps : list field) f : bool_decide (k ∈ map fst (ps ++ [f])) = bool_decide (k ∈ map fst ps) || same (fst f) k.
Proof.
  rewrite map_app. cbn [map]. destruct (same_spec (fst f) k) as [<-|Hn].
  - rewrite orb_true_r. apply bool_decide_eq_true_2. set_solver.
  - rewrite orb_false_r. apply bool_decide_ext. set_solver.
Qed.

(** The switch over the pseudo-headers of a request. *)
Lemma pseudo_field_spec ps f :
  let switch := pseudo_field (header_of ps []) (bool_decide (cMethod ∈ map fst ps)) false f in
  if decide (fst f ∈ request_names) then
    exists h hm, switch = Ok (h, bool_decide (fst f ∈ map fst ps), false, hm, false)
      /\ (fst f ∉ map fst ps -> h = header_of (ps ++ [f]) [] /\ hm = bool_decide (cMethod ∈ map fst (ps ++ [f])))
  else forall h d r hm hs, switch = Ok (h, d, r, hm, hs) -> r = true.
Proof.
  destruct f as [name value]. cbv zeta. unfold pseudo_field. cbn [fst snd].
  assert (name <> cMethod -> has (h_Headers (header_of ps [])) name = bool_decide (name ∈ map fst ps)) as Hhas.
  { intros Hm. unfold has, header_of. cbn [h_Headers regular_headers lengths List.filter foldl]. rewrite pseudo_keys_lookup.
    apply bool_decide_ext. case_bool_decide as Hb; split.
    - intros _. apply Hb.
    - intros _. by eexists.
    - by intros [? ?].
    - intros Hn. by destruct Hb. }
  destruct (decide (name ∈ request_names)) as [Hin|Hin].
  - unfold request_names in Hin. rewrite !elem_of_cons, elem_of_nil in Hin.
    destruct Hin as [->|[->|[->|[->|[->|[]]]]]]; known_names; rewrite ?Hhas by done; eexists _, _; (split; [reflexivity|]); intros Hn;
      unfold header_of; rewrite !value_of_snoc, !names_snoc, pseudo_keys_snoc by done; cbn [fst snd]; known_names;
      rewrite ?orb_true_r, ?orb_false_r; done.
  - assert (forall k, k ∈ request_names -> same name k = false) as Hne.
    { intros k Hk. destruct (same_spec name k) as [->|]; done. }
    rewrite !Hne by (unfold request_names; repeat constructor). intros h d r hm hs. split_if; [|done]. by intros [= _ _ <- _ _].
Qed.

(** One pseudo-header. *)
Lemma request_fields_snoc limit ps f : request_fields limit ps [] ->
  request_fields limit (ps ++ [f]) [] <-> pseudo_ok f /\ fst f ∉ map fst ps /\ total_size ps + field_size f <= limit.
Proof.
  intros [H1 H2 H3 H4 H5]. split.
  - intros [K1 K2 K3 K4 K5]. apply Forall_app in K1 as [_ K1]. apply Forall_cons_iff in K1 as [K1 _]. split; [done|].
    rewrite map_app in K2. apply list.NoDup_app in K2 as (_ & K2 & _). rewrite !total_size_app in K4. cbn in K4. split; [|lia].
    intros Hin. apply (K2 _ Hin). by constructor.
  - intros (K1 & K2 & K3). constructor.
    + apply Forall_app. split; [done|]. by constructor.
    + rewrite map_app. apply list.NoDup_app. split; [done|]. split; [|apply NoDup_singleton]. cbn. set_solver.
    + done.
    + rewrite !total_size_app. cbn. lia.
    + done.
Qed.

Lemma lengths_snoc rs f : lengths (rs ++ [f]) = lengths rs ++ if is_length f then [snd f] else [].
Proof. unfold lengths. rewrite List.filter_app, map_app. cbn. by destruct (is_length f). Qed.

Lemma parse_pseudo limit ps f st : IsPseudo (fst f) = true -> request_fields limit ps [] ->
  parse_field true (state_of limit ps []) f = Ok st <-> request_fields limit (ps ++ [f]) [] /\ st = state_of limit (ps ++ [f]) [].
Proof.
  intros Ep Hok. rewrite request_fields_snoc by done. unfold parse_field. cbn [state_of sizeLimit readFirstRegularHeader].
  rewrite app_nil_r. split_if; breflect; [split; [done|intros ((_ & _ & Hs) & _); lia]|].
  unfold pseudo_ok. destruct (validateHeaderFieldNameAndValue f) as [[]|]; [|split; [done|by intros (((_ & ? & _) & _) & _)]]. cbn [result_bind].
  rewrite Ep. rewrite (bool_decide_eq_true_2 ([] = [])) by done. cbn [negb state_of hdr hasMethod hasStatus readContentLength contentLengthStr].
  pose proof (pseudo_field_spec ps f) as Hspec. cbv zeta in Hspec. destruct (decide (fst f ∈ request_names)) as [Hin|Hin].
  - destruct Hspec as (h & hm & -> & Hnew). cbn [result_bind]. destruct (bool_decide_reflect (fst f ∈ map fst ps)) as [Hseen|Hseen]; [split; [done|by intros ((_ & ? & _) & _)]|].
    cbn [andb negb]. destruct (Hnew Hseen) as [-> ->]. split.
    + intros [= <-]. split; [repeat split; (done || lia)|]. unfold state_of. f_equal. rewrite !total_size_app. cbn. lia.
    + intros [_ ->]. unfold state_of. do 2 f_equal. rewrite !total_size_app. cbn. lia.
  - split; [|by intros (((_ & _ & ?) & _) & _)].
    destruct (pseudo_field _ _ _ f) as [[[[[h d] r] hm] hs]|]; [|done]. cbn [result_bind]. rewrite (Hspec _ _ _ _ _ eq_refl). by destruct d.
Qed.

(** One regular field. *)
Lemma request_fields_regular limit ps rs f : request_fields limit ps rs ->
  request_fields limit ps (rs ++ [f])
  <-> regular_ok f /\ total_size (ps ++ rs) + field_size f <= limit /\ (is_length f = true -> forall v, v ∈ lengths rs -> v = snd f).
Proof.
  intros [H1 H2 H3 H4 H5]. split.
  - intros [K1 K2 K3 K4 K5]. apply Forall_app in K3 as [_ K3]. apply Forall_cons_iff in K3 as [K3 _]. split; [done|].
    rewrite !total_size_app in *. cbn in K4. split; [lia|]. intros Hl v Hv. rewrite lengths_snoc, Hl in K5. apply K5; set_solver.
  - intros (K1 & K2 & K3). constructor; [done|done| | |].
    + apply Forall_app. split; [done|]. by constructor.
    + rewrite !total_size_app in *. cbn. lia.
    + rewrite lengths_snoc. destruct (is_length f); [|rewrite app_nil_r; done]. specialize (K3 eq_refl).
      intros v w Hv Hw. apply elem_of_app in Hv, Hw. rewrite !list_elem_of_singleton in Hv, Hw.
      assert (forall x, x ∈ lengths rs \/ x = snd f -> x = snd f) as Hx by (intros x [?| ->]; auto). by rewrite (Hx v Hv), (Hx w Hw).
Qed.

Lemma regular_headers_snoc h rs f :
  regular_headers h (rs ++ [f]) = if is_length f then regular_headers h rs else Header_Add (regular_headers h rs) f.
Proof. unfold regular_headers. rewrite List.filter_app. cbn [List.filter]. rewrite foldl_app. by destruct (is_length f). Qed.

Lemma header_of_snoc ps rs f :
  header_of ps (rs ++ [f]) = if is_length f then header_of ps rs else
    let h := header_of ps rs in
    {| h_Path := h_Path h; h_Method := h_Method h; h_Authority := h_Authority h; h_Scheme := h_Scheme h; h_Status := h_Status h;
       h_Protocol := h_Protocol h; h_ContentLength := h_ContentLength h; h_Headers := Header_Add (h_Headers h) f |}.
Proof. unfold header_of. rewrite regular_headers_snoc. by destruct (is_length f). Qed.

Lemma length_known limit ps rs v : request_fields limit ps rs ->
  negb (bool_decide (lengths rs = [])) && negb (same (default [] (list.last (lengths rs))) v) = false <-> (forall w, w ∈ lengths rs -> w = v).
Proof.
  intros [_ _ _ _ H5]. destruct (lengths rs) as [|l ls _] eqn:E using rev_ind; [by split; [intros _ w Hw%elem_of_nil|]|].
  rewrite list.last_snoc, bool_decide_eq_false_2 by by destruct ls. change (default [] (Some l)) with l. cbn [negb andb]. rewrite negb_false_iff.
  destruct (same_spec l v) as [->|Hn]; split.
  - intros _ w Hw. apply H5; [done|]. set_solver.
  - reflexivity.
  - discriminate.
  - intros Hall. destruct Hn. apply Hall. set_solver.
Qed.

Lemma parse_regular limit ps rs f st : IsPseudo (fst f) = false -> request_fields limit ps rs ->
  parse_field true (state_of limit ps rs) f = Ok st <-> request_fields limit ps (rs ++ [f]) /\ st = state_of limit ps (rs ++ [f]).
Proof.
  intros Ep Hok. rewrite request_fields_regular by done. unfold parse_field. cbn [state_of sizeLimit].
  split_if; breflect; [split; [done|intros ((_ & Hs & _) & _); lia]|].
  unfold regular_ok. destruct (validateHeaderFieldNameAndValue f) as [[]|]; [|split; [done|by intros (((_ & ? & _) & _) & _)]]. cbn [result_bind].
  rewrite Ep. destruct (validateRegularHeaderField f) as [[]|]; [|split; [done|by intros (((_ & _ & ?) & _) & _)]].
  cbn [result_bind state_of hdr readFirstRegularHeader readContentLength hasMethod hasStatus contentLengthStr].
  assert (limit - total_size (ps ++ rs) - field_size f = limit - total_size (ps ++ rs ++ [f])) as Es by (rewrite !total_size_app; cbn; lia).
  pose proof (length_known limit ps rs (snd f) Hok) as Hlen. unfold state_of. rewrite Es, !lengths_snoc.
  rewrite (bool_decide_eq_false_2 (rs ++ [f] = [])) by by destruct rs.
  rewrite header_of_snoc. change (same (fst f) (str "content-length")) with (is_length f).
  destruct (is_length f) eqn:El.
  - rewrite list.last_snoc, (bool_decide_eq_false_2 (lengths rs ++ [snd f] = [])) by by destruct (lengths rs).
    destruct (_ && _).
    + split; [done|]. intros ((_ & _ & Ha) & _). by apply Hlen in Ha.
    + assert (forall v, v ∈ lengths rs -> v = snd f) as Hall by by apply Hlen. split.
      * intros [= <-]. split; [split; [done|]; split; [lia|done]|done].
      * by intros [_ ->].
  - rewrite app_nil_r. split; [|by intros [_ ->]]. intros [= <-]. split; [split; [done|]; split; [lia|done]|done].
Qed.

Lemma parse_fields_regular limit ps rs fs st : request_fields limit ps rs -> rs <> [] ->
  parse_fields true (state_of limit ps rs) fs = Ok st <-> request_fields limit ps (rs ++ fs) /\ st = state_of limit ps (rs ++ fs).
Proof.
  revert rs. induction fs as [|f fs IH]; intros rs Hok Hne; cbn [parse_fields].
  { rewrite app_nil_r. split; [by intros [= <-]|by intros [_ ->]]. }
  destruct (IsPseudo (fst f)) eqn:Ep.
  - assert (forall x, parse_field true (state_of limit ps rs) f <> Ok x) as Hno.
    { intros x. unfold parse_field. split_if; [done|]. destruct (validateHeaderFieldNameAndValue f); [|done]. cbn [result_bind].
      rewrite Ep. cbn [state_of readFirstRegularHeader]. by rewrite bool_decide_eq_false_2. }
    split.
    + destruct (parse_field true _ f) as [x|] eqn:Ef; [by destruct (Hno x)|done].
    + intros [[_ _ Hr _ _] _]. apply Forall_app in Hr as [_ Hr]. apply Forall_cons_iff in Hr as [[Hr _] _]. congruence.
  - assert (rs ++ f :: fs = (rs ++ [f]) ++ fs) as -> by by rewrite <- app_assoc.
    assert (rs ++ [f] <> []) as Hne' by by destruct rs.
    split.
    + destruct (parse_field true _ f) as [x|] eqn:Ef; [|done]. cbn [result_bind]. apply parse_regular in Ef as [Hf ->]; [|done|done].
      by apply IH.
    + intros [Hf ->]. rewrite (proj2 (parse_regular limit ps rs f _ Ep Hok) (conj (request_fields_prefix _ _ _ _ Hf) eq_refl)).
      cbn [result_bind]. apply IH; [by eapply request_fields_prefix|done|done].
Qed.

Lemma parse_fields_request limit ps fs st : request_fields limit ps [] ->
  parse_fields true (state_of limit ps []) fs = Ok st
  <-> exists ps' rs, fs = ps' ++ rs /\ request_fields limit (ps ++ ps') rs /\ st = state_of limit (ps ++ ps') rs.
Proof.
  revert ps st. induction fs as [|f fs IH]; intros ps st Hok; cbn [parse_fields].
  { split.
    - intros [= <-]. exists [], []. by rewrite !app_nil_r.
    - intros (ps' & rs & E & Hf & ->). symmetry in E. apply app_eq_nil in E as [-> ->]. by rewrite app_nil_r. }
  destruct (IsPseudo (fst f)) eqn:Ep.
  - split.
    + destruct (parse_field true _ f) as [x|] eqn:Ef; [|done]. cbn [result_bind]. apply parse_pseudo in Ef as [Hf ->]; [|done|done].
      intros (ps' & rs & -> & Hr & ->)%IH; [|done]. exists (f :: ps'), rs. rewrite <- app_assoc in Hr |- *. done.
    + intros (ps' & rs & E & Hf & ->). destruct ps' as [|f' ps'].
      { cbn in E. subst rs. destruct Hf as [_ _ Hr _ _]. apply Forall_cons_iff in Hr as [[Hr _] _]. congruence. }
      injection E as <- ->. assert (ps ++ f :: ps' = (ps ++ [f]) ++ ps') as Ea by by rewrite <- app_assoc. rewrite Ea in Hf |- *.
      rewrite (proj2 (parse_pseudo limit ps f _ Ep Hok) (conj (request_fields_pseudo _ _ _ _ Hf) eq_refl)).
      cbn [result_bind]. apply IH; [by eapply request_fields_pseudo|]. by exists ps', rs.
  - split.
    + destruct (parse_field true _ f) as [x|] eqn:Ef; [|done]. cbn [result_bind]. apply parse_regular in Ef as [Hf ->]; [|done|done].
      intros [Hr ->]%parse_fields_regular; [|done|done]. exists [], (f :: fs). by rewrite app_nil_r.
    + intros (ps' & rs & E & Hf & ->). destruct ps' as [|f' ps'].
      * cbn in E. subst rs. rewrite app_nil_r in Hf |- *. assert (request_fields limit ps ([] ++ [f])) as H1
          by (apply (request_fields_prefix _ _ _ fs); done).
        rewrite (proj2 (parse_regular limit ps [] f _ Ep Hok) (conj H1 eq_refl)). cbn [result_bind].
        by apply (parse_fields_regular limit ps [f] fs).
      * injection E as <- _. destruct Hf as [Hr _ _ _ _]. apply Forall_app in Hr as [_ Hr]. apply Forall_cons_iff in Hr as [[Hr _] _]. congruence.
Qed.

End Accepted.

(** ** Requests *)

(** What [httpguts] documents: names are tokens, printable ASCII is a value. *)
Class HttpgutsOk `{Httpguts} : Prop := {
  field_name_token n : ValidHeaderFieldName n = negb (same n []) && forallb token_byte n;
  ascii_value v : Forall (fun c => 32 <= c < 127) v -> ValidHeaderFieldValue v = true;
  token_method s : forallb token_byte s = true -> all_tokens s = true;
}.

(** The regular fields as the handler sees them. *)
Definition message_headers (rs : list field) : header_map :=
  let length := default [] (list.last (lengths rs)) in
  let headers := regular_headers ∅ rs in
  if same length [] then headers else Header_Set headers (str "Content-Length") length.

Section Requests.
  Context `{Httpguts, Qpack, UrlLib} {Hguts : HttpgutsOk}.

Definition final_header (ps rs : list field) : option header :=
  let length := default [] (list.last (lengths rs)) in
  let h := header_of ps rs in
  if same length [] then Some (with_length h (-1) (h_Headers h))
  else cl ← ParseUint 63 length; Some (with_length h cl (Header_Set (h_Headers h) (str "Content-Length") length)).

Lemma parseHeaders_request d limit h : 0 <= limit ->
  parseHeaders d true limit = Ok h
  <-> snd d = true /\ exists ps rs, fst d = ps ++ rs /\ request_fields limit ps rs /\ final_header ps rs = Some h.
Proof.
  intros Hl. assert (request_fields limit [] []) as H0'.
  { constructor; [constructor|apply NoDup_nil_2|constructor|done|]. intros v w Hv. by apply elem_of_nil in Hv. }
  assert (start_parse limit = state_of limit [] []) as Es.
  { unfold start_parse, state_of. f_equal. cbn. lia. }
  unfold parseHeaders. rewrite Es. destruct d as [fs e]. cbn [fst snd].
  pose proof (fun st => parse_fields_request limit [] fs st H0') as Hp. split.
  - destruct (parse_fields true _ fs) as [st|]; [|done]. destruct (proj1 (Hp st) eq_refl) as (ps & rs & -> & Hr & ->).
    cbn [result_bind]. destruct e; [|done]. cbn [negb]. intros Hh. split; [done|]. exists ps, rs. split; [done|]. split; [done|].
    unfold final_header. cbn [state_of contentLengthStr hdr app] in Hh. destruct (same _ []); [by injection Hh as <-|].
    destruct (ParseUint 63 _); [by injection Hh as <-|done].
  - intros (-> & ps & rs & -> & Hr & Hf). rewrite (proj2 (Hp (state_of limit ps rs)) (ex_intro _ ps (ex_intro _ rs (conj eq_refl (conj Hr eq_refl))))).
    cbn [result_bind negb state_of contentLengthStr hdr]. unfold final_header in Hf. destruct (same _ []); [by injection Hf as <-|].
    destruct (ParseUint 63 _); [by injection Hf as <-|done].
Qed.

(** *** The header map *)

Definition colon (k : gostring) : Prop := exists r, k = 58 :: r.
Lemma token_not_colon : token_byte 58 = false.
Proof. reflexivity. Qed.
Lemma canonical_head up c s : upper c <> 58 -> lower c <> 58 -> ~ colon (canonical up (c :: s)).
Proof. intros Hu Hl [r Hr]. cbn in Hr. injection Hr as Hc _. destruct up; done. Qed.
Lemma case_not_colon c : c <> 58 -> upper c <> 58 /\ lower c <> 58.
Proof. intros Hc. unfold upper, lower. repeat split_if; breflect; lia. Qed.

Lemma regular_key f : regular_ok f -> ~ colon (CanonicalMIMEHeaderKey (fst f)).
Proof.
  intros (_ & _ & Hv). unfold validateRegularHeaderField in Hv. rewrite field_name_token in Hv.
  destruct (negb (same (fst f) []) && forallb token_byte (fst f)) eqn:E; [|done]. apply andb_true_iff in E as [En Et]. unfold CanonicalMIMEHeaderKey. rewrite Et.
  destruct (fst f) as [|c s]; [done|]. cbn in Et. apply andb_true_iff in Et as [Et _]. assert (c <> 58) as Hc by (intros ->; done).
  destruct (case_not_colon c Hc). by apply canonical_head.
Qed.

Lemma Header_Add_lookup h f k : Header_Add h f !! k =
  if decide (CanonicalMIMEHeaderKey (fst f) = k) then Some (default [] (h !! k) ++ [snd f]) else h !! k.
Proof. unfold Header_Add. case_decide as Hk; [subst k; by rewrite lookup_insert_eq|by rewrite lookup_insert_ne]. Qed.

Lemma regular_headers_local h1 h2 rs k : h1 !! k = h2 !! k -> regular_headers h1 rs !! k = regular_headers h2 rs !! k.
Proof.
  intros Hk. induction rs as [|f rs IH] using rev_ind; [done|]. rewrite !regular_headers_snoc. destruct (is_length f); [done|].
  rewrite !Header_Add_lookup, IH. done.
Qed.
Lemma regular_headers_colon h rs k : Forall regular_ok rs -> colon k -> regular_headers h rs !! k = h !! k.
Proof.
  intros Hr Hk. induction rs as [|f rs IH] using rev_ind; [done|]. apply Forall_app in Hr as [Hr Hf]. apply Forall_cons_iff in Hf as [Hf _].
  rewrite regular_headers_snoc. destruct (is_length f); [by apply IH|]. rewrite Header_Add_lookup, IH by done.
  case_decide as He; [|done]. subst k. by apply regular_key in Hf.
Qed.
Lemma regular_headers_elem h rs f : f ∈ rs -> is_length f = false -> snd f ∈ default [] (regular_headers h rs !! CanonicalMIMEHeaderKey (fst f)).
Proof.
  intros Hf Hl. induction rs as [|g rs IH] using rev_ind; [by apply elem_of_nil in Hf|]. rewrite regular_headers_snoc.
  apply elem_of_app in Hf as [Hf|Hf].
  - specialize (IH Hf). destruct (is_length g); [done|]. rewrite Header_Add_lookup. case_decide as Hk; [|done]. cbn. set_solver.
  - apply list_elem_of_singleton in Hf as <-. rewrite Hl, Header_Add_lookup, decide_True by done. cbn. set_solver.
Qed.

(** Without the keys of the pseudo-headers only the regular fields are left. *)
Lemma colon_names k : k ∈ request_names -> colon k.
Proof.
  unfold request_names. rewrite !elem_of_cons, elem_of_nil. unfold colon.
  intros [->|[->|[->|[->|[->|[]]]]]]; eexists; vm_compute; reflexivity.
Qed.
Lemma stripped_headers limit ps rs h : request_fields limit ps rs -> final_header ps rs = Some h ->
  delete cProtocol (delete cScheme (delete cAuthority (delete cPath (h_Headers h)))) = message_headers rs.
Proof.
  intros [Hp _ Hr _ _] Hf. apply map_eq. intros k.
  assert (h_Headers h = let l := default [] (list.last (lengths rs)) in
    if same l [] then regular_headers (pseudo_keys ps) rs else Header_Set (regular_headers (pseudo_keys ps) rs) (str "Content-Length") l) as ->.
  { cbv zeta. unfold final_header in Hf. destruct (same _ []); [by injection Hf as <-|]. destruct (ParseUint 63 _); [by injection Hf as <-|done]. }
  unfold message_headers. cbv zeta. set (l := default [] _).
  assert (forall x : gostring, colon x -> x <> CanonicalMIMEHeaderKey (str "Content-Length")) as Hcl by (intros x [r ->]; done).
  destruct (decide (k ∈ request_names /\ k <> cMethod)) as [[Hk Hm]|Hk].
  - assert (colon k) as Hc by by apply colon_names.
    transitivity (@None (list gostring)).
    + unfold request_names in Hk. rewrite !elem_of_cons, elem_of_nil in Hk. rewrite !lookup_delete_None. naive_solver.
    + symmetry. destruct (same l []); [|unfold Header_Set; rewrite lookup_insert_ne by (symmetry; by apply Hcl)]; by rewrite regular_headers_colon.
  - assert (forall x, x ∈ request_names -> x <> cMethod -> x <> k) as Hne by (intros x Hx Hxm ->; by destruct Hk).
    rewrite !lookup_delete_ne by (apply Hne; [unfold request_names; repeat constructor|discriminate]).
    assert (pseudo_keys ps !! k = None) as Hnone.
    { rewrite pseudo_keys_lookup, bool_decide_eq_false_2; [done|]. intros [Hin Hm]. apply Hk. split; [|done].
      apply list_elem_of_fmap in Hin as (f & -> & Hf'). rewrite Forall_forall in Hp. apply list_elem_of_In, Hp in Hf'. by destruct Hf' as (_ & _ & ?). }
    assert (regular_headers (pseudo_keys ps) rs !! k = regular_headers ∅ rs !! k) as Er by by apply regular_headers_local.
    destruct (same l []); [done|]. unfold Header_Set. destruct (decide (CanonicalMIMEHeaderKey (str "Content-Length") = k)) as [<-|Hn].
    + by rewrite !lookup_insert_eq.
    + by rewrite !lookup_insert_ne.
Qed.

Lemma has_pseudo limit ps rs h k : request_fields limit ps rs -> final_header ps rs = Some h -> k ∈ request_names -> k <> cMethod ->
  has (h_Headers h) k = bool_decide (k ∈ map fst ps).
Proof.
  intros [_ _ Hr _ _] Hf Hk Hm. assert (h_Headers h !! k = pseudo_keys ps !! k) as E.
  { apply colon_names in Hk. unfold final_header in Hf. destruct (same _ []).
    - injection Hf as <-. by apply regular_headers_colon.
    - destruct (ParseUint 63 _); [|done]. injection Hf as <-. cbn [with_length h_Headers]. unfold Header_Set.
      rewrite lookup_insert_ne by (destruct Hk as [r ->]; done). by apply regular_headers_colon. }
  unfold has. rewrite E, pseudo_keys_lookup. apply bool_decide_ext. case_bool_decide as Hb; split.
  - intros _. apply Hb.
  - intros _. by eexists.
  - by intros [? ?].
  - intros Hin. by destruct Hb.
Qed.

Lemma value_of_elem k ps : k ∈ map fst ps -> (k, value_of k ps) ∈ ps.
Proof.
  induction ps as [|f ps IH]; cbn [map value_of]; intros Hk; [by apply elem_of_nil in Hk|].
  destruct (same_spec (fst f) k) as [<-|Hn]; [rewrite <- surjective_pairing; constructor|]. constructor. apply IH. set_solver.
Qed.
Lemma value_of_None k ps : k ∉ map fst ps -> value_of k ps = [].
Proof.
  induction ps as [|f ps IH]; cbn [map value_of]; intros Hk; [done|]. apply not_elem_of_cons in Hk as [Hn Hk].
  destruct (same_spec (fst f) k) as [<-|_]; [done|by apply IH].
Qed.
Lemma value_of_unique k v ps : NoDup (map fst ps) -> (k, v) ∈ ps -> value_of k ps = v.
Proof.
  induction ps as [|f ps IH]; cbn [map value_of]; intros Hn Hk; [by apply elem_of_nil in Hk|]. apply list.NoDup_cons in Hn as [Hf Hn].
  apply elem_of_cons in Hk as [<-|Hk]; [cbn [fst snd]; by destruct (same_spec k k)|]. destruct (same_spec (fst f) k) as [<-|_]; [|by apply IH].
  destruct Hf. apply list_elem_of_fmap. by exists (fst f, v).
Qed.
Lemma value_of_sent k ps : value_of k ps <> [] -> (k, value_of k ps) ∈ ps.
Proof. intros Hv. destruct (decide (k ∈ map fst ps)) as [Hk|Hk]; [by apply value_of_elem|]. by rewrite value_of_None in Hv. Qed.

End Requests.

Section Sound.
  Context `{Httpguts, Qpack, UrlLib} {Hguts : HttpgutsOk}.

Lemma check_request_ok (h : header) (headers : header_map) (hp ha hs hpr : bool) authority ext :
  check_request h headers hp ha hs hpr = Ok (authority, ext) ->
  let hosts := default [] (headers !! str "Host") in
  let isConnect := same (h_Method h) CONNECT in
  h_Method h <> [] /\ validMethod (h_Method h) = true /\ len hosts <= 1
  /\ (ha = true -> hosts <> [] -> h_Authority h = Header_Get headers (str "Host"))
  /\ authority = (if negb isConnect && negb ha && is_http (h_Scheme h) then Header_Get headers (str "Host") else h_Authority h)
  /\ ext = isConnect && negb (same (h_Protocol h) [])
  /\ (ext = true -> ValidHeaderFieldName (h_Protocol h) = true /\ h_Scheme h <> [] /\ h_Path h <> [])
  /\ authority <> [] /\ (ext = false -> hpr = false).
Proof.
  unfold check_request. cbv zeta. destruct (same_spec (h_Method h) []) as [|Hm]; [done|]. destruct (validMethod (h_Method h)); [|done].
  cbn [negb]. set (hosts := default [] _). destruct (len hosts >? 1) eqn:Eh; [done|]. destruct (ha && _ && negb _) eqn:Ea; [done|].
  set (auth := if negb (same (h_Method h) CONNECT) && _ && _ then _ else h_Authority h).
  destruct (contains_byte auth 64 && is_http (h_Scheme h)) eqn:Eu; [done|].
  set (x := same (h_Method h) CONNECT && negb (same (h_Protocol h) [])).
  destruct (if x then if negb (validExtendedConnectProtocol _) then _ else _ else _) as [[]|] eqn:Ex; [|done]. cbn [result_bind]. destruct (negb x && hpr) eqn:Ep; [done|]. intros [= <- <-].
  assert (auth <> [] /\ (x = true -> ValidHeaderFieldName (h_Protocol h) = true /\ h_Scheme h <> [] /\ h_Path h <> [])) as [Hauth Hx].
  { unfold validExtendedConnectProtocol in Ex. destruct x.
    - destruct (ValidHeaderFieldName (h_Protocol h)); [|done]. cbn [negb] in Ex.
      destruct (same_spec (h_Scheme h) []), (same_spec (h_Path h) []), (same_spec auth []); done.
    - destruct (same (h_Method h) CONNECT); [destruct (hs || hp)|destruct (same (h_Path h) [])]; try done;
        (destruct (same_spec auth []); [done|]); done. }
  do 2 (split; [done|]). split; [breflect; lia|]. split.
  { intros -> Hne. cbn [andb] in Ea. assert (len hosts >? 0 = true) as Hpos.
    { apply Z.gtb_lt. destruct hosts; [done|]. unfold len. cbn. lia. }
    rewrite Hpos in Ea. cbn [andb] in Ea. apply negb_false_iff in Ea. by destruct (same_spec (h_Authority h) (Header_Get headers (str "Host"))). }
  do 2 (split; [done|]). split; [done|]. split; [done|]. intros Hf. rewrite Hf in Ep. done.
Qed.

(** What a request that was accepted had on the wire. *)
Record accepted (d : decoded) (limit : Z) (q : http_Request) (ps rs : list field) : Prop := {
  ac_fields : fst d = ps ++ rs;
  ac_request : request_fields limit ps rs;
  ac_method : (cMethod, q_Method q) ∈ ps /\ validMethod (q_Method q) = true;
  ac_headers : q_Header q = snd (extractAnnouncedTrailers (join_cookies (message_headers rs)));
  ac_host : q_Host q <> [] /\ u_Host (q_URL q) = q_Host q;
  ac_authority v : (cAuthority, v) ∈ ps -> q_Host q = v /\ forall w, (str "host", w) ∈ rs -> w = v;
  ac_connect : q_Method q = CONNECT -> (cAuthority, q_Host q) ∈ ps;
  ac_protocol : q_Proto q <> str "HTTP/3.0" -> q_Method q = CONNECT /\ (cProtocol, q_Proto q) ∈ ps
    /\ exists path url, (cPath, path) ∈ ps /\ path <> [] /\ ParseRequestURI path = Some url /\ u_rest (q_URL q) = snd url;
  ac_plain : q_Proto q = str "HTTP/3.0" -> cProtocol ∉ map fst ps;
}.

Lemma final_header_fields ps rs h : final_header ps rs = Some h ->
  h_Method h = value_of cMethod ps /\ h_Authority h = value_of cAuthority ps /\ h_Protocol h = value_of cProtocol ps /\ h_Path h = value_of cPath ps.
Proof. unfold final_header. destruct (same _ []); [by intros [= <-]|]. destruct (ParseUint 63 _); [by intros [= <-]|done]. Qed.

Lemma host_fields rs w : (str "host", w) ∈ rs -> w ∈ default [] (message_headers rs !! str "Host").
Proof.
  intros Hw. pose proof (regular_headers_elem ∅ rs (str "host", w) Hw eq_refl) as Hin. cbn [fst snd] in Hin.
  change (CanonicalMIMEHeaderKey (str "host")) with (str "Host") in Hin. unfold message_headers. destruct (same _ []); [done|].
  unfold Header_Set. by rewrite lookup_insert_ne.
Qed.
Lemma Header_Get_single (h : header_map) v : default [] (h !! str "Host") = [v] -> Header_Get h (str "Host") = v.
Proof. unfold Header_Get. change (CanonicalMIMEHeaderKey (str "Host")) with (str "Host"). destruct (h !! str "Host"); cbn; [by intros ->|done]. Qed.

(** What [requestFromHeaders] accepts. *)
Lemma requestFromHeaders_accepted d limit q : 0 <= limit -> requestFromHeaders d limit = Ok q ->
  snd d = true /\ exists ps rs, accepted d limit q ps rs.
Proof.
  intros Hl. unfold requestFromHeaders. destruct (parseHeaders d true limit) as [h|] eqn:Eh; [|done]. cbn [result_bind].
  apply parseHeaders_request in Eh as (Hd & ps & rs & Ed & Hr & Hf); [|done]. intros Hq. split; [done|]. exists ps, rs.
  rewrite (stripped_headers _ _ _ _ Hr Hf), !(has_pseudo _ _ _ _ _ Hr Hf) in Hq by (unfold request_names; (repeat constructor) || discriminate).
  destruct (check_request _ _ _ _ _ _) as [[authority ext]|] eqn:Ec; [|done]. cbn [result_bind] in Hq.
  apply check_request_ok in Ec as (C1 & C2 & C3 & C4 & C5 & C6 & C7 & C8 & C9).
  destruct (final_header_fields _ _ _ Hf) as (Em & Ea & Ep & Epa). destruct (request_url _ _ _) as [rest|] eqn:Eu; [|done].
  destruct (extractAnnouncedTrailers _) as [tr hd] eqn:Et. injection Hq as <-. destruct Hr as [R1 R2 R3 R4 R5].
  assert (forall k, value_of k ps <> [] -> (k, value_of k ps) ∈ ps) as Hsent by (intros k; apply value_of_sent).
  constructor; cbn [q_Method q_Header q_Host q_URL q_Proto u_Host u_rest]; try done.
  - split; [|done]. rewrite Em in C1 |- *. by apply Hsent.
  - by rewrite Et.
  - intros v Hv. assert (bool_decide (cAuthority ∈ map fst ps) = true) as Ha.
    { apply bool_decide_eq_true_2, list_elem_of_fmap. by exists (cAuthority, v). }
    rewrite Ha in C4, C5. rewrite andb_false_r in C5. cbn [andb] in C5. rewrite (value_of_unique cAuthority v) in Ea by done.
    split; [congruence|]. intros w Hw%host_fields. destruct (default [] (message_headers rs !! str "Host")) as [|x [|y xs]] eqn:Ex.
    + by apply elem_of_nil in Hw.
    + apply list_elem_of_singleton in Hw as ->. rewrite <- Ea, C4 by done. by rewrite (Header_Get_single _ x).
    + unfold len in C3. cbn in C3. lia.
  - intros Hc. destruct (same_spec (h_Method h) CONNECT); [|done]. cbn [negb andb] in C5. rewrite C5, Ea in *. by apply Hsent.
  - destruct ext; [|done]. intros _. symmetry in C6. apply andb_true_iff in C6 as [Hc Hp]. apply negb_true_iff in Hp.
    destruct (same_spec (h_Method h) CONNECT) as [Hm|]; [|done]. split; [done|]. destruct (same_spec (h_Protocol h) []) as [|Hn]; [done|].
    rewrite Ep in Hn |- *. split; [by apply Hsent|]. destruct (C7 eq_refl) as (_ & _ & Hpath). cbn [andb negb] in Eu. unfold request_url in Eu.
    cbn [andb negb] in Eu. destruct (ParseRequestURI (h_Path h)) as [url|] eqn:Eurl; [|done]. exists (h_Path h), url.
    injection Eu as <-. rewrite Epa in Hpath |- *. split; [by apply Hsent|]. split; [done|]. split; [by rewrite <- Epa|done].
  - destruct ext.
    + intros E. destruct (C7 eq_refl) as (Hv & _). rewrite E, field_name_token in Hv. done.
    + intros _. eapply bool_decide_eq_false_1. by apply C9.
Qed.

End Sound.
