(* ===== verification/Requests.v ===== *)
(** * HTTP/3 requests on the wire

What a client writes on a request stream ([stream.go] and [request_writer.go] of
[third_party/quic-go/http3]) and what the server does with the bytes until it calls
the handler ([handleRequestStream] of [server_conn.go]).  [served_request] says what
a request the relay acts on had on the wire, whatever the bytes; [request_arrives]
that the request of a client is the one the relay parses. *)

From stdpp Require Import base gmap list numbers.
From Stdlib Require Import ZArith Lia String.
From S2P Require Import Prelude.
From S2P Require Import GoStrings.
From S2P Require Import Quicvarint.
From S2P Require Import Priority.
From S2P Require Import ControlStream.
From S2P Require Import Headers.
From S2P Require Import Netip.
From S2P Require Import ProxyRequest.

Local Open Scope Z_scope.

Definition ErrCodeExcessiveLoad : Z := 0x107.
Definition ErrCodeRequestIncomplete : Z := 0x10d.
Definition ErrCodeMessageError : Z := 0x10e.
Definition ErrCodeQPACKDecompressionFailed : Z := 0x200.

(** What structured fields, and QPACK, do for the code. *)
Class QpackOk `{Qpack} : Prop := {
  IsPseudo_colon n : IsPseudo n = match n with 58 :: _ => true | _ => false end;
  qpack_bytes fs : is_bytes (qpack_Encode fs);
  qpack_roundtrip fs : Forall (fun f => is_bytes (fst f) /\ is_bytes (snd f) /\ len (fst f) < 2 ^ 14 /\ len (snd f) < 2 ^ 14) fs ->
    qpack_Decode (qpack_Encode fs) = (fs, true);
  qpack_size fs : len (qpack_Encode fs) <= 4 * total_size fs + 2;   (** a Huffman code has 30 bits at most *)
}.

Section Streams.
  Context `{Httpguts, Qpack, UrlLib}.

(** ** The server *)

(** How [handleRequestStream] goes on: the connection is closed, the stream is reset
in both directions (and the connection closed by the parser), the client is told
431, or the handler is called, with the bound on the body and the priority. *)
Inductive intake :=
| ConnectionClosed (code : Z)
| StreamReset (code : Z) (closed : option Z)
| FieldsTooLarge
| Serving (req : http_Request) (contentLength : Z) (priority : Z * bool).

Definition body_limit (q : http_Request) : Z :=
  if has (q_Header q) (str "Content-Length") && (q_ContentLength q >=? 0) then q_ContentLength q else -1.

(** The priority of a request; [priorityAware] of the connection is read and set. *)
Definition request_priority (q : http_Request) (priorityAware : bool) : option ((Z * bool) * bool) :=
  match q_Header q !! str "Priority" with
  | None => Some ((defaultPriorityUrgency, negb priorityAware), priorityAware)
  | Some values => p ← parsePriority (Join values (str ",")); Some (p, true)
  end.

(** [io.ReadFull], with its own errors. *)
Definition handleRequestStream (maxHeaderBytes : Z) (priorityAware : bool) (r : reader) : option (intake * bool) :=
  let max := Server_maxHeaderBytes maxHeaderBytes in
  '(f, r) ← ParseNext r;
  match f with
  | Err PriorityUpdateForPush => Some (ConnectionClosed ErrCodeFrameUnexpected, priorityAware)
  | Err e => Some (StreamReset ErrCodeRequestIncomplete (match e with ReservedFrame => Some ErrCodeFrameUnexpected | _ => None end), priorityAware)
  | Ok (headersFrame l _) =>
    if l >? u64 max then Some (FieldsTooLarge, priorityAware)
    else match read_full l r with
    | (Err _, _) => Some (StreamReset ErrCodeRequestIncomplete None, priorityAware)
    | (Ok headerBlock, _) =>
      match requestFromHeaders (qpack_Decode headerBlock) max with
      | Err HeaderTooLarge => Some (FieldsTooLarge, priorityAware)
      | Err QpackError => Some (StreamReset ErrCodeQPACKDecompressionFailed None, priorityAware)
      | Err _ => Some (StreamReset ErrCodeMessageError None, priorityAware)
      | Ok q =>
        '(p, aware) ← request_priority q priorityAware;
        Some (Serving q (body_limit q) p, aware)
      end
    end
  | Ok _ => Some (ConnectionClosed ErrCodeFrameUnexpected, priorityAware)
  end.

(** ** The client *)

(** [sendRequestHeader] for a request without a body and without trailers: the
bytes, unless it is refused; [None] is a panic. *)
Definition requests_gzip (disableCompression : bool) (q : http_Request) : bool :=
  negb disableCompression && negb (same (q_Method q) (str "HEAD"))
  && same (Header_Get (q_Header q) (str "Accept-Encoding")) [] && same (Header_Get (q_Header q) (str "Range")) [].
Definition writeHeaders (q : http_Request) (order : list (gostring * list gostring)) (gzip : bool) : option (result write_error (list Z)) :=
  match encodeHeaders q order gzip [] (actualContentLength true (q_ContentLength q)) with
  | Err e => Some (Err e)
  | Ok fields =>
    let block := qpack_Encode fields in
    b ← headers_Append (len block) [];
    Some (Ok (b ++ block))
  end.
Definition sendRequestHeader (disableCompression : bool) (q : http_Request) (order : list (gostring * list gostring))
  : option (result write_error (list Z)) :=
  writeHeaders q order (requests_gzip disableCompression q).

(** ** What the proxy looks at *)

(** The request as [ParseProxyRequest] reads it; [sf] is [httpsfv.UnmarshalItem]. *)
Definition as_proxy_request (sf : list gostring -> option sf_item) (q : http_Request) : http_request :=
  {| hr_Method := q_Method q; hr_Proto := q_Proto q; hr_Host := q_Host q;
     hr_capsule := sf <$> (q_Header q !! str "Capsule-Protocol"); hr_URL := URL_String (q_URL q) |}.

End Streams.

(** ** Whatever the bytes *)

(** A HEADERS frame is followed by the rest of the stream. *)
Lemma read_varint_suffix r v r' : is_bytes (rd_avail r) -> read_varint r = (Ok v, r') ->
  is_bytes (rd_avail r') /\ exists pre, rd_avail r = pre ++ rd_avail r'.
Proof.
  destruct r as [b e]. intros Hb. unfold read_varint. pose proof (Read_as_Parse b e Hb) as Hr. destruct (Parse b) as [[w n]|].
  - destruct Hr as (_ & _ & ->). intros [= <- <-]. cbn. split; [by apply Forall_drop|]. exists (take (Z.to_nat n) b). by rewrite take_drop.
  - by rewrite Hr.
Qed.
Lemma ParseNext_suffix r l hl r' : is_bytes (rd_avail r) -> ParseNext r = Some (Ok (headersFrame l hl), r') -> exists pre, rd_avail r = pre ++ rd_avail r'.
Proof.
  unfold ParseNext. generalize (S (List.length (rd_avail r))). intros fuel. revert r. induction fuel as [|fuel IH]; intros r Hb; [done|]. cbn [parse_next].
  destruct (read_varint r) as [[t|] r1] eqn:E1; [|done]. destruct (read_varint_suffix _ _ _ Hb E1) as [Hb1 [p1 H1]].
  destruct (read_varint r1) as [[n|] r2] eqn:E2; [|done]. destruct (read_varint_suffix _ _ _ Hb1 E2) as [Hb2 [p2 H2]].
  split_if; [done|]. split_if; [intros [= _ _ <-]; exists (p1 ++ p2); by rewrite H1, H2, app_assoc|].
  split_if; [unfold parseSettingsFrame; split_if; [done|]; destruct (read_full n r2) as [[buf|] ?]; [|done]; cbn; by destruct (settings_loop _ _ _ _)|].
  split_if; [unfold parseGoAwayFrame; destruct (read_varint r2) as [[id|] ?]; [|done]; by split_if|].
  split_if; [unfold parsePriorityUpdateFrame; split_if; [done|]; destruct (read_full n r2) as [[buf|] ?]; [|done]; by destruct (Parse buf) as [[? ?]|]|].
  split_if; [done|]. split_if; [done|]. destruct (skip n r2) as [[[]|] r3] eqn:E3; [|done]. unfold skip in E3. split_if_in E3; [|done].
  injection E3 as <-. intros [p3 H3]%IH; [|by apply Forall_drop]. cbn [rd_avail] in H3.
  exists (p1 ++ p2 ++ take (Z.to_nat n) (rd_avail r2) ++ p3). rewrite H1, H2, <- (take_drop (Z.to_nat n) (rd_avail r2)) at 1. by rewrite H3, <- !app_assoc.
Qed.

Section Served.
  Context `{Httpguts, Qpack, UrlLib} {Hguts : HttpgutsOk} {T : Template}.

Lemma max_positive n : 0 < Server_maxHeaderBytes n.
Proof. unfold Server_maxHeaderBytes. split_if; breflect; [done|lia]. Qed.

Lemma request_priority_total q aware : exists p aware', request_priority q aware = Some (p, aware') /\ 0 <= fst p <= 7.
Proof.
  unfold request_priority. destruct (q_Header q !! str "Priority") as [vs|]; [|by eexists _, _].
  rewrite parsePriority_reference. cbn [mbind option_bind]. eexists _, _. split; [done|]. apply priority_of_urgency.
Qed.

Lemma ParseProxyRequest_inv r pr : ParseProxyRequest r = Ok pr ->
  hr_Method r = CONNECT /\ hr_Proto r = requestProtocol /\ template_host = Some (hr_Host r) /\ pr_Host pr = hr_Host r.
Proof.
  unfold ParseProxyRequest. destruct template_host as [host|]; [|done]. destruct (same_spec (hr_Method r) (str "CONNECT")) as [Hm|]; [|done].
  destruct (same_spec (hr_Proto r) requestProtocol) as [Hp|]; [|done]. destruct (same_spec (hr_Host r) host) as [Hh|]; [|done]. cbn [negb].
  intros Hok. split; [done|]. split; [done|]. split; [by rewrite Hh|].
  destruct (hr_capsule r) as [[[[|]|]|]|]; try done;
    (destruct (template_match (hr_URL r)) as [th tp]; destruct (same th [] || same tp []); [done|]; destruct (Atoi tp); [by injection Hok as <-|done]).
Qed.

(** C37: requests from the network.  Whatever bytes a client sends on a request
stream, [handleRequestStream] decides without a panic.  A request it hands to the
relay came from one block of the stream, of at most [MaxHeaderBytes], whose fields
are well formed: known pseudo-headers first and each once, lower-case names, no connection-specific
fields, the size of the list within the limit; its priority is in range.  And if
[ParseProxyRequest] accepts it as CONNECT-UDP, the client sent exactly that method
and protocol, the authority of the relay's template, and no Host field that says
otherwise. *)
Theorem served_request sf maxHeaderBytes aware r : is_bytes (rd_avail r) ->
  exists out aware', handleRequestStream maxHeaderBytes aware r = Some (out, aware')
  /\ forall q n p, out = Serving q n p ->
     0 <= fst p <= 7
     /\ exists pre block post ps rs, rd_avail r = pre ++ block ++ post /\ len block <= Server_maxHeaderBytes maxHeaderBytes
        /\ accepted (qpack_Decode block) (Server_maxHeaderBytes maxHeaderBytes) q ps rs
        /\ forall pr, ParseProxyRequest (as_proxy_request sf q) = Ok pr ->
             (cMethod, CONNECT) ∈ ps /\ (cProtocol, requestProtocol) ∈ ps /\ (cAuthority, pr_Host pr) ∈ ps
             /\ template_host = Some (pr_Host pr) /\ forall w, (str "host", w) ∈ rs -> w = pr_Host pr.
Proof.
  intros Hb. unfold handleRequestStream. pose proof (max_positive maxHeaderBytes) as Hmax. set (max := Server_maxHeaderBytes maxHeaderBytes) in *.
  destruct (ParseNext_ok r Hb) as (f & r' & En & _). rewrite En. cbn [mbind option_bind].
  destruct f as [[l|l hl|s|id|id v]|[]]; try (eexists _, _; split; [done|discriminate]).
  destruct (ParseNext_suffix _ _ _ _ Hb En) as [pre Hpre]. split_if; [eexists _, _; split; [done|discriminate]|]. destruct (read_full l r') as [[block|] r2] eqn:Er; [|eexists _, _; split; [done|discriminate]].
  destruct (requestFromHeaders (qpack_Decode block) max) as [q|[]] eqn:Eq; try (eexists _, _; split; [done|discriminate]).
  destruct (request_priority_total q aware) as (p & aware' & -> & Hp). cbn [mbind option_bind]. eexists _, _. split; [done|].
  intros q' n' p' [= <- <- <-]. split; [done|]. apply requestFromHeaders_accepted in Eq as (_ & ps & rs & Ha); [|lia].
  exists pre, block, (rd_avail r2), ps, rs. unfold read_full in Er. destruct (l <=? len (rd_avail r')) eqn:El; [|done]. injection Er as <- <-.
  split; [cbn [rd_avail]; by rewrite take_drop|]. split.
  { breflect. assert (u64 max <= max) by (unfold u64; apply Z.mod_le; lia). unfold len. rewrite length_take. lia. }
  split; [done|]. intros pr (Em & Epr & Et & Eh)%ParseProxyRequest_inv. cbn [as_proxy_request hr_Method hr_Proto hr_Host] in *.
  destruct Ha as [_ _ [A1 _] _ _ A2 A3 A4 _]. rewrite Em in A1. specialize (A3 Em). rewrite <- Eh in A3, Et.
  destruct A4 as (_ & A4 & _); [by rewrite Epr|]. rewrite Epr in A4. do 4 (split; [done|]). by apply A2.
Qed.

End Served.

(** ** The request of a client *)

Definition printable (s : gostring) : Prop := Forall (fun c => 32 <= c < 127) s.

(** Headers a caller may add: canonical names that [writeHeaders] and the server
pass on as they are. *)
Definition reserved_keys : list gostring :=
  (skipped_keys ++ [str "user-agent"; str "te"; str "cookie"; str "trailer"; str "accept-encoding"])%list.
Definition plain_entry (kv : gostring * list gostring) : Prop :=
  fst kv <> [] /\ forallb token_byte (fst kv) = true /\ canonical true (fst kv) = fst kv /\ map lower (fst kv) ∉ reserved_keys
  /\ Forall printable (snd kv).

Definition lower_field (f : field) : field := (map lower (fst f), snd f).
(** The fields of one key. *)
Definition key_fields (kv : gostring * list gostring) : list field := map (fun v => (map lower (fst kv), v)) (snd kv).

(** The values of a key, in the order of the fields. *)
Definition values_of (k : gostring) (rs : list field) : list gostring :=
  map snd (List.filter (fun f => same (CanonicalMIMEHeaderKey (fst f)) k && negb (is_length f)) rs).

Lemma values_of_app k rs rs' : values_of k (rs ++ rs') = values_of k rs ++ values_of k rs'.
Proof. unfold values_of. by rewrite List.filter_app, map_app. Qed.
Lemma regular_headers_values rs k : regular_headers ∅ rs !! k = match values_of k rs with [] => None | vs => Some vs end.
Proof.
  induction rs as [|f rs IH] using rev_ind; [done|]. rewrite regular_headers_snoc, values_of_app. unfold values_of at 2. cbn [List.filter].
  destruct (is_length f); [rewrite andb_false_r; cbn [map]; by rewrite app_nil_r|]. rewrite andb_true_r, Header_Add_lookup, IH.
  destruct (same_spec (CanonicalMIMEHeaderKey (fst f)) k) as [Hk|Hk].
  - rewrite decide_True by done. cbn [map]. by destruct (values_of k rs).
  - rewrite decide_False by done. cbn [map]. by rewrite app_nil_r.
Qed.

Lemma lower_cases c : upper (lower c) = upper c /\ lower (lower c) = lower c /\ (lower c =? 45) = (c =? 45).
Proof. unfold upper, lower. repeat split_if; breflect; repeat split; lia. Qed.
Lemma canonical_lower up s : canonical up (map lower s) = canonical up s.
Proof.
  revert up. induction s as [|c s IH]; intros up; [done|]. cbn [map canonical]. destruct (lower_cases c) as (-> & -> & ->). by rewrite IH.
Qed.
Lemma token_lower c : token_byte c = true -> token_byte (lower c) = true /\ lower c < 128 /\ lower c <> 58 /\ c < 128 /\ 0 <= lower c.
Proof.
  intros Hc. unfold lower. assert (0 <= c < 128) as Hr.
  { unfold token_byte, is_digit in Hc. apply orb_true_iff in Hc as [Hc|Hc]; [lia|].
    apply existsb_exists in Hc as (x & Hx & Hc). breflect. subst x. vm_compute in Hx. repeat (destruct Hx as [<-|Hx]; [lia|]). done. }
  split_if; breflect.
  - split; [|lia]. unfold token_byte. replace ((97 <=? c + 32) && (c + 32 <=? 122)) with true by lia. rewrite !orb_true_r. done.
  - split; [done|]. split; [lia|]. split; [intros ->; done|lia].
Qed.

Section Plain.
  Context `{Httpguts, Qpack} {Hguts : HttpgutsOk} {Hq : QpackOk}.

Lemma lower_token k : forallb token_byte k = true ->
  forallb token_byte (map lower k) = true /\ is_ascii (map lower k) = true /\ is_ascii k = true /\ is_bytes (map lower k).
Proof.
  induction k as [|c k IH]; [by repeat constructor|]. cbn [forallb map]. intros [Hc Hk]%andb_true_iff. destruct (IH Hk) as (I1 & I2 & I3 & I4).
  destruct (token_lower c Hc) as (T1 & T2 & _ & T3 & T4). unfold is_ascii in *. cbn [forallb map]. rewrite T1, I1, I2, I3.
  rewrite !(proj2 (Z.ltb_lt _ _)) by done. repeat split; try done. constructor; [|done]. unfold is_byte. lia.
Qed.
Lemma ToLower_token k : forallb token_byte k = true -> ToLower k = map lower k /\ ToLower (map lower k) = map lower k.
Proof.
  intros Hk. destruct (lower_token k Hk) as (_ & I2 & I3 & _). unfold ToLower. rewrite I2, I3. split; [done|].
  rewrite map_map. apply map_ext. intros c. by destruct (lower_cases c) as (_ & ? & _).
Qed.
Lemma lower_key k : k <> [] -> forallb token_byte k = true -> canonical true k = k -> CanonicalMIMEHeaderKey (map lower k) = k.
Proof. intros _ Ht Hc. unfold CanonicalMIMEHeaderKey. destruct (lower_token k Ht) as (-> & _). by rewrite canonical_lower. Qed.

Lemma printable_bytes s : printable s -> is_bytes s.
Proof. apply List.Forall_impl. unfold is_byte. intros c Hc. lia. Qed.

(** A field whose name is a token with no meaning of its own. *)
Lemma plain_field name v : name <> [] -> forallb token_byte name = true -> map lower name ∉ str "te" :: skipped_keys -> printable v ->
  regular_ok (map lower name, v) /\ is_length (map lower name, v) = false.
Proof.
  intros Hn Ht Hr Hv. destruct (lower_token name Ht) as (I1 & _ & _ & _). destruct (ToLower_token name Ht) as [_ El].
  assert (forall k, k ∈ str "te" :: skipped_keys -> same (map lower name) k = false) as Hne.
  { intros k Hk. destruct (same_spec (map lower name) k) as [E|]; [|done]. by rewrite E in Hr. }
  split; [split; [|split]|].
  - cbn [fst]. rewrite IsPseudo_colon. destruct name as [|c k]; [done|]. cbn in Ht |- *. apply andb_true_iff in Ht as [Ht _].
    destruct (token_lower c Ht) as (_ & _ & Hc & _). destruct (lower c) as [|p|p]; [done| |done].
    repeat (destruct p as [p|p|]; try done).
  - unfold validateHeaderFieldNameAndValue. cbn [fst snd]. rewrite El. destruct (same_spec (map lower name) (map lower name)); [|done].
    by rewrite ascii_value.
  - unfold validateRegularHeaderField. cbn [fst snd]. rewrite field_name_token, I1. destruct (same_spec (map lower name) []) as [E|_].
    { by destruct name. }
    cbn [negb andb existsb invalidHeaderFields]. rewrite !Hne by (unfold skipped_keys; repeat constructor). done.
  - unfold is_length. apply Hne. unfold skipped_keys. repeat constructor.
Qed.

Lemma unreserved (k : gostring) : k ∉ reserved_keys -> k ∉ str "te" :: skipped_keys.
Proof.
  intros Hk Hin. apply Hk. unfold reserved_keys. apply elem_of_cons in Hin as [->|Hin]; apply elem_of_app; [right; repeat constructor|by left].
Qed.

Lemma key_fields_ok kv : plain_entry kv -> Forall regular_ok (key_fields kv) /\ lengths (key_fields kv) = [].
Proof.
  destruct kv as [k vs]. intros (Hn & Ht & _ & Hr & Hv). unfold key_fields. cbn [fst snd] in *. induction Hv as [|v vs Hv _ [IH1 IH2]]; [by repeat constructor|].
  destruct (plain_field k v Hn Ht (unreserved _ Hr) Hv) as [H1 H2]. cbn [map]. split; [by constructor|]. unfold lengths in *. cbn [List.filter]. by rewrite H2.
Qed.

Lemma key_values kv k : plain_entry kv -> values_of k (key_fields kv) = if same (fst kv) k then snd kv else [].
Proof.
  destruct kv as [k' vs]. intros (Hn & Ht & Hc & Hr & Hv). unfold key_fields, values_of. cbn [fst snd] in *.
  induction Hv as [|v vs Hv _ IH]; [by destruct (same k' k)|]. cbn [map List.filter fst]. rewrite (lower_key k') by done.
  destruct (plain_field k' v Hn Ht (unreserved _ Hr) Hv) as [_ ->]. cbn [negb]. rewrite andb_true_r. destruct (same k' k); [cbn [map snd]; by rewrite IH|done].
Qed.

Lemma lengths_app rs rs' : lengths (rs ++ rs') = lengths rs ++ lengths rs'.
Proof. unfold lengths. by rewrite List.filter_app, map_app. Qed.

Definition order_fields (order : list (gostring * list gostring)) : list field := flat_map key_fields order.

Lemma order_none order k : Forall plain_entry order -> k ∉ map fst order -> values_of k (order_fields order) = [].
Proof.
  induction 1 as [|kv order Hkv _ IH]; [done|]. cbn [map]. intros [Hne Hk]%not_elem_of_cons.
  change (order_fields (kv :: order)) with (key_fields kv ++ order_fields order). rewrite values_of_app, key_values, IH by done.
  by destruct (same_spec (fst kv) k).
Qed.
Lemma order_values order k vs : Forall plain_entry order -> NoDup (map fst order) -> (k, vs) ∈ order -> values_of k (order_fields order) = vs.
Proof.
  induction order as [|kv order IH]; cbn [map]; intros Hp Hn Hin; [by apply elem_of_nil in Hin|].
  change (order_fields (kv :: order)) with (key_fields kv ++ order_fields order).
  apply Forall_cons_iff in Hp as [Hkv Hp]. apply list.NoDup_cons in Hn as [Hk Hn]. rewrite values_of_app, key_values by done.
  apply elem_of_cons in Hin as [<-|Hin].
  - cbn [fst snd] in *. destruct (same_spec k k); [|done]. rewrite order_none by done. apply app_nil_r.
  - destruct (same_spec (fst kv) k) as [<-|_]; [|by apply IH]. destruct Hk. apply list_elem_of_fmap. by exists (fst kv, vs).
Qed.

Lemma order_fields_ok order : Forall plain_entry order -> Forall regular_ok (order_fields order) /\ lengths (order_fields order) = [].
Proof.
  induction 1 as [|kv order Hkv _ [IH1 IH2]]; [by repeat constructor|]. destruct (key_fields_ok kv Hkv) as [K1 K2]. 
  change (order_fields (kv :: order)) with (key_fields kv ++ order_fields order). split; [by apply Forall_app|]. by rewrite lengths_app, K2, IH2.
Qed.

End Plain.

(** A CONNECT-UDP request for [u] with the headers [headers]. *)
Definition udp_request `{UrlLib} (u : URL) (headers : header_map) : http_Request :=
  {| q_Method := CONNECT; q_URL := u; q_Proto := requestProtocol; q_Header := headers; q_Trailer := None; q_ContentLength := 0;
     q_Host := u_Host u; q_RequestURI := [] |}.

(** A URL that can be asked for: its path survives printing and parsing, and its
host needs no conversion. *)
Record url_sendable `{UrlLib, Httpguts} (u : URL) : Prop := {
  us_scheme : u_Scheme u = str "https";
  us_host : u_Host u <> [] /\ printable (u_Host u) /\ contains_byte (u_Host u) 64 = false;
  us_ascii : PunycodeHostPort (u_Host u) = Some (u_Host u) /\ ValidHostHeader (u_Host u) = true;
  us_path : printable (URL_RequestURI u) /\ exists p, URL_RequestURI u = 47 :: p;
  us_parse : option_map snd (ParseRequestURI (URL_RequestURI u)) = Some (u_rest u);
}.

Section Arrives.
  Context `{Httpguts, Qpack, UrlLib} {Hguts : HttpgutsOk} {Hqp : QpackOk}.
  Context (u : URL) (headers : header_map) (order : list (gostring * list gostring)).
  Context (Hu : url_sendable u) (Hplain : Forall plain_entry order).

Definition pseudo_fields : list field :=
  [(cAuthority, u_Host u); (cMethod, CONNECT); (cPath, URL_RequestURI u); (cScheme, u_Scheme u); (cProtocol, requestProtocol)].
Definition regular_fields (gzip : bool) : list field :=
  order_fields order ++ (if gzip then [(str "accept-encoding", str "gzip")] else []) ++ [(str "user-agent", defaultUserAgent)].

Lemma EqualFold_lower k t : is_ascii k = true -> is_ascii t = true -> map lower t = t -> EqualFold k t = same (map lower k) t.
Proof. intros Hk Ht El. unfold EqualFold. by rewrite Hk, Ht, El. Qed.

Lemma plain_sent kv : plain_entry kv ->
  sent_values (fst kv) (snd kv) = snd kv /\ is_user_agent (fst kv) = false
  /\ ValidHeaderFieldName (fst kv) && forallb ValidHeaderFieldValue (snd kv) = true.
Proof.
  destruct kv as [k vs]. intros (Hn & Ht & _ & Hr & Hv). cbn [fst snd] in *. destruct (lower_token k Ht) as (_ & _ & Ha & _).
  assert (forall t, t ∈ reserved_keys -> is_ascii t = true -> map lower t = t -> EqualFold k t = false) as Hf.
  { intros t Hin Hat Hlt. rewrite EqualFold_lower by done. destruct (same_spec (map lower k) t) as [E|]; [by rewrite E in Hr|done]. }
  assert (existsb (EqualFold k) skipped_keys = false) as Hs.
  { unfold skipped_keys. cbn [existsb]. rewrite !Hf by (done || (unfold reserved_keys, skipped_keys; repeat constructor)). done. }
  assert (EqualFold k (str "user-agent") = false) as Hua by (apply Hf; [unfold reserved_keys, skipped_keys; repeat constructor|done|done]).
  unfold sent_values, is_user_agent. rewrite Hs, Hua. split; [done|]. split; [done|]. rewrite field_name_token, Ht.
  destruct (same_spec k []); [done|]. cbn [negb andb]. clear -Hv Hguts. induction Hv as [|v vs Hv _ IH]; [done|]. cbn. by rewrite ascii_value, IH.
Qed.

Lemma encode_order : map (fun f => (ToLower (fst f), snd f)) (flat_map (fun kv => map (pair (fst kv)) (sent_values (fst kv) (snd kv))) order)
  = order_fields order.
Proof.
  clear Hu. induction Hplain as [|kv l Hkv Hl IH]; [done|]. cbn [flat_map]. rewrite map_app, IH by done.
  change (order_fields (kv :: l)) with (key_fields kv ++ order_fields l). f_equal. destruct (plain_sent kv Hkv) as (-> & _ & _).
  destruct Hkv as (_ & Ht & _). destruct (ToLower_token _ Ht) as [El _]. rewrite map_map. unfold key_fields. apply map_ext. intros v. cbn. by rewrite El.
Qed.

Lemma encode_connect gzip : encodeHeaders (udp_request u headers) order gzip [] 0 = Ok (pseudo_fields ++ regular_fields gzip).
Proof.
  destruct Hu as [Hs (Hh1 & Hh2 & Hh3) [Hp Hv] [Hr [p Ep]] _]. unfold encodeHeaders. cbn [udp_request q_Host q_URL q_Proto].
  destruct (same_spec (u_Host u) []); [done|]. rewrite Hp, Hv. cbn [negb].
  change (isExtendedConnectRequest (udp_request u headers)) with true. unfold validExtendedConnectProtocol. rewrite field_name_token.
  change (negb (same requestProtocol []) && forallb token_byte requestProtocol) with true. cbn [andb negb].
  unfold request_path. cbn [udp_request q_Method q_URL]. change (negb (same CONNECT CONNECT) || true) with true. cbn iota.
  assert (validPseudoPath (URL_RequestURI u) = true) as -> by by rewrite Ep. cbn [result_bind].
  assert (forallb (fun kv => ValidHeaderFieldName (fst kv) && forallb ValidHeaderFieldValue (snd kv)) order = true
    /\ existsb (fun kv => is_user_agent (fst kv)) order = false) as [Hok Hua].
  { clear -Hplain Hguts. induction Hplain as [|kv l Hkv Hl IH]; [done|]. cbn [forallb existsb]. destruct (plain_sent kv Hkv) as (_ & -> & ->).
    by destruct (IH Hl) as [-> ->]. }
  rewrite Hok. cbn [negb]. f_equal. unfold enumerateHeaders. rewrite !map_app, encode_order, Hua.
  change (isExtendedConnectRequest (udp_request u headers)) with true. unfold regular_fields, pseudo_fields. by destruct gzip.
Qed.

(** *** The server reads them *)

Lemma regular_fields_ok gzip : Forall regular_ok (regular_fields gzip) /\ lengths (regular_fields gzip) = [].
Proof.
  destruct (order_fields_ok order Hplain) as [Ho1 Ho2]. unfold regular_fields.
  assert (forall name v, map lower name = name -> bool_decide (name ∈ str "te" :: skipped_keys) = false -> name <> [] ->
    forallb token_byte name = true -> printable v -> regular_ok (name, v) /\ is_length (name, v) = false) as Hf.
  { intros name v El Hr Hn Ht Hv. rewrite <- El. apply plain_field; try done. rewrite El. by eapply bool_decide_eq_false_1. }
  destruct (Hf (str "accept-encoding") (str "gzip")) as [G1 G2]; [done..| |]; [repeat constructor; done|].
  destruct (Hf (str "user-agent") defaultUserAgent) as [U1 U2]; [done..| |]; [repeat constructor; done|].
  rewrite !lengths_app, Ho2. split.
  - apply Forall_app. split; [done|]. apply Forall_app. split; [destruct gzip; by constructor|by constructor].
  - unfold lengths. destruct gzip; cbn [List.filter]; by rewrite ?G2, ?U2.
Qed.

Lemma pseudo_fields_ok : Forall pseudo_ok pseudo_fields /\ NoDup (map fst pseudo_fields).
Proof.
  destruct Hu as [Hs (_ & Hh & _) _ [Hr _] _]. split.
  - assert (forall name v, name ∈ request_names -> ToLower name = name -> IsPseudo name = true -> printable v -> pseudo_ok (name, v)) as Hf.
    { intros name v Hin El Hp Hv. split; [done|]. split; [|done]. unfold validateHeaderFieldNameAndValue. cbn [fst snd]. rewrite El.
      destruct (same_spec name name); [|done]. by rewrite ascii_value. }
    unfold pseudo_fields. rewrite Hs.
    repeat (constructor; [apply Hf; [unfold request_names; repeat constructor|done|by rewrite IsPseudo_colon|first [done|repeat constructor; done]]|]).
    constructor.
  - apply (bool_decide_unpack _). vm_compute. exact I.
Qed.


(** A key the request does not have. *)
Lemma header_absent gzip (k : gostring) : k ∈ [str "Host"; str "Cookie"; str "Trailer"] -> regular_headers ∅ (regular_fields gzip) !! k = None.
Proof.
  intros Hk. rewrite regular_headers_values. unfold regular_fields. rewrite !values_of_app, order_none; [|done|].
  - rewrite !elem_of_cons, elem_of_nil in Hk. destruct gzip, Hk as [->|[->|[->|[]]]]; reflexivity.
  - intros Hin. apply list_elem_of_fmap in Hin as (kv & -> & Hkv). rewrite Forall_forall in Hplain. apply list_elem_of_In, Hplain in Hkv.
    destruct Hkv as (_ & _ & _ & Hr & _). apply Hr. rewrite !elem_of_cons, elem_of_nil in Hk.
    destruct Hk as [->|[->|[->|[]]]]; apply (bool_decide_unpack _); vm_compute; exact I.
Qed.

Lemma request_parsed gzip limit : 0 <= limit -> total_size (pseudo_fields ++ regular_fields gzip) <= limit ->
  exists q', requestFromHeaders (pseudo_fields ++ regular_fields gzip, true) limit = Ok q' /\ q_Method q' = CONNECT /\ q_Proto q' = requestProtocol
    /\ q_Host q' = u_Host u /\ q_ContentLength q' = -1 /\ q_URL q' = u /\ q_Header q' = regular_headers ∅ (regular_fields gzip).
Proof.
  intros Hl Hsize. destruct (regular_fields_ok gzip) as [R1 R2]. destruct pseudo_fields_ok as [P1 P2].
  assert (request_fields limit pseudo_fields (regular_fields gzip)) as Hrf.
  { constructor; try done. rewrite R2. intros v w Hv. by apply elem_of_nil in Hv. }
  set (h := with_length (header_of pseudo_fields (regular_fields gzip)) (-1) (h_Headers (header_of pseudo_fields (regular_fields gzip)))).
  assert (final_header pseudo_fields (regular_fields gzip) = Some h) as Hf by (unfold final_header; by rewrite R2).
  unfold requestFromHeaders. rewrite (proj2 (parseHeaders_request (pseudo_fields ++ regular_fields gzip, true) limit h Hl)) by (split; [done|]; by eexists _, _).
  cbn [result_bind]. rewrite (stripped_headers _ _ _ _ Hrf Hf), !(has_pseudo _ _ _ _ _ Hrf Hf) by (unfold request_names; (repeat constructor) || discriminate).
  assert (message_headers (regular_fields gzip) = regular_headers ∅ (regular_fields gzip)) as -> by (unfold message_headers; by rewrite R2).
  set (hs := regular_headers ∅ (regular_fields gzip)).
  assert (forall k, k ∈ [str "Host"; str "Cookie"; str "Trailer"] -> hs !! k = None) as Hno by apply header_absent.
  destruct Hu as [Us (Uh1 & Uh2 & Uh3) _ [_ [p Up]] Uparse].
  assert (check_request h hs true true true true = Ok (u_Host u, true)) as Hc.
  { unfold check_request, h. cbn [with_length header_of h_Method h_Authority h_Scheme h_Protocol h_Path]. rewrite (Hno (str "Host")) by constructor.
    change (value_of cMethod pseudo_fields) with CONNECT. change (value_of cAuthority pseudo_fields) with (u_Host u).
    change (value_of cProtocol pseudo_fields) with requestProtocol. change (value_of cPath pseudo_fields) with (URL_RequestURI u).
    unfold validMethod. rewrite token_method by reflexivity. unfold validExtendedConnectProtocol. rewrite field_name_token.
    known_names. cbn [negb andb default]. change (len (@nil gostring) >? 1) with false. change (len (@nil gostring) >? 0) with false. cbn [negb andb].
    rewrite Uh3. cbn [andb negb]. change (forallb token_byte requestProtocol) with true. cbn [negb].
    change (value_of cScheme pseudo_fields) with (u_Scheme u). rewrite Us, Up. destruct (same_spec (u_Host u) []); [done|]. reflexivity. }
  change (bool_decide (cPath ∈ map fst pseudo_fields)) with true. change (bool_decide (cAuthority ∈ map fst pseudo_fields)) with true.
  change (bool_decide (cScheme ∈ map fst pseudo_fields)) with true. change (bool_decide (cProtocol ∈ map fst pseudo_fields)) with true.
  rewrite Hc. cbn [result_bind]. unfold join_cookies. rewrite (Hno (str "Cookie")) by repeat constructor.
  unfold extractAnnouncedTrailers. rewrite (Hno (str "Trailer")) by repeat constructor.
  change (request_url h (same (h_Method h) CONNECT) true) with (option_map snd (ParseRequestURI (URL_RequestURI u))). rewrite Uparse.
  eexists. split; [reflexivity|]. do 4 (split; [reflexivity|]). split; [|reflexivity].
  change (h_Scheme h) with (ToLower (u_Scheme u)). cbn [q_URL]. rewrite Us. destruct u as [sch ho re]. cbn in Us |- *. by subst sch.
Qed.

End Arrives.

(** *** From end to end *)

Lemma ParseNext_headers n rest e : is_varint n -> is_bytes rest ->
  exists hl, ParseNext (mkReader (venc 1 ++ venc n ++ rest) e) = Some (Ok (headersFrame n hl), mkReader rest e).
Proof.
  intros Hn Hr. unfold ParseNext. cbn [parse_next]. unfold read_varint at 1.
  rewrite Read_venc; [|split; discriminate|apply Forall_app; split; [apply venc_bytes|done]]. unfold read_varint. rewrite Read_venc by done.
  by eexists.
Qed.

Lemma read_full_app b rest e : read_full (len b) (mkReader (b ++ rest) e) = (Ok b, mkReader rest e).
Proof.
  unfold read_full. cbn [rd_avail rd_end]. rewrite len_app. pose proof (len_nonneg rest). rewrite (proj2 (Z.leb_le _ _)) by lia.
  replace (Z.to_nat (len b)) with (List.length b) by (unfold len; lia). by rewrite take_app_length, drop_app_length.
Qed.

Section EndToEnd.
  Context `{Httpguts, Qpack, UrlLib} {Hguts : HttpgutsOk} {Hqp : QpackOk}.

(** QPACK carries short lists of fields. *)
Lemma small_carried fs : total_size fs < 2 ^ 14 -> Forall (fun f => is_bytes (fst f) /\ is_bytes (snd f)) fs -> qpack_Decode (qpack_Encode fs) = (fs, true).
Proof.
  intros Hl Hb. apply qpack_roundtrip. assert (forall f gs, f ∈ gs -> field_size f <= total_size gs) as Hle.
  { intros f gs. induction gs as [|g gs IH]; cbn [total_size]; intros Hf; [by apply elem_of_nil in Hf|]. pose proof (total_size_nonneg gs).
    pose proof (field_size_pos g). apply elem_of_cons in Hf as [<-|Hf]; [lia|]. specialize (IH Hf). lia. }
  rewrite Forall_forall in Hb |- *. intros f Hf. destruct (Hb f Hf) as [H3 H4]. apply list_elem_of_In, Hle in Hf. unfold field_size in Hf.
  pose proof (len_nonneg (fst f)). pose proof (len_nonneg (snd f)). repeat split; (done || lia).
Qed.

Lemma sent_bytes u order gzip : url_sendable u -> Forall plain_entry order ->
  Forall (fun f => is_bytes (fst f) /\ is_bytes (snd f)) (pseudo_fields u ++ regular_fields order gzip).
Proof.
  intros [Us (_ & Uh & _) _ [Ur _] _] Hp. apply Forall_app. split.
  - unfold pseudo_fields. rewrite Us. assert (forall s, is_bytes (str s)) as Hstr.
    { intros s. unfold str, is_bytes. apply Forall_forall. intros c Hc. apply in_map_iff in Hc as (a & <- & _).
      pose proof (Ascii.nat_ascii_bounded a). unfold is_byte. lia. }
    repeat (constructor; [split; cbn [fst snd]; first [apply Hstr|by apply printable_bytes]|]). constructor.
  - unfold regular_fields. apply Forall_app. split; [|destruct gzip; repeat constructor; discriminate].
    clear -Hp. induction Hp as [|kv l (_ & Ht & _ & _ & Hv) _ IH]; [constructor|]. change (order_fields (kv :: l)) with (key_fields kv ++ order_fields l).
    apply Forall_app. split; [|done]. unfold key_fields. destruct (lower_token _ Ht) as (_ & _ & _ & Hb).
    induction Hv as [|v vs Hv _ IHv]; constructor; [|done]. split; [done|by apply printable_bytes].
Qed.

(** Several values are fine, no values are none. *)
Definition present (h : header_map) : header_map := filter (fun kv => snd kv <> []) h.
Lemma present_lookup h k : present h !! k = match h !! k with Some (v :: vs) => Some (v :: vs) | _ => None end.
Proof.
  unfold present. destruct (h !! k) as [[|v vs]|] eqn:E.
  - apply map_lookup_filter_None_2. right. intros x Hx. rewrite E in Hx. injection Hx as <-. by intros [].
  - by apply map_lookup_filter_Some_2.
  - apply map_lookup_filter_None_2. by left.
Qed.

Lemma order_headers o h k : Forall plain_entry o -> o ≡ₚ map_to_list h -> values_of k (order_fields o) = default [] (h !! k).
Proof.
  intros Hp Ho. destruct (h !! k) as [vs|] eqn:E; cbn [default].
  - apply order_values; [done|rewrite Ho; apply NoDup_fst_map_to_list|]. rewrite Ho. by apply elem_of_map_to_list.
  - apply order_none; [done|]. intros Hin. apply list_elem_of_fmap in Hin as ([k' vs] & -> & Hin). rewrite Ho in Hin. apply elem_of_map_to_list in Hin. cbn in E. congruence.
Qed.

(** Every header of the caller arrives, and two more. *)
Definition added_keys : list gostring := [str "User-Agent"; str "Accept-Encoding"].
Lemma header_carried headers order gzip k : Forall plain_entry order -> order ≡ₚ map_to_list headers -> k ∉ added_keys ->
  regular_headers ∅ (regular_fields order gzip) !! k = present headers !! k.
Proof.
  intros Hp Ho Hk. rewrite regular_headers_values, present_lookup. assert (values_of k (regular_fields order gzip) = default [] (headers !! k)) as ->; [|by destruct (headers !! k) as [[|]|]].
  unfold regular_fields. rewrite !values_of_app, (order_headers order headers) by done.
  assert (forall t, t ∈ added_keys -> same t k = false) as Hne by (intros t Ht; by destruct (same_spec t k) as [->|]).
  destruct gzip; unfold values_of; cbn [List.filter fst]; change (CanonicalMIMEHeaderKey (str "user-agent")) with (str "User-Agent");
    change (CanonicalMIMEHeaderKey (str "accept-encoding")) with (str "Accept-Encoding"); rewrite !Hne by repeat constructor; apply app_nil_r.
Qed.

(** A CONNECT-UDP request of a client, as the server gets it. *)
Lemma request_carried disableCompression u headers order maxHeaderBytes aware rest e :
  url_sendable u -> Forall plain_entry order -> order ≡ₚ map_to_list headers ->
  let q := udp_request u headers in
  let fields := pseudo_fields u ++ regular_fields order (requests_gzip disableCompression q) in
  0 < maxHeaderBytes < 2 ^ 14 -> total_size fields <= maxHeaderBytes -> len (qpack_Encode fields) <= maxHeaderBytes -> is_bytes rest ->
  exists b q' p aware', sendRequestHeader disableCompression q order = Some (Ok b)
    /\ handleRequestStream maxHeaderBytes aware (mkReader (b ++ rest) e) = Some (Serving q' (-1) p, aware')
    /\ q_Method q' = CONNECT /\ q_Proto q' = requestProtocol /\ q_Host q' = u_Host u /\ q_URL q' = u
    /\ forall k, k ∉ added_keys -> q_Header q' !! k = present headers !! k.
Proof.
  intros Hu Hp Ho q fields Hmax Hsize Hblock Hrest. set (gzip := requests_gzip disableCompression q) in *.
  destruct (request_parsed u order Hu Hp gzip maxHeaderBytes) as (q' & Hq & Q1 & Q2 & Q3 & Q4 & Q5 & Q6); [lia|done|]. fold fields in Hq.
  destruct (request_priority_total q' aware) as (p & aware' & Hpr & _).
  assert (is_varint (len (qpack_Encode fields))) as Hv by (pose proof (len_nonneg (qpack_Encode fields)); unfold is_varint, maxVarInt8; lia).
  assert (Server_maxHeaderBytes maxHeaderBytes = maxHeaderBytes) as Em by (unfold Server_maxHeaderBytes; split_if; breflect; [lia|done]).
  assert (qpack_Decode (qpack_Encode fields) = (fields, true)) as Hd by (apply small_carried; [lia|by apply sent_bytes]).
  destruct (ParseNext_headers (len (qpack_Encode fields)) (qpack_Encode fields ++ rest) e Hv) as [hl Hn].
  { apply Forall_app. split; [apply qpack_bytes|done]. }
  exists (venc 1 ++ venc (len (qpack_Encode fields)) ++ qpack_Encode fields), q', p, aware'. split; [|split; [|do 4 (split; [done|])]].
  - unfold sendRequestHeader, writeHeaders. fold gzip. change (actualContentLength true (q_ContentLength q)) with 0.
    unfold q. rewrite encode_connect by done. fold fields. unfold headers_Append. rewrite Append_venc by (split; discriminate). cbn [mbind option_bind].
    rewrite Append_venc by done. cbn [mbind option_bind]. by rewrite app_nil_l, <- app_assoc.
  - unfold handleRequestStream. rewrite Em, <- !app_assoc, Hn. cbn [mbind option_bind]. rewrite u64_small by (unfold is_u64; lia).
    rewrite Z.gtb_ltb, (proj2 (Z.ltb_ge _ _)) by lia. rewrite read_full_app, Hd, Hq, Hpr. cbn [mbind option_bind].
    unfold body_limit. rewrite Q4. by rewrite andb_false_r.
  - intros k Hk. rewrite Q6. by apply header_carried.
Qed.

(** The request of a client is the request of the relay.  For a CONNECT-UDP
request with headers of the caller's choice, [sendRequestHeader] writes a HEADERS
frame; [handleRequestStream] at the other end, whatever follows on the stream,
serves a request with the same method, protocol, authority and URL and the same
values of every header the caller set, so that [ParseProxyRequest] sees exactly
what [NewRequest] made.  The block must fit the limit of the server. *)
Theorem request_arrives disableCompression sf u headers order maxHeaderBytes aware rest e :
  url_sendable u -> Forall plain_entry order -> order ≡ₚ map_to_list headers ->
  headers !! str "Capsule-Protocol" = Some [str "?1"] -> sf [str "?1"] = Some (SFBool true) ->
  let q := udp_request u headers in
  let fields := pseudo_fields u ++ regular_fields order (requests_gzip disableCompression q) in
  0 < maxHeaderBytes < 2 ^ 14 -> total_size fields <= maxHeaderBytes -> len (qpack_Encode fields) <= maxHeaderBytes -> is_bytes rest ->
  exists b q' p aware', sendRequestHeader disableCompression q order = Some (Ok b)
    /\ handleRequestStream maxHeaderBytes aware (mkReader (b ++ rest) e) = Some (Serving q' (-1) p, aware')
    /\ q_URL q' = u /\ (forall k vs, headers !! k = Some vs -> vs <> [] -> q_Header q' !! k = Some vs)
    /\ as_proxy_request sf q' = {| hr_Method := str "CONNECT"; hr_Proto := requestProtocol; hr_Host := u_Host u;
                                    hr_capsule := Some (Some (SFBool true)); hr_URL := URL_String u |}.
Proof.
  intros Hu Hp Ho Hcap Hsf q fields Hmax Hsize Hblock Hrest.
  destruct (request_carried disableCompression u headers order maxHeaderBytes aware rest e Hu Hp Ho Hmax Hsize Hblock Hrest)
    as (b & q' & p & aware' & E1 & E2 & Q1 & Q2 & Q3 & Q4 & Q5).
  assert (forall k vs, headers !! k = Some vs -> vs <> [] -> k ∉ added_keys -> q_Header q' !! k = Some vs) as Hhead.
  { intros k vs Hk Hne Ha. rewrite Q5, present_lookup, Hk by done. by destruct vs. }
  exists b, q', p, aware'. do 3 (split; [done|]). split.
  - intros k vs Hk Hne. apply Hhead; [done|done|]. intros Hadd. assert ((k, vs) ∈ order) as Hin by (rewrite Ho; by apply elem_of_map_to_list).
    rewrite Forall_forall in Hp. apply list_elem_of_In, Hp in Hin as (_ & _ & _ & Hr & _). apply Hr. cbn [fst]. unfold added_keys in Hadd.
    rewrite !elem_of_cons, elem_of_nil in Hadd. destruct Hadd as [->|[->|[]]]; apply (bool_decide_unpack _); vm_compute; exact I.
  - unfold as_proxy_request. rewrite Q1, Q2, Q3, Q4, (Hhead _ [str "?1"]) by (done || (apply (bool_decide_eq_false_1 _); vm_compute; reflexivity)).
    cbn [fmap option_fmap option_map]. by rewrite Hsf.
Qed.

End EndToEnd.

(** ** Samples *)

(** Texts with two bytes of length. *)
Definition put_text (s : gostring) : list Z := (len s / 256) :: (len s mod 256) :: s.
Definition get_text (b : list Z) : option (gostring * list Z) :=
  match b with
  | h :: l :: b => let n := Z.to_nat (h * 256 + l) in Some (take n b, drop n b)
  | _ => None
  end.
Fixpoint get_fields (fuel : nat) (b : list Z) : decoded :=
  match b, fuel with
  | [], _ => ([], true)
  | _, O => ([], false)
  | _, S fuel =>
    match get_text b with
    | None => ([], false)
    | Some (name, b) =>
      match get_text b with
      | None => ([], false)
      | Some (value, b) => let '(fs, e) := get_fields fuel b in ((name, value) :: fs, e)
      end
    end
  end.
Definition put_fields (fs : list field) : list Z := flat_map (fun f => put_text (fst f) ++ put_text (snd f)) fs.
Definition sample_qpack : Qpack := {|
  qpack_Encode fs := map u8 (put_fields fs);
  qpack_Decode b := get_fields (List.length b) b;
  IsPseudo n := match n with 58 :: _ => true | _ => false end |}.

Lemma get_put s rest : len s < 2 ^ 14 -> get_text (put_text s ++ rest) = Some (s, rest).
Proof.
  intros Hl. unfold put_text, get_text. cbn [app]. replace (Z.to_nat _) with (List.length s) by (unfold len; dlia).
  by rewrite take_app_length, drop_app_length.
Qed.
Lemma put_text_bytes s : is_bytes s -> len s < 2 ^ 14 -> map u8 (put_text s) = put_text s /\ (2 <= List.length (put_text s))%nat.
Proof.
  intros Hb Hl. pose proof (len_nonneg s). unfold put_text. cbn [map List.length]. split; [|lia].
  rewrite !u8_small by (unfold is_byte; dlia). do 2 f_equal. clear -Hb. induction Hb as [|c s Hc _ IH]; [done|]. cbn. by rewrite IH, u8_small.
Qed.

Lemma sample_qpack_ok : @QpackOk sample_qpack.
Proof.
  constructor; cbn; [done| | |].
  - intros fs. apply Forall_forall. intros c Hc. apply in_map_iff in Hc as (x & <- & _). apply u8_range.
  - intros fs Hfs. assert (map u8 (put_fields fs) = put_fields fs) as ->.
    { induction Hfs as [|f fs (B1 & B2 & L1 & L2) _ IH]; [done|]. cbn [put_fields flat_map]. rewrite !map_app.
      fold (put_fields fs). rewrite IH. by rewrite (proj1 (put_text_bytes _ B1 L1)), (proj1 (put_text_bytes _ B2 L2)). }
    assert (forall fuel, (List.length (put_fields fs) <= fuel)%nat -> get_fields fuel (put_fields fs) = (fs, true)) as Hg; [|by apply Hg].
    induction Hfs as [|[name value] fs (B1 & B2 & L1 & L2) _ IH]; intros fuel Hf; [by destruct fuel|].
    change (put_fields ((name, value) :: fs)) with ((put_text name ++ put_text value) ++ put_fields fs) in *.
    rewrite !length_app in Hf. pose proof (proj2 (put_text_bytes _ B1 L1)). cbn [fst snd] in *.
    destruct fuel as [|fuel]; [lia|]. cbn [get_fields]. rewrite <- app_assoc.
    destruct (put_text name ++ _) as [|x xs] eqn:E; [done|]. rewrite <- E, get_put, get_put by done. rewrite IH by lia. done.
  - intros fs. unfold len. rewrite length_map. fold (len (put_fields fs)). induction fs as [|f fs IH]; [done|].
    change (put_fields (f :: fs)) with ((put_text (fst f) ++ put_text (snd f)) ++ put_fields fs). rewrite !len_app.
    cbn [total_size]. unfold field_size, put_text. rewrite !len_cons. pose proof (len_nonneg (fst f)). pose proof (len_nonneg (snd f)). lia.
Qed.

Definition sample_guts : Httpguts := {|
  ValidHeaderFieldName n := negb (same n []) && forallb token_byte n;
  ValidHeaderFieldValue v := forallb (fun c => (c =? 9) || (32 <=? c) && negb (c =? 127)) v;
  ValidTrailerHeader n := true;
  all_tokens := forallb token_byte;
  PunycodeHostPort h := Some h;
  ValidHostHeader h := true;
  unicode_ToLower s := s;
  unicode_EqualFold s t := same s t |}.
Lemma sample_guts_ok : @HttpgutsOk sample_guts.
Proof.
  constructor; [done| |done]. intros v Hv. cbn. induction Hv as [|c v Hc _ IH]; [done|]. cbn [forallb]. rewrite IH. lia.
Qed.

(** A URL is its scheme, its host and its path. *)
Definition sample_urls : UrlLib := {|
  url_rest := gostring;
  path_only p := p;
  ParseRequestURI p := Some ([], [], p);
  RequestURI_of _ _ p := p;
  String_of s h p := s ++ str "://" ++ h ++ p |}.
Definition sample_url : @URL sample_urls :=
  @Build_URL sample_urls (str "https") (str "relay.example:443") (str "/.well-known/masque/udp/192.0.2.7/443/").
Definition sample_headers : header_map :=
  <[str "Capsule-Protocol" := [str "?1"]]> (<[str "Qortal-Relay-Ticket" := [str "dGlja2V0"]]> ∅).
Definition sample_order : list (gostring * list gostring) :=
  [(str "Capsule-Protocol", [str "?1"]); (str "Qortal-Relay-Ticket", [str "dGlja2V0"])].
Definition sample_sf (vs : list gostring) : option sf_item := if bool_decide (vs = [str "?1"]) then Some (SFBool true) else None.
#[local] Instance sample_proxy_template : Template :=
  {| template_host := Some (str "relay.example:443");
     template_match _ := (str "192.0.2.7", str "443"); template_expand _ _ := None |}.
#[local] Existing Instance sample_qpack.
#[local] Existing Instance sample_guts.
#[local] Existing Instance sample_urls.

Lemma sample_order_ok : sample_order ≡ₚ map_to_list sample_headers.
Proof.
  unfold sample_headers. rewrite map_to_list_insert by reflexivity. rewrite map_to_list_insert by reflexivity. rewrite map_to_list_empty. done.
Qed.
Lemma sample_order_plain : Forall plain_entry sample_order.
Proof.
  repeat (constructor; [split; [done|]; do 2 (split; [reflexivity|]); split;
    [apply (bool_decide_eq_false_1 _); vm_compute; reflexivity|repeat constructor; done]|]). constructor.
Qed.
Lemma sample_url_sendable : url_sendable sample_url.
Proof.
  constructor; [done| |done| |done].
  - split; [done|]. split; [repeat constructor; done|done].
  - split; [repeat constructor; done|]. by eexists.
Qed.

Lemma request_arrives_witness :
  exists b q' p aware', sendRequestHeader false (udp_request sample_url sample_headers) sample_order = Some (Ok b)
    /\ handleRequestStream 8192 true (mkReader (b ++ [0; 0]) EOF) = Some (Serving q' (-1) p, aware')
    /\ q_URL q' = sample_url /\ (forall k vs, sample_headers !! k = Some vs -> vs <> [] -> q_Header q' !! k = Some vs)
    /\ as_proxy_request sample_sf q' = {| hr_Method := str "CONNECT"; hr_Proto := requestProtocol; hr_Host := str "relay.example:443";
         hr_capsule := Some (Some (SFBool true)); hr_URL := str "https://relay.example:443/.well-known/masque/udp/192.0.2.7/443/" |}.
Proof.
  pose proof sample_guts_ok. pose proof sample_qpack_ok.
  apply (request_arrives false sample_sf sample_url sample_headers sample_order 8192 true [0; 0] EOF).
  - apply sample_url_sendable.
  - apply sample_order_plain.
  - apply sample_order_ok.
  - reflexivity.
  - reflexivity.
  - done.
  - vm_compute. discriminate.
  - vm_compute. discriminate.
  - repeat constructor; done.
Defined.

Definition sample_stream : list Z :=
  match sendRequestHeader false (udp_request sample_url sample_headers) sample_order with Some (Ok b) => b | _ => [] end.

Lemma served_request_witness :
  match handleRequestStream 8192 true (mkReader sample_stream EOF) with
  | Some (Serving q _ p, _) => 0 <= fst p <= 7 /\ ParseProxyRequest (as_proxy_request sample_sf q) = Ok {| pr_Target := str "192.0.2.7:443"; pr_Host := str "relay.example:443" |}
  | _ => False
  end.
Proof.
  pose proof sample_guts_ok. destruct (served_request sample_sf 8192 true (mkReader sample_stream EOF)) as (out & aware & E & Hs).
  - apply (bool_decide_unpack (Forall (fun b => 0 <= b < 256) sample_stream)). vm_compute. exact I.
  - assert (match handleRequestStream 8192 true (mkReader sample_stream EOF) with
      | Some (Serving q _ _, _) => ParseProxyRequest (as_proxy_request sample_sf q) = Ok {| pr_Target := str "192.0.2.7:443"; pr_Host := str "relay.example:443" |}
      | _ => False end) as Hc by (vm_compute; reflexivity).
    rewrite E in Hc |- *. destruct out as [| | |q n p]; [done..|]. split; [apply (Hs q n p eq_refl)|done].
Defined.
