(* ===== verification/ResponseWriter.v ===== *)
(** * HTTP/3 responses: the server

[third_party/quic-go/http3/response_writer.go], with [writeTrailers] of
[headers.go], the end of [handleRequestStream] and [rejectWithHeaderFieldsTooLarge]
of [server_conn.go].  A handler is a list of calls on the writer; [serve_written] says
what they leave on the stream. *)

From stdpp Require Import base gmap list numbers.
From Stdlib Require Import ZArith Lia String.
From S2P Require Import Prelude.
From S2P Require Import GoStrings.
From S2P Require Import Quicvarint.
From S2P Require Import ControlStream.
From S2P Require Import Headers.
From S2P Require Import Requests.

Local Open Scope Z_scope.

(** ** Parameters *)

(** In which order the [n]-th [range] loop of a writer visits a map, the texts of
[time.Now] and of [http.DetectContentType]. *)
Class ResponseEnv := {
  iterate : nat -> header_map -> list (gostring * list gostring);
  iterate_keys : nat -> gset gostring -> list gostring;
  date_text : gostring;
  DetectContentType : list Z -> gostring;
}.

(** A loop visits every entry once; the texts are short and printable ASCII. *)
Class ResponseEnvOk `{ResponseEnv} : Prop := {
  iterate_all n h : iterate n h ≡ₚ map_to_list h;
  iterate_keys_all n s : iterate_keys n s ≡ₚ elements s;
  date_printable : printable date_text /\ len date_text <= 64;
  content_type_printable p : printable (DetectContentType p) /\ len (DetectContentType p) <= 128;
}.

(** ** The stream *)

(** The send side of a stream: the bytes it took, and how many more it takes before
it fails ([None]: it does not). *)
Record out_stream := { o_written : list Z; o_room : option Z }.

(** [writeUnframed]: the bytes written, and whether all were. *)
Definition writeUnframed (s : out_stream) (b : list Z) : out_stream * Z * bool :=
  match o_room s with
  | None => ({| o_written := o_written s ++ b; o_room := None |}, len b, true)
  | Some room =>
    if len b <=? room then ({| o_written := o_written s ++ b; o_room := Some (room - len b) |}, len b, true)
    else ({| o_written := o_written s ++ take (Z.to_nat room) b; o_room := Some 0 |}, room, false)
  end.

(** ** The writer *)

Definition maxSmallResponseSize : Z := 4096.
Definition TrailerPrefix : gostring := str "Trailer:".

Record responseWriter := {
  w_str : out_stream;
  w_header : header_map;
  w_trailers : gset gostring;
  w_status : Z;
  w_smallResponseBuf : list Z;
  w_contentLen : Z;
  w_numWritten : Z;
  w_headerComplete : bool;
  w_headerWritten : bool;
  w_isHead : bool;
  w_trailerWritten : bool;
  w_hijacked : bool;
  w_loops : nat;                (** [range] loops over maps so far *)
}.

Definition newResponseWriter (str : out_stream) (isHead : bool) : responseWriter :=
  {| w_str := str; w_header := ∅; w_trailers := ∅; w_status := 0; w_smallResponseBuf := []; w_contentLen := 0; w_numWritten := 0;
     w_headerComplete := false; w_headerWritten := false; w_isHead := isHead; w_trailerWritten := false; w_hijacked := false; w_loops := 0 |}.

Definition set_header (w : responseWriter) (h : header_map) : responseWriter :=
  {| w_str := w_str w; w_header := h; w_trailers := w_trailers w; w_status := w_status w; w_smallResponseBuf := w_smallResponseBuf w;
     w_contentLen := w_contentLen w; w_numWritten := w_numWritten w; w_headerComplete := w_headerComplete w;
     w_headerWritten := w_headerWritten w; w_isHead := w_isHead w; w_trailerWritten := w_trailerWritten w; w_hijacked := w_hijacked w;
     w_loops := w_loops w |}.
Definition set_status (w : responseWriter) (status : Z) : responseWriter :=
  {| w_str := w_str w; w_header := w_header w; w_trailers := w_trailers w; w_status := status; w_smallResponseBuf := w_smallResponseBuf w;
     w_contentLen := w_contentLen w; w_numWritten := w_numWritten w; w_headerComplete := w_headerComplete w;
     w_headerWritten := w_headerWritten w; w_isHead := w_isHead w; w_trailerWritten := w_trailerWritten w; w_hijacked := w_hijacked w;
     w_loops := w_loops w |}.
Definition complete_header (w : responseWriter) (h : header_map) (contentLen : Z) : responseWriter :=
  {| w_str := w_str w; w_header := h; w_trailers := w_trailers w; w_status := w_status w; w_smallResponseBuf := w_smallResponseBuf w;
     w_contentLen := contentLen; w_numWritten := w_numWritten w; w_headerComplete := true;
     w_headerWritten := w_headerWritten w; w_isHead := w_isHead w; w_trailerWritten := w_trailerWritten w; w_hijacked := w_hijacked w;
     w_loops := w_loops w |}.
Definition set_written (w : responseWriter) (n : Z) : responseWriter :=
  {| w_str := w_str w; w_header := w_header w; w_trailers := w_trailers w; w_status := w_status w; w_smallResponseBuf := w_smallResponseBuf w;
     w_contentLen := w_contentLen w; w_numWritten := n; w_headerComplete := w_headerComplete w;
     w_headerWritten := w_headerWritten w; w_isHead := w_isHead w; w_trailerWritten := w_trailerWritten w; w_hijacked := w_hijacked w;
     w_loops := w_loops w |}.
Definition set_buffer (w : responseWriter) (b : list Z) : responseWriter :=
  {| w_str := w_str w; w_header := w_header w; w_trailers := w_trailers w; w_status := w_status w; w_smallResponseBuf := b;
     w_contentLen := w_contentLen w; w_numWritten := w_numWritten w; w_headerComplete := w_headerComplete w;
     w_headerWritten := w_headerWritten w; w_isHead := w_isHead w; w_trailerWritten := w_trailerWritten w; w_hijacked := w_hijacked w;
     w_loops := w_loops w |}.
Definition set_stream (w : responseWriter) (s : out_stream) : responseWriter :=
  {| w_str := s; w_header := w_header w; w_trailers := w_trailers w; w_status := w_status w; w_smallResponseBuf := w_smallResponseBuf w;
     w_contentLen := w_contentLen w; w_numWritten := w_numWritten w; w_headerComplete := w_headerComplete w;
     w_headerWritten := w_headerWritten w; w_isHead := w_isHead w; w_trailerWritten := w_trailerWritten w; w_hijacked := w_hijacked w;
     w_loops := w_loops w |}.
(** The set of trailers after a loop over a map. *)
Definition set_trailers (w : responseWriter) (t : gset gostring) : responseWriter :=
  {| w_str := w_str w; w_header := w_header w; w_trailers := t; w_status := w_status w; w_smallResponseBuf := w_smallResponseBuf w;
     w_contentLen := w_contentLen w; w_numWritten := w_numWritten w; w_headerComplete := w_headerComplete w;
     w_headerWritten := w_headerWritten w; w_isHead := w_isHead w; w_trailerWritten := w_trailerWritten w; w_hijacked := w_hijacked w;
     w_loops := S (w_loops w) |}.
Definition set_flags (w : responseWriter) (headerWritten trailerWritten hijacked : bool) : responseWriter :=
  {| w_str := w_str w; w_header := w_header w; w_trailers := w_trailers w; w_status := w_status w; w_smallResponseBuf := w_smallResponseBuf w;
     w_contentLen := w_contentLen w; w_numWritten := w_numWritten w; w_headerComplete := w_headerComplete w;
     w_headerWritten := headerWritten; w_isHead := w_isHead w; w_trailerWritten := trailerWritten; w_hijacked := hijacked;
     w_loops := w_loops w |}.

(** What [Write] reports. *)
Inductive response_error := ErrBodyNotAllowed | ErrContentLength | StreamFailed.

Definition bodyAllowedForStatus (status : Z) : bool :=
  if (status >=? 100) && (status <=? 199) then false
  else if status =? 204 then false
  else if status =? 304 then false
  else true.

Section Writer.
  Context `{Httpguts, Qpack, ResponseEnv}.

Definition declareTrailer (t : gset gostring) (k : gostring) : gset gostring := if ValidTrailerHeader k then {[k]} ∪ t else t.

(** The names in the Trailer fields. *)
Definition announced (h : header_map) : list gostring :=
  flat_map (fun v => map (fun t => CanonicalMIMEHeaderKey (TrimSpace t)) (Split v 44)) (default [] (h !! str "Trailer")).

(** The fields of a header, in the order of the loop. *)
Definition header_fields (trailers : gset gostring) (order : list (gostring * list gostring)) : list field :=
  flat_map (fun kv =>
    if bool_decide (fst kv ∈ trailers) then []
    else if HasPrefix (fst kv) TrailerPrefix then []
    else map (fun v => (ToLower (fst kv), v)) (snd kv)) order.

(** [writeHeader]: [None] is the panic of an integer that is too large. *)
Definition writeHeader (w : responseWriter) (status : Z) : option (responseWriter * bool) :=
  let trailers := foldl declareTrailer (w_trailers w) (announced (w_header w)) in
  let fields := (cStatus, FormatInt status) :: header_fields trailers (iterate (w_loops w) (w_header w)) in
  let headers := qpack_Encode fields in
  buf ← headers_Append (len headers) [];
  let '(s, _, ok) := writeUnframed (w_str w) (buf ++ headers) in
  Some (set_stream (set_trailers w trailers) s, ok).

(** [WriteHeader]; a status that has not three digits panics. *)
Definition WriteHeader (w : responseWriter) (status : Z) : option responseWriter :=
  if w_headerComplete w then Some w
  else if (status <? 100) || (status >? 999) then None
  else
    let w := set_status w status in
    if status <? 200 then '(w, _) ← writeHeader w status; Some w
    else
      let h := if has (w_header w) (str "Date") then w_header w else Header_Set (w_header w) (str "Date") date_text in
      let clen := Header_Get h (str "Content-Length") in
      Some (if same clen [] then complete_header w h (w_contentLen w)
            else match ParseUint 63 clen with
                 | Some cl => complete_header w h cl
                 | None => complete_header w (delete (str "Content-Length") h) (w_contentLen w)
                 end).

Definition sniffContentType (w : responseWriter) (p : list Z) : responseWriter :=
  let haveType := has (w_header w) (str "Content-Type") in
  let hasCE := negb (same (Header_Get (w_header w) (str "Content-Encoding")) []) in
  if negb hasCE && negb haveType && (len p >? 0)
  then set_header w (Header_Set (w_header w) (str "Content-Type") (DetectContentType p))
  else w.

(** [doWrite] after the header has been written. *)
Definition write_data (w : responseWriter) (p : list Z) : option (responseWriter * Z * option response_error) :=
  let l := len (w_smallResponseBuf w) + len p in
  if l =? 0 then Some (w, 0, None)
  else
    buf ← data_Append l [];
    let '(s, _, ok) := writeUnframed (w_str w) buf in
    let w := set_stream w s in
    if negb ok then Some (w, 0, Some StreamFailed)
    else
      let '(w, ok) :=
        if len (w_smallResponseBuf w) >? 0 then
          let '(s, _, ok) := writeUnframed (w_str w) (w_smallResponseBuf w) in
          if (ok : bool) then (set_buffer (set_stream w s) [], true) else (set_stream w s, false)
        else (w, true) in
      if negb ok then Some (w, 0, Some StreamFailed)
      else if len p >? 0 then
        let '(s, n, ok) := writeUnframed (w_str w) p in
        Some (set_stream w s, n, if (ok : bool) then None else Some StreamFailed)
      else Some (w, 0, None).

Definition doWrite (w : responseWriter) (p : list Z) : option (responseWriter * Z * option response_error) :=
  if negb (w_headerWritten w) then
    let w := sniffContentType w (w_smallResponseBuf w) in
    '(w, ok) ← writeHeader w (w_status w);
    if negb (ok : bool) then Some (w, 0, Some StreamFailed)
    else write_data (set_flags w true (w_trailerWritten w) (w_hijacked w)) p
  else write_data w p.

(** [Write]: the number of bytes and the error it returns. *)
Definition Write (w : responseWriter) (p : list Z) : option (responseWriter * Z * option response_error) :=
  '(w, bodyAllowed) ← (if negb (w_headerComplete w) then
                         w ← WriteHeader (sniffContentType w p) 200; Some (w, true)
                       else Some (w, bodyAllowedForStatus (w_status w)));
  if negb (bodyAllowed : bool) then Some (w, 0, Some ErrBodyNotAllowed)
  else
    let w := set_written w (i64 (w_numWritten w + len p)) in
    if negb (w_contentLen w =? 0) && (w_numWritten w >? w_contentLen w) then Some (w, 0, Some ErrContentLength)
    else if w_isHead w then Some (w, len p, None)
    else if negb (w_headerWritten w) && (len (w_smallResponseBuf w) + len p <? maxSmallResponseSize) then
      Some (set_buffer w (w_smallResponseBuf w ++ p), len p, None)
    else doWrite w p.

Definition FlushError (w : responseWriter) : option (responseWriter * option response_error) :=
  w ← (if negb (w_headerComplete w) then WriteHeader w 200 else Some w);
  '(w, _, err) ← doWrite w [];
  Some (w, err).
Definition Flush (w : responseWriter) : option responseWriter := '(w, _) ← FlushError w; Some w.

(** [HTTPStream]: the handler takes over the stream. *)
Definition HTTPStream (w : responseWriter) : option responseWriter :=
  Flush (set_flags w (w_headerWritten w) (w_trailerWritten w) true).

(** *** Trailers *)

(** [writeTrailers] of [headers.go]: whether trailers were written, and the error. *)
Definition trailer_section (n : nat) (trailers : header_map) : list field :=
  flat_map (fun kv => if (len (snd kv) =? 0) || negb (ValidTrailerHeader (fst kv)) then [] else map (fun v => (ToLower (fst kv), v)) (snd kv))
    (iterate n trailers).
Definition writeTrailers (n : nat) (s : out_stream) (trailers : header_map) : option (out_stream * bool * bool) :=
  if negb (existsb (fun kv => ValidTrailerHeader (fst kv) && (len (snd kv) >? 0)) (map_to_list trailers)) then Some (s, false, true)
  else
    let block := qpack_Encode (trailer_section n trailers) in
    b ← headers_Append (len block) [];
    let '(s, _, ok) := writeUnframed s (b ++ block) in
    Some (s, true, ok).

(** The method [writeTrailers] of the writer, and [flushTrailers], which drops the error. *)
Definition promote (w : responseWriter) : responseWriter :=
  set_trailers w (foldl declareTrailer (w_trailers w)
    (List.filter (fun k => HasPrefix k TrailerPrefix) (map fst (iterate (w_loops w) (w_header w))))).
Definition trailer_map (w : responseWriter) : header_map :=
  foldl (fun m t => match w_header w !! t with
                    | Some vals => <[TrimPrefix t TrailerPrefix := vals]> m
                    | None => m
                    end) ∅ (iterate_keys (w_loops w) (w_trailers w)).
Definition flushTrailers (w : responseWriter) : option responseWriter :=
  if w_trailerWritten w then Some w
  else
    let w := promote w in
    if bool_decide (w_trailers w = ∅) then Some w
    else
      '(s, written, _) ← writeTrailers (S (w_loops w)) (w_str w) (trailer_map w);
      Some (set_flags (set_stream w s) (w_headerWritten w) written (w_hijacked w)).

(** ** After the handler *)

(** What becomes of the send side: it stays with the one who took it over, is reset
with a code, or is closed behind what was written. *)
Inductive stream_fate := HandedOver | Reset (code : Z) | Closed.
Definition ErrCodeInternalError : Z := 0x102.

(** [strconv.FormatInt] of the bytes written, unless the header is out or says a length. *)
Definition add_length (w : responseWriter) : responseWriter :=
  if negb (w_headerWritten w) && negb (has (w_header w) (str "Content-Length"))
  then set_header w (Header_Set (w_header w) (str "Content-Length") (FormatInt (w_numWritten w)))
  else w.

(** The end of [handleRequestStream]. *)
Definition finish_request (w : responseWriter) (panicked : bool) : option (responseWriter * stream_fate) :=
  if w_hijacked w then Some (w, HandedOver)
  else if panicked then Some (w, Reset ErrCodeInternalError)
  else
    w ← Flush (add_length w);
    w ← flushTrailers w;
    Some (w, Closed).

Definition rejectWithHeaderFieldsTooLarge (str : out_stream) : option out_stream :=
  w ← WriteHeader (newResponseWriter str false) 431;
  w ← Flush w;
  Some (w_str w).

(** ** Handlers *)

Inductive call :=
| HeaderSet (k v : gostring)
| HeaderAdd (k v : gostring)
| HeaderDel (k : gostring)
| CallWriteHeader (status : Z)
| CallWrite (p : list Z)
| CallFlush
| CallHTTPStream.

Definition run_call (w : responseWriter) (c : call) : option responseWriter :=
  match c with
  | HeaderSet k v => Some (set_header w (Header_Set (w_header w) k v))
  | HeaderAdd k v => Some (set_header w (Header_Add (w_header w) (k, v)))
  | HeaderDel k => Some (set_header w (delete (CanonicalMIMEHeaderKey k) (w_header w)))
  | CallWriteHeader status => WriteHeader w status
  | CallWrite p => '(w, _, _) ← Write w p; Some w
  | CallFlush => Flush w
  | CallHTTPStream => HTTPStream w
  end.
Fixpoint run (w : responseWriter) (cs : list call) : option responseWriter :=
  match cs with
  | [] => Some w
  | c :: cs => w ← run_call w c; run w cs
  end.

(** A handler that returns, from the request to the end of the stream. *)
Definition serve (isHead : bool) (cs : list call) : option (responseWriter * stream_fate) :=
  w ← run (newResponseWriter {| o_written := []; o_room := None |} isHead) cs;
  finish_request w false.

End Writer.

(** ** Headers a handler may set *)

(** The fields of a header map, as texts of HTTP/3. *)
Definition header_size (h : header_map) : Z := total_size (order_fields (map_to_list h)).

Lemma total_size_perm fs gs : fs ≡ₚ gs -> total_size fs = total_size gs.
Proof. induction 1; cbn [total_size]; lia. Qed.
Lemma order_fields_perm o o' : o ≡ₚ o' -> order_fields o ≡ₚ order_fields o'.
Proof. intros Hp. unfold order_fields. by apply Permutation_flat_map. Qed.
Lemma order_size n h : forall `{ResponseEnvOk}, total_size (order_fields (iterate n h)) = header_size h.
Proof. intros. apply total_size_perm, order_fields_perm, iterate_all. Qed.

Definition entry_size (k : gostring) (vs : list gostring) : Z := total_size (key_fields (k, vs)).
Lemma lower_len k : len (map lower k) = len k.
Proof. unfold len. by rewrite length_map. Qed.
Lemma entry_size_snoc k vs v : entry_size k (vs ++ [v]) = entry_size k vs + (len k + len v + 32).
Proof.
  unfold entry_size, key_fields. cbn [fst snd]. rewrite map_app, total_size_app. cbn [map total_size]. unfold field_size. cbn [fst snd].
  rewrite lower_len. lia.
Qed.
Lemma header_size_insert h k vs : h !! k = None -> header_size (<[k := vs]> h) = entry_size k vs + header_size h.
Proof.
  intros Hk. unfold header_size. rewrite (total_size_perm _ (order_fields ((k, vs) :: map_to_list h))) by by apply order_fields_perm, map_to_list_insert.
  change (order_fields ((k, vs) :: map_to_list h)) with (key_fields (k, vs) ++ order_fields (map_to_list h)). by rewrite total_size_app.
Qed.
Lemma header_size_delete h k : header_size h = entry_size k (default [] (h !! k)) + header_size (delete k h).
Proof.
  destruct (h !! k) as [vs|] eqn:Hk.
  - rewrite <- (insert_delete_id h k vs Hk) at 1. by rewrite header_size_insert by apply lookup_delete_eq.
  - by rewrite delete_id.
Qed.
Lemma entry_size_nonneg k vs : 0 <= entry_size k vs.
Proof. apply total_size_nonneg. Qed.
Lemma header_size_set h k vs : header_size (<[k := vs]> h) <= entry_size k vs + header_size h.
Proof.
  rewrite <- insert_delete_eq, header_size_insert by apply lookup_delete_eq. pose proof (header_size_delete h k).
  pose proof (entry_size_nonneg k (default [] (h !! k))). lia.
Qed.

Lemma canonical_len up k : len (canonical up k) = len k.
Proof. revert up. unfold len. induction k as [|c k IH]; intros up; cbn [canonical List.length]; [done|]. specialize (IH (c =? 45)). lia. Qed.
Lemma canonical_key_len k : len (CanonicalMIMEHeaderKey k) = len k.
Proof. unfold CanonicalMIMEHeaderKey. split_if; [apply canonical_len|done]. Qed.

Lemma Header_Set_size h k v : header_size (Header_Set h k v) <= header_size h + (len k + len v + 32).
Proof.
  unfold Header_Set. pose proof (header_size_set h (CanonicalMIMEHeaderKey k) [v]) as Hs.
  change [v] with (@nil gostring ++ [v]) in Hs. rewrite entry_size_snoc, canonical_key_len in Hs. cbn in Hs. lia.
Qed.
Lemma Header_Add_size h k v : header_size (Header_Add h (k, v)) <= header_size h + (len k + len v + 32).
Proof.
  unfold Header_Add. cbn [fst snd]. set (k' := CanonicalMIMEHeaderKey k). rewrite <- insert_delete_eq, header_size_insert by apply lookup_delete_eq.
  rewrite entry_size_snoc. assert (len k' = len k) by apply canonical_key_len. pose proof (header_size_delete h k'). lia.
Qed.
Lemma delete_size h k : header_size (delete k h) <= header_size h.
Proof. pose proof (header_size_delete h k). pose proof (entry_size_nonneg k (default [] (h !! k))). lia. Qed.

(** *** Names *)

(** Canonical keys that are passed on as they are. *)
Definition free_key (k : gostring) : Prop := plain_entry (k, []) /\ map lower k <> str "content-encoding".
Definition free_header (h : header_map) : Prop := map_Forall (fun k vs => free_key k /\ Forall printable vs) h.

Lemma free_plain k vs : free_key k -> Forall printable vs -> plain_entry (k, vs).
Proof. intros [(A1 & A2 & A3 & A4 & _) _] Hv. by repeat split. Qed.
Lemma free_insert h k vs : free_header h -> free_key k -> Forall printable vs -> free_header (<[k := vs]> h).
Proof. intros Hh Hk Hv. by apply map_Forall_insert_2. Qed.
Lemma free_delete h k : free_header h -> free_header (delete k h).
Proof. apply map_Forall_delete. Qed.
Lemma free_values h k : free_header h -> Forall printable (default [] (h !! k)).
Proof. intros Hh. destruct (h !! k) as [vs|] eqn:E; [|constructor]. by apply Hh in E as [_ ?]. Qed.
Lemma free_absent h k : free_header h -> map lower k ∈ (str "content-encoding" :: reserved_keys)%list -> h !! k = None.
Proof.
  intros Hh Hk. destruct (h !! k) as [vs|] eqn:E; [|done]. apply Hh in E as [[(_ & _ & _ & Hr & _) Hc] _]. cbn [fst] in Hr.
  by apply elem_of_cons in Hk as [Hk|Hk].
Qed.
Lemma free_Add h k v : free_header h -> free_key (CanonicalMIMEHeaderKey k) -> printable v -> free_header (Header_Add h (k, v)).
Proof.
  intros Hh Hk Hv. apply free_insert; [done|done|]. apply Forall_app. split; [by apply free_values|by constructor].
Qed.
Lemma free_Set h k v : free_header h -> free_key (CanonicalMIMEHeaderKey k) -> printable v -> free_header (Header_Set h k v).
Proof. intros. apply free_insert; [done|done|by constructor]. Qed.

(** Decides [free_key] of a constant. *)
Ltac known_key :=
  match goal with |- free_key ?k =>
    split; [split; [discriminate|]; split; [reflexivity|]; split; [reflexivity|]; split;
      [apply (bool_decide_eq_false_1 _); vm_compute; reflexivity|constructor]|discriminate]
  end.
Lemma free_Date : free_key (str "Date").
Proof. known_key. Qed.
Lemma free_ContentType : free_key (str "Content-Type").
Proof. known_key. Qed.

Lemma FormatUint_len n : 0 <= n < 2 ^ 63 -> len (FormatUint n) <= 64.
Proof.
  intros Hn. assert (forall fuel x, (List.length (digits_rev fuel x) <= fuel)%nat) as Hd.
  { induction fuel as [|fuel IH]; intros x; cbn; [lia|]. split_if; cbn; [lia|]. specialize (IH (x / 10)). lia. }
  unfold FormatUint, len. rewrite length_rev. specialize (Hd (S (Z.to_nat (Z.log2 n))) n).
  destruct (decide (n = 0)) as [->|]; [cbn; lia|]. assert (Z.log2 n < 63) by (apply Z.log2_lt_pow2; lia). pose proof (Z.log2_nonneg n). lia.
Qed.
Lemma FormatInt_nonneg n : 0 <= n -> FormatInt n = FormatUint n.
Proof. intros. unfold FormatInt. by rewrite (proj2 (Z.ltb_ge n 0)). Qed.
Lemma FormatInt_printable n : 0 <= n -> printable (FormatInt n).
Proof.
  intros Hn. rewrite FormatInt_nonneg by done. eapply List.Forall_impl; [|by apply FormatUint_digits]. cbn. intros c Hc. unfold is_digit in Hc. breflect. lia.
Qed.
Lemma ParseUint_FormatInt n : 0 <= n < 2 ^ 63 -> ParseUint 63 (FormatInt n) = Some n.
Proof.
  intros Hn. rewrite FormatInt_nonneg by lia. unfold ParseUint. rewrite parse_FormatUint by lia. cbn [mbind option_bind]. split_if; [done|breflect; lia].
Qed.

(** ** What a handler's calls mean *)

(** The response a handler describes: the header as it edited it, the status and the
body so far, and the header at the moment it was sent. *)
Record response := {
  rs_header : header_map;
  rs_status : option Z;
  rs_body : list Z;
  rs_sent : option header_map;
  rs_taken : bool;              (** the handler took over the stream *)
}.
Definition no_response : response := {| rs_header := ∅; rs_status := None; rs_body := []; rs_sent := None; rs_taken := false |}.

(** The first status counts; the header is sent once. *)
Definition settle (r : response) (status : Z) : response :=
  {| rs_header := rs_header r; rs_status := Some (default status (rs_status r)); rs_body := rs_body r; rs_sent := rs_sent r; rs_taken := rs_taken r |}.
Definition send (r : response) : response :=
  {| rs_header := rs_header r; rs_status := rs_status r; rs_body := rs_body r; rs_sent := Some (default (rs_header r) (rs_sent r)); rs_taken := rs_taken r |}.
Definition edited (r : response) (h : header_map) : response :=
  {| rs_header := h; rs_status := rs_status r; rs_body := rs_body r; rs_sent := rs_sent r; rs_taken := rs_taken r |}.
Definition grown (r : response) (p : list Z) : response :=
  {| rs_header := rs_header r; rs_status := rs_status r; rs_body := rs_body r ++ p; rs_sent := rs_sent r; rs_taken := rs_taken r |}.
Definition taken (r : response) : response :=
  {| rs_header := rs_header r; rs_status := rs_status r; rs_body := rs_body r; rs_sent := rs_sent r; rs_taken := true |}.
(** More of the body, if the status permits one; a response that is not small any
more is sent. *)
Definition extended (r : response) (p : list Z) : response :=
  if bodyAllowedForStatus (default 200 (rs_status r)) then
    if len (rs_body r ++ p) <? maxSmallResponseSize then grown r p else send (grown r p)
  else r.

Definition means (r : response) (c : call) : response :=
  match c with
  | HeaderSet k v => edited r (Header_Set (rs_header r) k v)
  | HeaderAdd k v => edited r (Header_Add (rs_header r) (k, v))
  | HeaderDel k => edited r (delete (CanonicalMIMEHeaderKey k) (rs_header r))
  | CallWriteHeader status => settle r status
  | CallWrite p => extended (settle r 200) p
  | CallFlush => send (settle r 200)
  | CallHTTPStream => send (settle (taken r) 200)
  end.
Definition meaning (cs : list call) : response := foldl means no_response cs.

Definition payload (c : call) : list Z := match c with CallWrite p => p | _ => [] end.
Definition call_ok (c : call) : Prop :=
  match c with
  | HeaderSet k v | HeaderAdd k v => free_key (CanonicalMIMEHeaderKey k) /\ printable v
  | CallWriteHeader status => 200 <= status <= 999
  | CallWrite p => is_bytes p
  | HeaderDel _ | CallFlush | CallHTTPStream => True
  end.
Definition call_size (c : call) : Z :=
  match c with HeaderSet k v | HeaderAdd k v => len k + len v + 32 | _ => 0 end.
Fixpoint calls_size (cs : list call) : Z :=
  match cs with
  | [] => 0
  | c :: cs => call_size c + calls_size cs
  end.

Lemma calls_size_app cs cs' : calls_size (cs ++ cs') = calls_size cs + calls_size cs'.
Proof. induction cs as [|c cs IH]; cbn [calls_size app]; lia. Qed.
Lemma calls_size_nonneg cs : 0 <= calls_size cs.
Proof.
  induction cs as [|c cs IH]; cbn [calls_size]; [lia|]. destruct c as [k v|k v| | | | |]; cbn [call_size]; try lia;
    pose proof (len_nonneg k); pose proof (len_nonneg v); lia.
Qed.
(** *** The bytes *)

Definition data_frames (ps : list (list Z)) : list Z := flat_map (fun p => venc 0 ++ venc (len p) ++ p) ps.

(** A frame unless there is nothing to send. *)
Definition one_frame (b : list Z) : list (list Z) := match b with [] => [] | _ => [b] end.
Lemma one_frame_concat b : List.concat (one_frame b) = b.
Proof. destruct b; [done|]. apply app_nil_r. Qed.

(** The fields of the response header, in the order of the [n]-th loop. *)
Definition response_fields `{ResponseEnv} (n : nat) (status : Z) (h : header_map) : list field :=
  (cStatus, FormatInt status) :: order_fields (iterate n h).
Definition header_frame `{Qpack} (fields : list field) : list Z :=
  venc 1 ++ venc (len (qpack_Encode fields)) ++ qpack_Encode fields.

(** The headers that are filled in. *)
Definition automatic : list gostring := [str "Date"; str "Content-Type"; str "Content-Length"].
(** Two of them only if the handler has not set them. *)
Definition filled : list gostring := [str "Date"; str "Content-Type"].

(** What is sent agrees with what the handler set: everywhere but on the headers that
are filled in; and also on what the handler set of the [filled] ones, if [strict]. *)
Definition agrees (strict : bool) (h h' : header_map) : Prop :=
  (forall k, k ∉ automatic -> h !! k = h' !! k)
  /\ (strict = true -> forall k vs, k ∈ filled -> h' !! k = Some vs -> h !! k = Some vs).

(** A call that does not add to those: after they were filled in, the value would be a
second one. *)
Definition no_addition (c : call) : Prop :=
  match c with HeaderAdd k _ => CanonicalMIMEHeaderKey k ∉ filled | _ => True end.
#[export] Instance no_addition_dec c : Decision (no_addition c).
Proof. destruct c; cbn; apply _. Defined.

(** The bytes the filled-in headers and the status take at most. *)

Section Written.
  Context `{Httpguts, Qpack, ResponseEnv} {Hguts : HttpgutsOk} {Hqp : QpackOk} {Henv : ResponseEnvOk}.
  Context {strict : bool}.

(** A header map whose fields are sent as they are: free keys, and perhaps a length. *)
Definition sendable (h : header_map) : Prop :=
  free_header (delete (str "Content-Length") h) /\ forall vs, h !! str "Content-Length" = Some vs -> exists n, 0 <= n < 2 ^ 63 /\ vs = [FormatInt n].

Lemma free_sendable h : free_header h -> sendable h.
Proof.
  intros Hh. split; [by apply free_delete|]. intros vs Hv. rewrite free_absent in Hv; [done|done|].
  apply (bool_decide_unpack _). vm_compute. exact I.
Qed.

(** Every key of such a map is a token that is no trailer. *)
Lemma sendable_key h k vs : sendable h -> h !! k = Some vs ->
  forallb token_byte k = true /\ HasPrefix k TrailerPrefix = false /\ k <> str "Trailer".
Proof.
  intros [Hf _] Hk. destruct (decide (k = str "Content-Length")) as [->|Hne]; [by repeat split|].
  assert (delete (str "Content-Length") h !! k = Some vs) as Hd by by rewrite lookup_delete_ne.
  apply Hf in Hd as [[(_ & Ht & _ & Hr & _) _] _]. cbn [fst] in *. split; [done|]. split.
  - destruct (HasPrefix k TrailerPrefix) eqn:E; [|done]. exfalso.
    assert (forall s p, HasPrefix s p = true -> exists r, s = p ++ r) as Hpre.
    { clear. intros s p. revert s. induction p as [|y p IH]; intros s Hs; [by exists s|]. destruct s as [|x s]; [done|]. cbn in Hs.
      apply andb_true_iff in Hs as [He Hs]. breflect. subst y. destruct (IH s Hs) as [r ->]. by exists r. }
    apply Hpre in E as [r ->]. rewrite forallb_app in Ht. vm_compute in Ht. done.
  - intros ->. apply Hr. apply (bool_decide_unpack _). vm_compute. exact I.
Qed.
Lemma header_fields_plain n h : sendable h -> header_fields ∅ (iterate n h) = order_fields (iterate n h).
Proof.
  intros Hs. assert (forall kv, kv ∈ iterate n h -> h !! fst kv = Some (snd kv)) as Hin.
  { intros kv Hkv. rewrite iterate_all in Hkv. destruct kv. by apply elem_of_map_to_list. }
  unfold header_fields, order_fields. induction (iterate n h) as [|kv o IH]; [done|]. cbn [flat_map].
  rewrite IH by (intros; apply Hin; by constructor). f_equal. rewrite bool_decide_eq_false_2 by set_solver.
  destruct (sendable_key h (fst kv) (snd kv) Hs) as (Ht & -> & _); [apply Hin; constructor|]. unfold key_fields.
  destruct (ToLower_token _ Ht) as [-> _]. done.
Qed.
Lemma not_announced h : sendable h -> announced h = [].
Proof.
  intros Hs. unfold announced. destruct (h !! str "Trailer") as [vs|] eqn:E; [|done]. by destruct (sendable_key _ _ _ Hs E) as (_ & _ & ?).
Qed.

Lemma response_size n status h : 0 <= status <= 999 -> total_size (response_fields n status h) <= header_size h + 103.
Proof.
  intros Hs. unfold response_fields. cbn [total_size]. rewrite order_size by done. unfold field_size. cbn [fst snd].
  rewrite FormatInt_nonneg by lia. pose proof (FormatUint_len status ltac:(lia)). change (len cStatus) with 7. lia.
Qed.
Lemma block_varint fields : total_size fields < 2 ^ 40 -> is_varint (len (qpack_Encode fields)).
Proof.
  intros Ht. pose proof (qpack_size fields). pose proof (len_nonneg (qpack_Encode fields)). unfold is_varint, maxVarInt8. lia.
Qed.

Lemma writeHeader_written w status : o_room (w_str w) = None -> w_trailers w = ∅ -> sendable (w_header w) -> 0 <= status <= 999 ->
  header_size (w_header w) < 2 ^ 39 ->
  writeHeader w status = Some (set_stream (set_trailers w ∅)
    {| o_written := o_written (w_str w) ++ header_frame (response_fields (w_loops w) status (w_header w)); o_room := None |}, true).
Proof.
  intros Hr Ht Hs Hst Hsz. unfold writeHeader. rewrite Ht, not_announced by done. cbn [foldl]. rewrite header_fields_plain by done.
  fold (response_fields (w_loops w) status (w_header w)). pose proof (response_size (w_loops w) status (w_header w) Hst).
  unfold headers_Append. rewrite Append_venc by (split; discriminate). cbn [mbind option_bind]. rewrite Append_venc by (apply block_varint; lia).
  cbn [mbind option_bind]. unfold writeUnframed. rewrite Hr. unfold header_frame. by rewrite app_nil_l, <- app_assoc.
Qed.

Lemma len_empty {A} (l : list A) : len l <= 0 -> l = [].
Proof. destruct l; [done|]. rewrite len_cons. pose proof (len_nonneg l). lia. Qed.
Lemma writeUnframed_open s b : o_room s = None ->
  writeUnframed s b = ({| o_written := o_written s ++ b; o_room := None |}, len b, true).
Proof. intros Hr. unfold writeUnframed. by rewrite Hr. Qed.

Lemma data_Append_venc n : 0 <= n < 2 ^ 62 -> data_Append n [] = Some (venc 0 ++ venc n).
Proof.
  intros Hn. unfold data_Append. rewrite Append_venc by (split; discriminate). cbn [mbind option_bind]. by rewrite Append_venc by (unfold is_varint, maxVarInt8; lia).
Qed.

Lemma write_data_written w p : o_room (w_str w) = None -> len (w_smallResponseBuf w) + len p < 2 ^ 62 ->
  exists n, write_data w p = Some (set_buffer (set_stream w {| o_written := o_written (w_str w)
      ++ data_frames (one_frame (w_smallResponseBuf w ++ p)); o_room := None |}) [], n, None).
Proof.
  intros Hr Hl. unfold write_data. pose proof (len_nonneg (w_smallResponseBuf w)). pose proof (len_nonneg p).
  destruct (Z.eqb_spec (len (w_smallResponseBuf w) + len p) 0) as [E|E].
  { assert (w_smallResponseBuf w = [] /\ p = []) as [Eb ->].
    { split; apply len_empty; lia. }
    exists 0. rewrite Eb. cbn [app data_frames flat_map]. rewrite app_nil_r. destruct w as [[? ?]]. cbn in *. by subst. }
  rewrite data_Append_venc by lia. cbn [mbind option_bind]. rewrite writeUnframed_open by done.
  cbn [negb set_stream w_smallResponseBuf w_str o_room o_written].
  assert (one_frame (w_smallResponseBuf w ++ p) = [w_smallResponseBuf w ++ p]) as ->.
  { unfold one_frame. destruct (w_smallResponseBuf w ++ p) eqn:Eb; [|done]. apply app_eq_nil in Eb as [Eb ->]. by rewrite Eb in E. }
  rewrite !Z.gtb_ltb, writeUnframed_open by done. cbn [data_frames flat_map o_written]. rewrite len_app, !app_nil_r.
  destruct (Z.ltb_spec 0 (len (w_smallResponseBuf w))) as [Hb|Hb]; cbn [negb set_buffer w_str set_stream]; rewrite ?writeUnframed_open by done;
    destruct (Z.ltb_spec 0 (len p)) as [Hp|Hp]; try lia; eexists; cbn [o_written].
  - by rewrite <- !app_assoc.
  - rewrite (len_empty p) by done. by rewrite app_nil_r, <- !app_assoc.
  - destruct w as [? ? ? ? b]. cbn in *. rewrite (len_empty b) by done. rewrite app_nil_l, <- !app_assoc. reflexivity.
Qed.

(** ** The writer refines the meaning *)

(** What the filled-in headers take at most. *)
Definition date_size : Z := 100.
Definition type_size : Z := 172.

(** A sent header: [h0] is what the handler had set. *)
Definition sent_as (h0 h : header_map) (size : Z) : Prop :=
  free_header h /\ agrees strict h h0 /\ header_size h <= size + (date_size + 2 * type_size).

Record wrote (w : responseWriter) (r : response) (size : Z) : Prop := {
  wr_room : o_room (w_str w) = None;
  wr_flags : w_isHead w = false /\ w_trailers w = ∅ /\ w_trailerWritten w = false /\ w_contentLen w = 0 /\ w_hijacked w = rs_taken r;
  wr_complete : w_headerComplete w = bool_decide (is_Some (rs_status r));
  wr_status : forall st, rs_status r = Some st -> w_status w = st /\ 200 <= st <= 999;
  wr_count : w_numWritten w = len (rs_body r);
  wr_free : free_header (w_header w);
  wr_size : header_size (w_header w) <= size + (if w_headerComplete w then date_size + type_size else 0) + (if w_headerWritten w then type_size else 0);
  wr_agrees : agrees strict (w_header w) (rs_header r);
  wr_out : if w_headerWritten w then
      is_Some (rs_status r) /\ w_smallResponseBuf w = []
      /\ exists h0 h n ps, rs_sent r = Some h0 /\ sent_as h0 h size /\ List.concat ps = rs_body r
         /\ o_written (w_str w) = header_frame (response_fields n (w_status w) h) ++ data_frames ps
    else rs_sent r = None /\ o_written (w_str w) = [] /\ w_smallResponseBuf w = rs_body r;
  wr_empty : rs_status r = None -> rs_body r = [];
}.

Lemma wrote_new : wrote (newResponseWriter {| o_written := []; o_room := None |} false) no_response 0.
Proof. by constructor. Qed.

(** *** Edits *)

Lemma sent_as_grows h0 h size size' : size <= size' -> sent_as h0 h size -> sent_as h0 h size'.
Proof. intros Hs (A & B & C). split; [done|]. split; [done|lia]. Qed.
Lemma wrote_edit w r size size' h h0 : wrote w r size -> size <= size' -> free_header h -> agrees strict h h0 ->
  header_size h <= header_size (w_header w) + (size' - size) -> wrote (set_header w h) (edited r h0) size'.
Proof.
  intros [A1 A2 A3 A4 A5 A6 A7 A8 A9 A10] Hs Hf Ha Hh. constructor; cbn; try done; [lia|]. destruct (w_headerWritten w); [|done].
  destruct A9 as (B1 & B2 & h1 & h2 & n & ps & B3 & B4 & B5 & B6). split; [done|]. split; [done|]. exists h1, h2, n, ps.
  split; [done|]. split; [by eapply sent_as_grows|done].
Qed.
Lemma agrees_insert h h0 k vs vs0 : agrees strict h h0 -> (k ∉ automatic -> vs = vs0) -> (strict = true -> k ∈ filled -> vs = vs0) ->
  agrees strict (<[k := vs]> h) (<[k := vs0]> h0).
Proof.
  intros [Ha Hf] Hk Hs. split; [intros k' Hk'|intros E k' v Hk'];
    (destruct (decide (k = k')) as [<-|Hne]; [rewrite !lookup_insert_eq|rewrite !lookup_insert_ne by done; by auto]).
  - by rewrite Hk.
  - by rewrite (Hs E Hk').
Qed.
Lemma agrees_delete h h0 k : agrees strict h h0 -> agrees strict (delete k h) (delete k h0).
Proof.
  intros [Ha Hf]. split; [intros k' Hk'|intros E k' v Hk'];
    (destruct (decide (k = k')) as [<-|Hne]; [by rewrite !lookup_delete_eq|rewrite !lookup_delete_ne by done; by auto]).
Qed.
Lemma agrees_fill h h0 k vs : agrees strict h h0 -> k ∈ automatic -> (k ∈ filled -> h !! k = None) -> agrees strict (<[k := vs]> h) h0.
Proof.
  intros [Ha Hf] Hk Hn. split; [intros k' Hk'; rewrite lookup_insert_ne by (intros ->; done); by apply Ha|].
  intros E k' v Hk' Hv. specialize (Hf E k' v Hk' Hv). destruct (decide (k = k')) as [<-|Hne]; [|by rewrite lookup_insert_ne].
  by rewrite Hn in Hf.
Qed.
Lemma not_has h k : has h k = false -> h !! k = None.
Proof. unfold has. by destruct (h !! k). Qed.

(** *** Completing and sending the header *)

Definition dated (h : header_map) : header_map := if has h (str "Date") then h else Header_Set h (str "Date") date_text.

Lemma dated_ok h h0 : free_header h -> agrees strict h h0 -> free_header (dated h) /\ agrees strict (dated h) h0 /\ header_size (dated h) <= header_size h + date_size.
Proof.
  intros Hf Ha. destruct date_printable as [Hp Hl]. unfold dated, date_size. destruct (has h (str "Date")) eqn:Eh; [split; [done|]; split; [done|lia]|]. split; [|split].
  - by apply free_Set; [|apply free_Date|].
  - apply agrees_fill; [done|constructor|]. intros _. by apply not_has.
  - pose proof (Header_Set_size h (str "Date") date_text) as Hs. change (len (str "Date")) with 4 in Hs. lia.
Qed.
Lemma sniff_ok w p h0 : free_header (w_header w) -> agrees strict (w_header w) h0 ->
  exists h, sniffContentType w p = set_header w h /\ free_header h /\ agrees strict h h0 /\ header_size h <= header_size (w_header w) + type_size.
Proof.
  intros Hf Ha. destruct (content_type_printable p) as [Hp Hl]. unfold sniffContentType, type_size. destruct (_ && _ && _) eqn:Eh.
  - apply andb_prop in Eh as [Eh _]. apply andb_prop in Eh as [_ Eh]. apply negb_true_iff in Eh. eexists. split; [reflexivity|]. split; [by apply free_Set; [|apply free_ContentType|]|]. split.
    + apply agrees_fill; [done|repeat constructor|]. intros _. by apply not_has.
    + pose proof (Header_Set_size (w_header w) (str "Content-Type") (DetectContentType p)) as Hs. change (len (str "Content-Type")) with 12 in Hs. lia.
  - exists (w_header w). split; [by destruct w|]. split; [done|]. split; [done|lia].
Qed.

Lemma WriteHeader_completes w st : w_headerComplete w = false -> 200 <= st <= 999 -> free_header (w_header w) ->
  WriteHeader w st = Some (complete_header (set_status w st) (dated (w_header w)) (w_contentLen w)).
Proof.
  intros Hc Hst Hf. unfold WriteHeader. rewrite Hc. rewrite (proj2 (Z.ltb_ge st 100)), Z.gtb_ltb, (proj2 (Z.ltb_ge 999 st)), (proj2 (Z.ltb_ge st 200)) by lia.
  cbn [orb]. cbv zeta. cbn [set_status w_header w_contentLen]. fold (dated (w_header w)). destruct (dated_ok (w_header w) (w_header w) Hf) as [Hd _]; [by split|].
  assert (Header_Get (dated (w_header w)) (str "Content-Length") = []) as ->; [|reflexivity].
  unfold Header_Get. change (CanonicalMIMEHeaderKey (str "Content-Length")) with (str "Content-Length"). rewrite free_absent; [done|done|].
  apply (bool_decide_unpack _). vm_compute. exact I.
Qed.

Lemma wrote_settled w r size st : wrote w r size -> w_headerComplete w = true -> wrote w (settle r st) size.
Proof.
  intros [A1 A2 A3 A4 A5 A6 A7 A8 A9 A10] Hc. rewrite Hc in A3. symmetry in A3. apply bool_decide_eq_true_1 in A3 as [s0 E]. unfold settle. rewrite E. cbn.
  constructor; cbn; rewrite <- ?E; done.
Qed.
(** Completing the header after an edit by the writer, of a content type at most. *)
Lemma wrote_completes w r size h st : wrote w r size -> w_headerComplete w = false -> 200 <= st <= 999 ->
  free_header h -> agrees strict h (rs_header r) -> header_size h <= header_size (w_header w) + type_size ->
  wrote (complete_header (set_status (set_header w h) st) (dated h) (w_contentLen w)) (settle r st) size.
Proof.
  intros [A1 A2 A3 A4 A5 A6 A7 A8 A9 A10] Hc Hst Hf Ha Hs. destruct (dated_ok h (rs_header r) Hf Ha) as (D1 & D2 & D3).
  rewrite Hc in A3, A7. symmetry in A3. apply bool_decide_eq_false_1 in A3. destruct (rs_status r) as [s0|] eqn:Er; [by destruct A3|].
  assert (w_headerWritten w = false) as Hw by (destruct (w_headerWritten w); [by destruct A9 as [[? ?] _]|done]). rewrite Hw in *.
  unfold settle. rewrite Er. constructor; cbn; rewrite ?Hw; try done.
  - by intros s0 [= <-].
  - lia.
Qed.

Lemma wrote_header w r size st : wrote w r size -> 200 <= st <= 999 -> exists w', WriteHeader w st = Some w' /\ wrote w' (settle r st) size /\ w_headerComplete w' = true.
Proof.
  intros Hw Hst. destruct (w_headerComplete w) eqn:Hc.
  - exists w. split; [unfold WriteHeader; by rewrite Hc|]. split; [by apply wrote_settled|done].
  - rewrite WriteHeader_completes by (done || apply Hw). eexists. split; [reflexivity|]. split; [|done].
    pose proof (wrote_completes w r size (w_header w) st Hw Hc Hst (wr_free _ _ _ Hw) (wr_agrees _ _ _ Hw)) as Hcomp.
    unfold type_size in Hcomp. specialize (Hcomp ltac:(lia)). by destruct w.
Qed.

(** *** Sending *)

(** The header goes out with the first data. *)
Lemma wrote_first w r size p : wrote w r size -> w_headerComplete w = true -> w_headerWritten w = false -> size < 2 ^ 38 ->
  len (rs_body r ++ p) < 2 ^ 62 ->
  exists w' n, doWrite (set_written w (len (rs_body r ++ p))) p = Some (w', n, None) /\ wrote w' (send (grown r p)) size /\ w_headerWritten w' = true.
Proof.
  intros [A1 (A2 & A3 & A4 & A5 & A5') A6 A7 A8 A9 A10 A11 A12 A13] Hc Hw Hsz Hl. rewrite Hw, Hc in *. destruct A12 as (B1 & B2 & B3).
  symmetry in A6. apply bool_decide_eq_true_1 in A6 as [st Est]. destruct (A7 st Est) as [Ew Hst].
  unfold doWrite. set (w1 := set_written w (len (rs_body r ++ p))). replace (w_headerWritten w1) with false by (symmetry; exact Hw). cbn [negb].
  destruct (sniff_ok w1 (w_smallResponseBuf w1) (rs_header r) A9 A11) as (h & -> & S1 & S2 & S3).
  cbn [set_header w_status]. change (w_status w1) with (w_status w). change (w_header w1) with (w_header w) in S3. unfold date_size, type_size in *.
  rewrite writeHeader_written; cbn [set_header w_str w_header w_trailers w1 set_written]; [|done|done|by apply free_sendable|lia|lia].
  cbn [mbind option_bind negb]. set (w2 := set_flags _ true _ _).
  destruct (write_data_written w2 p) as [n ->]; [done|cbn; rewrite B3, <- len_app; done|]. eexists _, n. split; [reflexivity|]. split; [|done].
  constructor; cbn; rewrite ?Hc; try done.
  - symmetry. apply bool_decide_eq_true_2. by rewrite Est.
  - unfold date_size, type_size. lia.
  - split; [by rewrite Est|]. split; [done|]. exists (rs_header r), h, (w_loops w), (one_frame (rs_body r ++ p)). rewrite B1, B2, B3. cbn [default].
    split; [done|]. split; [split; [done|split; [done|unfold date_size, type_size; lia]]|]. split; [apply one_frame_concat|]. reflexivity.
  - by rewrite Est.
Qed.
Lemma wrote_more w r size p : wrote w r size -> w_headerComplete w = true -> w_headerWritten w = true -> len (rs_body r ++ p) < 2 ^ 62 ->
  exists w' n, doWrite (set_written w (len (rs_body r ++ p))) p = Some (w', n, None) /\ wrote w' (send (grown r p)) size /\ w_headerWritten w' = true.
Proof.
  intros [A1 A2 A6 A7 A8 A9 A10 A11 A12 A13] Hc Hw Hl. rewrite Hw in *. destruct A12 as ([st Est] & B2 & h0 & h & k & ps & B3 & B4 & B5 & B6).
  unfold doWrite. set (w1 := set_written w (len (rs_body r ++ p))). replace (w_headerWritten w1) with true by (symmetry; exact Hw). cbn [negb].
  destruct (write_data_written w1 p) as [n ->]; [done|cbn; rewrite B2; change (len (@nil Z)) with 0; rewrite len_app in Hl; pose proof (len_nonneg (rs_body r)); lia|].
  eexists _, n. split; [reflexivity|]. split; [|done]. constructor; cbn; rewrite ?Hw; try done.
  - split; [by rewrite Est|]. split; [done|]. exists h0, h, k, (ps ++ one_frame p). rewrite B3, B2, B6. split; [done|]. split; [done|].
    split; [by rewrite List.concat_app, B5, one_frame_concat|]. rewrite app_nil_l, <- app_assoc. f_equal. unfold data_frames. by rewrite flat_map_app.
  - by rewrite Est.
Qed.
Lemma wrote_sends w r size p : wrote w r size -> w_headerComplete w = true -> size < 2 ^ 38 -> len (rs_body r ++ p) < 2 ^ 62 ->
  exists w' n, doWrite (set_written w (len (rs_body r ++ p))) p = Some (w', n, None) /\ wrote w' (send (grown r p)) size /\ w_headerWritten w' = true.
Proof. intros. destruct (w_headerWritten w) eqn:E; [by apply wrote_more|by apply wrote_first]. Qed.

Lemma wrote_flush w r size : wrote w r size -> size < 2 ^ 38 -> len (rs_body r) < 2 ^ 62 ->
  exists w', Flush w = Some w' /\ wrote w' (send (settle r 200)) size /\ w_headerWritten w' = true.
Proof.
  intros Hw Hs Hl. unfold Flush, FlushError.
  assert (exists w1, (if negb (w_headerComplete w) then WriteHeader w 200 else Some w) = Some w1 /\ wrote w1 (settle r 200) size /\ w_headerComplete w1 = true)
    as (w1 & -> & Hw1 & Hc).
  { destruct (w_headerComplete w) eqn:Hc; [by exists w; split; [|split; [apply wrote_settled|]]|]. by apply wrote_header; [|lia]. }
  cbn [mbind option_bind]. pose proof (wr_count _ _ _ Hw1) as Hn.
  destruct (wrote_sends w1 (settle r 200) size [] Hw1 Hc Hs) as (w2 & n & E & Hw2 & Hd); [by rewrite app_nil_r|].
  rewrite app_nil_r in E. assert (set_written w1 (len (rs_body (settle r 200))) = w1) as Ew by (rewrite <- Hn; by destruct w1).
  rewrite Ew in E. rewrite E. cbn [mbind option_bind]. exists w2. split; [done|]. split; [|done].
  assert (grown (settle r 200) [] = settle r 200) as Eg by (unfold grown; rewrite app_nil_r; by destruct r). by rewrite Eg in Hw2.
Qed.

(** *** Writing *)

Lemma write_ready w r size p : wrote w r size ->
  exists w', (if negb (w_headerComplete w) then w1 ← WriteHeader (sniffContentType w p) 200; Some (w1, true)
              else Some (w, bodyAllowedForStatus (w_status w))) = Some (w', bodyAllowedForStatus (default 200 (rs_status (settle r 200))))
    /\ wrote w' (settle r 200) size /\ w_headerComplete w' = true.
Proof.
  intros Hw. destruct (w_headerComplete w) eqn:Hc; cbn [negb].
  - exists w. split; [|split; [by apply wrote_settled|done]]. pose proof (wr_complete _ _ _ Hw) as E. rewrite Hc in E. symmetry in E.
    apply bool_decide_eq_true_1 in E as [st E]. destruct (wr_status _ _ _ Hw st E) as [-> _]. cbn. by rewrite E.
  - pose proof (wr_complete _ _ _ Hw) as E. rewrite Hc in E. symmetry in E. apply bool_decide_eq_false_1 in E.
    destruct (rs_status r) as [st|] eqn:Er; [by destruct E|]. destruct (sniff_ok w p (rs_header r)) as (h & -> & S1 & S2 & S3); [apply Hw..|].
    rewrite WriteHeader_completes by (done || lia). cbn [mbind option_bind settle rs_status default]. rewrite Er. eexists. split; [reflexivity|]. split; [|done].
    pose proof (wrote_completes w r size h 200 Hw Hc ltac:(lia) S1 S2 S3) as Hcomp. exact Hcomp.
Qed.

Lemma wrote_buffer w r size p : wrote w r size -> is_Some (rs_status r) -> w_headerWritten w = false ->
  wrote (set_buffer (set_written w (len (rs_body r ++ p))) (w_smallResponseBuf w ++ p)) (grown r p) size.
Proof.
  intros [A1 A2 A6 A7 A8 A9 A10 A11 A12 A13] [st Est] Hw. rewrite Hw in *. destruct A12 as (B1 & B2 & B3).
  constructor; cbn; rewrite ?Hw; try done; [by rewrite B3|by rewrite Est].
Qed.
Lemma send_sent r h0 : rs_sent r = Some h0 -> send r = r.
Proof. destruct r. unfold send. cbn. by intros ->. Qed.

Lemma wrote_write w r size p : wrote w r size -> size < 2 ^ 38 -> len (rs_body r ++ p) < 2 ^ 62 ->
  exists w' n err, Write w p = Some (w', n, err) /\ wrote w' (extended (settle r 200) p) size.
Proof.
  intros Hw Hs Hl. unfold Write. destruct (write_ready w r size p Hw) as (w1 & -> & Hw1 & Hc). cbn [mbind option_bind]. unfold extended.
  set (r1 := settle r 200) in *. change (rs_body r) with (rs_body r1) in Hl. destruct (bodyAllowedForStatus _); cbn [negb]; [|by eexists _, _, _].
  pose proof (wr_count _ _ _ Hw1) as Hn. destruct (wr_flags _ _ _ Hw1) as (F1 & _ & _ & F2 & _).
  assert (i64 (w_numWritten w1 + len p) = len (rs_body r1 ++ p)) as ->.
  { rewrite Hn, <- len_app. pose proof (len_nonneg (rs_body r1 ++ p)). unfold i64. rewrite Z.mod_small by lia. lia. }
  cbn [set_written w_contentLen w_numWritten w_isHead w_headerWritten w_smallResponseBuf]. rewrite F1, F2. cbn [Z.eqb negb andb].
  destruct (w_headerWritten w1) eqn:Ehw; cbn [negb andb].
  - destruct (wrote_sends w1 r1 size p Hw1 Hc Hs Hl) as (w2 & n & E & Hw2 & _). exists w2, n, None. split; [done|].
    pose proof (wr_out _ _ _ Hw1) as Ho. rewrite Ehw in Ho. destruct Ho as (_ & _ & h0 & _ & _ & _ & Eh & _).
    rewrite (send_sent (grown r1 p) h0) in Hw2 |- * by done. by destruct (_ <? _).
  - pose proof (wr_out _ _ _ Hw1) as Ho. rewrite Ehw in Ho. destruct Ho as (_ & _ & Eb). rewrite Eb, <- len_app. destruct (_ <? _).
    + eexists _, _, _. split; [reflexivity|]. rewrite <- Eb at 2. apply wrote_buffer; [done| |done].
      pose proof (wr_complete _ _ _ Hw1) as E. rewrite Hc in E. symmetry in E. by apply bool_decide_eq_true_1 in E.
    + destruct (wrote_sends w1 r1 size p Hw1 Hc Hs Hl) as (w2 & n & E & Hw2 & _). exists w2, n, None. by split.
Qed.

(** *** Every call *)

Definition total_payload (cs : list call) : Z := len (flat_map payload cs).

Lemma wrote_call w r size c : wrote w r size -> call_ok c -> (strict = true -> no_addition c) -> size < 2 ^ 38 -> len (rs_body r ++ payload c) < 2 ^ 62 ->
  exists w', run_call w c = Some w' /\ wrote w' (means r c) (size + call_size c).
Proof.
  intros Hw Hc Hadd Hs Hl. pose proof (wr_free _ _ _ Hw) as Hf. pose proof (wr_agrees _ _ _ Hw) as Ha. destruct c as [k v|k v|k|st|p| |]; cbn [run_call means call_size payload] in *.
  - destruct Hc as [Hk Hv]. eexists. split; [reflexivity|]. pose proof (Header_Set_size (w_header w) k v). pose proof (len_nonneg k). pose proof (len_nonneg v).
    apply (wrote_edit w r size); [done|lia|by apply free_Set|by apply agrees_insert|lia].
  - destruct Hc as [Hk Hv]. eexists. split; [reflexivity|]. pose proof (Header_Add_size (w_header w) k v). pose proof (len_nonneg k). pose proof (len_nonneg v).
    apply (wrote_edit w r size); [done|lia|by apply free_Add| |lia]. apply agrees_insert; [done|..]; cbn [fst snd]; [intros Hk'; by rewrite (proj1 Ha)|]. intros E Hk'. by destruct (Hadd E).
  - eexists. split; [reflexivity|]. pose proof (delete_size (w_header w) (CanonicalMIMEHeaderKey k)).
    apply (wrote_edit w r size); [done|lia|by apply free_delete|by apply agrees_delete|lia].
  - rewrite Z.add_0_r. destruct (wrote_header w r size st Hw Hc) as (w' & E & Hw' & _). by exists w'.
  - rewrite Z.add_0_r. destruct (wrote_write w r size p Hw Hs Hl) as (w' & n & err & -> & Hw'). cbn [mbind option_bind]. by exists w'.
  - rewrite Z.add_0_r. rewrite app_nil_r in Hl. destruct (wrote_flush w r size Hw Hs Hl) as (w' & E & Hw' & _). by exists w'.
  - rewrite Z.add_0_r. rewrite app_nil_r in Hl. unfold HTTPStream. assert (wrote (set_flags w (w_headerWritten w) (w_trailerWritten w) true) (taken r) size) as Hw2
      by (destruct Hw as [A1 (A2 & A3 & A4 & A5 & _) A6 A7 A8 A9 A10 A11 A12 A13]; by constructor).
    destruct (wrote_flush _ (taken r) size Hw2 Hs Hl) as (w' & E & Hw' & _). by exists w'.
Qed.

Lemma means_body r c : exists b, rs_body (means r c) = rs_body r ++ b /\ len b <= len (payload c).
Proof.
  pose proof (len_nonneg (payload c)). destruct c; cbn [means edited settle send rs_body payload] in *; try (exists []; by rewrite app_nil_r).
  unfold extended. destruct (bodyAllowedForStatus _); [|exists []; by rewrite app_nil_r]. exists p. by destruct (_ <? _).
Qed.

Lemma wrote_run cs w r size : wrote w r size -> Forall call_ok cs -> (strict = true -> Forall no_addition cs) -> size + calls_size cs < 2 ^ 38 -> len (rs_body r) + total_payload cs < 2 ^ 62 ->
  exists w', run w cs = Some w' /\ wrote w' (foldl means r cs) (size + calls_size cs).
Proof.
  intros Hw Hc Hadd. revert w r size Hw. unfold total_payload. induction Hc as [|c cs Hc _ IH]; intros w r size Hw Hs Hl; cbn [run calls_size foldl flat_map] in *.
  { exists w. by rewrite Z.add_0_r. }
  rewrite len_app in Hl. pose proof (calls_size_nonneg cs). pose proof (calls_size_nonneg [c]) as Hn. cbn [calls_size] in Hn. pose proof (len_nonneg (flat_map payload cs)).
  destruct (wrote_call w r size c Hw Hc) as (w1 & -> & Hw1); [by intros E; specialize (Hadd E); inversion Hadd|lia|rewrite len_app; lia|]. cbn [mbind option_bind].
  destruct (means_body r c) as (b & Eb & Hb). rewrite Z.add_assoc. apply IH; [by intros E; specialize (Hadd E); inversion Hadd|done|lia|]. rewrite Eb, len_app. lia.
Qed.


(** ** The end of a request *)

(** The header with the length of the body. *)
Definition sized (h : header_map) (n : Z) : header_map := Header_Set h (str "Content-Length") (FormatInt n).

Lemma sized_lookup h n k : sized h n !! k = if decide (k = str "Content-Length") then Some [FormatInt n] else h !! k.
Proof.
  unfold sized, Header_Set. change (CanonicalMIMEHeaderKey (str "Content-Length")) with (str "Content-Length").
  case_decide as Hk; [subst k; apply lookup_insert_eq|by apply lookup_insert_ne].
Qed.
Lemma sized_sendable h n : free_header h -> 0 <= n < 2 ^ 63 -> sendable (sized h n).
Proof.
  intros Hf Hn. split.
  - unfold sized, Header_Set. change (CanonicalMIMEHeaderKey (str "Content-Length")) with (str "Content-Length"). rewrite delete_insert_eq. by apply free_delete.
  - intros vs. rewrite sized_lookup, decide_True by done. intros [= <-]. by exists n.
Qed.
Lemma sized_size h n : 0 <= n < 2 ^ 63 -> header_size (sized h n) <= header_size h + 110.
Proof.
  intros Hn. pose proof (Header_Set_size h (str "Content-Length") (FormatInt n)) as Hs. rewrite FormatInt_nonneg in Hs by lia.
  pose proof (FormatUint_len n Hn). change (len (str "Content-Length")) with 14 in Hs. unfold sized. rewrite FormatInt_nonneg by lia. lia.
Qed.
Lemma sized_agrees h h0 n : agrees strict h h0 -> agrees strict (sized h n) h0.
Proof.
  intros Ha. apply agrees_fill; [done|repeat constructor|]. intros Hk. exfalso. revert Hk. apply (bool_decide_eq_false_1 _). vm_compute. reflexivity.
Qed.
Lemma sized_has h n k : k <> str "Content-Length" -> has (sized h n) k = has h k.
Proof. intros Hk. unfold has. by rewrite sized_lookup, decide_False. Qed.
Lemma sized_Set h n k v : CanonicalMIMEHeaderKey k <> str "Content-Length" -> Header_Set (sized h n) k v = sized (Header_Set h k v) n.
Proof. intros Hk. unfold sized, Header_Set. by apply insert_insert_ne. Qed.

Lemma dated_sized h n : dated (sized h n) = sized (dated h) n.
Proof. unfold dated. rewrite sized_has by done. split_if; [done|]. by apply sized_Set. Qed.
Lemma sniff_sized w n p : exists h, sniffContentType w p = set_header w h /\ sniffContentType (set_header w (sized (w_header w) n)) p = set_header w (sized h n).
Proof.
  unfold sniffContentType. cbn [set_header w_header]. rewrite sized_has by done.
  assert (Header_Get (sized (w_header w) n) (str "Content-Encoding") = Header_Get (w_header w) (str "Content-Encoding")) as ->.
  { unfold Header_Get. by rewrite sized_lookup, decide_False. }
  split_if; eexists; (split; [|rewrite ?sized_Set by done; reflexivity]); [done|by destruct w].
Qed.

Lemma WriteHeader_sized w : w_headerComplete w = false -> 0 <= w_numWritten w < 2 ^ 63 ->
  let w1 := set_header w (sized (w_header w) (w_numWritten w)) in
  WriteHeader w1 200 = Some (complete_header (set_status w 200) (sized (dated (w_header w)) (w_numWritten w)) (w_numWritten w)).
Proof.
  intros Hc Hn w1. unfold WriteHeader. replace (w_headerComplete w1) with false by (symmetry; exact Hc). cbv zeta. cbn [Z.ltb Z.gtb Z.compare orb].
  cbn [w1 set_header set_status w_header w_contentLen]. fold (dated (sized (w_header w) (w_numWritten w))). rewrite dated_sized.
  assert (Header_Get (sized (dated (w_header w)) (w_numWritten w)) (str "Content-Length") = FormatInt (w_numWritten w)) as ->.
  { unfold Header_Get. by rewrite sized_lookup, decide_True. }
  rewrite ParseUint_FormatInt by done. destruct (same_spec (FormatInt (w_numWritten w)) []) as [E|_]; [|done].
  rewrite FormatInt_nonneg in E by lia. by destruct (FormatUint_nonempty (w_numWritten w)).
Qed.

(** A response on the stream: the header [h] for what the handler had set, and the body. *)
Record on_stream (out : list Z) (r : response) (size : Z) (st : Z) (h : header_map) (n : nat) (ps : list (list Z)) : Prop := {
  os_status : rs_status r = Some st /\ 200 <= st <= 999;
  os_header : exists h0, rs_sent r = Some h0 /\ agrees strict h h0;
  os_sendable : sendable h /\ header_size h <= size + 554;
  os_length : forall vs, h !! str "Content-Length" = Some vs -> vs = [FormatInt (len (rs_body r))];
  os_body : List.concat ps = rs_body r;
  os_out : out = header_frame (response_fields n st h) ++ data_frames ps;
}.

Lemma wrote_on_stream w r size : wrote w r size -> w_headerWritten w = true ->
  exists st h n ps, on_stream (o_written (w_str w)) r size st h n ps /\ h !! str "Content-Length" = None.
Proof.
  intros [A1 _ A6 A7 A8 A9 A10 A11 A12 A13] Hw. rewrite Hw in A12. destruct A12 as ([st Est] & _ & h0 & h & n & ps & B1 & (B2 & B3 & B4) & B5 & B6).
  destruct (A7 st Est) as [Ew Hst]. rewrite Ew in B6. assert (h !! str "Content-Length" = None) as Hno
    by (apply free_absent; [done|]; apply (bool_decide_unpack _); vm_compute; exact I).
  exists st, h, n, ps. split; [|done]. constructor; try done.
  - by exists h0.
  - split; [by apply free_sendable|]. unfold date_size, type_size in B4. lia.
  - intros vs Hvs. by rewrite Hno in Hvs.
Qed.

Lemma no_trailers w : sendable (w_header w) -> w_trailers w = ∅ -> w_trailerWritten w = false -> flushTrailers w = Some (promote w).
Proof.
  intros Hs Ht Hf. unfold flushTrailers. rewrite Hf. assert (w_trailers (promote w) = ∅) as E; [|by rewrite E].
  unfold promote. cbn [set_trailers w_trailers]. rewrite Ht.
  assert (List.filter (fun k => HasPrefix k TrailerPrefix) (map fst (iterate (w_loops w) (w_header w))) = []) as ->; [|done].
  assert (forall kv, kv ∈ iterate (w_loops w) (w_header w) -> HasPrefix (fst kv) TrailerPrefix = false) as Hk.
  { intros [k vs] Hkv. rewrite iterate_all in Hkv. apply elem_of_map_to_list in Hkv. by destruct (sendable_key _ _ _ Hs Hkv) as (_ & ? & _). }
  induction (iterate (w_loops w) (w_header w)) as [|kv o IH]; [done|]. cbn [map List.filter]. rewrite Hk by constructor. apply IH. intros; apply Hk. by constructor.
Qed.

(** A response that was not sent before is sent with its length. *)
Lemma finish_first w r size : wrote w r size -> w_headerWritten w = false -> size < 2 ^ 37 -> len (rs_body r) < 2 ^ 62 ->
  exists w' st h n ps, Flush (add_length w) = Some w' /\ on_stream (o_written (w_str w')) (send (settle r 200)) size st h n ps
    /\ h !! str "Content-Length" = Some [FormatInt (len (rs_body r))]
    /\ sendable (w_header w') /\ w_trailers w' = ∅ /\ w_trailerWritten w' = false.
Proof.
  intros Hw Hh Hs Hl. pose proof (len_nonneg (rs_body r)). pose proof (wr_count _ _ _ Hw) as Hn. pose proof (wr_free _ _ _ Hw) as Hf.
  assert (h_cl : w_header w !! str "Content-Length" = None) by (apply free_absent; [done|]; apply (bool_decide_unpack _); vm_compute; exact I).
  assert (add_length w = set_header w (sized (w_header w) (w_numWritten w))) as Ea.
  { unfold add_length, has. rewrite Hh, h_cl. done. }
  unfold Flush, FlushError.
  assert (exists w1, wrote w1 (settle r 200) size /\ w_headerComplete w1 = true /\ w_headerWritten w1 = false
    /\ exists cl, (if negb (w_headerComplete (add_length w)) then WriteHeader (add_length w) 200 else Some (add_length w))
       = Some (complete_header w1 (sized (w_header w1) (w_numWritten w1)) cl)) as (w1 & Hw1 & Hc1 & Hh1 & cl & ->).
  { rewrite Ea. cbn [set_header w_headerComplete]. destruct (w_headerComplete w) eqn:Hc; cbn [negb].
    - exists w. split; [by apply wrote_settled|]. split; [done|]. split; [done|]. exists (w_contentLen w). destruct w. cbn in *. by subst.
    - pose proof (WriteHeader_sized w Hc ltac:(lia)) as E. cbv zeta in E. rewrite E.
      pose proof (wrote_completes w r size (w_header w) 200 Hw Hc ltac:(lia) Hf (wr_agrees _ _ _ Hw) ltac:(unfold type_size; lia)) as Hw'.
      eexists. split; [exact Hw'|]. split; [done|]. split; [done|]. by exists (w_numWritten w). }
  cbn [mbind option_bind]. set (w2 := complete_header w1 (w_header w1) cl). set (n := w_numWritten w1).
  change (complete_header w1 (sized (w_header w1) n) cl) with (set_header w2 (sized (w_header w2) n)).
  destruct Hw1 as [A1 (A2 & A3 & A4 & A5 & A5') A6 A7 A8 A9 A10 A11 A12 A13]. rewrite Hh1, Hc1 in *. destruct A12 as (B1 & B2 & B3).
  assert (n = len (rs_body r)) as En by exact A8. assert (0 <= n < 2 ^ 63) as Hn63 by lia.
  symmetry in A6. apply bool_decide_eq_true_1 in A6 as [st Est]. destruct (A7 st Est) as [Ew Hst].
  unfold doWrite. replace (w_headerWritten (set_header w2 _)) with false by (symmetry; exact Hh1). cbn [negb].
  destruct (sniff_sized w2 n (rs_body r)) as (h & E1 & E2). destruct (sniff_ok w2 (rs_body r) (rs_header r) A9 A11) as (h' & E3 & S1 & S2 & S3).
  rewrite E1 in E3. assert (h' = h) as -> by (injection E3; congruence). replace (w_smallResponseBuf (set_header w2 _)) with (rs_body r) by (symmetry; exact B3).
  rewrite E2. pose proof (sized_sendable h n S1 Hn63) as Hsend. pose proof (sized_size h n Hn63) as Hsz. change (w_header w2) with (w_header w1) in S3.
  unfold date_size, type_size in *. rewrite writeHeader_written; cbn [set_header w_str w_header w_trailers w_status w2 complete_header]; [|done|done|done|lia|lia].
  cbn [mbind option_bind negb]. set (w3 := set_flags _ true _ _). destruct (write_data_written w3 []) as [m ->]; [done|cbn; rewrite B3; cbn; change (len (@nil Z)) with 0; lia|].
  cbn [mbind option_bind]. eexists _, st, (sized h n), (w_loops w1), (one_frame (rs_body r)). split; [reflexivity|]. split; [|split; [rewrite sized_lookup, decide_True by done; by rewrite En|done]].
  constructor.
  - split; [|done]. cbn in *. congruence.
  - exists (rs_header r). split; [cbn in *; by rewrite B1|by apply sized_agrees].
  - split; [done|lia].
  - intros vs. rewrite sized_lookup, decide_True by done. intros [= <-]. cbn. by rewrite En.
  - apply one_frame_concat.
  - cbn -[data_frames header_frame]. by rewrite B2, B3, app_nil_l, app_nil_r, Ew.
Qed.

Lemma meaning_body_len cs : len (rs_body (meaning cs)) <= total_payload cs.
Proof.
  assert (forall r, len (rs_body (foldl means r cs)) <= len (rs_body r) + total_payload cs) as Hle; [|exact (Hle no_response)].
  unfold total_payload. induction cs as [|c cs IH]; intros r; cbn [foldl flat_map]; [change (len (@nil Z)) with 0; lia|].
  destruct (means_body r c) as (b & Eb & Hb). specialize (IH (means r c)). rewrite Eb, len_app in IH. rewrite len_app. lia.
Qed.

(** A handler that took the stream has sent the header. *)
Lemma taken_sent cs r : (rs_taken r = true -> is_Some (rs_sent r)) -> rs_taken (foldl means r cs) = true -> is_Some (rs_sent (foldl means r cs)).
Proof.
  revert r. induction cs as [|c cs IH]; intros r Hr; [done|]. apply IH. destruct c; cbn; try done. unfold extended. by repeat split_if.
Qed.

(** What a request whose handler returned leaves on its stream. *)
Lemma serve_written cs : Forall call_ok cs -> (strict = true -> Forall no_addition cs) -> calls_size cs < 2 ^ 37 -> total_payload cs < 2 ^ 62 ->
  let r := meaning cs in
  exists w fate st h n ps, serve false cs = Some (w, fate) /\ fate = (if rs_taken r then HandedOver else Closed)
    /\ on_stream (o_written (w_str w)) (if rs_taken r then r else send (settle r 200)) (calls_size cs) st h n ps
    /\ (rs_taken r = false -> rs_sent r = None -> h !! str "Content-Length" = Some [FormatInt (len (rs_body r))]).
Proof.
  intros Hc Hadd Hs Hl r. destruct (wrote_run cs _ _ 0 wrote_new Hc Hadd) as (w & E & Hw); [lia|cbn [no_response rs_body]; change (len (@nil Z)) with 0; lia|]. fold (meaning cs) in Hw. fold r in Hw. rewrite Z.add_0_l in Hw.
  unfold serve. rewrite E. cbn [mbind option_bind]. unfold finish_request. destruct (wr_flags _ _ _ Hw) as (_ & F1 & F2 & _ & ->).
  assert (len (rs_body r) < 2 ^ 62) as Hb by (pose proof (meaning_body_len cs); unfold r; lia).
  destruct (rs_taken r) eqn:Et.
  - exists w, HandedOver. assert (w_headerWritten w = true) as Hh.
    { pose proof (wr_out _ _ _ Hw) as Ho. destruct (w_headerWritten w); [done|]. destruct Ho as [Ho _].
      destruct (taken_sent cs no_response) as [h0 Eh]; [done|done|]. fold (meaning cs) in Eh. fold r in Eh. congruence. }
    destruct (wrote_on_stream w r _ Hw Hh) as (st & h & n & ps & Hos & _). by exists st, h, n, ps.
  - destruct (w_headerWritten w) eqn:Hh.
    + assert (add_length w = w) as -> by (unfold add_length; by rewrite Hh). pose proof (wr_out _ _ _ Hw) as Ho. rewrite Hh in Ho. destruct Ho as (_ & _ & h0 & _ & _ & _ & Eh0 & _).
      destruct (wrote_flush w r _ Hw) as (w1 & -> & Hw1 & Hh1); [lia|done|]. cbn [mbind option_bind]. destruct (wr_flags _ _ _ Hw1) as (_ & G1 & G2 & _).
      rewrite no_trailers by (done || apply free_sendable, Hw1). cbn [mbind option_bind]. destruct (wrote_on_stream w1 _ _ Hw1 Hh1) as (st & h & n & ps & Hos & _).
      eexists _, Closed, st, h, n, ps. split; [reflexivity|]. split; [done|]. split; [exact Hos|]. intros _ En. congruence.
    + destruct (finish_first w r _ Hw Hh) as (w1 & st & h & n & ps & -> & Hos & Hcl & G0 & G1 & G2); [lia|done|]. cbn [mbind option_bind].
      rewrite no_trailers by done. cbn [mbind option_bind]. by eexists _, Closed, st, h, n, ps.
Qed.

End Written.
