(* ===== verification/Responses.v ===== *)
(** * HTTP/3 responses: the client

[third_party/quic-go/http3/stream.go] and [body.go], with [decodeTrailers] of
[headers.go]: the request stream of a client after the request was sent.
[body_safe] says what a body gives its reader, whatever the bytes;
[response_arrives] that a client reads the response the handler described. *)

From stdpp Require Import base gmap list numbers.
From Stdlib Require Import ZArith Lia String.
From S2P Require Import Prelude.
From S2P Require Import GoStrings.
From S2P Require Import Quicvarint.
From S2P Require Import ControlStream.
From S2P Require Import Headers.
From S2P Require Import Requests.
From S2P Require Import ResponseWriter.

Local Open Scope Z_scope.

Definition ErrCodeRequestCanceled : Z := 0x10c.

(** ** The stream *)

Inductive trailer_error := TrailersTooLarge | TrailersCut (e : io_error) | TrailersInvalid (e : header_error).
Inductive read_error :=
| BadFrame (e : h3_error)
| DataAfterTrailers
| SecondTrailers
| BadTrailers (e : trailer_error)
| UnexpectedFrame
| Transport (e : io_error)
| TooMuchData.

(** The receive side of a [Stream]; [i_closes] are the codes of [CloseWithError] on
the connection, [i_resets] those of [CancelRead] and [CancelWrite] together, and
[i_cancels] those of [CancelRead] alone. *)
Record in_stream := {
  i_rd : reader;
  i_bytesRemainingInFrame : Z;
  i_parsedTrailer : bool;
  i_trailer : option header_map;
  i_closes : list Z;
  i_resets : list Z;
  i_cancels : list Z;
}.
Definition newStream (r : reader) : in_stream :=
  {| i_rd := r; i_bytesRemainingInFrame := 0; i_parsedTrailer := false; i_trailer := None; i_closes := []; i_resets := []; i_cancels := [] |}.

Definition at_reader (s : in_stream) (r : reader) (remaining : Z) : in_stream :=
  {| i_rd := r; i_bytesRemainingInFrame := remaining; i_parsedTrailer := i_parsedTrailer s; i_trailer := i_trailer s;
     i_closes := i_closes s; i_resets := i_resets s; i_cancels := i_cancels s |}.
Definition with_trailer (s : in_stream) (r : reader) (t : option header_map) : in_stream :=
  {| i_rd := r; i_bytesRemainingInFrame := i_bytesRemainingInFrame s; i_parsedTrailer := true; i_trailer := t;
     i_closes := i_closes s; i_resets := i_resets s; i_cancels := i_cancels s |}.
Definition close_conn (s : in_stream) (code : Z) : in_stream :=
  {| i_rd := i_rd s; i_bytesRemainingInFrame := i_bytesRemainingInFrame s; i_parsedTrailer := i_parsedTrailer s; i_trailer := i_trailer s;
     i_closes := i_closes s ++ [code]; i_resets := i_resets s; i_cancels := i_cancels s |}.
Definition reset_stream (s : in_stream) (code : Z) : in_stream :=
  {| i_rd := i_rd s; i_bytesRemainingInFrame := i_bytesRemainingInFrame s; i_parsedTrailer := i_parsedTrailer s; i_trailer := i_trailer s;
     i_closes := i_closes s; i_resets := i_resets s ++ [code]; i_cancels := i_cancels s |}.
Definition CancelRead (s : in_stream) (code : Z) : in_stream :=
  {| i_rd := i_rd s; i_bytesRemainingInFrame := i_bytesRemainingInFrame s; i_parsedTrailer := i_parsedTrailer s; i_trailer := i_trailer s;
     i_closes := i_closes s; i_resets := i_resets s; i_cancels := i_cancels s ++ [code] |}.

(** How a [Read] of the QUIC stream goes: how many bytes it has at hand, one at least
while there are any, and whether it reports the end together with the last of them. *)
Record arrival := { av_chunk : Z; av_eager : bool }.
Definition raw_Read (r : reader) (size : Z) (a : arrival) : list Z * option io_error * reader :=
  let n := Z.min (Z.min size (Z.max 1 (av_chunk a))) (len (rd_avail r)) in
  let rest := drop (Z.to_nat n) (rd_avail r) in
  (take (Z.to_nat n) (rd_avail r),
   if bool_decide (rest = []) && (av_eager a || (n =? 0) && (size >? 0)) then Some (rd_end r) else None,
   mkReader rest (rd_end r)).

(** [io.ReadFull], with its own error for a stream that ends in between. *)
Definition ReadFull (l : Z) (r : reader) : result io_error (list Z) * reader :=
  if l <=? len (rd_avail r) then (Ok (take (Z.to_nat l) (rd_avail r)), mkReader (drop (Z.to_nat l) (rd_avail r)) (rd_end r))
  else (Err (if bool_decide (rd_end r = EOF) && negb (bool_decide (rd_avail r = [])) then ErrUnexpectedEOF else rd_end r), mkReader [] (rd_end r)).

Section Client.
  Context `{Httpguts, Qpack}.

Definition decodeTrailers (r : reader) (l maxHeaderBytes : Z) : result trailer_error header_map * reader :=
  if l >? u64 maxHeaderBytes then (Err TrailersTooLarge, r)
  else match ReadFull l r with
  | (Err e, r) => (Err (TrailersCut e), r)
  | (Ok b, r) =>
    match parseTrailers (qpack_Decode b) maxHeaderBytes with
    | Err e => (Err (TrailersInvalid e), r)
    | Ok h => (Ok h, r)
    end
  end.

(** [parseLoop] of [Stream.Read]: [None] goes on to the data of a frame. *)
Definition next_frame (max : Z) (s : in_stream) : option (in_stream * option (option read_error)) :=
  '(f, r) ← ParseNext (i_rd s);
  Some match f with
  | Err PriorityUpdateForPush => (close_conn (at_reader s r 0) ErrCodeFrameUnexpected, Some (Some (BadFrame PriorityUpdateForPush)))
  | Err ReservedFrame => (close_conn (at_reader s r 0) ErrCodeFrameUnexpected, Some (Some (BadFrame ReservedFrame)))
  | Err e => (at_reader s r 0, Some (Some (BadFrame e)))
  | Ok (dataFrame l) =>
    if i_parsedTrailer s then (at_reader s r 0, Some (Some DataAfterTrailers)) else (at_reader s r l, None)
  | Ok (headersFrame l _) =>
    if i_parsedTrailer s then (at_reader s r 0, Some (Some SecondTrailers))
    else match decodeTrailers r l max with
    | (Err e, r) => (with_trailer s r (i_trailer s), Some (Some (BadTrailers e)))
    | (Ok h, r) => (with_trailer s r (Some h), Some None)
    end
  | Ok _ => (close_conn (at_reader s r 0) ErrCodeFrameUnexpected, Some (Some UnexpectedFrame))
  end.

(** [Stream.Read] into a buffer of [size] bytes; [None], out of fuel, does not happen. *)
Definition Stream_Read (max : Z) (s : in_stream) (size : Z) (a : arrival) : option (in_stream * list Z * option read_error) :=
  '(s, stop) ← (if i_bytesRemainingInFrame s =? 0 then next_frame max s else Some (s, None));
  match stop with
  | Some err => Some (s, [], err)
  | None =>
    let remaining := i_bytesRemainingInFrame s in
    let '(data, err, r) := raw_Read (i_rd s) (if remaining <? size then remaining else size) a in
    Some (at_reader s r (remaining - len data), data, Transport <$> err)
  end.

Definition hasMoreData (s : in_stream) : bool := i_bytesRemainingInFrame s >? 0.

(** ** Bodies *)

Record body := {
  b_str : in_stream;
  b_remainingContentLength : Z;
  b_violatedContentLength : bool;
  b_hasContentLength : bool;
  b_requestDone : bool;           (** of a response: the channel is closed *)
}.
Definition newBody (s : in_stream) (contentLength : Z) : body :=
  if contentLength >=? 0
  then {| b_str := s; b_remainingContentLength := contentLength; b_violatedContentLength := false; b_hasContentLength := true; b_requestDone := false |}
  else {| b_str := s; b_remainingContentLength := 0; b_violatedContentLength := false; b_hasContentLength := false; b_requestDone := false |}.

Definition set_body (b : body) (s : in_stream) (remaining : Z) (violated done : bool) : body :=
  {| b_str := s; b_remainingContentLength := remaining; b_violatedContentLength := violated;
     b_hasContentLength := b_hasContentLength b; b_requestDone := done |}.

(** Whether the peer sent too much; the first time the stream is reset. *)
Definition checkContentLengthViolation (b : body) : body * bool :=
  if negb (b_hasContentLength b) then (b, false)
  else if (b_remainingContentLength b <? 0) || (b_remainingContentLength b =? 0) && hasMoreData (b_str b) then
    ((if negb (b_violatedContentLength b)
      then set_body b (reset_stream (b_str b) ErrCodeMessageError) (b_remainingContentLength b) true (b_requestDone b) else b), true)
  else (b, false).

(** [body.Read]; codes of the transport's errors are kept by [maybeReplaceError]. *)
Definition body_Read (max : Z) (b : body) (size : Z) (a : arrival) : option (body * list Z * option read_error) :=
  match checkContentLengthViolation b with
  | (b, true) => Some (b, [], Some TooMuchData)
  | (b, false) =>
    let size := if b_hasContentLength b then Z.min size (b_remainingContentLength b) else size in
    '(s, data, err) ← Stream_Read max (b_str b) size a;
    let b := set_body b s (b_remainingContentLength b - len data) (b_violatedContentLength b) (b_requestDone b) in
    match checkContentLengthViolation b with
    | (b, true) => Some (b, data, Some TooMuchData)
    | (b, false) => Some (b, data, err)
    end
  end.

(** [hijackableBody]: the body of a response. *)
Definition response_Read (max : Z) (b : body) (size : Z) (a : arrival) : option (body * list Z * option read_error) :=
  '(b, data, err) ← body_Read max b size a;
  Some (set_body b (b_str b) (b_remainingContentLength b) (b_violatedContentLength b)
          (match err with Some _ => true | None => b_requestDone b end), data, err).
Definition response_Close (b : body) : body :=
  set_body b (CancelRead (b_str b) ErrCodeRequestCanceled) (b_remainingContentLength b) (b_violatedContentLength b) true.

(** Reads of the given sizes, until one fails: what they returned, and the error. *)
Fixpoint read_many (max : Z) (b : body) (reads : list (Z * arrival)) : option (body * list Z * option read_error) :=
  match reads with
  | [] => Some (b, [], None)
  | (size, a) :: reads =>
    '(b, data, err) ← response_Read max b size a;
    match err with
    | Some e => Some (b, data, Some e)
    | None => '(b, more, err) ← read_many max b reads; Some (b, data ++ more, err)
    end
  end.

(** ** ReadResponse *)

Inductive read_response_error :=
| BeforeRequest
| ResponseFrame (e : h3_error)
| NotHeaders
| ResponseTooLarge
| ResponseCut (e : io_error)
| ResponseInvalid (e : header_error).

(** A response with its body; [rr_Uncompressed]: the body is read through gzip. *)
Record response_read := {
  rr_response : http_Response;
  rr_body : body;
  rr_Uncompressed : bool;
}.

Definition set_response (r : http_Response) (h : header_map) (n : Z) : http_Response :=
  {| s_StatusCode := s_StatusCode r; s_Header := h; s_Trailer := s_Trailer r; s_ContentLength := n |}.

Definition ReadResponse (sentRequest requestedGzip isConnect : bool) (maxHeaderBytes : Z) (s : in_stream)
  : option (in_stream * result read_response_error response_read) :=
  if negb sentRequest then Some (s, Err BeforeRequest)
  else
    '(f, r) ← ParseNext (i_rd s);
    let s := at_reader s r (i_bytesRemainingInFrame s) in
    match f with
    | Err PriorityUpdateForPush => Some (close_conn s ErrCodeFrameUnexpected, Err (ResponseFrame PriorityUpdateForPush))
    | Err e =>
      let s := match e with ReservedFrame => close_conn s ErrCodeFrameUnexpected | _ => s end in
      Some (reset_stream s ErrCodeFrameError, Err (ResponseFrame e))
    | Ok (headersFrame l _) =>
      if l >? u64 maxHeaderBytes then Some (reset_stream s ErrCodeFrameError, Err ResponseTooLarge)
      else match ReadFull l r with
      | (Err e, r) => Some (reset_stream (at_reader s r (i_bytesRemainingInFrame s)) ErrCodeRequestIncomplete, Err (ResponseCut e))
      | (Ok headerBlock, r) =>
        let s := at_reader s r (i_bytesRemainingInFrame s) in
        match updateResponseFromHeaders (qpack_Decode headerBlock) maxHeaderBytes with
        | Err QpackError => Some (reset_stream s ErrCodeQPACKDecompressionFailed, Err (ResponseInvalid QpackError))
        | Err e => Some (reset_stream s ErrCodeMessageError, Err (ResponseInvalid e))
        | Ok res =>
          let respBody := newBody s (s_ContentLength res) in
          let isInformational := (s_StatusCode res >=? 100) && (s_StatusCode res <? 200) in
          let isNoContent := s_StatusCode res =? 204 in
          let isSuccessfulConnect := isConnect && (s_StatusCode res >=? 200) && (s_StatusCode res <? 300) in
          let res :=
            if (isInformational || isNoContent || isSuccessfulConnect) && (s_ContentLength res =? -1)
            then set_response res (s_Header res) 0 else res in
          Some (s, Ok (
            if requestedGzip && negb isSuccessfulConnect && same (Header_Get (s_Header res) (str "Content-Encoding")) (str "gzip")
            then {| rr_response := set_response res (delete (str "Content-Length") (delete (str "Content-Encoding") (s_Header res))) (-1);
                    rr_body := respBody; rr_Uncompressed := true |}
            else {| rr_response := res; rr_body := respBody; rr_Uncompressed := false |}))
        end
      end
    | Ok _ => Some (close_conn s ErrCodeFrameUnexpected, Err NotHeaders)
    end.

(** [doRequest] skips informational responses, five at most. *)
Definition max1xxResponses : nat := 5.
Fixpoint read_final (budget : nat) (requestedGzip isConnect : bool) (max : Z) (s : in_stream)
  : option (in_stream * option (result read_response_error response_read)) :=
  '(s, res) ← ReadResponse true requestedGzip isConnect max s;
  match res with
  | Err e => Some (s, Some (Err e))
  | Ok rr =>
    let code := s_StatusCode (rr_response rr) in
    if (100 <=? code) && (code <=? 199) && negb (code =? 101) then
      match budget with
      | O => Some (reset_stream s ErrCodeExcessiveLoad, None)    (* too many *)
      | S budget => read_final budget requestedGzip isConnect max s
      end
    else Some (s, Some (Ok rr))
  end.

End Client.

(** ** Whatever the bytes *)

Section AnyBytes.
  Context `{Httpguts, Qpack}.

Definition stream_wf (s : in_stream) : Prop := is_bytes (rd_avail (i_rd s)) /\ 0 <= i_bytesRemainingInFrame s.
Definition left_over (s : in_stream) : nat := List.length (rd_avail (i_rd s)).

Lemma raw_Read_ok r size a : is_bytes (rd_avail r) -> 0 <= size ->
  let '(data, err, r') := raw_Read r size a in
  rd_avail r = data ++ rd_avail r' /\ rd_end r' = rd_end r /\ len data <= size /\ (err = None -> 0 < size -> data <> [])
  /\ (forall e, err = Some e -> e = rd_end r /\ rd_avail r' = []).
Proof.
  intros Hb Hs. unfold raw_Read. cbn [rd_avail rd_end]. set (n := Z.min _ _). pose proof (len_nonneg (rd_avail r)).
  split; [by rewrite take_drop|]. split; [done|]. split; [unfold len; rewrite length_take; lia|]. split.
  - intros He Hpos Hd. assert (len (take (Z.to_nat n) (rd_avail r)) = 0) as Hl by by rewrite Hd. unfold len in Hl. rewrite length_take in Hl.
    assert (len (rd_avail r) = 0 /\ n = 0) as [E0 ->] by (unfold n, len in *; lia). rewrite (len_empty (rd_avail r)) in He by lia.
    rewrite drop_nil, bool_decide_eq_true_2 in He by done. cbn [andb Z.eqb] in He. rewrite Z.gtb_ltb, (proj2 (Z.ltb_lt 0 size)) in He by done.
    by rewrite orb_true_r in He.
  - intros e. destruct (bool_decide_reflect (drop (Z.to_nat n) (rd_avail r) = [])) as [E|]; [|done]. cbn [andb]. split_if; [|done]. by intros [= <-].
Qed.

Lemma ParseNext_data r l r' : is_bytes (rd_avail r) -> ParseNext r = Some (Ok (dataFrame l), r') -> 0 <= l.
Proof.
  unfold ParseNext. generalize (S (List.length (rd_avail r))). intros fuel. revert r. induction fuel as [|fuel IH]; intros r Hb; [done|]. cbn [parse_next].
  destruct (read_varint r) as [[t|] r1] eqn:E1; [|done]. destruct (read_varint_ok _ _ _ Hb E1) as [_ (B1 & _)].
  destruct (read_varint r1) as [[n|] r2] eqn:E2; [|done]. destruct (read_varint_ok _ _ _ B1 E2) as [[Hn _] (B2 & _)].
  split_if; [by intros [= <- _]|]. split_if; [done|].
  split_if; [unfold parseSettingsFrame; split_if; [done|]; destruct (read_full n r2) as [[buf|] ?]; [|done]; cbn; by destruct (settings_loop _ _ _ _)|].
  split_if; [unfold parseGoAwayFrame; destruct (read_varint r2) as [[id|] ?]; [|done]; by split_if|].
  split_if; [unfold parsePriorityUpdateFrame; split_if; [done|]; destruct (read_full n r2) as [[buf|] ?]; [|done]; by destruct (Parse buf) as [[? ?]|]|].
  split_if; [done|]. split_if; [done|]. destruct (skip n r2) as [[[]|] r3] eqn:E3; [|done]. destruct (skip_ok _ _ _ B2 E3) as (B3 & _). by apply IH.
Qed.

Lemma decodeTrailers_ok r l max : is_bytes (rd_avail r) -> 
  let '(_, r') := decodeTrailers r l max in is_bytes (rd_avail r') /\ (List.length (rd_avail r') <= List.length (rd_avail r))%nat.
Proof.
  intros Hb. unfold decodeTrailers. split_if; [done|]. unfold ReadFull. destruct (l <=? len (rd_avail r)).
  - destruct (parseTrailers _ _); (split; [by apply Forall_drop|]); cbn; rewrite length_drop; lia.
  - split; [constructor|cbn; lia].
Qed.

(** The loop over the frames ends, and takes bytes unless it fails. *)
Lemma next_frame_ok max s : stream_wf s ->
  exists s' stop, next_frame max s = Some (s', stop) /\ i_resets s' = i_resets s
    /\ ((exists e, stop = Some (Some e) /\ e <> TooMuchData) \/ (forall e, stop <> Some (Some e)) /\ stream_wf s' /\ (left_over s' < left_over s)%nat).
Proof.
  intros [Hb Hr]. unfold next_frame. destruct (ParseNext_ok _ Hb) as (f & r & En & Hf). rewrite En. cbn [mbind option_bind]. unfold left_over, stream_wf.
  destruct f as [[l|l hl|?|?|? ?]|[]]; try (eexists _, _; do 2 (split; [reflexivity|]); left; by eexists).
  - destruct (Hf _ eq_refl) as (F1 & F2 & _). destruct (i_parsedTrailer s); eexists _, _; do 2 (split; [reflexivity|]); [left; by eexists|].
    right. cbn. split; [done|]. split; [|done]. split; [done|]. exact (ParseNext_data _ _ _ Hb En).
  - destruct (Hf _ eq_refl) as (F1 & F2 & _). destruct (i_parsedTrailer s); [eexists _, _; do 2 (split; [reflexivity|]); left; by eexists|].
    pose proof (decodeTrailers_ok r l max F1) as Hd. destruct (decodeTrailers r l max) as [[h|e] r2]; eexists _, _; do 2 (split; [reflexivity|]); [|left; by eexists].
    right. cbn. destruct Hd as [D1 D2]. split; [done|]. split; [done|lia].
Qed.

Lemma Stream_Read_ok max s size a : stream_wf s -> 0 <= size ->
  exists s' data err, Stream_Read max s size a = Some (s', data, err) /\ i_resets s' = i_resets s /\ len data <= size
    /\ (err = None -> stream_wf s' /\ (0 < size \/ i_bytesRemainingInFrame s = 0 -> (left_over s' < left_over s)%nat)) /\ err <> Some TooMuchData.
Proof.
  intros Hs Hsz. unfold Stream_Read.
  assert (exists s1 stop, (if i_bytesRemainingInFrame s =? 0 then next_frame max s else Some (s, None)) = Some (s1, stop) /\ i_resets s1 = i_resets s
    /\ ((exists e, stop = Some (Some e) /\ e <> TooMuchData) \/ (forall e, stop <> Some (Some e)) /\ stream_wf s1 /\ (if decide (i_bytesRemainingInFrame s = 0) then (left_over s1 < left_over s)%nat else s1 = s /\ stop = None)))
    as (s1 & stop & -> & R1 & Hst).
  { destruct (Z.eqb_spec (i_bytesRemainingInFrame s) 0) as [E|E]; [destruct (next_frame_ok max s Hs) as (s1 & stop & Hnf); exists s1, stop; by rewrite decide_True|].
    exists s, None. do 2 (split; [done|]). right. split; [done|]. by rewrite decide_False. }
  cbn [mbind option_bind]. destruct stop as [err|].
  { eexists _, _, _. split; [reflexivity|]. split; [done|]. split; [done|]. destruct Hst as [(e & [= ->] & He)|(Hne & Hw & Hd)]; [split; [done|congruence]|].
    split; [|intros ->; by apply (Hne TooMuchData)]. intros ->. split; [done|]. case_decide; [done|by destruct Hd]. }
  destruct Hst as [(e & ? & _)|(_ & [Hb Hr] & Hd)]; [done|]. set (rem := i_bytesRemainingInFrame s1) in *. set (sz := if rem <? size then rem else size).
  assert (0 <= sz <= size /\ sz <= rem /\ (0 < size -> rem <> 0 -> 0 < sz)) as (Hsz1 & Hsz2 & Hsz3) by (unfold sz; split_if; breflect; lia).
  pose proof (raw_Read_ok (i_rd s1) sz a Hb ltac:(lia)) as Hraw. destruct (raw_Read (i_rd s1) sz a) as [[data err] r']. destruct Hraw as (W1 & _ & W2 & W3 & _).
  rewrite W1 in Hb. apply Forall_app in Hb as [_ Hb']. eexists _, _, _. split; [reflexivity|]. split; [done|]. split; [lia|]. split; [|by destruct err]. intros He.
  assert (err = None) as -> by by destruct err. unfold stream_wf, left_over. cbn [at_reader i_rd i_bytesRemainingInFrame]. pose proof (len_nonneg data).
  assert (left_over s1 = List.length data + List.length (rd_avail r'))%nat as El by (unfold left_over; by rewrite W1, length_app).
  split; [split; [done|lia]|]. intros Hp. fold (left_over s). case_decide as Hz; [lia|]. destruct Hd as [-> _]. fold rem in Hz. destruct Hp as [Hp|]; [|done].
  specialize (W3 eq_refl (Hsz3 Hp Hz)). destruct data; [done|]. cbn [List.length] in El. lia.
Qed.

(** One [Read] of a body. *)
Definition body_wf (b : body) (cl : option Z) (got : Z) : Prop :=
  stream_wf (b_str b) /\ i_resets (b_str b) = [] /\ b_violatedContentLength b = false
  /\ match cl with
     | None => b_hasContentLength b = false
     | Some n => b_hasContentLength b = true /\ b_remainingContentLength b = n - got /\ got <= n
     end.

Lemma check_ok b cl got : b_violatedContentLength b = false -> i_resets (b_str b) = [] ->
  match cl with
  | None => b_hasContentLength b = false
  | Some n => b_hasContentLength b = true /\ b_remainingContentLength b = n - got /\ got <= n
  end ->
  let '(b', bad) := checkContentLengthViolation b in
  if bad then cl = Some got /\ hasMoreData (b_str b) = true /\ i_resets (b_str b') = [ErrCodeMessageError]
  else b' = b /\ (cl = Some got -> hasMoreData (b_str b) = false).
Proof.
  intros Hv Hr Hc. unfold checkContentLengthViolation. destruct cl as [n|]; [|by rewrite Hc]. destruct Hc as (-> & Hrem & Hle). cbn [negb]. rewrite Hrem.
  rewrite (proj2 (Z.ltb_ge (n - got) 0)) by lia. cbn [orb]. destruct (Z.eqb_spec (n - got) 0) as [E|E]; cbn [andb].
  - assert (n = got) as -> by lia. destruct (hasMoreData (b_str b)); [|done]. rewrite Hv. cbn [negb set_body b_str reset_stream i_resets]. by rewrite Hr.
  - split; [done|]. intros [= ->]. lia.
Qed.

Lemma response_Read_ok max b cl got size a : body_wf b cl got -> 0 < size ->
  exists b' data err, response_Read max b size a = Some (b', data, err) /\ len data <= size
    /\ (forall n, cl = Some n -> got + len data <= n)
    /\ (err = None -> body_wf b' cl (got + len data) /\ b_requestDone b' = b_requestDone b /\ (left_over (b_str b') < left_over (b_str b))%nat)
    /\ (err <> None -> b_requestDone b' = true)
    /\ i_resets (b_str b') = (match err with Some TooMuchData => [ErrCodeMessageError] | _ => [] end).
Proof.
  intros (Hw & Hres & Hv & Hc) Hsz. unfold response_Read, body_Read. pose proof (check_ok b cl got Hv Hres Hc) as Hck.
  destruct (checkContentLengthViolation b) as [b0 [|]].
  { cbn [mbind option_bind]. destruct Hck as (-> & _ & Hr). eexists _, _, _. split; [reflexivity|]. change (len (@nil Z)) with 0. split; [lia|].
    split; [intros n [= <-]; lia|]. by split_and!. }
  destruct Hck as [-> Hmore]. set (sz := if b_hasContentLength b then _ else _).
  assert (0 <= sz <= size /\ (sz = 0 -> cl = Some got) /\ (forall n, cl = Some n -> sz <= n - got)) as (Z1 & Z2 & Z3).
  { unfold sz. destruct cl as [n|]; [|rewrite Hc; split; [lia|split; [lia|done]]]. destruct Hc as (-> & -> & Hle). split; [lia|]. split; [intros; f_equal; lia|intros ? [= <-]; lia]. }
  destruct (Stream_Read_ok max (b_str b) sz a Hw ltac:(lia)) as (s' & data & err & -> & S1 & S2 & S3 & S4). cbn [mbind option_bind].
  set (b1 := set_body b s' _ _ _). rewrite <- S1 in Hres.
  pose proof (check_ok b1 cl (got + len data) Hv Hres) as Hck. destruct (checkContentLengthViolation b1) as [b2 bad].
  assert (forall n, cl = Some n -> got + len data <= n) as Hbound by (intros n Hn; specialize (Z3 n Hn); lia).
  assert (match cl with None => b_hasContentLength b1 = false
    | Some n => b_hasContentLength b1 = true /\ b_remainingContentLength b1 = n - (got + len data) /\ got + len data <= n end) as Hc1.
  { destruct cl as [n|]; [|done]. destruct Hc as (C1 & C2 & C3). cbn. split; [done|]. split; [lia|by apply Hbound]. }
  specialize (Hck Hc1). destruct bad; cbn [mbind option_bind]; eexists _, _, _; (split; [reflexivity|]); (split; [lia|]); (split; [done|]).
  - destruct Hck as (_ & _ & Hr). by split_and!.
  - destruct Hck as [-> Hmore']. split; [|split; [by destruct err|cbn; destruct err as [[]|]; done]]. intros ->. destruct (S3 eq_refl) as [Hw' Hd].
    split; [split; [done|split; [done|split; [done|by destruct cl]]]|]. split; [done|]. cbn. apply Hd. destruct (Z.eq_dec sz 0) as [E|]; [|left; lia]. right.
    specialize (Hmore (Z2 E)). unfold hasMoreData in Hmore. destruct Hw as [_ Hw]. breflect. lia.
Qed.

(** Bodies from the network.  Whatever bytes follow a message on its stream, and
however they arrive, reading its body never panics and every call of [Read] returns;
the reader gets no more bytes than the Content-Length, and if the peer sent more the
stream is reset, once; after as many calls as there are bytes left, and one more,
the end or an error was reported, and the request is done exactly when it was. *)
Theorem body_safe max s contentLength reads : is_bytes (rd_avail (i_rd s)) -> i_bytesRemainingInFrame s = 0 -> i_resets s = [] ->
  Forall (fun rd => 0 < fst rd) reads ->
  exists b data err, read_many max (newBody s contentLength) reads = Some (b, data, err)
    /\ (0 <= contentLength -> len data <= contentLength)
    /\ (err = Some TooMuchData <-> i_resets (b_str b) = [ErrCodeMessageError])
    /\ (err <> Some TooMuchData <-> i_resets (b_str b) = [])
    /\ (List.length (rd_avail (i_rd s)) < List.length reads -> err <> None)%nat
    /\ (b_requestDone b = true <-> err <> None).
Proof.
  intros Hb Hr Hres Hsz. set (cl := if contentLength >=? 0 then Some contentLength else None).
  assert (body_wf (newBody s contentLength) cl 0) as Hw.
  { unfold body_wf, stream_wf, newBody, cl. destruct (contentLength >=? 0) eqn:E; cbn; (split; [split; [done|lia]|]); (split; [done|]); (split; [done|]); [|done]. breflect. split; [done|lia]. }
  assert (b_requestDone (newBody s contentLength) = false) as Hd by (unfold newBody; by split_if).
  assert (left_over (b_str (newBody s contentLength)) = List.length (rd_avail (i_rd s))) as El by (unfold newBody; by split_if).
  assert (forall n, 0 <= contentLength -> (forall m, cl = Some m -> n <= m) -> n <= contentLength) as Hcl.
  { intros n Hn Hm. apply Hm. unfold cl. by rewrite Z.geb_leb, (proj2 (Z.leb_le 0 contentLength)). }
  assert (exists b data err, read_many max (newBody s contentLength) reads = Some (b, data, err) /\ (forall n, cl = Some n -> 0 + len data <= n)
    /\ i_resets (b_str b) = (match err with Some TooMuchData => [ErrCodeMessageError] | _ => [] end)
    /\ (left_over (b_str (newBody s contentLength)) < List.length reads -> err <> None)%nat /\ (b_requestDone b = true <-> err <> None))
    as (b & data & err & E & L1 & L2 & L3 & L4).
  { clear Hb Hr Hres El Hcl. clearbody cl. revert Hw Hd. generalize 0 as got. generalize (newBody s contentLength) as b.
    induction Hsz as [|[size a] reads Hs _ IH]; intros b got Hw Hd; cbn [read_many].
    { eexists _, _, _. split; [reflexivity|]. change (len (@nil Z)) with 0. destruct Hw as (_ & Hw & _ & Hcl). split; [intros n Hn; rewrite Hn in Hcl; lia|]. split; [done|]. cbn. split; [lia|]. by rewrite Hd. }
    destruct (response_Read_ok max b cl got size a Hw Hs) as (b1 & data & err & -> & R1 & R2 & R3 & R4 & R5). cbn [mbind option_bind].
    destruct err as [e|]; [by eexists _, _, _; split_and!; [reflexivity|..]; auto|]. destruct (R3 eq_refl) as (Hw1 & Hd1 & Hl1).
    destruct (IH b1 (got + len data) Hw1 ltac:(congruence)) as (b2 & more & err & -> & I1 & I2 & I3 & I4). cbn [mbind option_bind].
    eexists _, _, _. split; [reflexivity|]. rewrite len_app. split; [intros n Hn; specialize (I1 n Hn); lia|]. split; [done|]. split; [|done].
    cbn [List.length]. intros Hlt. apply I3. lia. }
  exists b, data, err. rewrite El in L3. split; [done|]. split; [intros Hn; by apply Hcl; [|intros m Hm; specialize (L1 m Hm); lia]|].
  split; [|split; [|done]]; rewrite L2; destruct err as [[]|]; done.
Qed.

End AnyBytes.

(** ** The header of a response *)

Section Header.
  Context `{Httpguts, Qpack, ResponseEnv} {Hguts : HttpgutsOk} {Hqp : QpackOk} {Henv : ResponseEnvOk}.

Definition CL : gostring := str "Content-Length".

Lemma length_field n : 0 <= n < 2 ^ 63 -> regular_ok (str "content-length", FormatInt n) /\ is_length (str "content-length", FormatInt n) = true.
Proof.
  intros Hn. split; [|reflexivity]. split; [by rewrite IsPseudo_colon|]. split.
  - unfold validateHeaderFieldNameAndValue. cbn [fst snd]. known_names. cbn [negb]. by rewrite ascii_value by (apply FormatInt_printable; lia).
  - unfold validateRegularHeaderField. cbn [fst snd]. rewrite field_name_token. known_names. reflexivity.
Qed.

(** The fields of a header that may be sent: plain entries, and perhaps a length. *)
Lemma sendable_order n h : sendable h -> exists o, Forall plain_entry o /\ o ≡ₚ map_to_list (delete CL h)
  /\ Forall regular_ok (order_fields (iterate n h)) /\ (forall k, values_of k (order_fields (iterate n h)) = values_of k (order_fields o))
  /\ lengths (order_fields (iterate n h)) = default [] (h !! CL).
Proof.
  intros [Hf Hl]. assert (forall o, o ≡ₚ map_to_list (delete CL h) -> Forall plain_entry o) as Hplain.
  { intros o Ho. apply List.Forall_forall. intros [k vs] Hkv. apply list_elem_of_In in Hkv. rewrite Ho in Hkv. apply elem_of_map_to_list in Hkv.
    apply Hf in Hkv as [Hk Hv]. by apply free_plain. }
  pose proof (iterate_all n h) as Hp. fold CL in Hl. destruct (h !! CL) as [vs|] eqn:Ecl.
  - destruct (Hl vs eq_refl) as (m & Hm & ->). rewrite <- (map_to_list_delete h CL [FormatInt m] Ecl) in Hp.
    assert ((CL, [FormatInt m]) ∈ iterate n h) as Hin by (rewrite Hp; constructor). apply list_elem_of_split in Hin as (o1 & o2 & Eo). rewrite Eo in *.
    assert (o1 ++ o2 ≡ₚ map_to_list (delete CL h)) as Ho by (symmetry in Hp; apply Permutation_cons_app_inv in Hp; by symmetry).
    exists (o1 ++ o2). pose proof (Hplain _ Ho) as Hpl. split; [done|]. split; [done|]. destruct (length_field m Hm) as [L1 L2].
    assert (order_fields (o1 ++ (CL, [FormatInt m]) :: o2) = order_fields o1 ++ (str "content-length", FormatInt m) :: order_fields o2) as ->
      by (unfold order_fields; by rewrite flat_map_app).
    assert (order_fields (o1 ++ o2) = order_fields o1 ++ order_fields o2) as -> by (unfold order_fields; by rewrite flat_map_app).
    apply Forall_app in Hpl as [P1 P2]. destruct (order_fields_ok o1 P1) as [Q1 Q2]. destruct (order_fields_ok o2 P2) as [Q3 Q4]. split; [|split].
    + apply Forall_app. split; [done|by constructor].
    + intros k. rewrite !values_of_app. f_equal. unfold values_of at 1. cbn [List.filter]. by rewrite L2, andb_false_r.
    + change ((str "content-length", FormatInt m) :: order_fields o2) with ([(str "content-length", FormatInt m)] ++ order_fields o2). rewrite !lengths_app, Q2, Q4. done.
  - rewrite delete_id in Hplain |- * by done. exists (iterate n h). pose proof (Hplain _ Hp) as Hpl. destruct (order_fields_ok _ Hpl) as [Q1 Q2]. by split_and!.
Qed.

(** The regular fields of a response, one after the other. *)
Lemma parse_regulars b l rs st : Forall regular_ok rs -> total_size rs <= sizeLimit st -> (forall v, v ∈ lengths rs -> v = l) ->
  (readContentLength st = true -> contentLengthStr st = l) ->
  exists st', parse_fields b st rs = Ok st' /\ contentLengthStr st' = default (contentLengthStr st) (list.last (lengths rs))
    /\ hdr st' = with_length (hdr st) (h_ContentLength (hdr st)) (regular_headers (h_Headers (hdr st)) rs).
Proof.
  intros Hr. revert st. induction Hr as [|f rs (F1 & F2 & F3) _ IH]; intros st Hs Hl Hc; cbn [parse_fields total_size] in *.
  { exists st. split; [done|]. split; [done|]. by destruct st as [[]]. }
  pose proof (total_size_nonneg rs). unfold parse_field. rewrite (proj2 (Z.ltb_ge (sizeLimit st - field_size f) 0)) by lia. rewrite F2. cbn [result_bind]. rewrite F1, F3. cbn [result_bind].
  change (same (fst f) (str "content-length")) with (is_length f). unfold lengths in *. cbn [List.filter] in *. destruct (is_length f) eqn:El.
  - cbn [map] in Hl |- *. assert (snd f = l) as Ef by (apply Hl; constructor). assert (readContentLength st && negb (same (contentLengthStr st) (snd f)) = false) as ->.
    { destruct (readContentLength st); [|done]. rewrite Hc, Ef by done. by destruct (same_spec l l). }
    cbn [result_bind]. edestruct IH as (st' & -> & I2 & I3); [| | |exists st'; split; [reflexivity|]].
    + cbn [sizeLimit]. lia.
    + intros v Hv. apply Hl. by constructor.
    + done.
    + cbn [contentLengthStr hdr] in *. rewrite I2, I3. split; [rewrite list.last_cons; by destruct (list.last (map snd (List.filter is_length rs)))|]. unfold regular_headers. cbn [List.filter]. by rewrite El.
  - cbn [result_bind]. edestruct IH as (st' & -> & I2 & I3); [| | |exists st'; split; [reflexivity|]].
    + cbn [sizeLimit]. lia.
    + done.
    + done.
    + cbn [contentLengthStr hdr h_Headers h_ContentLength] in *. rewrite I2, I3. split; [done|]. unfold regular_headers. cbn [List.filter]. by rewrite El.
Qed.

(** The length a header announces. *)
Definition announced_length (h : header_map) : Z :=
  match h !! CL with
  | Some (v :: _) => default (-1) (ParseUint 63 v)
  | _ => -1
  end.

Lemma present_regular n h : sendable h -> regular_headers ∅ (order_fields (iterate n h)) = present (delete CL h).
Proof.
  intros Hs. destruct (sendable_order n h Hs) as (o & O1 & O2 & _ & O3 & _). apply map_eq. intros k.
  rewrite regular_headers_values, O3, (order_headers o (delete CL h)), present_lookup by done. by destruct (delete CL h !! k) as [[|]|].
Qed.

Lemma no_announced h : sendable h -> extractAnnouncedTrailers (present h) = (None, present h).
Proof.
  intros Hs. unfold extractAnnouncedTrailers. rewrite present_lookup. destruct (h !! str "Trailer") as [vs|] eqn:E; [|done].
  by destruct (sendable_key _ _ _ Hs E) as (_ & _ & ?).
Qed.

Lemma response_parsed n st h limit : sendable h -> 200 <= st <= 999 -> 0 <= limit -> total_size (response_fields n st h) <= limit ->
  updateResponseFromHeaders (response_fields n st h, true) limit
  = Ok {| s_StatusCode := st; s_Header := present h; s_Trailer := None; s_ContentLength := announced_length h |}.
Proof.
  intros Hs Hst Hl Hsize. destruct (sendable_order n h Hs) as (o & _ & _ & O3 & _ & O5). pose proof (present_regular n h Hs) as Hpres.
  assert (FormatInt st <> []) as Hne by (rewrite FormatInt_nonneg by lia; apply FormatUint_nonempty).
  unfold updateResponseFromHeaders, parseHeaders. unfold response_fields in *. cbn [fst snd parse_fields total_size] in *. set (rs := order_fields (iterate n h)) in *.
  pose proof (total_size_nonneg rs).
  assert (parse_field false (start_parse limit) (cStatus, FormatInt st)
    = Ok {| hdr := {| h_Path := []; h_Method := []; h_Authority := []; h_Scheme := []; h_Status := FormatInt st; h_Protocol := []; h_ContentLength := 0; h_Headers := ∅ |};
            sizeLimit := limit - field_size (cStatus, FormatInt st); readFirstRegularHeader := false; readContentLength := false; hasMethod := false; hasStatus := true;
            contentLengthStr := [] |}) as ->.
  { unfold parse_field. cbn [start_parse sizeLimit]. rewrite (proj2 (Z.ltb_ge (limit - field_size (cStatus, FormatInt st)) 0)) by lia.
    unfold validateHeaderFieldNameAndValue. cbn [fst snd]. known_names. cbn [negb]. rewrite ascii_value by (apply FormatInt_printable; lia). cbn [negb result_bind].
    rewrite IsPseudo_colon. cbn. reflexivity. }
  cbn [result_bind]. assert (exists l, (forall v, v ∈ lengths rs -> v = l) /\ default [] (list.last (lengths rs)) = match h !! CL with Some (v :: _) => v | _ => [] end) as (l & Hall & Hlast).
  { rewrite O5. destruct (h !! CL) as [vs|] eqn:Ecl; [|exists []; split; [intros v Hv; by apply elem_of_nil in Hv|done]].
    destruct Hs as [_ Hs]. destruct (Hs vs Ecl) as (m & _ & ->). exists (FormatInt m). split; [|done]. intros v Hv. by apply list_elem_of_singleton in Hv. }
  edestruct (parse_regulars false l rs) as (st' & -> & I1 & I2); [exact O3| |exact Hall| |]; [cbn [sizeLimit]; lia|done|]. cbn [result_bind negb]. rewrite I1, I2.
  cbn [contentLengthStr hdr h_Headers h_ContentLength]. rewrite Hlast, Hpres. unfold announced_length.
  destruct (h !! CL) as [vs|] eqn:Ecl.
  - destruct Hs as [Hf Hs]. destruct (Hs vs Ecl) as (m & Hm & ->). rewrite ParseUint_FormatInt by done. destruct (same_spec (FormatInt m) []) as [E|_].
    { rewrite FormatInt_nonneg in E by lia. by destruct (FormatUint_nonempty m). }
    cbn [result_bind with_length h_Status h_Headers h_ContentLength]. destruct (same_spec (FormatInt st) []); [done|].
    assert (Header_Set (present (delete CL h)) (str "Content-Length") (FormatInt m) = present h) as ->.
    { apply map_eq. intros k. unfold Header_Set. change (CanonicalMIMEHeaderKey (str "Content-Length")) with CL. rewrite present_lookup.
      destruct (decide (CL = k)) as [<-|Hk]; [by rewrite lookup_insert_eq, Ecl|]. by rewrite lookup_insert_ne, present_lookup, lookup_delete_ne. }
    by rewrite no_announced, ParseInt64_FormatInt by (done || lia).
  - rewrite delete_id by done. change (same (@nil Z) []) with true. cbn iota. cbn [result_bind with_length h_Status h_Headers h_ContentLength]. destruct (same_spec (FormatInt st) []); [done|].
    by rewrite no_announced, ParseInt64_FormatInt by (done || lia).
Qed.

Lemma sendable_bytes n st h : sendable h -> 200 <= st <= 999 -> Forall (fun f => is_bytes (fst f) /\ is_bytes (snd f)) (response_fields n st h).
Proof.
  intros Hs Hst. constructor; [split; [repeat constructor; done|apply printable_bytes, FormatInt_printable; lia]|].
  apply List.Forall_forall. intros [name v] Hin. unfold order_fields in Hin. apply in_flat_map in Hin as ([k vs] & Hkv & Hin). unfold key_fields in Hin.
  apply in_map_iff in Hin as (v' & [= <- <-] & Hv). apply list_elem_of_In in Hkv, Hv. rewrite iterate_all in Hkv. apply elem_of_map_to_list in Hkv. cbn [fst snd] in *.
  destruct (sendable_key _ _ _ Hs Hkv) as (Ht & _ & _). destruct (lower_token k Ht) as (_ & _ & _ & Hb). split; [done|]. apply printable_bytes. destruct Hs as [Hf Hl].
  destruct (decide (k = CL)) as [->|Hk].
  - destruct (Hl vs Hkv) as (m & Hm & ->). apply list_elem_of_singleton in Hv as ->. apply FormatInt_printable. lia.
  - assert (delete (str "Content-Length") h !! k = Some vs) as Hd by by rewrite lookup_delete_ne. apply Hf in Hd as [_ Hd]. rewrite Forall_forall in Hd. by apply Hd, list_elem_of_In.
Qed.

(** [ReadResponse] at a header the server sent, whatever follows. *)
Lemma ReadResponse_header gzip isConnect max n st h rest e : sendable h -> 200 <= st <= 999 -> header_size h + 103 < 2 ^ 14 ->
  4 * (header_size h + 103) + 2 <= max < 2 ^ 62 -> is_bytes rest ->
  exists s res, s = newStream (mkReader rest e)
    /\ ReadResponse true gzip isConnect max (newStream (mkReader (header_frame (response_fields n st h) ++ rest) e))
       = Some (s, Ok {| rr_response := res; rr_body := newBody s (announced_length h); rr_Uncompressed := false |})
    /\ s_StatusCode res = st /\ s_Header res = present h /\ (announced_length h <> -1 -> s_ContentLength res = announced_length h).
Proof.
  intros Hs Hst Hsz Hmax Hrest. set (fields := response_fields n st h). pose proof (response_size n st h ltac:(lia)) as Hsize. fold fields in Hsize.
  pose proof (qpack_size fields) as Hq. pose proof (total_size_nonneg fields). pose proof (len_nonneg (qpack_Encode fields)).
  assert (is_varint (len (qpack_Encode fields))) as Hv by (apply block_varint; lia).
  assert (is_bytes (qpack_Encode fields ++ rest)) as Hb by (apply Forall_app; split; [apply qpack_bytes|done]).
  destruct (ParseNext_headers (len (qpack_Encode fields)) (qpack_Encode fields ++ rest) e Hv Hb) as [hl Hn].
  unfold ReadResponse. cbn [negb newStream i_rd]. unfold header_frame. rewrite <- !app_assoc, Hn. cbn [mbind option_bind]. rewrite u64_small by (unfold is_u64; lia).
  rewrite Z.gtb_ltb, (proj2 (Z.ltb_ge max (len (qpack_Encode fields)))) by lia.
  assert (ReadFull (len (qpack_Encode fields)) (mkReader (qpack_Encode fields ++ rest) e) = (Ok (qpack_Encode fields), mkReader rest e)) as ->.
  { unfold ReadFull. cbn [rd_avail rd_end]. rewrite len_app. pose proof (len_nonneg rest). rewrite (proj2 (Z.leb_le (len (qpack_Encode fields)) (len (qpack_Encode fields) + len rest))) by lia.
    replace (Z.to_nat (len (qpack_Encode fields))) with (List.length (qpack_Encode fields)) by (unfold len; lia). by rewrite take_app_length, drop_app_length. }
  rewrite small_carried by (lia || by apply sendable_bytes). unfold fields in *. rewrite response_parsed by (done || lia).
  cbn [s_StatusCode s_ContentLength s_Header at_reader newStream i_bytesRemainingInFrame i_parsedTrailer i_trailer i_closes i_resets i_cancels].
  assert (Header_Get (present h) (str "Content-Encoding") = []) as Hce.
  { unfold Header_Get. change (CanonicalMIMEHeaderKey (str "Content-Encoding")) with (str "Content-Encoding"). rewrite present_lookup.
    assert (h !! str "Content-Encoding" = None) as ->; [|done]. destruct Hs as [Hf _]. rewrite <- (lookup_delete_ne h (str "Content-Length")) by done.
    apply free_absent; [done|]. apply (bool_decide_unpack _). vm_compute. exact I. }
  destruct (_ && (announced_length h =? -1)) eqn:Ecl; cbn [set_response s_Header s_StatusCode]; rewrite Hce;
    change (same (@nil Z) (str "gzip")) with false; rewrite andb_false_r; eexists _, _; (split; [reflexivity|]); (split; [reflexivity|]);
    (split; [done|]); (split; [done|]); [|done]. intros Hne. breflect. done.
Qed.

End Header.

(** ** The body of a response *)

(** [data_stream n s b]: [n] bytes of a DATA frame are left, and the stream [s] ends
after the body [b]. *)
Inductive data_stream : Z -> list Z -> list Z -> Prop :=
| ds_end : data_stream 0 [] []
| ds_frame n s b : is_varint n -> data_stream n s b -> data_stream 0 (venc 0 ++ venc n ++ s) b
| ds_byte n c s b : 0 <= n -> data_stream n s b -> data_stream (n + 1) (c :: s) (c :: b).

Lemma data_payload p s b : data_stream 0 s b -> data_stream (len p) (p ++ s) (p ++ b).
Proof.
  intros Hs. induction p as [|c p IH]; [done|]. rewrite len_cons, Z.add_comm. apply ds_byte; [apply len_nonneg|done].
Qed.
Lemma data_frames_stream ps : len (List.concat ps) < 2 ^ 62 -> data_stream 0 (data_frames ps) (List.concat ps).
Proof.
  induction ps as [|p ps IH]; [constructor|]. cbn [List.concat data_frames flat_map]. rewrite len_app. pose proof (len_nonneg p). pose proof (len_nonneg (List.concat ps)).
  intros Hl. rewrite <- !app_assoc. apply ds_frame; [unfold is_varint, maxVarInt8; lia|]. apply data_payload, IH. lia.
Qed.
Lemma data_frames_bytes ps : is_bytes (List.concat ps) -> is_bytes (data_frames ps).
Proof.
  induction ps as [|p ps IH]; [constructor|]. cbn [List.concat data_frames flat_map]. intros [Hp Hps]%Forall_app.
  apply Forall_app_2; [|by apply IH]. apply Forall_app_2; [apply venc_bytes|]. apply Forall_app_2; [apply venc_bytes|done].
Qed.
Lemma data_stream_nil n b : data_stream n [] b -> n = 0 /\ b = [].
Proof.
  intros Hs. by inversion Hs.
Qed.
Lemma data_stream_take n s b k : data_stream n s b -> (Z.of_nat k <= n) ->
  exists p s' b', s = p ++ s' /\ b = p ++ b' /\ List.length p = k /\ data_stream (n - Z.of_nat k) s' b'.
Proof.
  revert n s b. induction k as [|k IH]; intros n s b Hs Hk; [exists [], s, b; by rewrite Z.sub_0_r|].
  inversion Hs as [|m s0 b0 Hm Hs0 En Es Eb|m c s0 b0 Hm Hs0 En Es Eb]; subst; [lia|lia|].
  destruct (IH m s0 b0 Hs0 ltac:(lia)) as (p & s' & b' & -> & -> & Hp & Hd). exists (c :: p), s', b'. split; [done|]. split; [done|]. split; [cbn; lia|].
  by replace (m + 1 - Z.of_nat (S k)) with (m - Z.of_nat k) by lia.
Qed.

Section Body.
  Context `{Httpguts, Qpack}.

(** The end of a body: [io.EOF], from the parser or with the last bytes. *)
Definition clean_end (e : read_error) : Prop := e = BadFrame (H3IO EOF) \/ e = Transport EOF.

(** A stream on which the body [rest] is still to come. *)
Definition coming (s : in_stream) (rest : list Z) : Prop :=
  data_stream (i_bytesRemainingInFrame s) (rd_avail (i_rd s)) rest /\ rd_end (i_rd s) = EOF /\ i_parsedTrailer s = false.

Lemma next_frame_data max s rest : is_bytes (rd_avail (i_rd s)) -> coming s rest -> i_bytesRemainingInFrame s = 0 ->
  (rest = [] /\ rd_avail (i_rd s) = [] /\ exists s', next_frame max s = Some (s', Some (Some (BadFrame (H3IO EOF)))))
  \/ exists s', next_frame max s = Some (s', None) /\ coming s' rest /\ is_bytes (rd_avail (i_rd s')).
Proof.
  destruct s as [[avail e] rem pt tr cl rs cn]. cbn. intros Hb (Hd & He & Ht) ->. cbn in *. subst e pt. unfold next_frame. cbn [i_rd].
  inversion Hd as [|n s' b Hn Hd' Hz E1 E2|n c s' b Hn Hd' E1]; [|subst|lia].
  - left. split; [done|]. split; [done|]. by eexists.
  - right. unfold ParseNext. cbn [parse_next]. unfold read_varint. apply Forall_app in Hb as [_ Hb]. rewrite Read_venc by (done || (split; discriminate)).
    apply Forall_app in Hb as [_ Hb]. rewrite Read_venc by done. cbn. by eexists.
Qed.

Lemma Stream_Read_data max s rest size a : is_bytes (rd_avail (i_rd s)) -> coming s rest -> 0 <= size ->
  exists s' data err rest', Stream_Read max s size a = Some (s', data, err) /\ rest = data ++ rest'
    /\ (err = None -> coming s' rest') /\ (forall e, err = Some e -> clean_end e /\ rest' = [] /\ i_bytesRemainingInFrame s' = 0).
Proof.
  intros Hb Hc Hsz. unfold Stream_Read.
  assert ((rest = [] /\ exists s', (if i_bytesRemainingInFrame s =? 0 then next_frame max s else Some (s, None)) = Some (s', Some (Some (BadFrame (H3IO EOF)))) /\ i_bytesRemainingInFrame s' = 0)
    \/ exists s', (if i_bytesRemainingInFrame s =? 0 then next_frame max s else Some (s, None)) = Some (s', None) /\ coming s' rest /\ is_bytes (rd_avail (i_rd s')))
    as [(-> & s1 & -> & Hz)|(s1 & -> & (Hd & He & Ht) & Hb1)].
  { destruct (Z.eqb_spec (i_bytesRemainingInFrame s) 0) as [E|E]; [|right; by exists s]. destruct (next_frame_data max s rest Hb Hc E) as [(-> & Ha & s' & Es)|Hr]; [|by right].
    left. split; [done|]. exists s'. split; [done|]. unfold next_frame in Es. destruct s as [[avail e] rem pt tr cl rs cn]. cbn in *. subst avail. cbn in Es. destruct Hc as (_ & He & _). cbn in He. subst e.
    by injection Es as <-. }
  { cbn [mbind option_bind]. eexists _, [], _, []. split; [reflexivity|]. split; [done|]. split; [done|]. intros e [= <-]. split; [by left|done]. }
  cbn [mbind option_bind]. set (rem := i_bytesRemainingInFrame s1) in *. set (sz := if rem <? size then rem else size).
  assert (0 <= rem) as Hrem by (clear -Hd; inversion Hd; lia). assert (0 <= sz <= rem) as Hsz1 by (unfold sz; split_if; breflect; lia).
  pose proof (raw_Read_ok (i_rd s1) sz a Hb1 ltac:(lia)) as Hraw. destruct (raw_Read (i_rd s1) sz a) as [[data err] r']. destruct Hraw as (W1 & W2 & W3 & _ & W5).
  destruct (data_stream_take _ _ _ (List.length data) Hd) as (p & s' & b' & E1 & E2 & E3 & E4); [unfold len in W3; lia|].
  rewrite W1 in E1. apply app_inj_1 in E1 as [<- <-]; [|done]. fold (len data) in E4. eexists _, data, _, b'. split; [reflexivity|]. split; [done|].
  split; [intros _; split; [done|split; [cbn; congruence|done]]|]. destruct err as [e|]; [|done]. destruct (W5 e eq_refl) as [-> Hnil]. rewrite Hnil in E4.
  apply data_stream_nil in E4 as [E4 ->]. intros e [= <-]. rewrite He. split; [by right|]. split; [done|]. cbn. done.
Qed.

(** One [Read], and any number of them. *)
Definition awaits (b : body) (cl : option Z) (got : list Z) (rest : list Z) : Prop :=
  body_wf b cl (len got) /\ coming (b_str b) rest /\ (forall n, cl = Some n -> n = len (got ++ rest)).

Lemma response_Read_data max b cl got rest size a : awaits b cl got rest -> 0 < size ->
  exists b' data err rest', response_Read max b size a = Some (b', data, err) /\ rest = data ++ rest'
    /\ (err = None -> awaits b' cl (got ++ data) rest' /\ (left_over (b_str b') < left_over (b_str b))%nat)
    /\ (forall e, err = Some e -> clean_end e /\ rest' = []).
Proof.
  intros (Hw & Hcom & Hcl) Hsz. destruct (response_Read_ok max b cl (len got) size a Hw Hsz) as (b' & data & err & E & _ & R2 & R3 & R4 & R5).
  rewrite E. destruct Hw as ([Hb Hr] & Hres & Hv & Hc). unfold response_Read, body_Read in E.
  pose proof (check_ok b cl (len got) Hv Hres Hc) as Hck. destruct (checkContentLengthViolation b) as [b0 [|]].
  { destruct Hck as (Ecl & Hm & _). specialize (Hcl _ Ecl). rewrite len_app in Hcl. exfalso. unfold hasMoreData in Hm. breflect. destruct Hcom as (Hd & _).
    rewrite (len_empty rest) in Hd by lia. inversion Hd; lia. }
  destruct Hck as [-> _]. set (sz := if b_hasContentLength b then _ else _) in *.
  assert (0 <= sz) as Hsz0.
  { unfold sz. destruct cl as [n|]; [|rewrite Hc; lia]. destruct Hc as (-> & -> & Hle). lia. }
  destruct (Stream_Read_data max (b_str b) rest sz a Hb Hcom Hsz0) as (s' & d & er & rest' & Es & -> & S2 & S3). rewrite Es in E. cbn [mbind option_bind] in E.
  set (b1 := set_body b s' _ _ _) in *. destruct (Stream_Read_ok max (b_str b) sz a (conj Hb Hr) Hsz0) as (? & ? & ? & Es' & K1 & K2 & _). rewrite Es in Es'. injection Es' as <- <- <-.
  assert (match cl with None => b_hasContentLength b1 = false
    | Some n => b_hasContentLength b1 = true /\ b_remainingContentLength b1 = n - (len got + len d) /\ len got + len d <= n end) as Hc1.
  { destruct cl as [n|]; [|done]. specialize (Hcl n eq_refl). rewrite !len_app in Hcl. pose proof (len_nonneg rest'). destruct Hc as (C1 & C2 & C3). cbn. split; [done|]. split; lia. }
  pose proof (check_ok b1 cl (len got + len d) Hv ltac:(cbn; congruence) Hc1) as Hck. destruct (checkContentLengthViolation b1) as [b2 [|]].
  { destruct Hck as (Ecl & Hm & _). exfalso. specialize (Hcl _ Ecl). rewrite !len_app in Hcl. unfold hasMoreData in Hm. cbn in Hm. breflect.
    assert (rest' = []) as -> by (apply len_empty; lia). destruct er as [e|]; [destruct (S3 e eq_refl) as (_ & _ & Hz); lia|]. destruct (S2 eq_refl) as (Hd & _). inversion Hd; lia. }
  destruct Hck as [-> _]. cbn [mbind option_bind] in E. injection E as <- <- <-. eexists _, d, er, rest'. split; [reflexivity|]. split; [done|]. split.
  - intros ->. destruct (R3 eq_refl) as (Hw' & _ & Hlt). split; [|done]. split; [by rewrite len_app|]. split; [by apply S2|]. intros n Hn. rewrite (Hcl n Hn). by rewrite app_assoc.
  - intros e He. by destruct (S3 e He) as (? & ? & _).
Qed.

Lemma read_many_data max reads b cl got rest : awaits b cl got rest -> Forall (fun rd => 0 < fst rd) reads ->
  exists b' data err, read_many max b reads = Some (b', data, err) /\ data `prefix_of` rest
    /\ (forall e, err = Some e -> clean_end e /\ data = rest) /\ (left_over (b_str b) < List.length reads -> err <> None)%nat.
Proof.
  intros Hw Hs. revert b got rest Hw. induction Hs as [|[size a] reads Hs _ IH]; intros b got rest Hw; cbn [read_many].
  { eexists _, _, _. split; [reflexivity|]. split; [apply prefix_nil|]. split; [done|]. cbn. lia. }
  destruct (response_Read_data max b cl got rest size a Hw Hs) as (b1 & data & err & rest' & -> & -> & R1 & R2). cbn [mbind option_bind]. destruct err as [e|].
  { destruct (R2 e eq_refl) as [He ->]. eexists _, _, _. split; [reflexivity|]. rewrite app_nil_r. split; [done|]. split; [by intros ? [= <-]|done]. }
  destruct (R1 eq_refl) as [Hw1 Hl]. destruct (IH b1 _ _ Hw1) as (b2 & more & err & -> & I1 & I2 & I3). cbn [mbind option_bind]. eexists _, _, _. split; [reflexivity|].
  split; [by apply prefix_app|]. split; [|cbn [List.length]; intros; apply I3; lia]. intros e He. destruct (I2 e He) as [? ->]. done.
Qed.

(** Frames on a stream that ends, as a body of unknown or of just that length. *)
Lemma frames_arrive ps contentLength max reads : is_bytes (List.concat ps) -> len (List.concat ps) < 2 ^ 62 ->
  contentLength < 0 \/ contentLength = len (List.concat ps) -> Forall (fun rd => 0 < fst rd) reads ->
  exists b data err, read_many max (newBody (newStream (mkReader (data_frames ps) EOF)) contentLength) reads = Some (b, data, err)
    /\ data `prefix_of` List.concat ps /\ (forall e, err = Some e -> clean_end e /\ data = List.concat ps)
    /\ (List.length (data_frames ps) < List.length reads -> err <> None)%nat.
Proof.
  intros Hb Hl Hc Hr. pose proof (data_frames_bytes ps Hb) as Hdb. pose proof (data_frames_stream ps Hl) as Hds.
  set (b := newBody _ _). assert (left_over (b_str b) = List.length (data_frames ps)) as <- by (unfold b, newBody; by destruct (_ >=? 0)).
  apply (read_many_data max reads b (if contentLength >=? 0 then Some contentLength else None) [] (List.concat ps)); [|done]. unfold b, newBody. destruct (contentLength >=? 0) eqn:E; breflect.
  - destruct Hc; [lia|]. split; [split; [by split|]; cbn; change (len (@nil Z)) with 0; split_and!; (done || lia)|]. split; [by split|]. by intros n [= <-].
  - split; [by repeat split|]. split; [by split|done].
Qed.

End Body.

(** ** From the handler to the client *)

Lemma meaning_bytes cs r : Forall call_ok cs -> is_bytes (rs_body r) -> is_bytes (rs_body (foldl means r cs)).
Proof.
  intros Hc. revert r. induction Hc as [|c cs Hc _ IH]; intros r Hr; [done|]. apply IH. destruct c; cbn in *; try done.
  unfold extended. destruct (bodyAllowedForStatus _); [|done]. destruct (_ <? _); cbn; by apply Forall_app.
Qed.

Section Arrives.
  Context `{Httpguts, Qpack, ResponseEnv} {Hguts : HttpgutsOk} {Hqp : QpackOk} {Henv : ResponseEnvOk}.

(** What a client reads of a response on its stream. *)
Lemma response_on_stream strict out r size st h n ps gzip isConnect max : on_stream (strict := strict) out r size st h n ps -> is_bytes (rs_body r) -> len (rs_body r) < 2 ^ 62 ->
  size + 657 < 2 ^ 14 -> 4 * (size + 657) + 2 <= max < 2 ^ 62 ->
  exists s rr, ReadResponse true gzip isConnect max (newStream (mkReader out EOF)) = Some (s, Ok rr)
    /\ s_StatusCode (rr_response rr) = st /\ s_Header (rr_response rr) = present h /\ rr_Uncompressed rr = false
    /\ (announced_length h <> -1 -> s_ContentLength (rr_response rr) = announced_length h)
    /\ exists cl, awaits (rr_body rr) cl [] (rs_body r) /\ (left_over (b_str (rr_body rr)) <= List.length out)%nat.
Proof.
  intros [[O1 O1'] O2 [O3 O3'] O4 O5 ->] Hb Hl Hsz Hmax. rewrite <- O5 in Hb, Hl. pose proof (data_frames_bytes ps Hb) as Hdb.
  pose proof (data_frames_stream ps Hl) as Hds. rewrite O5 in Hds.
  destruct (ReadResponse_header gzip isConnect max n st h (data_frames ps) EOF O3 O1' ltac:(lia) ltac:(lia) Hdb) as (s & res & -> & E & R1 & R2 & R3).
  eexists _, _. split; [exact E|]. cbn [rr_response rr_body rr_Uncompressed]. do 3 (split; [done|]). split; [done|].
  assert (announced_length h = -1 \/ announced_length h = len (rs_body r)) as Hal.
  { unfold announced_length. unfold CL. destruct (h !! str "Content-Length") as [vs|] eqn:Ecl; [|by left]. right. rewrite (O4 vs eq_refl).
    pose proof (len_nonneg (rs_body r)). rewrite O5 in Hl. by rewrite ParseUint_FormatInt by lia. }
  exists (if announced_length h >=? 0 then Some (announced_length h) else None). rewrite length_app. split; [|unfold newBody; split_if; unfold left_over; cbn; lia].
  pose proof (len_nonneg (rs_body r)). unfold newBody. destruct (announced_length h >=? 0) eqn:Ea.
  - split; [split; [by split|]; cbn; change (len (@nil Z)) with 0; split_and!; (done || breflect; lia)|]. split; [by split|]. intros m [= <-]. breflect. cbn. destruct Hal; lia.
  - split; [by split; [split|]|]. split; [by split|done].
Qed.


End Arrives.

(** ** Request streams *)

(** [Stream.Write]: the frame header, then the data. *)
Definition Stream_Write (s : out_stream) (b : list Z) : option (out_stream * Z * bool) :=
  buf ← data_Append (len b) [];
  let '(s, _, ok) := writeUnframed s buf in
  Some (if (ok : bool) then writeUnframed s b else (s, 0, false)).

(** [Stream.TryWriteAll]; [queue] bytes can be queued at once.  False is
[quic.ErrWouldBlock]. *)
Definition Stream_TryWriteAll (queue : Z) (s : out_stream) (b : list Z) : option (out_stream * bool) :=
  data ← data_Append (len b) [];
  Some (if len (data ++ b) <=? queue then let '(s, _, ok) := writeUnframed s (data ++ b) in (s, ok) else (s, false)).

(** [RequestStream]: the two directions, what was done, and the body once the
response was read; it then holds the receive side. *)
Record RequestStream := {
  st_in : in_stream;
  st_out : out_stream;
  st_sentRequest : bool;
  st_requestedGzip : bool;
  st_isConnect : bool;
  st_responseBody : option body;
}.
Definition newRequestStream (i : in_stream) (o : out_stream) : RequestStream :=
  {| st_in := i; st_out := o; st_sentRequest := false; st_requestedGzip := false; st_isConnect := false; st_responseBody := None |}.

Inductive use_error := HasBody | DuplicateRequest | WriteBeforeRequest | ReadBeforeResponse | RequestRefused (e : write_error) | StreamBroken.

Section Use.
  Context `{Httpguts, Qpack, UrlLib}.

(** [SendRequestHeader]: a request is marked as sent whatever becomes of it. *)
Definition SendRequestHeader (disableCompression hasBody : bool) (st : RequestStream) (q : http_Request) (order : list (gostring * list gostring))
  : option (RequestStream * result use_error unit) :=
  if hasBody then Some (st, Err HasBody)
  else if st_sentRequest st then Some (st, Err DuplicateRequest)
  else
    let gzip := requests_gzip disableCompression q in
    let sent o := {| st_in := st_in st; st_out := o; st_sentRequest := true; st_requestedGzip := gzip; st_isConnect := same (q_Method q) CONNECT;
                     st_responseBody := st_responseBody st |} in
    res ← sendRequestHeader disableCompression q order;
    Some match res with
    | Err e => (sent (st_out st), Err (RequestRefused e))
    | Ok b => let '(o, _, ok) := writeUnframed (st_out st) b in (sent o, if (ok : bool) then Ok tt else Err StreamBroken)
    end.

Definition RequestStream_ReadResponse (max : Z) (st : RequestStream) : option (RequestStream * result read_response_error response_read) :=
  '(s, res) ← ReadResponse (st_sentRequest st) (st_requestedGzip st) (st_isConnect st) max (st_in st);
  Some ({| st_in := s; st_out := st_out st; st_sentRequest := st_sentRequest st; st_requestedGzip := st_requestedGzip st; st_isConnect := st_isConnect st;
           st_responseBody := match res with Ok rr => Some (rr_body rr) | Err _ => st_responseBody st end |}, res).

(** A body that is read through gzip is not read here. *)
Definition RequestStream_Read (max : Z) (st : RequestStream) (size : Z) (a : arrival) : option (RequestStream * result use_error (list Z * option read_error)) :=
  match st_responseBody st with
  | None => Some (st, Err ReadBeforeResponse)
  | Some b =>
    '(b, data, err) ← response_Read max b size a;
    Some ({| st_in := b_str b; st_out := st_out st; st_sentRequest := st_sentRequest st; st_requestedGzip := st_requestedGzip st; st_isConnect := st_isConnect st;
             st_responseBody := Some b |}, Ok (data, err))
  end.

Definition RequestStream_Write (st : RequestStream) (b : list Z) : option (RequestStream * result use_error (Z * bool)) :=
  if negb (st_sentRequest st) then Some (st, Err WriteBeforeRequest)
  else
    '(o, n, ok) ← Stream_Write (st_out st) b;
    Some ({| st_in := st_in st; st_out := o; st_sentRequest := true; st_requestedGzip := st_requestedGzip st; st_isConnect := st_isConnect st;
             st_responseBody := st_responseBody st |}, Ok (n, ok)).

End Use.

Fixpoint write_all (s : out_stream) (ps : list (list Z)) : option out_stream :=
  match ps with
  | [] => Some s
  | p :: ps => '(s, _, _) ← Stream_Write s p; write_all s ps
  end.

(** What one end writes on an open stream the other reads: any number of writes, of
any sizes, give any sequence of reads the same bytes in order, and then the end. *)
Theorem stream_carries `{Httpguts, Qpack} s ps max reads : o_room s = None -> is_bytes (List.concat ps) -> len (List.concat ps) < 2 ^ 62 ->
  Forall (fun rd => 0 < fst rd) reads ->
  exists s', write_all s ps = Some s' /\ o_written s' = o_written s ++ data_frames ps
    /\ exists b data err, read_many max (newBody (newStream (mkReader (data_frames ps) EOF)) (-1)) reads = Some (b, data, err)
       /\ data `prefix_of` List.concat ps /\ (forall e, err = Some e -> clean_end e /\ data = List.concat ps)
       /\ (List.length (data_frames ps) < List.length reads -> err <> None)%nat.
Proof.
  intros Hr Hb Hl Hreads. assert (exists s', write_all s ps = Some s' /\ o_written s' = o_written s ++ data_frames ps) as (s' & E & Ew).
  { clear Hb Hreads. revert s Hr. induction ps as [|p ps IH]; intros s Hr; cbn [write_all]; [exists s; by rewrite app_nil_r|].
    cbn [List.concat] in Hl. rewrite len_app in Hl. pose proof (len_nonneg p). pose proof (len_nonneg (List.concat ps)).
    unfold Stream_Write. rewrite data_Append_venc by lia. cbn [mbind option_bind]. rewrite writeUnframed_open by done. cbn iota. rewrite writeUnframed_open by done.
    cbn [mbind option_bind]. match goal with |- context [write_all ?s0 ps] => destruct (IH ltac:(lia) s0 eq_refl) as (s' & Ew & Eo) end. exists s'. split; [done|]. rewrite Eo.
    cbn [o_written data_frames flat_map]. by rewrite ?app_nil_l, <- !app_assoc. }
  exists s'. split; [done|]. split; [done|]. apply frames_arrive; (done || lia).
Qed.

(** ** Samples *)

Definition sample_response_env : ResponseEnv := {|
  iterate _ h := map_to_list h;
  iterate_keys _ t := elements t;
  date_text := str "Thu, 01 Jan 1970 00:00:00 GMT";
  DetectContentType _ := str "text/plain; charset=utf-8" |}.
Lemma sample_response_env_ok : @ResponseEnvOk sample_response_env.
Proof. constructor; cbn; [done|done| |intros _]; (split; [repeat constructor; done|vm_compute; discriminate]). Qed.

#[local] Existing Instance sample_qpack.
#[local] Existing Instance sample_guts.
#[local] Existing Instance sample_response_env.

Definition sample_calls : list call :=
  [HeaderSet (str "retry-after") (str "5"); HeaderSet (str "Qortal-Relay-Error") (str "RELAY_FULL");
   CallWriteHeader 429; CallWrite (str "RELAY_"); CallWrite (str "FULL")].
Definition sample_reads : list (Z * arrival) := repeat (3, {| av_chunk := 2; av_eager := true |}) 500.

Lemma sample_calls_ok : Forall call_ok sample_calls.
Proof.
  constructor; [split; [known_key|repeat constructor; done]|]. constructor; [split; [known_key|repeat constructor; done]|].
  constructor; [cbn; lia|]. repeat (constructor; [repeat constructor; done|]). constructor.
Qed.


Lemma body_safe_witness :
  exists b data err, read_many 1024 (newBody (newStream (mkReader [0; 2; 7; 8; 0; 1; 9] EOF)) 2) (repeat (4, {| av_chunk := 9; av_eager := false |}) 9) = Some (b, data, err)
    /\ len data <= 2 /\ err = Some TooMuchData /\ i_resets (b_str b) = [ErrCodeMessageError].
Proof.
  destruct (body_safe 1024 (newStream (mkReader [0; 2; 7; 8; 0; 1; 9] EOF)) 2 (repeat (4, {| av_chunk := 9; av_eager := false |}) 9))
    as (b & data & err & E1 & E2 & E3 & _).
  - repeat constructor; discriminate.
  - reflexivity.
  - reflexivity.
  - repeat constructor.
  - exists b, data, err. split; [exact E1|]. split; [apply E2; lia|].
    assert (err = Some TooMuchData) as He; [|split; [exact He|apply E3; exact He]].
    assert (match read_many 1024 (newBody (newStream (mkReader [0; 2; 7; 8; 0; 1; 9] EOF)) 2) (repeat (4, {| av_chunk := 9; av_eager := false |}) 9) with
            | Some (_, _, err) => err | None => None end = Some TooMuchData) as Hc by (vm_compute; reflexivity).
    rewrite E1 in Hc. exact Hc.
Defined.

Lemma stream_carries_witness :
  exists b data err, read_many 64 (newBody (newStream (mkReader (data_frames [[1; 2]; []; [3]]) EOF)) (-1)) sample_reads = Some (b, data, err) /\ data = [1; 2; 3].
Proof.
  destruct (stream_carries {| o_written := []; o_room := None |} [[1; 2]; []; [3]] 64 sample_reads) as (s' & _ & _ & b & data & err & E1 & _ & E2 & E3).
  - reflexivity.
  - repeat constructor; discriminate.
  - vm_compute. reflexivity.
  - unfold sample_reads. apply List.Forall_forall. intros x Hx. apply repeat_spec in Hx as ->. reflexivity.
  - exists b, data, err. split; [exact E1|]. destruct err as [e|]; [apply (E2 e eq_refl)|exfalso; apply E3; [vm_compute; lia|reflexivity]].
Defined.

(** Trailers travel behind the body. *)
Example trailers_arrive :
  match serve false [HeaderSet (str "Trailer") (str "X-Sum, X-Unset"); CallWrite (str "data"); HeaderSet (str "X-Sum") (str "42");
                     HeaderSet (str "Trailer:X-Late") (str "7")] with
  | Some (w, Closed) =>
    match ReadResponse true false false 16384 (newStream (mkReader (o_written (w_str w)) EOF)) with
    | Some (_, Ok rr) =>
      match read_many 16384 (rr_body rr) sample_reads with
      | Some (b, data, Some (BadFrame (H3IO EOF))) =>
        same data (str "data") && bool_decide (s_Header (rr_response rr) !! str "X-Sum" = None)
        && match i_trailer (b_str b) with
           | Some t => bool_decide (t !! str "X-Sum" = Some [str "42"]) && bool_decide (t !! str "X-Late" = Some [str "7"])
           | None => false
           end
      | _ => false
      end
    | _ => false
    end
  | _ => false
  end = true.
Proof. vm_compute. reflexivity. Qed.
