(* ===== verification/Exchange.v ===== *)
(** * A request and its answer, over the wire

The handler of [internal/relay/server.go] and [access.go] as the calls it makes on
its response writer, and the whole exchange of a CONNECT-UDP request: the client's
fields in QPACK and frames ([Requests]), the relay's parser, its handler ([Server]),
its answer in fields and frames ([ResponseWriter]), and what [dial] of
[masque-go/client.go] makes of it ([Responses], [MasqueConn]), on a connection whose
settings came over the control stream ([ControlStream]). *)

From stdpp Require Import base gmap strings list numbers.
From Stdlib Require Import ZArith Lia.
From S2P Require Import Prelude.
From S2P Require Import GoStrings.
From S2P Require Import Netip.
From S2P Require Import TargetPolicy.
From S2P Require Import Sessions.
From S2P Require Import Base58.
From S2P Require Import AccessConfig.
From S2P Require Import Bolt.
From S2P Require Import Tickets.
From S2P Require Import Samples.
From S2P Require Import Authorize.
From S2P Require Import ProxyRequest.
From S2P Require Import Paths.
From S2P Require Import Certificate.
From S2P Require Import TicketService.
From S2P Require Import Server.
From S2P Require Import Startup.
From S2P Require Import MasqueConn.
From S2P Require Import Reach.
From S2P Require Import Quicvarint.
From S2P Require Import ControlStream.
From S2P Require Import Headers.
From S2P Require Import Requests.
From S2P Require Import ResponseWriter.
From S2P Require Import Responses.

Local Open Scope Z_scope.

(** ** The relay's answers *)

(** [http.Error] of the standard library. *)
Definition http_Error (text : gostring) (code : Z) : list call :=
  [HeaderDel (str "Content-Length"); HeaderSet (str "Content-Type") (str "text/plain; charset=utf-8");
   HeaderSet (str "X-Content-Type-Options") (str "nosniff"); CallWriteHeader code; CallWrite (text ++ [10])].

Definition accessError (status : Z) (code : gostring) : list call :=
  HeaderSet (str "Qortal-Relay-Error") code :: http_Error code status.

(** The JSON text of the challenge, whose quotes are bytes 34. *)
Definition challenge_text : gostring :=
  str "{" ++ [34] ++ str "type" ++ [34] ++ str ":" ++ [34] ++ str "masque-ticket-required-v1" ++ [34] ++ str "}".

(** What [authorize] does to the response. *)
Definition auth_calls (reply : auth_reply) : list call :=
  match reply with
  | Allowed _ None => []
  | Allowed _ (Some ms) => [HeaderSet (str "Qortal-Relay-Expires") (FormatInt ms)]
  | Rejected status code =>
    (if status =? 401 then [HeaderSet (str "Qortal-Relay-Challenge") challenge_text] else []) ++ accessError status code
  end.

(** A tunnel: the handler takes over the stream, then [ProxyConnectedSocket] of
[masque-go/proxy.go] does, which then sets its header, or finds the proxy closed. *)
Definition tunnel_calls (proxy_closed : bool) : list call :=
  CallHTTPStream ::
  if proxy_closed then [CallWriteHeader 503]
  else [CallHTTPStream; HeaderSet (str "Capsule-Protocol") (str "?1"); CallWriteHeader 200].

Section Answer.
  Context {B : Bucket} {Hs : Hashes} {C : Crypto} {T : Template}.

(** The calls of the handler, until datagrams flow; its branches are those of
[connect_udp]. *)
Definition connect_calls (mode : gostring) (policy : policy_id) (env : auth_env) (dial : AddrPort -> bool) (proxy_closed : bool)
  (s : relay) (a : option connectionAuthorization) (tickets : option ticketAuthority) (rq : connect_request) : list call :=
  let reply := snd (authorize mode policy env a tickets (cr_auth rq)) in
  auth_calls reply ++
  match reply with
  | Rejected _ _ => []
  | Allowed account _ =>
    if same (cr_Control rq) (str "authorize") then [CallWriteHeader 204]
    else match ParseProxyRequest (cr_http rq) with
    | Err _ => http_Error (str "invalid CONNECT-UDP request") 400
    | Ok proxyRequest =>
      match ParseAddrPort (pr_Target proxyRequest) with
      | None => accessError 403 (str "RELAY_TARGET_DENIED")
      | Some target =>
        let target := AddrPortFrom (Unmap (ap_addr target)) (ap_port target) in
        if negb (targetAllowed (r_targets s) target) then accessError 403 (str "RELAY_TARGET_DENIED")
        else
          let source := if negb (same account []) then str "account:" ++ account else sourceHost (cr_RemoteAddr rq) in
          if negb (snd (acquire (r_sessions s) source)) then HeaderSet (str "Retry-After") (str "5") :: accessError 429 (str "RELAY_FULL")
          else if negb (dial target) then http_Error (str "target unavailable") 502
          else tunnel_calls proxy_closed
      end
    end
  end.

(** The header values the handler reads. *)
Definition request_seen `{UrlLib} (sf : list gostring -> option sf_item) (remote : gostring) (q : http_Request) : connect_request :=
  {| cr_auth := {| hdr_Proof := Header_Get (q_Header q) (str "Qortal-Relay-Proof"); hdr_Renew := Header_Get (q_Header q) (str "Qortal-Relay-Renew");
                   hdr_Ticket := Header_Get (q_Header q) (str "Qortal-Relay-Ticket") |};
     cr_Control := Header_Get (q_Header q) (str "Qortal-Relay-Control"); cr_http := as_proxy_request sf q; cr_RemoteAddr := remote |}.

(** ** The status the client sees is the one the handler decided *)

Definition outcome_status (out : connect_outcome) : Z := match out with Responded status => status | Server.Tunnel _ _ => 200 end.
Definition is_tunnel (out : connect_outcome) : bool := match out with Server.Tunnel _ _ => true | _ => false end.

(** What the answers have in common: small headers of plain names, no Proxy-Status
and no Capsule-Protocol among those that are sent. *)
Record answer_ok (cs : list call) (status : Z) (taken : bool) : Prop := {
  an_calls : Forall call_ok cs;
  an_size : calls_size cs < 700;
  an_payload : total_payload cs < 2 ^ 20;
  an_status : rs_status (meaning cs) = Some status;
  an_taken : rs_taken (meaning cs) = taken;
  an_headers : let h := default (rs_header (meaning cs)) (rs_sent (meaning cs)) in
    h !! str "Proxy-Status" = None /\ h !! str "Capsule-Protocol" = None;
}.

(** The first calls of an answer, by [authorize]. *)
Definition expires_ok (reply : auth_reply) : Prop :=
  match reply with Allowed _ (Some ms) => 0 <= ms < 2 ^ 63 | _ => True end.

Lemma authorize_codes mode policy env a tickets r a' tickets' status code :
  authorize mode policy env a tickets r = (a', tickets', Rejected status code) ->
  (status, code) ∈ [(503, str "RELAY_AUTH_UNAVAILABLE"); (403, str "RELAY_PROOF_INVALID"); (401, str "RELAY_AUTH_REQUIRED"); (429, str "RELAY_AUTH_RATE_LIMITED")].
Proof.
  unfold authorize. split_if; [done|]. destruct a as [a0|], tickets as [t|]; try (intros [= _ _ <- <-]; repeat constructor).
  split_if; [intros [= _ _ <- <-]; repeat constructor|]. split_if; [done|]. split_if; [intros [= _ _ <- <-]; repeat constructor|].
  destruct (count_attempt a0) as [a1 [|]]; [intros [= _ _ <- <-]; repeat constructor|].
  destruct (redeem _ _ _ _) as [t' [[id until]|]]; [done|]. intros [= _ _ <- <-]. repeat constructor.
Qed.

(** Decides [call_ok] of constants. *)
Ltac known_calls :=
  repeat match goal with
  | |- Forall call_ok [] => constructor
  | |- Forall call_ok (_ :: _) => constructor
  | |- call_ok (HeaderSet _ _) => split; [known_key|repeat constructor; done]
  | |- call_ok (CallWriteHeader _) => cbn; lia
  | |- call_ok (CallWrite _) => repeat constructor; done
  | |- call_ok _ => exact I
  end.
Ltac known_answer :=
  unfold auth_calls, tunnel_calls, accessError, http_Error; cbn [app Z.eqb Pos.eqb];
  constructor; [known_calls|vm_compute; reflexivity|vm_compute; reflexivity|reflexivity|reflexivity|split; reflexivity].

Lemma expires_ok_call ms : 0 <= ms < 2 ^ 63 ->
  call_ok (HeaderSet (str "Qortal-Relay-Expires") (FormatInt ms)) /\ call_size (HeaderSet (str "Qortal-Relay-Expires") (FormatInt ms)) <= 116.
Proof.
  intros Hm. split; [split; [known_key|apply FormatInt_printable; lia]|]. cbn [call_size]. rewrite FormatInt_nonneg by lia.
  pose proof (FormatUint_len ms Hm). change (len (str "Qortal-Relay-Expires")) with 20. lia.
Qed.

(** An answer stays one after the header that [authorize] sets. *)
Lemma answer_after ms cs status taken : 0 <= ms < 2 ^ 63 -> answer_ok cs status taken -> calls_size cs < 500 ->
  let r := meaning (HeaderSet (str "Qortal-Relay-Expires") (FormatInt ms) :: cs) in
  rs_status r = Some status -> rs_taken r = taken ->
  (let h := default (rs_header r) (rs_sent r) in h !! str "Proxy-Status" = None /\ h !! str "Capsule-Protocol" = None) ->
  answer_ok (HeaderSet (str "Qortal-Relay-Expires") (FormatInt ms) :: cs) status taken.
Proof.
  intros Hm [A1 A2 A3 _ _ _] Hsz r R1 R2 R3. destruct (expires_ok_call ms Hm) as [E1 E2]. constructor; try done; [by constructor|cbn [calls_size]; lia].
Qed.
Ltac known_after :=
  unfold auth_calls, tunnel_calls, accessError, http_Error; cbn [app];
  apply answer_after; [done|known_answer|vm_compute; reflexivity|reflexivity|reflexivity|split; reflexivity].

Ltac by_expiry x := destruct x as [ms|]; [known_after|known_answer].

Lemma connect_answered mode policy env dial proxy_closed s a tickets rq :
  expires_ok (snd (authorize mode policy env a tickets (cr_auth rq))) ->
  let out := snd (connect_udp mode policy env dial s a tickets rq) in
  answer_ok (connect_calls mode policy env dial proxy_closed s a tickets rq) (outcome_status out) (is_tunnel out).
Proof.
  intros He out. unfold out, connect_udp, connect_admit, connect_dial, connect_calls. clear out. destruct (authorize mode policy env a tickets (cr_auth rq)) as [[a' tickets'] reply] eqn:Ea. cbn [snd] in He |- *.
  destruct reply as [account expires|status code].
  - destruct (same (cr_Control rq) (str "authorize")); [by_expiry expires|].
    destruct (ParseProxyRequest (cr_http rq)) as [pr|e]; [|by_expiry expires].
    destruct (ParseAddrPort (pr_Target pr)) as [t|]; [|by_expiry expires].
    destruct (targetAllowed _ _); cbn [negb]; [|by_expiry expires].
    destruct (acquire _ _) as [ss [|]]; cbn [snd negb]; [|by_expiry expires].
    destruct (dial _); cbn [negb]; [|by_expiry expires]. destruct proxy_closed; by_expiry expires.
  - apply authorize_codes in Ea. rewrite !elem_of_cons, elem_of_nil in Ea. destruct Ea as [[= -> ->]|[[= -> ->]|[[= -> ->]|[[= -> ->]|[]]]]]; known_answer.
Qed.

(** The refusals have error codes; only a request for nothing but authorization has a 204. *)
Definition refusals : list Z := [400; 401; 403; 429; 502; 503].
Definition only_authorizes mode policy env a tickets rq : Prop :=
  cr_Control rq = str "authorize" /\ exists account until, snd (authorize mode policy env a tickets (cr_auth rq)) = Allowed account until.

Lemma connect_statuses mode policy env dial s a tickets rq status :
  snd (connect_udp mode policy env dial s a tickets rq) = Responded status ->
  status ∈ refusals /\ ~ only_authorizes mode policy env a tickets rq
  \/ status = 204 /\ only_authorizes mode policy env a tickets rq.
Proof.
  unfold connect_udp, connect_admit, connect_dial, only_authorizes.
  destruct (authorize mode policy env a tickets (cr_auth rq)) as [[a' tickets'] [account until|st code]] eqn:Ea; cbn [snd].
  - destruct (same_spec (cr_Control rq) (str "authorize")) as [Hc|Hc]; [intros [= <-]; right; by eauto|].
    intros Hout. left. split; [|tauto]. revert Hout. destruct (ParseProxyRequest (cr_http rq)) as [pr|]; [|intros [= <-]; repeat constructor].
    destruct (ParseAddrPort (pr_Target pr)) as [t|]; [|intros [= <-]; repeat constructor].
    destruct (targetAllowed _ _); cbn [negb]; [|intros [= <-]; repeat constructor].
    destruct (acquire _ _) as [ss [|]]; [|intros [= <-]; repeat constructor]. destruct (dial _); cbn [negb snd]; [done|intros [= <-]; repeat constructor].
  - intros [= <-]. left. split; [|by intros (_ & ? & ? & ?)]. apply authorize_codes in Ea. rewrite !elem_of_cons, elem_of_nil in Ea.
    destruct Ea as [[= -> ->]|[[= -> ->]|[[= -> ->]|[[= -> ->]|[]]]]]; repeat constructor.
Qed.

(** Whether datagrams flow behind an answer that opened a tunnel is what the handler
tells its writer last. *)
Lemma connect_last mode policy env dial proxy_closed s a tickets rq :
  is_tunnel (snd (connect_udp mode policy env dial s a tickets rq)) = true ->
  List.last (connect_calls mode policy env dial proxy_closed s a tickets rq) CallFlush = CallWriteHeader (if proxy_closed then 503 else 200).
Proof.
  unfold connect_udp, connect_admit, connect_dial, connect_calls.
  destruct (authorize mode policy env a tickets (cr_auth rq)) as [[a' tickets'] [account until|st code]]; cbn [snd]; [|done].
  split_if; [done|]. destruct (ParseProxyRequest _) as [pr|]; [|done]. destruct (ParseAddrPort _) as [t|]; [|done].
  destruct (targetAllowed _ _); cbn [negb]; [|done]. destruct (acquire _ _) as [ss [|]]; cbn [snd negb]; [|done]. destruct (dial _); cbn [negb]; [|done].
  intros _. unfold tunnel_calls. destruct until, proxy_closed; reflexivity.
Qed.

End Answer.

(** ** The exchange *)

(** What else is on the stream: behind the request, and behind the answer if the
stream stays open. *)
Record link := { lk_rest : list Z; lk_end : io_error; lk_later : list Z; lk_later_end : io_error }.

Section Wire.
  Context `{Httpguts, Qpack, UrlLib, ResponseEnv} {Hguts : HttpgutsOk} {Hqp : QpackOk} {Henv : ResponseEnvOk}.

(** A request on its stream and back: whether it was sent, and the response.
[answer] are the calls of the handler. *)
Definition wire_exchange (disableCompression : bool) (q : http_Request) (order : list (gostring * list gostring)) (maxHeaderBytes : Z) (aware : bool)
  (answer : http_Request -> list call) (l : link) : bool * option http_Response :=
  match sendRequestHeader disableCompression q order with
  | Some (Ok b) =>
    (true,
     match handleRequestStream maxHeaderBytes aware (mkReader (b ++ lk_rest l) (lk_end l)) with
     | Some (Serving q' _ _, _) =>
       match serve (same (q_Method q') (str "HEAD")) (answer q') with
       | Some (w, fate) =>
         let r := match fate with
                  | HandedOver => mkReader (o_written (w_str w) ++ lk_later l) (lk_later_end l)
                  | _ => mkReader (o_written (w_str w)) EOF
                  end in
         match ReadResponse true (requests_gzip disableCompression q) (same (q_Method q) CONNECT) defaultMaxResponseHeaderBytes (newStream r) with
         | Some (_, Ok rr) => Some (rr_response rr)
         | _ => None
         end
       | None => None
       end
     | _ => None
     end)
  | _ => (false, None)
  end.

(** [handleUnidirectionalStream] and [handleControlStream] on a control stream, up to the
point where the settings are published; with the stream on which the loop goes on,
unless the connection was closed. *)
Definition settings_published (env : h3_env) (c : h3_conn) (str : reader) : option (h3_conn * option reader) :=
  match Quicvarint.Read str with
  | (Ok streamType, r) =>
    if negb (streamType =? streamTypeControlStream) || rcvdControlStr c then None
    else
      let c := set_rcvd c true (rcvdQPACKEncoderStr c) (rcvdQPACKDecoderStr c) in
      '(f, r) ← ParseNext r;
      match f with
      | Ok (SettingsFrame sf) =>
        let c := set_settings c {| EnableDatagrams := Datagram sf; EnableExtendedConnect := ExtendedConnect sf; OtherSettings := Other sf |} in
        Some (if Datagram sf then
                if enableDatagrams c && negb (SupportsDatagrams_Remote env) then (CloseWithError c ErrCodeSettingsError, None)
                else (start_receiving c, Some r)
              else (c, Some r))
      | _ => None
      end
  | _ => None
  end.

(** That is how handling the stream begins. *)
Lemma settings_published_first env c str c' rest : isServer c = false -> receivedSettings c = false ->
  settings_published env c str = Some (c', rest) ->
  handleUnidirectionalStream env c str
  = match rest with
    | Some r => client_control (S (length (rd_avail r))) (requests_active env) c' r
    | None => Some c'
    end.
Proof.
  intros Hi Hr. unfold settings_published, handleUnidirectionalStream. destruct (Quicvarint.Read str) as [[ty|] r]; [|done].
  destruct (ty =? streamTypeControlStream); [|done]. destruct (rcvdControlStr c); [done|]. cbn [negb orb]. cbv zeta. unfold handleControlStream.
  destruct (ParseNext r) as [[f r']|]; [|done]. cbn [mbind option_bind]. destruct f as [[| |sf| |]|]; try done.
  cbn [receivedSettings set_rcvd]. rewrite Hr. cbn [isServer set_settings set_rcvd enableDatagrams start_receiving]. rewrite Hi.
  destruct (Datagram sf); [destruct (_ && _)|]; by intros [= <- <-].
Qed.

(** [dial] on a connection [c] in whose life that exchange happens within the time of
the request.  If the connection is closed the wait may end with either of two channels
that are ready, as [choice] says, but no stream can be opened; nor after a GOAWAY.
[decode] is [httpsfv.UnmarshalItem] with the lookup of next-hop. *)
Definition wire_env (c : h3_conn) (choice : MasqueConn.settle) (decode : list gostring -> proxy_status) (service : gostring -> option Z)
  (x : bool * option http_Response) : dial_env :=
  let closed := negb (bool_decide (closes c = [])) in
  {| de_settle := match receivedSettings c, closed with
                  | true, false => SettingsReceived
                  | true, true => choice
                  | false, true => ConnectionDone
                  | false, false => RequestDone
                  end;
     de_extended := match settings c with Some s => EnableExtendedConnect s | None => false end;
     de_datagrams := match settings c with Some s => EnableDatagrams s | None => false end;
     de_open := negb closed && bool_decide (maxStreamID c = None); de_send := fst x;
     de_response := (fun r => (s_StatusCode r, match s_Header r !! str "Proxy-Status" with
                                               | Some (v :: vs) => decode (v :: vs)
                                               | _ => StatusAbsent
                                               end)) <$> snd x;
     de_service := service |}.

(** *** An answer, as the client reads it *)

Lemma answer_read cs status taken gzip isConnect l : answer_ok cs status taken -> is_bytes (lk_later l) ->
  exists w fate s rr, serve false cs = Some (w, fate)
    /\ ReadResponse true gzip isConnect defaultMaxResponseHeaderBytes (newStream (match fate with
         | HandedOver => mkReader (o_written (w_str w) ++ lk_later l) (lk_later_end l)
         | _ => mkReader (o_written (w_str w)) EOF end)) = Some (s, Ok rr)
    /\ s_StatusCode (rr_response rr) = status /\ s_Header (rr_response rr) !! str "Proxy-Status" = None
    /\ s_Header (rr_response rr) !! str "Capsule-Protocol" = None.
Proof.
  intros [A1 A2 A3 A4 A5 A6] Hl. destruct (serve_written (strict := false) cs A1 ltac:(done) ltac:(lia) ltac:(lia)) as (w & fate & st & h & n & ps & E & Hf & Hos & _). rewrite A5 in *.
  exists w, fate. assert (is_bytes (rs_body (meaning cs))) as Hb by (apply meaning_bytes; [done|constructor]).
  destruct Hos as [[O1 O1'] (h0 & O2 & O2') [O3 O3'] O4 O5 O6].
  assert (st = status) as ->.
  { assert (rs_status (if taken then meaning cs else send (settle (meaning cs) 200)) = Some status) as Es by (destruct taken; cbn; by rewrite A4). congruence. }
  assert (h0 = default (rs_header (meaning cs)) (rs_sent (meaning cs))) as Eh0.
  { destruct taken; cbn in O2; [by rewrite O2|congruence]. }
  assert (List.concat ps = rs_body (meaning cs)) as Ebody by (rewrite O5; by destruct taken).
  assert (is_bytes (data_frames ps)) as Hdf by (apply data_frames_bytes; by rewrite Ebody).
  assert (exists tail e, (match fate with HandedOver => mkReader (o_written (w_str w) ++ lk_later l) (lk_later_end l) | _ => mkReader (o_written (w_str w)) EOF end)
    = mkReader (header_frame (response_fields n status h) ++ tail) e /\ is_bytes tail) as (tail & e & -> & Ht).
  { destruct fate; eexists _, _; rewrite O6, <- ?app_assoc; (split; [reflexivity|]); [by apply Forall_app|done|done]. }
  destruct (ReadResponse_header gzip isConnect defaultMaxResponseHeaderBytes n status h tail e O3 O1' ltac:(lia) ltac:(unfold defaultMaxResponseHeaderBytes; lia) Ht)
    as (s & res & -> & Er & R1 & R2 & _).
  eexists _, _. split; [done|]. split; [exact Er|]. cbn [rr_response]. split; [done|]. rewrite R2, !present_lookup.
  rewrite !(proj1 O2') by (apply (bool_decide_eq_false_1 _); vm_compute; reflexivity). rewrite Eh0. destruct A6 as [-> ->]. done.
Qed.

End Wire.

(** ** A client, a relay and the wire between them *)

Section EndToEnd.
  Context {B : Bucket} {Hs : Hashes} {C : Crypto} {T : Template}.
  Context `{Httpguts, Qpack, UrlLib, ResponseEnv} {Hguts : HttpgutsOk} {Hqp : QpackOk} {Henv : ResponseEnvOk}.

(** The request as the client meant it: its headers, and the request of [NewRequest]. *)
Definition client_asks (headers : header_map) (remote : gostring) (r : http_request) : connect_request :=
  {| cr_auth := {| hdr_Proof := Header_Get headers (str "Qortal-Relay-Proof"); hdr_Renew := Header_Get headers (str "Qortal-Relay-Renew");
                   hdr_Ticket := Header_Get headers (str "Qortal-Relay-Ticket") |};
     cr_Control := Header_Get headers (str "Qortal-Relay-Control"); cr_http := r; cr_RemoteAddr := remote |}.

(** Header values survive as [Get] reads them. *)
Lemma Get_carried (h h' : header_map) k : CanonicalMIMEHeaderKey k ∉ added_keys -> (forall k, k ∉ added_keys -> h' !! k = present h !! k) -> Header_Get h' k = Header_Get h k.
Proof. intros Hk Hc. unfold Header_Get. rewrite Hc, present_lookup by done. by destruct (h !! CanonicalMIMEHeaderKey k) as [[|]|]. Qed.

Lemma NewRequest_shape host_of t r : NewRequest host_of t = Some r ->
  r = {| hr_Method := str "CONNECT"; hr_Proto := requestProtocol; hr_Host := hr_Host r; hr_capsule := Some (Some (SFBool true)); hr_URL := hr_URL r |}.
Proof.
  unfold NewRequest. intros Hr. apply bind_Some in Hr as ([host port] & _ & Hr). apply bind_Some in Hr as (url & _ & Hr). apply bind_Some in Hr as (h & _ & [= <-]). done.
Qed.

(** A request the client can put on the wire: for [u], with its headers, within the
limit of the relay. *)
Record can_send (disableCompression : bool) (sf : list gostring -> option sf_item) (r : http_request) (u : URL) (headers : header_map)
  (order : list (gostring * list gostring)) (maxHeaderBytes : Z) : Prop := {
  cs_url : URL_String u = hr_URL r /\ u_Host u = hr_Host r /\ url_sendable u;
  cs_order : Forall plain_entry order /\ order ≡ₚ map_to_list headers;
  cs_capsule : headers !! str "Capsule-Protocol" = Some [str "?1"] /\ sf [str "?1"] = Some (SFBool true);
  cs_limit : 0 < maxHeaderBytes < 2 ^ 14;
  cs_fits : let fields := pseudo_fields u ++ regular_fields order (requests_gzip disableCompression (udp_request u headers)) in
    total_size fields <= maxHeaderBytes /\ len (qpack_Encode fields) <= maxHeaderBytes;
}.

(** The relay's handler acts on the request the client meant. *)
Lemma request_meant disableCompression sf r u headers order maxHeaderBytes aware rest e host_of t remote :
  can_send disableCompression sf r u headers order maxHeaderBytes -> NewRequest host_of t = Some r -> is_bytes rest ->
  exists b q' p aware', sendRequestHeader disableCompression (udp_request u headers) order = Some (Ok b)
    /\ handleRequestStream maxHeaderBytes aware (mkReader (b ++ rest) e) = Some (Serving q' (-1) p, aware')
    /\ q_Method q' = CONNECT /\ request_seen sf remote q' = client_asks headers remote r.
Proof.
  intros [(U1 & U2 & U3) [O1 O2] [K1 K2] L [F1 F2]] Hr Hrest.
  destruct (request_carried disableCompression u headers order maxHeaderBytes aware rest e U3 O1 O2 L F1 F2 Hrest) as (b & q' & p & aware' & E1 & E2 & Q1 & Q2 & Q3 & Q4 & Q5).
  exists b, q', p, aware'. do 3 (split; [done|]). unfold request_seen, client_asks.
  rewrite !(Get_carried headers (q_Header q')) by (done || (apply (bool_decide_eq_false_1 _); vm_compute; reflexivity)). f_equal.
  rewrite (NewRequest_shape _ _ _ Hr). unfold as_proxy_request. rewrite Q1, Q2, Q3, Q4, Q5 by (apply (bool_decide_eq_false_1 _); vm_compute; reflexivity).
  rewrite present_lookup, K1, U1, U2. cbn [fmap option_fmap option_map]. by rewrite K2.
Qed.

(** A client that has read the settings on the relay's control stream knows them; it
has closed the connection if QUIC gives it no datagrams. *)
Lemma settings_known henv maxHeaderBytes rest e : 0 < maxHeaderBytes < 2 ^ 14 -> is_bytes rest ->
  exists b c more, openControlStream (Server_settings maxHeaderBytes true ∅) [] [] = Some b
    /\ settings_published henv (newRawConn false true) (mkReader (b ++ rest) e) = Some (c, more)
    /\ receivedSettings c = true /\ settings c = Some {| EnableDatagrams := true; EnableExtendedConnect := true; OtherSettings := ∅ |}
    /\ maxStreamID c = None /\ closes c = (if SupportsDatagrams_Remote henv then [] else [ErrCodeSettingsError]).
Proof.
  intros Hm Hr. set (f := Server_settings maxHeaderBytes true ∅). assert (MaxFieldSectionSize f = maxHeaderBytes) as Ef.
  { unfold f, Server_settings, Server_maxHeaderBytes. cbn. split_if; breflect; [lia|done]. }
  assert (is_varint maxHeaderBytes) as Hv by (unfold is_varint, maxVarInt8; lia).
  assert (settings_wf f) as Hwf by (constructor; [right; by rewrite Ef|apply map_Forall_empty]).
  assert (len (settings_payload f []) <= maxSettingsFrameSize) as Hl.
  { unfold settings_payload, known_pairs, max_pairs. rewrite Ef, Z.geb_leb, (proj2 (Z.leb_le 0 maxHeaderBytes)) by lia. cbn [app Datagram ExtendedConnect f Server_settings].
    unfold pairs_enc. cbn [flat_map fst snd]. rewrite !len_app. pose proof (vlen_range maxHeaderBytes Hv). unfold vlen in *.
    change (len (venc settingMaxFieldSectionSize)) with 1. change (len (venc settingDatagram)) with 1. change (len (venc settingExtendedConnect)) with 1.
    change (len (venc 1)) with 1. change (len (@nil Z)) with 0. unfold maxSettingsFrameSize. lia. }
  exists (venc 0 ++ venc 4 ++ venc (len (settings_payload f [])) ++ settings_payload f []).
  assert (openControlStream f [] [] = Some (venc 0 ++ venc 4 ++ venc (len (settings_payload f [])) ++ settings_payload f [])) as ->.
  { unfold openControlStream. rewrite Append_venc by (by split; discriminate). cbn [mbind option_bind]. by apply settings_Append_enc. }
  rewrite <- !app_assoc. unfold settings_published. rewrite Read_venc; [|by split; discriminate|by apply control_bytes].
  change (0 =? streamTypeControlStream) with true. cbn [negb orb rcvdControlStr newRawConn]. cbv zeta.
  rewrite (ParseNext_settings f [] []) by done. cbn [mbind option_bind Datagram f Server_settings andb enableDatagrams set_settings set_rcvd newRawConn].
  destruct (SupportsDatagrams_Remote henv); by eexists _, _.
Qed.

(** What the client makes of the relay's decision. *)
Definition dialled_as (target : gostring) (out : connect_outcome) : result dial_error remote_addr :=
  match out with
  | Server.Tunnel _ _ => Ok (RemoteTarget target)
  | Responded status => if status =? 204 then Ok (RemoteTarget target) else Err (ServerResponded status)
  end.

(** The client's [dial], from the settings to the answer. *)
Lemma dial_answered c choice decode service x req url status : receivedSettings c = true ->
  settings c = Some {| EnableDatagrams := true; EnableExtendedConnect := true; OtherSettings := ∅ |} -> maxStreamID c = None -> closes c = [] ->
  fst x = true -> (exists r, snd x = Some r /\ s_StatusCode r = status /\ s_Header r !! str "Proxy-Status" = None) ->
  dr_URL req = Some url -> dr_Host req <> [] ->
  snd (MasqueConn.dial (wire_env c choice decode service x) req)
  = if (200 <=? status) && (status <=? 299) then Ok (RemoteTarget (dr_target req)) else Err (ServerResponded status).
Proof.
  intros C1 C2 C3 C4 X1 (r & X2 & X3 & X4) R1 R2. unfold MasqueConn.dial, wire_env. rewrite R1, C1, C2, C3, C4, X1, X2.
  destruct (same_spec (dr_Host req) []); [done|]. cbn [andb negb bool_decide decide_rel de_settle de_extended de_datagrams de_open de_send de_response EnableExtendedConnect EnableDatagrams fmap option_fmap option_map].
  change (bool_decide (@nil Z = [])) with true. change (bool_decide (@None Z = None)) with true. cbn [negb andb].
  rewrite X3, X4. destruct (Z.ltb_spec status 200), (Z.gtb_spec status 299); cbn [orb]; rewrite ?(proj2 (Z.leb_gt 200 status)), ?(proj2 (Z.leb_gt status 299)),
    ?(proj2 (Z.leb_le 200 status)), ?(proj2 (Z.leb_le status 299)) by lia; done.
Qed.

Lemma dial_closed c choice decode service x req url : receivedSettings c = true ->
  settings c = Some {| EnableDatagrams := true; EnableExtendedConnect := true; OtherSettings := ∅ |} -> closes c <> [] ->
  dr_URL req = Some url -> dr_Host req <> [] ->
  snd (MasqueConn.dial (wire_env c choice decode service x) req)
  = Err (match choice with SettingsReceived => OpenStreamFailed | RequestDone => RequestContextDone | ConnectionDone => ConnectionContextDone end).
Proof.
  intros C1 C2 C4 R1 R2. unfold MasqueConn.dial, wire_env. rewrite R1, C1, C2, (bool_decide_eq_false_2 _ C4).
  destruct (same_spec (dr_Host req) []); [done|]. cbn. by destruct choice.
Qed.

(** The whole exchange on a connection that is open. *)
Lemma dial_over_wire host_of t r url disableCompression sf u headers order maxHeaderBytes aware l mode policy aenv dialudp proxy_closed s a tickets remote
  c choice decode service target :
  NewRequest host_of t = Some r -> can_send disableCompression sf r u headers order maxHeaderBytes -> is_bytes (lk_rest l) -> is_bytes (lk_later l) ->
  let rq := client_asks headers remote r in
  expires_ok (snd (authorize mode policy aenv a tickets (cr_auth rq))) ->
  receivedSettings c = true -> settings c = Some {| EnableDatagrams := true; EnableExtendedConnect := true; OtherSettings := ∅ |} ->
  maxStreamID c = None -> closes c = [] ->
  snd (MasqueConn.dial (wire_env c choice decode service (wire_exchange disableCompression (udp_request u headers) order maxHeaderBytes aware
        (fun q => connect_calls mode policy aenv dialudp proxy_closed s a tickets (request_seen sf remote q)) l))
        {| dr_URL := Some url; dr_Host := hr_Host r; dr_target := target |})
  = dialled_as target (snd (connect_udp mode policy aenv dialudp s a tickets rq)).
Proof.
  intros Hr Hsend Hrest Hlater rq He C1 C2 C3 C4.
  destruct (request_meant disableCompression sf r u headers order maxHeaderBytes aware (lk_rest l) (lk_end l) _ _ remote Hsend Hr Hrest) as (rb & q' & p & aware' & E1 & E2 & E3 & E4).
  pose proof (connect_answered mode policy aenv dialudp proxy_closed s a tickets rq He) as Hans. cbv zeta in Hans.
  pose proof (connect_statuses mode policy aenv dialudp s a tickets rq) as Hst. set (out := snd (connect_udp mode policy aenv dialudp s a tickets rq)) in *.
  destruct (answer_read _ _ _ (requests_gzip disableCompression (udp_request u headers)) (same (q_Method (udp_request u headers)) CONNECT) l Hans Hlater)
    as (w & fate & s' & rr & W1 & W2 & W3 & W4 & _).
  unfold wire_exchange. rewrite E1, E2, E3, E4. fold rq. change (same CONNECT (str "HEAD")) with false. rewrite W1. cbv zeta. rewrite W2.
  erewrite dial_answered; [|done..|by exists (rr_response rr)|done|].
  2: { cbn [dr_Host]. destruct Hsend as [(_ & <- & [_ (Hne & _) _ _ _]) _ _ _ _]. exact Hne. }
  unfold dialled_as. destruct out as [status|]; cbn [outcome_status dr_target]; [|done].
  destruct (Hst status eq_refl) as [[Hin _]|[-> _]]; [|done].
  unfold refusals in Hin. rewrite !elem_of_cons, elem_of_nil in Hin. destruct Hin as [->|[->|[->|[->|[->|[->|[]]]]]]]; done.
Qed.

(** C5: what the relay decides is what the client gets, over the wire.  A client reads
the relay's settings on the control stream and sends a CONNECT-UDP request for a
target, with headers of its choice: the bytes of its request, parsed by the relay, make
the handler act on exactly that request, and the bytes of the handler's answer, parsed
by the client, give [dial] its result.  It fails with the status of a refusal.  It
succeeds in two cases: the handler opened a tunnel; or the client, which was authorized,
had asked for nothing else, and the answer is a 204.  In the first case datagrams flow
unless the proxy was closed in between: then the client is told 200 nonetheless, since
the 503 of the handler comes after the header was sent.  If QUIC has no datagrams the
client has closed the connection, and [dial] fails.  Once authorized, the tunnel leads
to the very endpoint the client named, if the policy permits it, a session is free and
the socket opens. *)
Theorem connect_over_wire parse_url authority (law : template_law parse_url authority T) t r url disableCompression sf u headers order maxHeaderBytes
  aware l henv crest ce choice mode policy aenv dialudp proxy_closed s a tickets remote decode service :
  target_ok t -> NewRequest (fun x => du_Host <$> parse_url x) (AddrPort_String t) = Some r -> parse_url (hr_URL r) = Some url ->
  can_send disableCompression sf r u headers order maxHeaderBytes -> is_bytes (lk_rest l) -> is_bytes (lk_later l) -> is_bytes crest ->
  let rq := client_asks headers remote r in
  expires_ok (snd (authorize mode policy aenv a tickets (cr_auth rq))) ->
  let out := snd (connect_udp mode policy aenv dialudp s a tickets rq) in
  let answer q := connect_calls mode policy aenv dialudp proxy_closed s a tickets (request_seen sf remote q) in
  (exists b c more, openControlStream (Server_settings maxHeaderBytes true ∅) [] [] = Some b
    /\ settings_published henv (newRawConn false true) (mkReader (b ++ crest) ce) = Some (c, more)
    /\ snd (MasqueConn.dial (wire_env c choice decode service (wire_exchange disableCompression (udp_request u headers) order maxHeaderBytes aware answer l))
          {| dr_URL := Some url; dr_Host := hr_Host r; dr_target := AddrPort_String t |})
       = if SupportsDatagrams_Remote henv then dialled_as (AddrPort_String t) out
         else Err (match choice with SettingsReceived => OpenStreamFailed | RequestDone => RequestContextDone | ConnectionDone => ConnectionContextDone end))
  /\ (out = Responded 204 -> only_authorizes mode policy aenv a tickets rq)
  /\ (is_tunnel out = true ->
      List.last (connect_calls mode policy aenv dialudp proxy_closed s a tickets rq) CallFlush = CallWriteHeader (if proxy_closed then 503 else 200))
  /\ forall a' tickets' account until, authorize mode policy aenv a tickets (cr_auth rq) = (a', tickets', Allowed account until) -> cr_Control rq <> str "authorize" ->
     let target := AddrPortFrom (Unmap (ap_addr t)) (ap_port t) in
     let source := if negb (same account []) then str "account:" ++ account else sourceHost remote in
     out = if negb (targetAllowed (r_targets s) target) then Responded 403
           else if negb (snd (acquire (r_sessions s) source)) then Responded 429
           else if negb (dialudp target) then Responded 502
           else Server.Tunnel source target.
Proof.
  intros Ht Hr Hurl Hsend Hrest Hlater Hcrest rq He out answer. split_and!.
  - destruct (settings_known henv maxHeaderBytes crest ce (cs_limit _ _ _ _ _ _ _ Hsend) Hcrest) as (b & c & more & Eb & Ec & C1 & C2 & C3 & C4).
    exists b, c, more. split; [done|]. split; [done|]. destruct (SupportsDatagrams_Remote henv); [by eapply dial_over_wire|].
    eapply dial_closed; [done|done|by rewrite C4|done|]. destruct Hsend as [(_ & <- & [_ (Hne & _) _ _ _]) _ _ _ _]. exact Hne.
  - intros Ho. destruct (connect_statuses _ _ _ _ _ _ _ _ _ Ho) as [[Hin _]|[_ ?]]; [|done]. exfalso. revert Hin. apply (bool_decide_eq_false_1 _). vm_compute. reflexivity.
  - apply connect_last.
  - intros a' tickets' account until Ha Hc. destruct (request_understood parse_url authority law t Ht) as (r' & url' & Hr' & _ & _ & _ & _ & Hp). rewrite Hr in Hr'. injection Hr' as <-.
    exact (connect_outcome_table mode policy aenv dialudp s a tickets rq a' tickets' account until t authority Ht Ha Hc Hp).
Qed.

End EndToEnd.

(** ** From the announcement to a tunnel *)

(** The headers of the request [internal/masque/client.go] sends. *)
Definition client_headers : header_map := {[ str "Capsule-Protocol" := [str "?1"] ]}.
Definition client_order : list (gostring * list gostring) := [(str "Capsule-Protocol", [str "?1"])].

Section FromStart.
  Context {B : Bucket} {Hs : Hashes} {HO : HashesOk Hs} {C : Crypto} {X : X509} {XO : X509Ok X} {T : Template}.
  Context `{Httpguts, Qpack, UrlLib, ResponseEnv} {Hguts : HttpgutsOk} {Hqp : QpackOk} {Henv : ResponseEnvOk}.
  Context (url_Parse : gostring -> option url) (template_ok : gostring -> bool).

End FromStart.

(** ** Finding: the header of a tunnel *)

(** [HTTPStream] sends the response header, so what [ProxyConnectedSocket] does to
the writer after it has no effect.  Whenever the handler opens a tunnel the client
reads a 200 without the Capsule-Protocol header that is set for it, and that even
if the proxy was closed in between and the handler answers 503; the stream is left
to whoever took it over. *)
Theorem tunnel_header_lost {B : Bucket} {Hs : Hashes} {C : Crypto} {T : Template}
  `{Httpguts, Qpack, ResponseEnv} {Hguts : HttpgutsOk} {Hqp : QpackOk} {Henv : ResponseEnvOk}
  mode policy env dial proxy_closed s a tickets rq gzip later e : is_bytes later ->
  expires_ok (snd (authorize mode policy env a tickets (cr_auth rq))) ->
  is_tunnel (snd (connect_udp mode policy env dial s a tickets rq)) = true ->
  exists w st rr, serve false (connect_calls mode policy env dial proxy_closed s a tickets rq) = Some (w, HandedOver)
    /\ ReadResponse true gzip true defaultMaxResponseHeaderBytes (newStream (mkReader (o_written (w_str w) ++ later) e)) = Some (st, Ok rr)
    /\ s_StatusCode (rr_response rr) = 200 /\ s_Header (rr_response rr) !! str "Capsule-Protocol" = None.
Proof.
  intros Hl He Ht. pose proof (connect_answered mode policy env dial proxy_closed s a tickets rq He) as Hans. cbv zeta in Hans.
  set (l := {| lk_rest := []; lk_end := EOF; lk_later := later; lk_later_end := e |}).
  destruct (answer_read _ _ _ gzip true l Hans Hl) as (w & fate & st & rr & W1 & W2 & W3 & _ & W5).
  destruct Hans as [A1 A2 A3 _ A5 _]. destruct (serve_written (strict := false) _ A1 ltac:(done) ltac:(lia) ltac:(lia)) as (w' & fate' & _ & _ & _ & _ & E & Hf & _).
  rewrite W1 in E. injection E as <- <-. rewrite A5, Ht in Hf. subst fate. exists w, st, rr. split; [done|]. split; [exact W2|]. split; [|done].
  rewrite W3. by destruct (snd (connect_udp _ _ _ _ _ _ _ _)).
Qed.

(** ** A concrete exchange *)

#[local] Existing Instance sample_qpack.
#[local] Existing Instance sample_guts.
#[local] Existing Instance sample_urls.
#[local] Existing Instance sample_response_env.
#[local] Existing Instance reach_template.

Definition exchange_url : URL :=
  {| u_Scheme := str "https"; u_Host := reach_authority; u_rest := str "/.well-known/masque/udp/1.1.1.1/53/" |}.
Definition exchange_http : http_request :=
  {| hr_Method := str "CONNECT"; hr_Proto := requestProtocol; hr_Host := reach_authority; hr_capsule := Some (Some (SFBool true));
     hr_URL := str "https://9.9.9.9:443/.well-known/masque/udp/1.1.1.1/53/" |}.
Definition exchange_link : link := {| lk_rest := [0; 0]; lk_end := EOF; lk_later := [0; 0]; lk_later_end := ErrIO 7 |}.
Definition exchange_henv : h3_env := {| SupportsDatagrams_Remote := true; requests_active := fun _ => true |}.
Definition exchange_auth : auth_env := {| a_now := 0; a_redeem := sample_redeem 0 |}.

Lemma exchange_can_send : can_send false sample_sf exchange_http exchange_url sample_headers sample_order 8192.
Proof.
  constructor.
  - split; [reflexivity|]. split; [reflexivity|]. constructor; [done| |done| |done].
    + split; [done|]. split; [repeat constructor; done|done].
    + split; [repeat constructor; done|]. by eexists.
  - split; [apply sample_order_plain|apply sample_order_ok].
  - by split.
  - done.
  - split; vm_compute; discriminate.
Qed.

(** The public relay lets the client through, the same client finds it full, and one
without datagrams gets nowhere. *)
Lemma connect_over_wire_witness :
  exists c c' c'', (let answer s := fun q => connect_calls public sample_policy exchange_auth (fun _ => true) false s None None (request_seen sample_sf (str "198.51.100.7:5000") q) in
    let req := {| dr_URL := reach_url []; dr_Host := reach_authority; dr_target := str "1.1.1.1:53" |} in
    let x s := wire_exchange false (udp_request exchange_url sample_headers) sample_order 8192 true (answer s) exchange_link in
    let full := set_sessions sample_relay (fst (acquire (r_sessions sample_relay) (str "198.51.100.7"))) in
    let dial c s := snd (MasqueConn.dial (wire_env c ConnectionDone (fun _ => StatusBad) (fun _ => None) (x s)) req) in
    dial c sample_relay = Ok (RemoteTarget (str "1.1.1.1:53")) /\ dial c' full = Err (ServerResponded 429)
    /\ dial c'' sample_relay = Err ConnectionContextDone).
Proof.
  pose proof sample_guts_ok. pose proof sample_qpack_ok. pose proof sample_response_env_ok.
  pose proof (fun henv s => connect_over_wire reach_url reach_authority reach_law reach_target exchange_http {| du_Host := reach_authority; du_Hostname := str "9.9.9.9"; du_Port := str "443" |}
    false sample_sf exchange_url sample_headers sample_order 8192 true exchange_link henv [] EOF ConnectionDone public sample_policy exchange_auth (fun _ => true) false s None None
    (str "198.51.100.7:5000") (fun _ => StatusBad) (fun _ => None)
    ltac:(split; [cbn; lia|]; split; [reflexivity|]; split; [reflexivity|cbn; lia]) ltac:(vm_compute; reflexivity) ltac:(reflexivity) exchange_can_send
    ltac:(repeat constructor; done) ltac:(repeat constructor; done) ltac:(constructor) I) as Hw.
  destruct (Hw exchange_henv sample_relay) as [(b & c & m & _ & _ & E) _].
  destruct (Hw exchange_henv (set_sessions sample_relay (fst (acquire (r_sessions sample_relay) (str "198.51.100.7"))))) as [(b' & c' & m' & _ & _ & E') _].
  destruct (Hw {| SupportsDatagrams_Remote := false; requests_active := fun _ => true |} sample_relay) as [(b'' & c'' & m'' & _ & _ & E'') _].
  exists c, c', c''. cbv zeta. split; [exact E|]. split; [exact E'|exact E''].
Defined.

(** The relay of [Startup]'s sample, and a connection to it that is authorized. *)
#[local] Existing Instance sample_x509.
#[local] Existing Instance sample_x509_ok.

Definition reach_authorized : connectionAuthorization :=
  {| has_conn := true; authorizedUntil := 10; address := [97]; Authorize.timer := None; attempts := 1; timerGeneration := 1 |}.
Definition reach_bytes : list Z := default [] (openControlStream (Server_settings 8192 true ∅) [] []).
Definition reach_conn : h3_conn :=
  match settings_published exchange_henv (newRawConn false true) (mkReader reach_bytes EOF) with Some (c, _) => c | None => newRawConn false true end.

Lemma client_can_send : can_send false sample_sf exchange_http exchange_url client_headers client_order 8192.
Proof.
  destruct exchange_can_send as [H1 _ _ H4 _]. constructor; [done| | |done|].
  - split; [|unfold client_headers; by rewrite map_to_list_singleton].
    constructor; [|constructor]. split; [done|]. do 2 (split; [reflexivity|]). split;
      [apply (bool_decide_eq_false_1 _); vm_compute; reflexivity|repeat constructor; done].
  - split; [by vm_compute|by vm_compute].
  - split; vm_compute; discriminate.
Qed.

Lemma reach_allowed policy t remote :
  authorize groups policy exchange_auth (Some reach_authorized) (Some t) (cr_auth (client_asks client_headers remote exchange_http))
  = (Some reach_authorized, Some t, Allowed [97] (Some 0)).
Proof.
  set (r := cr_auth (client_asks client_headers remote exchange_http)).
  assert (hdr_Proof r = [] /\ same (hdr_Renew r) (str "1") = false) as [E1 E2] by (split; vm_compute; reflexivity).
  unfold authorize. rewrite E1, E2. reflexivity.
Qed.

