(* ===== verification/Uploads.v ===== *)
(** * HTTP/3 requests: bodies

[sendRequestBody] of [third_party/quic-go/http3/client.go] and the goroutine of
[doRequest] that calls it: the body a client sends with a request, the limit of its
Content-Length, and what the server is shown when the source of the body fails.
[upload_arrives] says which bodies arrive, and that no other ends cleanly. *)

From stdpp Require Import base gmap list numbers.
From Stdlib Require Import ZArith Lia String.
From S2P Require Import Prelude.
From S2P Require Import GoStrings.
From S2P Require Import Quicvarint.
From S2P Require Import ControlStream.
From S2P Require Import Headers.
From S2P Require Import Requests.
From S2P Require Import ResponseWriter.
From S2P Require Import Responses.

Local Open Scope Z_scope.

Definition bodyCopyBufferSize : Z := 8 * 1024.

(** A body on its way: its source, how often that was read, the stream, and the codes
with which writing was cancelled. *)
Record upload := { u_src : reader; u_reads : nat; u_out : out_stream; u_cancels : list Z }.
Definition set_source (u : upload) (r : reader) : upload :=
  {| u_src := r; u_reads := S (u_reads u); u_out := u_out u; u_cancels := u_cancels u |}.
Definition set_out (u : upload) (o : out_stream) : upload :=
  {| u_src := u_src u; u_reads := u_reads u; u_out := o; u_cancels := u_cancels u |}.

(** [CancelWrite]: the stream is reset and takes nothing more. *)
Definition CancelWrite (u : upload) (code : Z) : upload :=
  {| u_src := u_src u; u_reads := u_reads u; u_out := {| o_written := o_written (u_out u); o_room := Some 0 |}; u_cancels := u_cancels u ++ [code] |}.

Inductive upload_error := SourceFailed (e : io_error) | WriteFailed | WrongLength.

Section Upload.
  Context `{Httpguts, Qpack, ResponseEnv}.
  Variable how : nat -> arrival.      (** how the reads of the source go *)

(** [cancelingReader.Read] *)
Definition cancelingReader_Read (u : upload) (size : Z) : upload * list Z * option io_error :=
  let '(data, err, r) := raw_Read (u_src u) size (how (u_reads u)) in
  let u := set_source u r in
  (match err with
   | Some EOF | None => u
   | Some _ => CancelWrite u ErrCodeRequestCanceled
   end, data, err).

(** [LimitedReader.Read] *)
Definition limited_Read (limit : option Z) (u : upload) (size : Z) : upload * list Z * option io_error :=
  match limit with
  | Some n => if n <=? 0 then (u, [], Some EOF) else cancelingReader_Read u (if size >? n then n else size)
  | None => cancelingReader_Read u size
  end.

(** [io.CopyBuffer] to the stream, or to [io.Discard]: the bytes copied, and the
error; the end of the source is none. *)
Definition emit (discard : bool) (u : upload) (data : list Z) : option (upload * Z * bool) :=
  if len data =? 0 then Some (u, 0, true)
  else if discard then Some (u, len data, true)
  else '(o, n, ok) ← Stream_Write (u_out u) data; Some (set_out u o, n, ok).
Fixpoint CopyBuffer (fuel : nat) (discard : bool) (limit : option Z) (u : upload) : option (upload * Z * option upload_error) :=
  match fuel with
  | O => None
  | S fuel =>
    let '(u, data, err) := limited_Read limit u bodyCopyBufferSize in
    '(u, n, ok) ← emit discard u data;
    if negb (ok : bool) then Some (u, n, Some WriteFailed)
    else match err with
    | Some EOF => Some (u, n, None)
    | Some e => Some (u, n, Some (SourceFailed e))
    | None =>
      '(u, more, err) ← CopyBuffer fuel discard (option_map (fun l => l - len data) limit) u;
      Some (u, n + more, err)
    end
  end.
Definition copy_fuel (u : upload) : nat := S (List.length (rd_avail (u_src u))).

Definition sendRequestBody (contentLength : Z) (u : upload) : option (upload * option upload_error) :=
  if contentLength =? -1 then
    '(u, _, err) ← CopyBuffer (copy_fuel u) false None u;
    Some (u, err)
  else
    '(u, n, err) ← CopyBuffer (copy_fuel u) false (Some contentLength) u;
    match err with
    | Some e => Some (u, Some e)
    | None =>
      '(u, extra, err) ← CopyBuffer (copy_fuel u) true None u;
      if n + extra >? contentLength then Some (CancelWrite u ErrCodeRequestCanceled, Some WrongLength)
      else Some (u, err)
    end.

(** The goroutine of [doRequest]: the body, the trailers, then [Close], which does
nothing to a stream that was reset. *)
Definition send_request_body (ContentLength : Z) (Trailer : header_map) (u : upload) : option (upload * stream_fate) :=
  let contentLength := if ContentLength >? 0 then ContentLength else -1 in
  '(u, err) ← sendRequestBody contentLength u;
  u ← (match err with
       | Some _ => Some u
       | None =>
         if bool_decide (Trailer = ∅) then Some u
         else '(o, _, _) ← writeTrailers 0 (u_out u) Trailer; Some (set_out u o)
       end);
  Some (u, match u_cancels u with [] => Closed | code :: _ => Reset code end).

(** ** What is copied *)

(** A read took [data] from the source; without an error it gave something, the end
is that of the source or of a limit ([cut]), and any other error cancelled writing. *)
Definition read_piece (cut : Prop) (u u' : upload) (data : list Z) (err : option io_error) : Prop :=
  rd_avail (u_src u) = data ++ rd_avail (u_src u') /\ rd_end (u_src u') = rd_end (u_src u)
  /\ match err with
     | None => u_out u' = u_out u /\ u_cancels u' = u_cancels u /\ data <> []
     | Some EOF => u_out u' = u_out u /\ u_cancels u' = u_cancels u /\ (cut \/ rd_end (u_src u) = EOF /\ rd_avail (u_src u') = [])
     | Some e => rd_end (u_src u) = e /\ rd_avail (u_src u') = [] /\ u_out u' = {| o_written := o_written (u_out u); o_room := Some 0 |}
                 /\ u_cancels u' = u_cancels u ++ [ErrCodeRequestCanceled]
     end.

Lemma canceling_piece u size : is_bytes (rd_avail (u_src u)) -> 0 < size ->
  let '(u', data, err) := cancelingReader_Read u size in read_piece False u u' data err /\ len data <= size.
Proof.
  intros Hb Hs. unfold cancelingReader_Read. pose proof (raw_Read_ok (u_src u) size (how (u_reads u)) Hb ltac:(lia)) as Hraw.
  destruct (raw_Read (u_src u) size (how (u_reads u))) as [[data err] [avail' e']]. cbn in Hraw. destruct Hraw as (W1 & W2 & W3 & W4 & W5). split; [|done].
  unfold read_piece. destruct err as [e|]; [|cbn; split_and!; try done; by apply W4]. destruct (W5 e eq_refl) as [-> Ha].
  destruct (rd_end (u_src u)) eqn:Ee; cbn; split_and!; try done. right. by split.
Qed.

Lemma limited_piece limit u : is_bytes (rd_avail (u_src u)) ->
  let '(u', data, err) := limited_Read limit u bodyCopyBufferSize in
  read_piece (exists n, limit = Some n /\ n <= 0 /\ data = []) u u' data err /\ (forall n, limit = Some n -> 0 <= n -> len data <= n).
Proof.
  intros Hb. assert (forall size P, 0 < size -> (forall n, limit = Some n -> size <= n) ->
    let '(u', data, err) := cancelingReader_Read u size in read_piece (P data) u u' data err /\ (forall n, limit = Some n -> 0 <= n -> len data <= n)) as Hc.
  { intros size P Hs Hn. pose proof (canceling_piece u size Hb Hs) as Hp. destruct (cancelingReader_Read u size) as [[u' data] err]. destruct Hp as [(P1 & P2 & P3) Hl].
    split; [|intros n E _; specialize (Hn n E); lia]. split; [done|]. split; [done|]. destruct err as [[]|]; try done. destruct P3 as (? & ? & [[]|?]). split_and!; [done|done|by right]. }
  unfold limited_Read. destruct limit as [n|]; [|by apply Hc]. destruct (Z.leb_spec n 0).
  - split; [|by intros ? [= <-]]. split; [done|]. split; [done|]. split_and!; [done|done|]. left. by exists n.
  - apply Hc; [split_if; [done|unfold bodyCopyBufferSize; lia]|]. intros ? [= <-]. split_if; breflect; lia.
Qed.

(** A write to an open stream is one frame; a cancelled stream takes nothing. *)
Lemma emit_open u data : o_room (u_out u) = None -> len data < 2 ^ 62 ->
  exists u', emit false u data = Some (u', len data, true) /\ u_src u' = u_src u /\ u_cancels u' = u_cancels u
    /\ u_out u' = {| o_written := o_written (u_out u) ++ data_frames (one_frame data); o_room := None |}.
Proof.
  intros Hr Hl. pose proof (len_nonneg data). unfold emit. destruct (Z.eqb_spec (len data) 0) as [E|E].
  { rewrite E. exists u. rewrite (len_empty data) by lia. cbn. rewrite app_nil_r. by destruct u as [? ? [? ?] ?]; cbn in Hr; subst. }
  unfold Stream_Write. rewrite data_Append_venc by lia. cbn [mbind option_bind]. rewrite !writeUnframed_open by done. eexists. split; [reflexivity|].
  split_and!; try done. destruct data; [done|]. cbn [set_out u_out o_written one_frame data_frames flat_map]. by rewrite !app_nil_r, <- !app_assoc.
Qed.
Lemma emit_cancelled u data : o_room (u_out u) = Some 0 -> len data < 2 ^ 62 ->
  exists u' n ok, emit false u data = Some (u', n, ok) /\ u_src u' = u_src u /\ u_cancels u' = u_cancels u /\ o_written (u_out u') = o_written (u_out u).
Proof.
  intros Hr Hl. pose proof (len_nonneg data). unfold emit. destruct (len data =? 0); [by eexists _, _, _|]. unfold Stream_Write. rewrite data_Append_venc by lia.
  cbn [mbind option_bind]. unfold writeUnframed at 1. rewrite Hr. rewrite (proj2 (Z.leb_gt _ _)) by (rewrite len_app; change (len (venc 0)) with 1; pose proof (len_nonneg (venc (len data))); lia).
  cbn. eexists _, _, _. split; [reflexivity|]. split_and!; try done. cbn. by rewrite app_nil_r.
Qed.

(** What a copy to the stream did: all it read is there, in frames, and it read up to
the limit or the end; or the source failed, and writing is cancelled. *)
Definition copied (limit : option Z) (u u' : upload) (n : Z) (err : option upload_error) (ps : list (list Z)) : Prop :=
  o_written (u_out u') = o_written (u_out u) ++ data_frames ps /\ (forall l, limit = Some l -> len (List.concat ps) <= l)
  /\ match err with
     | None => rd_avail (u_src u) = List.concat ps ++ rd_avail (u_src u') /\ rd_end (u_src u') = rd_end (u_src u) /\ n = len (List.concat ps)
               /\ o_room (u_out u') = None /\ u_cancels u' = u_cancels u
               /\ (limit = Some n \/ rd_end (u_src u) = EOF /\ rd_avail (u_src u') = [])
     | Some _ => List.concat ps `prefix_of` rd_avail (u_src u) /\ rd_end (u_src u) <> EOF /\ u_cancels u' = u_cancels u ++ [ErrCodeRequestCanceled]
     end.

Lemma CopyBuffer_stream fuel limit u : is_bytes (rd_avail (u_src u)) -> len (rd_avail (u_src u)) < 2 ^ 62 -> o_room (u_out u) = None ->
  (forall l, limit = Some l -> 0 <= l) -> (List.length (rd_avail (u_src u)) < fuel)%nat ->
  exists u' n err ps, CopyBuffer fuel false limit u = Some (u', n, err) /\ copied limit u u' n err ps.
Proof.
  revert limit u. induction fuel as [|fuel IH]; intros limit u Hb Hl Hr Hlim Hf; [lia|]. cbn [CopyBuffer].
  pose proof (limited_piece limit u Hb) as Hp. destruct (limited_Read limit u bodyCopyBufferSize) as [[u1 data] err]. destruct Hp as [(P1 & P2 & P3) Hd].
  rewrite P1, len_app in Hl. pose proof (len_nonneg data). pose proof (len_nonneg (rd_avail (u_src u1))). rewrite P1 in Hb. apply Forall_app in Hb as [_ Hb].
  assert (forall l, limit = Some l -> len data <= l) as Hd' by (intros l E; apply Hd; auto).
  destruct err as [[| |c]|].
  - destruct P3 as (O1 & O2 & O3). destruct (emit_open u1 data) as (u2 & -> & E1 & E2 & E3); [congruence|lia|]. cbn [mbind option_bind negb].
    exists u2, (len data), None, (one_frame data). split; [done|]. unfold copied. rewrite <- O1, one_frame_concat, E1, E2, E3, P1. split_and!; try done; try congruence.
    destruct O3 as [(n & -> & Hn & ->)|[? ?]]; [|right; split; congruence]. left. specialize (Hlim n eq_refl). f_equal. change (len (@nil Z)) with 0. lia.
  - destruct P3 as (O1 & O2 & O3 & O4). destruct (emit_cancelled u1 data) as (u2 & n & ok & -> & E1 & E2 & E3); [by rewrite O3|lia|]. cbn [mbind option_bind].
    exists u2, n, (if ok then Some (SourceFailed ErrUnexpectedEOF) else Some WriteFailed), []. split; [by destruct ok|]. unfold copied. rewrite E2, E3, O3, O4, O1. cbn. rewrite app_nil_r. destruct ok; split_and!; try done; try apply prefix_nil; intros l E; specialize (Hlim l E); lia.
  - destruct P3 as (O1 & O2 & O3 & O4). destruct (emit_cancelled u1 data) as (u2 & n & ok & -> & E1 & E2 & E3); [by rewrite O3|lia|]. cbn [mbind option_bind].
    exists u2, n, (if ok then Some (SourceFailed (ErrIO c)) else Some WriteFailed), []. split; [by destruct ok|]. unfold copied. rewrite E2, E3, O3, O4, O1. cbn. rewrite app_nil_r. destruct ok; split_and!; try done; try apply prefix_nil; intros l E; specialize (Hlim l E); lia.
  - destruct P3 as (O1 & O2 & O3). destruct (emit_open u1 data) as (u2 & -> & E1 & E2 & E3); [congruence|lia|]. cbn [mbind option_bind negb].
    destruct (IH (option_map (fun l => l - len data) limit) u2) as (u' & n & err & ps & -> & C1 & C2 & C3); try (rewrite ?E1, ?E3; done || lia).
    { intros l. destruct limit as [l'|]; [|done]. intros [= <-]. specialize (Hd' l' eq_refl). lia. }
    { rewrite E1. apply (f_equal List.length) in P1. rewrite length_app in P1. destruct data; [done|]. cbn in P1. lia. }
    cbn [mbind option_bind]. exists u', (len data + n), err, (one_frame data ++ ps). split; [done|].
    unfold copied. rewrite concat_app, one_frame_concat, len_app, C1, E3, O1. cbn [o_written]. unfold data_frames. rewrite flat_map_app, <- app_assoc.
    split_and!; [done|intros l ->; specialize (C2 _ eq_refl); lia|]. rewrite E1, E2 in C3. destruct err as [e|].
    + destruct C3 as (K1 & K2 & K3). rewrite P1. split_and!; [by apply prefix_app|congruence|congruence].
    + destruct C3 as (K1 & K2 & -> & K4 & K5 & K6). rewrite P1, K1, <- app_assoc. split_and!; try done; try congruence.
      rewrite <- P2. destruct K6 as [K6|K6]; [left|by right]. destruct limit as [l|]; [|done]. injection K6 as K6. f_equal. lia.
Qed.

(** What a copy to nowhere did. *)
Lemma CopyBuffer_discard fuel u : is_bytes (rd_avail (u_src u)) -> (List.length (rd_avail (u_src u)) < fuel)%nat ->
  exists u' err, CopyBuffer fuel true None u = Some (u', len (rd_avail (u_src u)), err) /\ o_written (u_out u') = o_written (u_out u)
    /\ match err with
       | None => rd_end (u_src u) = EOF /\ u_cancels u' = u_cancels u
       | Some _ => rd_end (u_src u) <> EOF /\ u_cancels u' = u_cancels u ++ [ErrCodeRequestCanceled]
       end.
Proof.
  revert u. induction fuel as [|fuel IH]; intros u Hb Hf; [lia|]. cbn [CopyBuffer].
  pose proof (limited_piece None u Hb) as Hp. destruct (limited_Read None u bodyCopyBufferSize) as [[u1 data] err]. destruct Hp as [(P1 & P2 & P3) _].
  rewrite P1 in Hb |- *. apply Forall_app in Hb as [_ Hb].
  assert (emit true u1 data = Some (u1, len data, true)) as -> by (unfold emit; destruct (Z.eqb_spec (len data) 0) as [->|]; done). cbn [mbind option_bind negb]. rewrite len_app.
  destruct err as [e|].
  - assert (rd_avail (u_src u1) = []) as ->.
    { destruct e; [|tauto|tauto]. by destruct P3 as (_ & _ & [(n & ? & _)|[_ ?]]). }
    change (len (@nil Z)) with 0. rewrite Z.add_0_r. destruct e as [| |c].
    + destruct P3 as (O1 & O2 & [(n & ? & _)|[O3 _]]); [done|]. exists u1, None. rewrite O1, O2. by split_and!.
    + destruct P3 as (O1 & _ & O3 & O4). eexists u1, _. split; [done|]. rewrite O3, O4, O1. by split_and!.
    + destruct P3 as (O1 & _ & O3 & O4). eexists u1, _. split; [done|]. rewrite O3, O4, O1. by split_and!.
  - destruct P3 as (O1 & O2 & O3). cbn [option_map]. destruct (IH u1 Hb) as (u' & err & -> & K1 & K2).
    { apply (f_equal List.length) in P1. rewrite length_app in P1. destruct data; [done|]. cbn in P1. lia. }
    cbn [mbind option_bind]. exists u', err. split; [done|]. rewrite K1, O1. split; [done|]. by rewrite P2, O2 in K2.
Qed.

(** A body and its outcome: sent whole, or cut off and cancelled. *)
Definition body_complete (p : list Z) (e : io_error) (contentLength : Z) : bool :=
  bool_decide (e = EOF) && ((contentLength =? -1) || (len p <=? contentLength)).

Lemma sendRequestBody_ok contentLength u : is_bytes (rd_avail (u_src u)) -> len (rd_avail (u_src u)) < 2 ^ 62 -> o_room (u_out u) = None -> u_cancels u = [] ->
  contentLength = -1 \/ 0 <= contentLength ->
  exists u' err ps, sendRequestBody contentLength u = Some (u', err) /\ o_written (u_out u') = o_written (u_out u) ++ data_frames ps
    /\ List.concat ps `prefix_of` rd_avail (u_src u) /\ (0 <= contentLength -> len (List.concat ps) <= contentLength)
    /\ if body_complete (rd_avail (u_src u)) (rd_end (u_src u)) contentLength then err = None /\ u_cancels u' = [] /\ List.concat ps = rd_avail (u_src u)
       else err <> None /\ exists more, u_cancels u' = ErrCodeRequestCanceled :: more.
Proof.
  intros Hb Hl Hr Hc Hcl. unfold sendRequestBody, body_complete. destruct (Z.eqb_spec contentLength (-1)) as [->|Hne]; cbn [orb].
  { destruct (CopyBuffer_stream (copy_fuel u) None u Hb Hl Hr) as (u' & n & err & ps & -> & C1 & _ & C3); [done|unfold copy_fuel; lia|]. cbn [mbind option_bind].
    exists u', err, ps. split; [done|]. split; [done|]. rewrite Hc in C3. destruct err as [e|].
    - destruct C3 as (K1 & K2 & K3). split; [done|]. split; [lia|]. rewrite bool_decide_false by done. split; [done|]. by eexists.
    - destruct C3 as (K1 & _ & _ & _ & K5 & [K6|[K6 K7]]); [done|]. rewrite K7, app_nil_r in K1. rewrite K1. split; [done|]. split; [lia|]. by rewrite bool_decide_true. }
  destruct Hcl as [|Hcl]; [done|].
  destruct (CopyBuffer_stream (copy_fuel u) (Some contentLength) u Hb Hl Hr) as (u1 & n & err & ps & -> & C1 & C2 & C3); [by intros ? [= <-]|unfold copy_fuel; lia|]. cbn [mbind option_bind].
  specialize (C2 _ eq_refl). rewrite Hc in C3. destruct err as [e|].
  { destruct C3 as (K1 & K2 & K3). exists u1, (Some e), ps. split_and!; try done. rewrite bool_decide_false by done. split; [done|]. by eexists. }
  destruct C3 as (K1 & K2 & -> & K4 & K5 & K6). rewrite K1 in Hb. apply Forall_app in Hb as [_ Hb].
  destruct (CopyBuffer_discard (copy_fuel u1) u1 Hb) as (u2 & err & -> & D1 & D2); [unfold copy_fuel; lia|]. cbn [mbind option_bind]. rewrite K1, len_app. rewrite K5, K2 in D2.
  destruct (_ >? contentLength) eqn:Eg; breflect.
  - eexists _, _, ps. split; [done|]. cbn. rewrite D1. split_and!; try done; [by eexists|]. rewrite (proj2 (Z.leb_gt _ _)) by lia. rewrite andb_false_r. split; [done|].
    destruct err; destruct D2 as [_ ->]; by eexists.
  - exists u2, err, ps. rewrite D1. split_and!; try done; [by eexists|]. rewrite (proj2 (Z.leb_le _ _)) by lia. rewrite andb_true_r. destruct err.
    + rewrite bool_decide_false by tauto. split; [done|]. destruct D2 as [_ ->]. by eexists.
    + destruct D2 as [D2 ->]. rewrite bool_decide_true by done. split_and!; try done. pose proof (len_nonneg (rd_avail (u_src u1))).
      rewrite (len_empty (rd_avail (u_src u1))), app_nil_r; [done|]. destruct K6 as [[= K6]|[_ ->]]; [lia|done].
Qed.

(** The body of a request.  Whatever the source of the body does and however its
bytes come, the client sends a prefix of it in DATA frames, never more than the
Content-Length it announced.  The stream is closed exactly if the source ended by
itself within that length, and then the server that reads the body gets just those
bytes, and the end, if their number is the one announced or none was; otherwise the
stream is reset with H3_REQUEST_CANCELLED, so no server takes a part for the whole. *)
Theorem upload_arrives ContentLength u : is_bytes (rd_avail (u_src u)) -> len (rd_avail (u_src u)) < 2 ^ 62 -> o_room (u_out u) = None -> u_cancels u = [] ->
  let p := rd_avail (u_src u) in
  exists u' fate ps, send_request_body ContentLength ∅ u = Some (u', fate) /\ o_written (u_out u') = o_written (u_out u) ++ data_frames ps
    /\ List.concat ps `prefix_of` p /\ (0 < ContentLength -> len (List.concat ps) <= ContentLength)
    /\ fate = (if bool_decide (rd_end (u_src u) = EOF) && ((ContentLength <=? 0) || (len p <=? ContentLength)) then Closed else Reset ErrCodeRequestCanceled)
    /\ (fate = Closed -> forall announced max reads, announced < 0 \/ announced = len p -> Forall (fun rd => 0 < fst rd) reads ->
        exists b data err, read_many max (newBody (newStream (mkReader (data_frames ps) EOF)) announced) reads = Some (b, data, err)
          /\ data `prefix_of` p /\ (forall e, err = Some e -> clean_end e /\ data = p) /\ (List.length (data_frames ps) < List.length reads -> err <> None)%nat).
Proof.
  intros Hb Hl Hr Hc p. unfold send_request_body. set (cl := if ContentLength >? 0 then ContentLength else -1).
  destruct (sendRequestBody_ok cl u Hb Hl Hr Hc) as (u' & err & ps & -> & S1 & S2 & S3 & S4); [unfold cl; split_if; breflect; lia|]. fold p in S2, S4. cbn [mbind option_bind].
  assert (body_complete p (rd_end (u_src u)) cl = bool_decide (rd_end (u_src u) = EOF) && ((ContentLength <=? 0) || (len p <=? ContentLength))) as <-.
  { unfold body_complete, cl. f_equal. pose proof (len_nonneg p). destruct (Z.gtb_spec ContentLength 0); [|by rewrite (proj2 (Z.leb_le ContentLength 0)) by lia].
    by rewrite (proj2 (Z.eqb_neq ContentLength (-1))), (proj2 (Z.leb_gt ContentLength 0)) by lia. }
  assert (0 < ContentLength -> len (List.concat ps) <= ContentLength) as S3'.
  { intros Hpos. unfold cl in S3. rewrite (proj2 (Z.gtb_lt _ _)) in S3 by lia. apply S3. lia. }
  destruct (body_complete p _ cl).
  - destruct S4 as (-> & Hcan & Hps). rewrite bool_decide_true by done. cbn [mbind option_bind]. rewrite Hcan. eexists _, _, ps. do 5 (split; [done|]).
    intros _ announced max reads Ha Hreads. rewrite <- Hps. apply frames_arrive; rewrite ?Hps; done.
  - destruct S4 as (Hne & more & Hcan). destruct err as [e|]; [|done]. cbn [mbind option_bind]. rewrite Hcan. eexists _, _, ps. do 5 (split; [done|]). done.
Qed.

End Upload.

(** ** Samples *)

#[local] Existing Instance sample_qpack.
#[local] Existing Instance sample_guts.
#[local] Existing Instance sample_response_env.

Definition sample_upload : upload :=
  {| u_src := mkReader [1; 2; 3] EOF; u_reads := 0; u_out := {| o_written := [9]; o_room := None |}; u_cancels := [] |}.
Definition two_at_once : nat -> arrival := fun _ => {| av_chunk := 2; av_eager := false |}.

(** One byte too many: two bytes go out, and the stream is reset. *)
Lemma upload_arrives_witness :
  exists u' ps, send_request_body two_at_once 2 ∅ sample_upload = Some (u', Reset ErrCodeRequestCanceled)
    /\ o_written (u_out u') = [9] ++ data_frames ps /\ len (List.concat ps) <= 2.
Proof.
  destruct (upload_arrives two_at_once 2 sample_upload) as (u' & fate & ps & E1 & E2 & _ & E3 & E4 & _).
  - repeat constructor; discriminate.
  - vm_compute. reflexivity.
  - reflexivity.
  - reflexivity.
  - exists u', ps. split; [rewrite E1, E4; reflexivity|]. split; [exact E2|]. apply E3. lia.
Defined.
Example upload_whole : match send_request_body two_at_once 3 ∅ sample_upload with
  | Some (u, Closed) => o_written (u_out u) = [9; 0; 2; 1; 2; 0; 1; 3]
  | _ => False
  end.
Proof. reflexivity. Qed.
