(* ===== verification/GoAway.v ===== *)
(** * The accept loop of a connection and its GOAWAY

[handleConn] of [third_party/quic-go/http3/server.go], which accepts the request
streams of one connection until it is closed, and the other end of a graceful
shutdown in [client.go]: [openRequestStream] and [onStreamsEmpty].  [goaway_exact] is
the contract of RFC 9114, section 5.2: what was accepted before the GOAWAY is handled,
nothing at or above its identifier ever is, and the client reads just that identifier. *)

From stdpp Require Import base list numbers.
From Stdlib Require Import ZArith Lia String.
From S2P Require Import Prelude.
From S2P Require Import GoStrings.
From S2P Require Import Quicvarint.
From S2P Require Import ControlStream.

Local Open Scope Z_scope.

(** ** The loop *)

(** What [AcceptStream] returned; with an error, whether the connection is over,
whether that was with H3_NO_ERROR, and which contexts of the server are done. *)
Inductive accept_result :=
| StreamAccepted (id : Z)
| AcceptFailed (conn_over no_error grace close : bool).

Inductive stream_action :=
| HandleRequestStream (id : Z)
| RejectStream (id : Z)              (** both directions are reset with [ErrCodeRequestRejected] *)
| SendGoAway (id : Z)
| CloseNoError.
Definition ErrCodeRequestRejected : Z := 0x10b.

Inductive handle_error := AcceptingFailed | ErrServerClosed.
Record accept_state := { nextStreamID : Z; inGracefulShutdown : bool }.

(** The loop of [handleConn]; the result is there once it has been left.  The
goroutine that writes the GOAWAY reads [nextStreamID], which does not change any more. *)
Fixpoint handleConn (st : accept_state) (events : list accept_result) : list stream_action * option (option handle_error) :=
  match events with
  | [] => ([], None)
  | StreamAccepted id :: events =>
    if inGracefulShutdown st then let '(acts, r) := handleConn st events in (RejectStream id :: acts, r)
    else let '(acts, r) := handleConn {| nextStreamID := id + 4; inGracefulShutdown := false |} events in (HandleRequestStream id :: acts, r)
  | AcceptFailed conn_over no_error grace close :: events =>
    let failed := if (no_error : bool) then None else Some AcceptingFailed in
    if conn_over then ([], Some failed)
    else if close then ([CloseNoError], Some (Some ErrServerClosed))
    else if negb grace then ([], Some failed)
    else let '(acts, r) := handleConn {| nextStreamID := nextStreamID st; inGracefulShutdown := true |} events in (SendGoAway (nextStreamID st) :: acts, r)
  end.
Definition handleConn_start : accept_state := {| nextStreamID := 0; inGracefulShutdown := false |}.

(** ** The client *)

Inductive request_open_error := ErrGoAway | OpenFailed.
(** [openRequestStream]: what [goAwayCtx] says before and after [OpenStreamSync], and
what that returned (an error, and whether it was caused by the GOAWAY).  The second
component is a stream that was opened and reset with [ErrCodeRequestCanceled]. *)
Definition openRequestStream (before after : bool) (sync : result bool Z) : result request_open_error Z * option Z :=
  if before then (Err ErrGoAway, None)
  else match sync with
  | Err caused => (Err (if (caused : bool) then ErrGoAway else OpenFailed), None)
  | Ok id => if after then (Err ErrGoAway, Some id) else (Ok id, None)
  end.

(** [onStreamsEmpty], called when the last request is done. *)
Definition onStreamsEmpty (c : h3_conn) : h3_conn :=
  match maxStreamID c with
  | Some _ => CloseWithError c ErrCodeNoError
  | None => c
  end.

(** ** What is accepted *)

(** [AcceptStream] gives the peer's bidirectional streams in order, and fails if its
context is done or the connection is over; [closeCtx] is the parent of [graceCtx]. *)
Fixpoint lawful (lo : Z) (graceful : bool) (events : list accept_result) : Prop :=
  match events with
  | [] => True
  | StreamAccepted id :: events => id = lo /\ lawful (lo + 4) graceful events
  | AcceptFailed conn_over _ grace close :: events =>
    (close = true -> grace = true) /\ conn_over || (if graceful then close else grace) = true
    /\ (conn_over || close = false -> lawful lo true events)
  end.

Fixpoint accepted (events : list accept_result) : list Z :=
  match events with
  | [] => []
  | StreamAccepted id :: events => id :: accepted events
  | AcceptFailed conn_over _ grace close :: events => if conn_over || close || negb grace then [] else accepted events
  end.
Definition handled (acts : list stream_action) : list Z := flat_map (fun a => match a with HandleRequestStream id => [id] | _ => [] end) acts.
Definition rejected (acts : list stream_action) : list Z := flat_map (fun a => match a with RejectStream id => [id] | _ => [] end) acts.
Definition goaways (acts : list stream_action) : list Z := flat_map (fun a => match a with SendGoAway id => [id] | _ => [] end) acts.

(** After the GOAWAY every stream is rejected, and no other GOAWAY is sent. *)
Lemma handleConn_graceful n lo events : lawful lo true events ->
  let acts := fst (handleConn {| nextStreamID := n; inGracefulShutdown := true |} events) in
  handled acts = [] /\ rejected acts = accepted events /\ goaways acts = [] /\ Forall (fun id => lo <= id) (accepted events).
Proof.
  revert lo. induction events as [|[id|over ne g c] events IH]; intros lo Hl; cbn in Hl |- *; [done| |].
  - destruct Hl as [-> Hl]. specialize (IH _ Hl). destruct (handleConn _ events) as [acts r]. cbn in *. destruct IH as (-> & -> & -> & Hf).
    split_and!; try done. constructor; [lia|]. eapply Forall_impl; [|exact Hf]. cbn. intros; lia.
  - destruct Hl as (_ & Hl & _). destruct over; [done|]. cbn in Hl. subst c. done.
Qed.

Lemma handleConn_accepts lo events : 0 <= lo -> lo mod 4 = 0 -> lawful lo false events ->
  let acts := fst (handleConn {| nextStreamID := lo; inGracefulShutdown := false |} events) in
  handled acts ++ rejected acts = accepted events /\ Forall (fun id => lo <= id) (accepted events)
  /\ ((goaways acts = [] /\ rejected acts = [])
      \/ exists g, goaways acts = [g] /\ 0 <= g /\ g mod 4 = 0 /\ g = lo + 4 * len (handled acts) /\ Forall (fun id => id < g) (handled acts) /\ Forall (fun id => g <= id) (rejected acts)).
Proof.
  revert lo. induction events as [|[id|over ne g c] events IH]; intros lo Hlo Hm Hl; cbn in Hl |- *; [split_and!; try done; by left| |].
  - destruct Hl as [-> Hl]. specialize (IH (lo + 4) ltac:(lia) ltac:(dlia) Hl). destruct (handleConn _ events) as [acts r]. cbn in *. destruct IH as (I1 & I2 & I3).
    rewrite I1. split_and!; [done|constructor; [lia|]; eapply Forall_impl; [|exact I2]; cbn; intros; lia|].
    destruct I3 as [I3|(g & G1 & G2 & G3 & G4 & G5 & G6)]; [by left|]. right. exists g. pose proof (len_nonneg (handled acts)). split_and!; try done.
    + unfold len in *. cbn [List.length]. lia.
    + constructor; [unfold len in *; cbn; lia|done].
  - destruct Hl as (Hcg & Hl & Hn). destruct over; [split_and!; try done; by left|]. destruct c; [split_and!; try done; by left|]. cbn in Hl. subst g. cbn [negb orb] in *.
    destruct (handleConn_graceful lo lo events (Hn eq_refl)) as (G1 & G2 & G3 & G4). destruct (handleConn _ events) as [acts r]. cbn in *. rewrite G1, G2, G3.
    split_and!; try done. right. exists lo. by split_and!; try (change (len (@nil Z)) with 0; lia).
Qed.

(** ** The frame on the wire *)

Lemma goaway_bytes g : is_varint g -> goaway_Append g [] = Some (venc 7 ++ venc (vlen g) ++ venc g).
Proof.
  intros Hg. unfold goaway_Append. rewrite Append_venc by (split; discriminate). cbn [mbind option_bind]. rewrite Len_vlen by done. cbn [mbind option_bind].
  pose proof (vlen_range g Hg). rewrite !Append_venc by (done || (unfold is_varint, maxVarInt8; lia)). cbn [mbind option_bind]. rewrite Append_venc by done. by rewrite <- !app_assoc.
Qed.
Lemma goaway_parsed g rest e : is_varint g -> is_bytes rest ->
  ParseNext (mkReader (venc 7 ++ venc (vlen g) ++ venc g ++ rest) e) = Some (Ok (goAwayFrame g), mkReader rest e).
Proof.
  intros Hg Hr. pose proof (vlen_range g Hg). assert (is_bytes (venc g ++ rest)) as Hb by (apply Forall_app_2; [apply venc_bytes|done]).
  unfold ParseNext. cbn [parse_next]. unfold read_varint at 1. rewrite Read_venc; [|split; discriminate|apply Forall_app_2; [apply venc_bytes|done]].
  unfold read_varint at 1. rewrite Read_venc by (done || (unfold is_varint, maxVarInt8; lia)). cbn [Z.eqb Pos.eqb]. unfold parseGoAwayFrame, read_varint. rewrite Read_venc by done.
  cbn [rd_avail]. rewrite len_app. unfold vlen. rewrite (proj2 (Z.eqb_eq _ _)) by lia. done.
Qed.

(** The contract of a graceful shutdown.  Let a connection accept the client's request
streams in order.  Every stream that was accepted is handled, or rejected after the
GOAWAY, once; a GOAWAY is sent at most once, and its identifier is four times the number
of requests that are handled: all of those are below it, and all that are rejected are
not.  The bytes of the frame make a client that has requests in flight store that
identifier and go on; then it opens no further stream, and it closes the connection
without an error when its last request is done. *)
Theorem goaway_exact events : lawful 0 false events -> len (accepted events) < 2 ^ 60 ->
  let acts := fst (handleConn handleConn_start events) in
  handled acts ++ rejected acts = accepted events
  /\ (goaways acts = [] -> rejected acts = [])
  /\ forall g, g ∈ goaways acts -> goaways acts = [g] /\ g = 4 * len (handled acts)
     /\ Forall (fun id => id < g) (handled acts) /\ Forall (fun id => g <= id) (rejected acts)
     /\ exists b, goaway_Append g [] = Some b
        /\ forall fuel active c rest e, maxStreamID c = None -> is_bytes rest -> active (List.length rest) = true ->
           client_control (S fuel) active c (mkReader (b ++ rest) e) = client_control fuel active (set_maxStreamID c g) (mkReader rest e)
           /\ closes (onStreamsEmpty (set_maxStreamID c g)) = closes c ++ [ErrCodeNoError]
           /\ forall after sync, openRequestStream true after sync = (Err ErrGoAway, None).
Proof.
  intros Hl Hn acts. destruct (handleConn_accepts 0 events ltac:(lia) eq_refl Hl) as (A1 & _ & A3). fold handleConn_start in A1, A3. fold acts in A1, A3. split; [done|].
  destruct A3 as [[-> ->]|(g & -> & G2 & G3 & G4 & G5 & G6)]; [split; [done|]; intros g Hg; by apply elem_of_nil in Hg|]. split; [done|]. intros g' Hg'.
  apply list_elem_of_singleton in Hg' as ->. assert (is_varint g) as Hv.
  { rewrite <- A1, len_app in Hn. pose proof (len_nonneg (rejected acts)). unfold is_varint, maxVarInt8. lia. }
  split_and!; try done; try lia. exists (venc 7 ++ venc (vlen g) ++ venc g). split; [by apply goaway_bytes|]. intros fuel active c rest e Hm Hr Ha. split; [|done].
  cbn [client_control]. rewrite <- !app_assoc, goaway_parsed by done. cbn [mbind option_bind]. rewrite (proj2 (Z.eqb_eq _ _)) by done. rewrite Hm. cbn [negb rd_avail]. by rewrite Ha.
Qed.

(** ** A sample *)

Definition sample_events : list accept_result :=
  [StreamAccepted 0; StreamAccepted 4; AcceptFailed false false true false; StreamAccepted 8; AcceptFailed false false true true].
Lemma goaway_exact_witness :
  let acts := fst (handleConn handleConn_start sample_events) in
  acts = [HandleRequestStream 0; HandleRequestStream 4; SendGoAway 8; RejectStream 8; CloseNoError] /\ handled acts ++ rejected acts = [0; 4; 8].
Proof.
  destruct (goaway_exact sample_events) as (E1 & _).
  - cbn. repeat split; auto; discriminate.
  - vm_compute. reflexivity.
  - split; [reflexivity|exact E1].
Defined.
